(** * TSTyche: run execution and result aggregation

    A shallow embedding of the runner core of [build/tstyche.js]:
    [ResultCount], the result objects, [ResultHandler.handleEvent],
    [CancellationToken], [CancellationHandler], [TestMember.validate],
    [TestTree.hasOnly], [TestTreeWorker], [TaskRunner], [Runner] and
    [WatchService] with its [Debounce].

    Conventions.
    - [EventEmitter.dispatch] is synchronous; a run is modelled by explicit
      state passing over a [World] holding the sequence of dispatched events,
      the private fields of the registered handlers and the result objects.
    - A JavaScript [TypeError] (a property read on [undefined]) is the [None]
      of [option].
    - Result objects are shared between the dispatcher and the handlers;
      they live in a [Store] and are referred to by their index there.
    - [ResultTiming] ([Date.now()]) and the [results] child arrays are left
      out: nothing in the control flow reads them. *)

From Stdlib Require Import ZArith String Ascii List Lia Bool.
From stdpp Require Import base option list strings.
Import ListNotations.
Local Open Scope Z_scope.
Local Open Scope list_scope.

(** ** Diagnostics *)

Inductive DiagnosticCategory := Error | Warning.

Record Diagnostic := mkDiagnostic {
  text : list string;
  category : DiagnosticCategory;
}.

Definition isError (d : Diagnostic) : bool :=
  match category d with Error => true | Warning => false end.

(** [Diagnostic.error(text, origin)] and [Diagnostic.warning(text, origin)];
    the origin only matters to the reporters. *)
Definition Diagnostic_error (t : list string) : Diagnostic := mkDiagnostic t Error.
Definition Diagnostic_warning (t : list string) : Diagnostic := mkDiagnostic t Warning.

(** A diagnostic of the compiler, reduced to its flattened message text. *)
Definition TsDiagnostic := string.

(** [Diagnostic.fromDiagnostics]: every compiler diagnostic becomes an
    ["error"]. *)
Definition fromDiagnostics (ds : list TsDiagnostic) : list Diagnostic :=
  map (fun messageText => mkDiagnostic [messageText] Error) ds.

(** ** JavaScript [Map]: an association list in insertion order *)

Module JsMap.
Section JsMap.
Context {K V : Type} `{EqDecision K}.
Definition t := list (K * V).
Fixpoint get (key : K) (m : list (K * V)) : option V :=
  match m with
  | [] => None
  | (k, v) :: m' => if decide (k = key) then Some v else get key m'
  end.
(** [set] keeps the place of a key that is already there. *)
Fixpoint set (key : K) (v : V) (m : list (K * V)) : list (K * V) :=
  match m with
  | [] => [(key, v)]
  | (k, v') :: m' => if decide (k = key) then (k, v) :: m' else (k, v') :: set key v m'
  end.
Fixpoint delete (key : K) (m : list (K * V)) : list (K * V) :=
  match m with
  | [] => []
  | (k, v) :: m' => if decide (k = key) then m' else (k, v) :: delete key m'
  end.
Definition values (m : list (K * V)) : list V := map snd m.
Definition size (m : list (K * V)) : nat := length m.
End JsMap.
End JsMap.

(** ** Result objects *)

Module ResultCount.
Record t := mk { failed : nat; passed : nat; skipped : nat; todo : nat }.
Definition new : t := mk 0 0 0 0.
(** [get total()] *)
Definition total (c : t) : nat := (failed c + passed c + skipped c + todo c)%nat.
Definition incr_failed (c : t) : t := mk (S (failed c)) (passed c) (skipped c) (todo c).
Definition incr_passed (c : t) : t := mk (failed c) (S (passed c)) (skipped c) (todo c).
Definition incr_skipped (c : t) : t := mk (failed c) (passed c) (S (skipped c)) (todo c).
Definition incr_todo (c : t) : t := mk (failed c) (passed c) (skipped c) (S (todo c)).
(** The sum of two records, bucket by bucket. *)
Definition add (a b : t) : t :=
  mk (failed a + failed b) (passed a + passed b) (skipped a + skipped b) (todo a + todo b).
End ResultCount.

Inductive ResultStatus := Runs | Passed | Failed | Skipped | Todo.

Definition is_failed (s : ResultStatus) : bool :=
  match s with Failed => true | _ => false end.

Module Result.
Record t := mk {
  expectCount : ResultCount.t;
  fileCount : ResultCount.t;
  targetCount : ResultCount.t;
  testCount : ResultCount.t;
}.
Definition new : t := mk ResultCount.new ResultCount.new ResultCount.new ResultCount.new.
Definition on_expectCount f (r : t) := mk (f (expectCount r)) (fileCount r) (targetCount r) (testCount r).
Definition on_fileCount f (r : t) := mk (expectCount r) (f (fileCount r)) (targetCount r) (testCount r).
Definition on_targetCount f (r : t) := mk (expectCount r) (fileCount r) (f (targetCount r)) (testCount r).
Definition on_testCount f (r : t) := mk (expectCount r) (fileCount r) (targetCount r) (f (testCount r)).
End Result.

Module ProjectResult.
Record t := mk {
  compilerVersion : string;
  projectConfigFilePath : option string;
  diagnostics : list Diagnostic;
}.
Definition push_diagnostics ds (p : t) :=
  mk (compilerVersion p) (projectConfigFilePath p) (diagnostics p ++ ds).
End ProjectResult.

Module TargetResult.
(** [results] is the [Map] from the path of a project's configuration
    file to its [ProjectResult], in insertion order. *)
Record t := mk {
  results : list (option string * ProjectResult.t);
  status : ResultStatus;
  versionTag : string;
}.
Definition new (v : string) : t := mk [] Runs v.
Definition set_status s (r : t) := mk (results r) s (versionTag r).
Definition set_results rs (r : t) := mk rs (status r) (versionTag r).
End TargetResult.

Module TaskResult.
Record t := mk {
  diagnostics : list Diagnostic;
  expectCount : ResultCount.t;
  status : ResultStatus;
  filePath : string;
  testCount : ResultCount.t;
}.
Definition new (path : string) : t := mk [] ResultCount.new Runs path ResultCount.new.
Definition push_diagnostics ds (r : t) :=
  mk (diagnostics r ++ ds) (expectCount r) (status r) (filePath r) (testCount r).
Definition on_expectCount f (r : t) :=
  mk (diagnostics r) (f (expectCount r)) (status r) (filePath r) (testCount r).
Definition set_status s (r : t) :=
  mk (diagnostics r) (expectCount r) s (filePath r) (testCount r).
Definition on_testCount f (r : t) :=
  mk (diagnostics r) (expectCount r) (status r) (filePath r) (f (testCount r)).
End TaskResult.

(** The [parentResult] handed down by the walker: a [DescribeResult], a
    [TestResult], or [undefined] ([None] of the option). *)
Inductive ParentRef := InDescribe (describeResult : nat) | InTest (testResult : nat).

Module DescribeResult.
Record t := mk { parent : option ParentRef }.
End DescribeResult.

Module TestResult.
Record t := mk {
  diagnostics : list Diagnostic;
  expectCount : ResultCount.t;
  parent : option ParentRef;
  status : ResultStatus;
}.
Definition new (p : option ParentRef) : t := mk [] ResultCount.new p Runs.
Definition push_diagnostics ds (r : t) :=
  mk (diagnostics r ++ ds) (expectCount r) (parent r) (status r).
Definition on_expectCount f (r : t) :=
  mk (diagnostics r) (f (expectCount r)) (parent r) (status r).
Definition set_status s (r : t) :=
  mk (diagnostics r) (expectCount r) (parent r) s.
End TestResult.

Module ExpectResult.
Record t := mk {
  diagnostics : list Diagnostic;
  parent : option ParentRef;
  status : ResultStatus;
}.
Definition new (p : option ParentRef) : t := mk [] p Runs.
Definition push_diagnostics ds (r : t) := mk (diagnostics r ++ ds) (parent r) (status r).
Definition set_status s (r : t) := mk (diagnostics r) (parent r) s.
End ExpectResult.

(** The result objects allocated so far, one table per class; an object is
    named by its index, and [new C(...)] appends to the table of [C]. *)
Module Store.
Record t := mk {
  runs : list Result.t;
  targets : list TargetResult.t;
  tasks : list TaskResult.t;
  describes : list DescribeResult.t;
  tests : list TestResult.t;
  expects : list ExpectResult.t;
}.
Definition empty : t := mk [] [] [] [] [] [].
Definition on_runs f (s : t) := mk (f (runs s)) (targets s) (tasks s) (describes s) (tests s) (expects s).
Definition on_targets f (s : t) := mk (runs s) (f (targets s)) (tasks s) (describes s) (tests s) (expects s).
Definition on_tasks f (s : t) := mk (runs s) (targets s) (f (tasks s)) (describes s) (tests s) (expects s).
Definition on_describes f (s : t) := mk (runs s) (targets s) (tasks s) (f (describes s)) (tests s) (expects s).
Definition on_tests f (s : t) := mk (runs s) (targets s) (tasks s) (describes s) (f (tests s)) (expects s).
Definition on_expects f (s : t) := mk (runs s) (targets s) (tasks s) (describes s) (tests s) (f (expects s)).
End Store.

(** ** Events: the pairs [[eventName, payload]] given to
    [EventEmitter.dispatch]; a [result] is the index of the result object of
    the payload. *)

Inductive Event :=
  | RunStart (result : nat)
  | RunEnd (result : nat)
  | TargetStart (result : nat)
  | TargetEnd (result : nat)
  | StoreAdds (packagePath packageVersion : string)
  | StoreError (diagnostics : list Diagnostic)
  | ProjectUses (compilerVersion : string) (projectConfigFilePath : option string)
  | ProjectError (diagnostics : list Diagnostic)
  | TaskStart (result : nat)
  | TaskError (diagnostics : list Diagnostic) (result : nat)
  | TaskEnd (result : nat)
  | DescribeStart (result : nat)
  | DescribeEnd (result : nat)
  | TestStart (result : nat)
  | TestError (diagnostics : list Diagnostic) (result : nat)
  | TestFail (result : nat)
  | TestPass (result : nat)
  | TestSkip (result : nat)
  | TestTodo (result : nat)
  | ExpectStart (result : nat)
  | ExpectError (diagnostics : list Diagnostic) (result : nat)
  | ExpectFail (diagnostics : list Diagnostic) (result : nat)
  | ExpectPass (result : nat)
  | ExpectSkip (result : nat)
  | DeprecationInfo (diagnostics : list Diagnostic)
  | WatchError (diagnostics : list Diagnostic).

(** ["diagnostics" in payload], and then [payload.diagnostics]. *)
Definition payload_diagnostics (ev : Event) : option (list Diagnostic) :=
  match ev with
  | StoreError ds | ProjectError ds | TaskError ds _ | TestError ds _
  | ExpectError ds _ | ExpectFail ds _ | DeprecationInfo ds | WatchError ds => Some ds
  | _ => None
  end.

(** ** ResultHandler *)

Module ResultHandler.
(** The private fields [#describeResult] ... [#testResult]; [None] is
    [undefined]. [#projectResult] names an entry of the [results] map of
    a target. *)
Record t := mk {
  describeResult : option ParentRef;
  expectResult : option nat;
  projectResult : option (nat * option string);
  result : option nat;
  targetResult : option nat;
  taskResult : option nat;
  testResult : option nat;
}.
Definition new : t := mk None None None None None None None.
Definition set_describeResult v (h : t) :=
  mk v (expectResult h) (projectResult h) (result h) (targetResult h) (taskResult h) (testResult h).
Definition set_expectResult v (h : t) :=
  mk (describeResult h) v (projectResult h) (result h) (targetResult h) (taskResult h) (testResult h).
Definition set_projectResult v (h : t) :=
  mk (describeResult h) (expectResult h) v (result h) (targetResult h) (taskResult h) (testResult h).
Definition set_result v (h : t) :=
  mk (describeResult h) (expectResult h) (projectResult h) v (targetResult h) (taskResult h) (testResult h).
Definition set_targetResult v (h : t) :=
  mk (describeResult h) (expectResult h) (projectResult h) (result h) v (taskResult h) (testResult h).
Definition set_taskResult v (h : t) :=
  mk (describeResult h) (expectResult h) (projectResult h) (result h) (targetResult h) v (testResult h).
Definition set_testResult v (h : t) :=
  mk (describeResult h) (expectResult h) (projectResult h) (result h) (targetResult h) (taskResult h) v.

(** [this.#describeResult.parent], for whichever object the field holds. *)
Definition parentOf (σ : Store.t) (p : ParentRef) : option (option ParentRef) :=
  match p with
  | InDescribe d => DescribeResult.parent <$> Store.describes σ !! d
  | InTest t => TestResult.parent <$> Store.tests σ !! t
  end.

(** The three counters bumped by every terminal [expect:*] event:
    [#result.expectCount], [#taskResult.expectCount] and, when
    [#testResult] is set, [#testResult.expectCount]. *)
Definition countExpect (bump : ResultCount.t -> ResultCount.t) (r k : nat)
    (t : option nat) (σ : Store.t) : Store.t :=
  let σ := Store.on_runs (alter (Result.on_expectCount bump) r) σ in
  let σ := Store.on_tasks (alter (TaskResult.on_expectCount bump) k) σ in
  match t with
  | Some t => Store.on_tests (alter (TestResult.on_expectCount bump) t) σ
  | None => σ
  end.

(** The two counters bumped by every terminal [test:*] event. *)
Definition countTest (bump : ResultCount.t -> ResultCount.t) (r k : nat)
    (σ : Store.t) : Store.t :=
  let σ := Store.on_runs (alter (Result.on_testCount bump) r) σ in
  Store.on_tasks (alter (TaskResult.on_testCount bump) k) σ.

Definition handleEvent (ev : Event) (h : t) (σ : Store.t) : option (t * Store.t) :=
  match ev with
  | RunStart r => Some (set_result (Some r) h, σ)
  | RunEnd _ =>
      _ ← result h;
      Some (set_result None h, σ)
  | TargetStart g =>
      _ ← result h;
      Some (set_targetResult (Some g) h, σ)
  | TargetEnd _ =>
      g ← targetResult h;
      tg ← Store.targets σ !! g;
      if is_failed (TargetResult.status tg) then
        r ← result h;
        Some (set_targetResult None h,
              Store.on_runs (alter (Result.on_targetCount ResultCount.incr_failed) r) σ)
      else
        r ← result h;
        Some (set_targetResult None h,
              Store.on_targets (alter (TargetResult.set_status Passed) g)
                (Store.on_runs (alter (Result.on_targetCount ResultCount.incr_passed) r) σ))
  | StoreError ds =>
      if existsb isError ds then
        g ← targetResult h;
        Some (h, Store.on_targets (alter (TargetResult.set_status Failed) g) σ)
      else Some (h, σ)
  | ProjectUses version path =>
      g ← targetResult h;
      tg ← Store.targets σ !! g;
      match JsMap.get path (TargetResult.results tg) with
      | Some _ => Some (set_projectResult (Some (g, path)) h, σ)
      | None =>
          let rs := JsMap.set path (ProjectResult.mk version path []) (TargetResult.results tg) in
          Some (set_projectResult (Some (g, path)) h,
                Store.on_targets (alter (TargetResult.set_results rs) g) σ)
      end
  | ProjectError ds =>
      g ← targetResult h;
      '(pg, path) ← projectResult h;
      let σ := Store.on_targets (alter (TargetResult.set_status Failed) g) σ in
      let push tg :=
        match JsMap.get path (TargetResult.results tg) with
        | Some p => TargetResult.set_results
                      (JsMap.set path (ProjectResult.push_diagnostics ds p) (TargetResult.results tg)) tg
        | None => tg
        end in
      Some (h, Store.on_targets (alter push pg) σ)
  | TaskStart k =>
      _ ← projectResult h;
      Some (set_taskResult (Some k) h, σ)
  | TaskError ds _ =>
      g ← targetResult h;
      k ← taskResult h;
      Some (h, Store.on_tasks (alter (TaskResult.push_diagnostics ds ∘ TaskResult.set_status Failed) k)
                 (Store.on_targets (alter (TargetResult.set_status Failed) g) σ))
  | TaskEnd _ =>
      k ← taskResult h;
      tk ← Store.tasks σ !! k;
      if is_failed (TaskResult.status tk)
         || (0 <? ResultCount.failed (TaskResult.expectCount tk))%nat
         || (0 <? ResultCount.failed (TaskResult.testCount tk))%nat
      then
        r ← result h;
        g ← targetResult h;
        Some (set_taskResult None h,
              Store.on_tasks (alter (TaskResult.set_status Failed) k)
                (Store.on_targets (alter (TargetResult.set_status Failed) g)
                   (Store.on_runs (alter (Result.on_fileCount ResultCount.incr_failed) r) σ)))
      else
        r ← result h;
        Some (set_taskResult None h,
              Store.on_tasks (alter (TaskResult.set_status Passed) k)
                (Store.on_runs (alter (Result.on_fileCount ResultCount.incr_passed) r) σ))
  | DescribeStart d =>
      _ ← match describeResult h with Some p => Some p | None => InTest <$> taskResult h end;
      Some (set_describeResult (Some (InDescribe d)) h, σ)
  | DescribeEnd _ =>
      p ← describeResult h;
      parent ← parentOf σ p;
      Some (set_describeResult parent h, σ)
  | TestStart t =>
      _ ← match describeResult h with Some p => Some p | None => InTest <$> taskResult h end;
      Some (set_testResult (Some t) h, σ)
  | TestError ds _ =>
      r ← result h; k ← taskResult h; t ← testResult h;
      Some (set_testResult None h,
            Store.on_tests (alter (TestResult.push_diagnostics ds ∘ TestResult.set_status Failed) t)
              (countTest ResultCount.incr_failed r k σ))
  | TestFail _ =>
      r ← result h; k ← taskResult h; t ← testResult h;
      Some (set_testResult None h,
            Store.on_tests (alter (TestResult.set_status Failed) t)
              (countTest ResultCount.incr_failed r k σ))
  | TestPass _ =>
      r ← result h; k ← taskResult h; t ← testResult h;
      Some (set_testResult None h,
            Store.on_tests (alter (TestResult.set_status Passed) t)
              (countTest ResultCount.incr_passed r k σ))
  | TestSkip _ =>
      r ← result h; k ← taskResult h; t ← testResult h;
      Some (set_testResult None h,
            Store.on_tests (alter (TestResult.set_status Skipped) t)
              (countTest ResultCount.incr_skipped r k σ))
  | TestTodo _ =>
      r ← result h; k ← taskResult h; t ← testResult h;
      Some (set_testResult None h,
            Store.on_tests (alter (TestResult.set_status Todo) t)
              (countTest ResultCount.incr_todo r k σ))
  | ExpectStart e =>
      _ ← match testResult h with Some t => Some t | None => taskResult h end;
      Some (set_expectResult (Some e) h, σ)
  | ExpectError ds _ =>
      r ← result h; k ← taskResult h; e ← expectResult h;
      Some (set_expectResult None h,
            Store.on_expects (alter (ExpectResult.push_diagnostics ds ∘ ExpectResult.set_status Failed) e)
              (countExpect ResultCount.incr_failed r k (testResult h) σ))
  | ExpectFail _ _ =>
      r ← result h; k ← taskResult h; e ← expectResult h;
      Some (set_expectResult None h,
            Store.on_expects (alter (ExpectResult.set_status Failed) e)
              (countExpect ResultCount.incr_failed r k (testResult h) σ))
  | ExpectPass _ =>
      r ← result h; k ← taskResult h; e ← expectResult h;
      Some (set_expectResult None h,
            Store.on_expects (alter (ExpectResult.set_status Passed) e)
              (countExpect ResultCount.incr_passed r k (testResult h) σ))
  | ExpectSkip _ =>
      r ← result h; k ← taskResult h; e ← expectResult h;
      Some (set_expectResult None h,
            Store.on_expects (alter (ExpectResult.set_status Skipped) e)
              (countExpect ResultCount.incr_skipped r k (testResult h) σ))
  | StoreAdds _ _ | DeprecationInfo _ | WatchError _ => Some (h, σ)
  end.
End ResultHandler.

(** ** CancellationToken and CancellationHandler *)

Inductive CancellationReason := ConfigChange | ConfigError | FailFast | WatchClose.

#[global] Instance CancellationReason_eq_dec : EqDecision CancellationReason.
Proof. solve_decision. Defined.

Module CancellationToken.
Record t := mk { isCancelled : bool; reason : option CancellationReason }.
Definition new : t := mk false None.
Definition isCancellationRequested (c : t) : bool := isCancelled c.
Definition cancel (r : CancellationReason) (c : t) : t :=
  if negb (isCancelled c) then mk true (Some r) else c.
Definition reset (c : t) : t :=
  if isCancelled c then mk false None else c.
End CancellationToken.

Module CancellationHandler.
(** [handleEvent([, payload])] of the handler built with
    [cancellationReason]; it acts on its [#cancellationToken]. *)
Definition handleEvent (cancellationReason : CancellationReason) (ev : Event)
    (token : CancellationToken.t) : CancellationToken.t :=
  match payload_diagnostics ev with
  | Some ds =>
      if existsb isError ds then CancellationToken.cancel cancellationReason token
      else token
  | None => token
  end.
End CancellationHandler.

(** ** The world of a run, and [EventEmitter.dispatch] *)

Record World := mkWorld {
  log : list Event;                               (* every dispatched event, oldest first *)
  resultHandler : ResultHandler.t;                (* added by the [Runner] constructor *)
  cancellationHandler : option CancellationReason; (* added by [Runner.run] when [failFast] *)
  cancellationToken : CancellationToken.t;
  heap : Store.t;
}.

Definition on_heap (f : Store.t -> Store.t) (w : World) : World :=
  mkWorld (log w) (resultHandler w) (cancellationHandler w) (cancellationToken w) (f (heap w)).
Definition set_cancellationToken (c : CancellationToken.t) (w : World) : World :=
  mkWorld (log w) (resultHandler w) (cancellationHandler w) c (heap w).
Definition set_cancellationHandler (c : option CancellationReason) (w : World) : World :=
  mkWorld (log w) (resultHandler w) c (cancellationToken w) (heap w).

(** The handlers run in the order they were added: the result handler,
    then the cancellation handler. The reporters only write output. *)
Definition dispatch (ev : Event) (w : World) : option World :=
  '(h, σ) ← ResultHandler.handleEvent ev (resultHandler w) (heap w);
  let token :=
    match cancellationHandler w with
    | Some reason => CancellationHandler.handleEvent reason ev (cancellationToken w)
    | None => cancellationToken w
    end in
  Some (mkWorld (log w ++ [ev]) h (cancellationHandler w) token σ).

(** ** JavaScript numbers under the bitwise operators

    [a & b], [a | b] and [~a] first convert their operands with [ToInt32]. *)

Definition ToInt32 (z : Z) : Z :=
  let m := z mod 2 ^ 32 in if m <? 2 ^ 31 then m else m - 2 ^ 32.
Definition bitand (a b : Z) : Z := Z.land (ToInt32 a) (ToInt32 b).
Definition bitor (a b : Z) : Z := Z.lor (ToInt32 a) (ToInt32 b).
Definition bitnot (a : Z) : Z := Z.lnot (ToInt32 a).
(** Truthiness of a number. *)
Definition truthy (z : Z) : bool := negb (z =? 0).

(** ** JavaScript strings: [toLowerCase] (on the ASCII letters) and [includes] *)

Definition lower_ascii (c : ascii) : ascii :=
  let n := nat_of_ascii c in
  if ((65 <=? n) && (n <=? 90))%nat then ascii_of_nat (n + 32) else c.

Fixpoint toLowerCase (s : string) : string :=
  match s with
  | EmptyString => EmptyString
  | String c s' => String (lower_ascii c) (toLowerCase s')
  end.

Fixpoint includes (s search : string) : bool :=
  String.prefix search s ||
  match s with
  | EmptyString => false
  | String _ s' => includes s' search
  end.

(** ** The test tree *)

Inductive TestMemberBrand := Describe | Test | Expect.

(** What the matcher named by an assertion does once [ExpectService.match]
    hands over to it. It is decided by the type checker of the target, so
    it comes with the node: the matcher either calls [onDiagnostics] once
    and returns [undefined], or returns [{ explain, isMatch }]. *)
Inductive MatcherOutcome :=
  | Reports (diagnostics : list Diagnostic)
  | Returns (isMatch : bool) (explain : list Diagnostic).

(** The part of an [Assertion] that the runner reads. [hasSource] and
    [hasTarget] are [assertion.source[0]] and [assertion.target[0]] being
    there. *)
Record Assertion := mkAssertion {
  isNot : bool;
  matcherNameText : string;
  hasSource : bool;
  hasTarget : bool;
  matcher : MatcherOutcome;
}.

(** A [TestMember]; a member of brand ["expect"] is an [Assertion]. *)
#[local] Set Warnings "-register-all".
Inductive TestMember :=
  | mkDescribe (diagnostics : list TsDiagnostic) (flags : Z) (members : list TestMember)
      (name : string) (nodeStart : Z)
  | mkTest (diagnostics : list TsDiagnostic) (flags : Z) (members : list TestMember)
      (name : string) (nodeStart : Z)
  | mkExpect (diagnostics : list TsDiagnostic) (flags : Z) (members : list TestMember)
      (name : string) (nodeStart : Z) (assertion : Assertion).

Definition brand (m : TestMember) : TestMemberBrand :=
  match m with
  | mkDescribe _ _ _ _ _ => Describe
  | mkTest _ _ _ _ _ => Test
  | mkExpect _ _ _ _ _ _ => Expect
  end.
Definition diagnostics (m : TestMember) : list TsDiagnostic :=
  match m with
  | mkDescribe d _ _ _ _ | mkTest d _ _ _ _ | mkExpect d _ _ _ _ _ => d
  end.
Definition flags (m : TestMember) : Z :=
  match m with
  | mkDescribe _ f _ _ _ | mkTest _ f _ _ _ | mkExpect _ f _ _ _ _ => f
  end.
Definition members (m : TestMember) : list TestMember :=
  match m with
  | mkDescribe _ _ ms _ _ | mkTest _ _ ms _ _ | mkExpect _ _ ms _ _ _ => ms
  end.
Definition name (m : TestMember) : string :=
  match m with
  | mkDescribe _ _ _ n _ | mkTest _ _ _ n _ | mkExpect _ _ _ n _ _ => n
  end.
(** [member.node.getStart()] *)
Definition nodeStart (m : TestMember) : Z :=
  match m with
  | mkDescribe _ _ _ _ s | mkTest _ _ _ _ s | mkExpect _ _ _ _ s _ => s
  end.

Definition is_expect (m : TestMember) : bool :=
  match brand m with Expect => true | _ => false end.

(** The text of the validation diagnostics names the two call expressions;
    the model keeps the names of the two members. *)
Definition cannotBeNested (child parent : TestMember) : Diagnostic :=
  Diagnostic_error [name child; "cannot be nested within"%string; name parent].

(** [TestMember.validate] *)
Definition validate (this : TestMember) : list Diagnostic :=
  match brand this with
  | Describe =>
      flat_map (fun member => if is_expect member then [cannotBeNested member this] else [])
               (members this)
  | Test | Expect =>
      flat_map (fun member => if negb (is_expect member) then [cannotBeNested member this] else [])
               (members this)
  end.

(** [TestTree.hasOnly], over the members of the tree. *)
Fixpoint hasOnly_member (branch : TestMember) : bool :=
  truthy (bitand (flags branch) 2) ||
  (fix some (ms : list TestMember) : bool :=
     match ms with
     | [] => false
     | b :: ms' => hasOnly_member b || some ms'
     end) (members branch).

Definition hasOnly (members : list TestMember) : bool := existsb hasOnly_member members.

(** ** Configuration *)

Record ResolvedConfig := mkResolvedConfig {
  failFast : bool;
  only : option string;
  skip : option string;
  target : list string;
}.

(** ** ExpectService *)

Definition relationMatchers : list string :=
  ["toAcceptProps"; "toBe"; "toBeAssignableTo"; "toBeAssignableWith"; "toMatch"]%string.
Definition primitiveMatchers : list string :=
  ["toBeAny"; "toBeBigInt"; "toBeBoolean"; "toBeNever"; "toBeNull"; "toBeNumber";
   "toBeString"; "toBeSymbol"; "toBeUndefined"; "toBeUniqueSymbol"; "toBeUnknown";
   "toBeVoid"]%string.

Definition oneOf (s : string) (l : list string) : bool := existsb (String.eqb s) l.

Section ExpectService.
(** [onDiagnostics], the callback of the caller. *)
Variable onDiagnostics : list Diagnostic -> World -> option World.

(** [this[matcherNameText].match(matchWorker, ..., onDiagnostics)] *)
Definition runMatcher (a : Assertion) (w : World)
    : option (option (bool * list Diagnostic) * World) :=
  match matcher a with
  | Reports ds => w ← onDiagnostics ds w; Some (None, w)
  | Returns isMatch explain => Some (Some (isMatch, explain), w)
  end.

(** [ExpectService.match]: the result is [undefined] ([None]) or
    [{ isMatch, explain }]. *)
Definition ExpectService_match (a : Assertion) (w : World)
    : option (option (bool * list Diagnostic) * World) :=
  let matcherNameText := matcherNameText a in
  w ← (if String.eqb matcherNameText "toMatch"
       then dispatch (DeprecationInfo
              [Diagnostic_warning ["The '.toMatch()' matcher is deprecated."%string]]) w
       else Some w);
  if negb (hasSource a) then
    w ← onDiagnostics [Diagnostic_error
          ["An argument for 'source' or type argument for 'Source' must be provided."%string]] w;
    Some (None, w)
  else if oneOf matcherNameText relationMatchers then
    if negb (hasTarget a) then
      w ← onDiagnostics [Diagnostic_error
            ["An argument for 'target' or type argument for 'Target' must be provided."%string]] w;
      Some (None, w)
    else runMatcher a w
  else if oneOf matcherNameText primitiveMatchers then runMatcher a w
  else if String.eqb matcherNameText "toHaveProperty" then
    if negb (hasTarget a) then
      w ← onDiagnostics [Diagnostic_error
            ["An argument for 'key' must be provided."%string]] w;
      Some (None, w)
    else runMatcher a w
  else if String.eqb matcherNameText "toRaiseError" then runMatcher a w
  else
    w ← onDiagnostics [Diagnostic_error ["The matcher is not supported."%string]] w;
    Some (None, w).
End ExpectService.

(** ** TestTreeWorker *)

Record TestTreeWorker := mkTestTreeWorker {
  resolvedConfig : ResolvedConfig;
  worker_hasOnly : bool;
  position : option Z;
  taskResult : nat;
}.

(** The constructor of [TestTreeWorker]. *)
Definition new_TestTreeWorker (config : ResolvedConfig) (options_hasOnly : bool)
    (options_position : option Z) (options_taskResult : nat) : TestTreeWorker :=
  mkTestTreeWorker config
    (options_hasOnly || bool_decide (only config <> None) || bool_decide (options_position <> None))
    options_position options_taskResult.

Definition nameMatches (filter : option string) (member : TestMember) : bool :=
  match filter with
  | Some pattern => includes (toLowerCase (name member)) (toLowerCase pattern)
  | None => false
  end.

Definition positionMatches (position : option Z) (member : TestMember) : bool :=
  match position with
  | Some p => nodeStart member =? p
  | None => false
  end.

Section TestTreeWorker.
Variable this : TestTreeWorker.

(** [#resolveRunMode] *)
Definition resolveRunMode (mode : Z) (member : TestMember) : Z :=
  let mode := if truthy (bitand (flags member) 1) then bitor mode 1 else mode in
  let mode := if truthy (bitand (flags member) 2) || nameMatches (only (resolvedConfig this)) member
              then bitor mode 2 else mode in
  let mode := if truthy (bitand (flags member) 4) || nameMatches (skip (resolvedConfig this)) member
              then bitor mode 4 else mode in
  let mode := if truthy (bitand (flags member) 8) then bitor mode 8 else mode in
  if positionMatches (position this) member
  then bitand (bitor mode 2) (bitnot 4)
  else mode.

(** [runMode & 4 || (this.#hasOnly && !(runMode & 2))] *)
Definition isSkipped (runMode : Z) : bool :=
  truthy (bitand runMode 4) || (worker_hasOnly this && negb (truthy (bitand runMode 2))).

Definition supposedToFail : Diagnostic :=
  Diagnostic_error ["The assertion was supposed to fail, but it passed.";
                    "Consider removing the '.fail' flag."]%string.

Section Visit.
(** [visit] and the three [#visit...] methods call each other; the
    methods are written over the [visit] they call. *)
Variable visit : list TestMember -> Z -> option ParentRef -> World -> option World.

(** [#visitAssertion] *)
Definition visitAssertion (assertion : TestMember) (a : Assertion) (runMode : Z)
    (parentResult : option ParentRef) (w : World) : option World :=
  w ← visit (members assertion) runMode parentResult w;
  let expectResult := length (Store.expects (heap w)) in
  let w := on_heap (Store.on_expects (fun l => l ++ [ExpectResult.new parentResult])) w in
  w ← dispatch (ExpectStart expectResult) w;
  let runMode := resolveRunMode runMode assertion in
  if isSkipped runMode then dispatch (ExpectSkip expectResult) w
  else
    let onExpectDiagnostics ds := dispatch (ExpectError ds expectResult) in
    if (0 <? length (diagnostics assertion))%nat
       && negb (String.eqb (matcherNameText a) "toRaiseError")
    then onExpectDiagnostics (fromDiagnostics (diagnostics assertion)) w
    else
      '(matchResult, w) ← ExpectService_match onExpectDiagnostics a w;
      match matchResult with
      | None => Some w
      | Some (isMatch, explain) =>
          if (if isNot a then negb isMatch else isMatch) then
            if truthy (bitand runMode 1)
            then onExpectDiagnostics [supposedToFail] w
            else dispatch (ExpectPass expectResult) w
          else if truthy (bitand runMode 1)
          then dispatch (ExpectPass expectResult) w
          else dispatch (ExpectFail explain expectResult) w
      end.

(** [#visitDescribe] *)
Definition visitDescribe (describe : TestMember) (runMode : Z)
    (parentResult : option ParentRef) (w : World) : option World :=
  let describeResult := length (Store.describes (heap w)) in
  let w := on_heap (Store.on_describes (fun l => l ++ [DescribeResult.mk parentResult])) w in
  w ← dispatch (DescribeStart describeResult) w;
  let runMode := resolveRunMode runMode describe in
  w ← (if negb (isSkipped runMode || truthy (bitand runMode 8))
          && (0 <? length (diagnostics describe))%nat
       then dispatch (TaskError (fromDiagnostics (diagnostics describe)) (taskResult this)) w
       else visit (members describe) runMode (Some (InDescribe describeResult)) w);
  dispatch (DescribeEnd describeResult) w.

(** [#visitTest] *)
Definition visitTest (test : TestMember) (runMode : Z)
    (parentResult : option ParentRef) (w : World) : option World :=
  let testResult := length (Store.tests (heap w)) in
  let w := on_heap (Store.on_tests (fun l => l ++ [TestResult.new parentResult])) w in
  w ← dispatch (TestStart testResult) w;
  let runMode := resolveRunMode runMode test in
  if truthy (bitand runMode 8) then dispatch (TestTodo testResult) w
  else if negb (isSkipped runMode) && (0 <? length (diagnostics test))%nat
  then dispatch (TestError (fromDiagnostics (diagnostics test)) testResult) w
  else
    w ← visit (members test) runMode (Some (InTest testResult)) w;
    if isSkipped runMode then dispatch (TestSkip testResult) w
    else
      expectCount ← TestResult.expectCount <$> Store.tests (heap w) !! testResult;
      if (0 <? ResultCount.failed expectCount)%nat
      then dispatch (TestFail testResult) w
      else dispatch (TestPass testResult) w.

Definition visitMember_body (member : TestMember) (runMode : Z)
    (parentResult : option ParentRef) (w : World) : option World :=
  match member with
  | mkDescribe _ _ _ _ _ => visitDescribe member runMode parentResult w
  | mkTest _ _ _ _ _ => visitTest member runMode parentResult w
  | mkExpect _ _ _ _ _ a => visitAssertion member a runMode parentResult w
  end.
End Visit.

(** The loop of [visit], over the function that visits one member. *)
Definition visit_loop (visitMember : TestMember -> Z -> option ParentRef -> World -> option World)
  : list TestMember -> Z -> option ParentRef -> World -> option World :=
  fix visit members runMode parentResult w :=
    match members with
    | [] => Some w
    | member :: rest =>
        if CancellationToken.isCancellationRequested (cancellationToken w) then Some w
        else
          match validate member with
          | [] =>
              w ← visitMember member runMode parentResult w;
              visit rest runMode parentResult w
          | validationError => dispatch (TaskError validationError (taskResult this)) w
          end
    end.

(** The [switch (member.brand)] of [visit]. *)
Fixpoint visitMember (member : TestMember) : Z -> option ParentRef -> World -> option World :=
  visitMember_body (visit_loop visitMember) member.

(** [visit] *)
Definition visit : list TestMember -> Z -> option ParentRef -> World -> option World :=
  visit_loop visitMember.
End TestTreeWorker.

(** ** TaskRunner and Runner *)

Record Task := mkTask { filePath : string; task_position : option Z }.

Record TestTree := mkTestTree {
  tree_diagnostics : list TsDiagnostic;
  tree_members : list TestMember;
}.

(** What the project service, the language service and the collector of a
    compiler give for one file: the outcome of [openClientFile], whether
    [getLanguageService], [getProgram] and [getSourceFile] return something,
    the syntactic diagnostics, and the tree built by [createTestTree]. *)
Record OpenedFile := mkOpenedFile {
  configFileName : option string;
  configFileErrors : list TsDiagnostic;
  languageService : bool;
  syntacticDiagnostics : list TsDiagnostic;
  program : bool;
  sourceFile : bool;
  testTree : TestTree;
}.

(** A loaded compiler: its version and what it makes of each file. *)
Record Compiler := mkCompiler {
  version : string;
  openFile : Task -> OpenedFile;
}.

(** What [StoreService.load] publishes on its way: [store:adds] before
    [PackageService.ensure] installs a package, and [store:error] from
    [#onDiagnostics], with the one diagnostic made by [Diagnostic.error]. *)
Inductive StoreEvent :=
  | Adds (packagePath packageVersion : string)
  | Fails (text : list string).

Definition storeEvent (ev : StoreEvent) : Event :=
  match ev with
  | Adds packagePath packageVersion => StoreAdds packagePath packageVersion
  | Fails text => StoreError [Diagnostic_error text]
  end.

(** No [store:error] among the events of a load. *)
Definition noStoreError (published : list StoreEvent) : bool :=
  forallb (fun ev => match ev with Adds _ _ => true | Fails _ => false end) published.

Fixpoint dispatchAll (evs : list Event) (w : World) : option World :=
  match evs with
  | [] => Some w
  | ev :: rest => w ← dispatch ev w; dispatchAll rest w
  end.

Section Runner.
Variable config : ResolvedConfig.
(** [StoreService.load], for a version tag: the events it publishes and
    the compiler it returns, where [None] is [undefined]. What it does
    depends on the installed packages, the manifest, the network and its
    cache; it is given the events published so far, and no two calls in a
    run come with the same. *)
Variable storeService_load : string -> list Event -> list StoreEvent * option Compiler.

(** [ProjectService.openFile] *)
Definition ProjectService_openFile (compiler : Compiler) (file : OpenedFile)
    (w : World) : option World :=
  w ← dispatch (ProjectUses (version compiler) (configFileName file)) w;
  if (0 <? length (configFileErrors file))%nat
  then dispatch (ProjectError (fromDiagnostics (configFileErrors file))) w
  else Some w.

(** [TaskRunner.#run] *)
Definition TaskRunner_run' (file : OpenedFile) (task : Task) (taskResult : nat)
    (w : World) : option World :=
  if negb (languageService file) then Some w
  else if (0 <? length (syntacticDiagnostics file))%nat
  then dispatch (TaskError (fromDiagnostics (syntacticDiagnostics file)) taskResult) w
  else if negb (program file) then Some w
  else if negb (sourceFile file) then Some w
  else
    let testTree := testTree file in
    if (0 <? length (tree_diagnostics testTree))%nat
    then dispatch (TaskError (fromDiagnostics (tree_diagnostics testTree)) taskResult) w
    else
      let testTreeWorker :=
        new_TestTreeWorker config (hasOnly (tree_members testTree))
          (task_position task) taskResult in
      visit testTreeWorker (tree_members testTree) 0 None w.

(** [TaskRunner.run] *)
Definition TaskRunner_run (compiler : Compiler) (task : Task) (w : World) : option World :=
  if CancellationToken.isCancellationRequested (cancellationToken w) then Some w
  else
    let file := openFile compiler task in
    w ← ProjectService_openFile compiler file w;
    let taskResult := length (Store.tasks (heap w)) in
    let w := on_heap (Store.on_tasks (fun l => l ++ [TaskResult.new (filePath task)])) w in
    w ← dispatch (TaskStart taskResult) w;
    w ← TaskRunner_run' file task taskResult w;
    dispatch (TaskEnd taskResult) w.

(** [for (const task of tasks) taskRunner.run(task, cancellationToken)] *)
Fixpoint runTasks (compiler : Compiler) (tasks : list Task) (w : World) : option World :=
  match tasks with
  | [] => Some w
  | task :: rest => w ← TaskRunner_run compiler task w; runTasks compiler rest w
  end.

(** The body of [for (const versionTag of this.#resolvedConfig.target)]. *)
Definition runTarget (tasks : list Task) (versionTag : string) (w : World) : option World :=
  let targetResult := length (Store.targets (heap w)) in
  let w := on_heap (Store.on_targets (fun l => l ++ [TargetResult.new versionTag])) w in
  w ← dispatch (TargetStart targetResult) w;
  let '(published, compiler) := storeService_load versionTag (log w) in
  w ← dispatchAll (map storeEvent published) w;
  w ← match compiler with
      | Some compiler => runTasks compiler tasks w
      | None => Some w
      end;
  dispatch (TargetEnd targetResult) w.

Fixpoint runTargets (tasks : list Task) (versionTags : list string) (w : World) : option World :=
  match versionTags with
  | [] => Some w
  | versionTag :: rest => w ← runTarget tasks versionTag w; runTargets tasks rest w
  end.

(** [Runner.#run] *)
Definition Runner_run' (tasks : list Task) (w : World) : option World :=
  let result := length (Store.runs (heap w)) in
  let w := on_heap (Store.on_runs (fun l => l ++ [Result.new])) w in
  w ← dispatch (RunStart result) w;
  w ← runTargets tasks (target config) w;
  w ← dispatch (RunEnd result) w;
  if bool_decide (CancellationToken.reason (cancellationToken w) = Some FailFast)
  then Some (set_cancellationToken (CancellationToken.reset (cancellationToken w)) w)
  else Some w.

(** [Runner.run] without the watch mode: the cancellation handler is
    added when [failFast] is set, and removed after the run. *)
Definition Runner_run (tasks : list Task) (w : World) : option World :=
  let w := if failFast config then set_cancellationHandler (Some FailFast) w else w in
  w ← Runner_run' tasks w;
  Some (set_cancellationHandler None w).

(** The world after [new Runner(...)], with a fresh [CancellationToken]. *)
Definition initialWorld : World :=
  mkWorld [] ResultHandler.new None CancellationToken.new Store.empty.
End Runner.

(** ** WatchService and Debounce

    The callbacks of the watchers, of the input service and of the timers
    run one at a time; a watch session is the sequence of these callbacks.
    The promise made by [Debounce.setup] is awaited by the generator
    [watch], which yields the batch it is resolved with. The timers of the
    host are numbered in the order [setTimeout] makes them; a timer is
    pending from [setTimeout] until it fires or is cleared. *)

Inductive WatchEvent :=
  | ChangedFile (filePath : string)       (* [onChangedFile] *)
  | RemovedFile (filePath : string)       (* [onRemovedFile] *)
  | ChangedConfigFile                     (* [onChangedConfigFile] *)
  | Input (chunk : string)                (* [onInput] *)
  | TimeoutFires (timer : nat)            (* the callback given to [setTimeout], for this timer *)
  | Next.                                 (* the consumer asks for the next batch *)

(** Where the generator [watch] stands: awaiting the promise of
    [debounce.setup()], suspended at [yield], or returned. *)
Inductive Phase := Awaiting | Suspended | Returned.

Module WatchService.
Record t := mk {
  changedTestFiles : list (string * Task);
  watchedTestFiles : list (string * Task);
  timeout : option nat;           (* [Debounce.#timeout]: the timer [setTimeout] gave last *)
  timers : list nat;              (* the timers of the host that are pending *)
  nextTimer : nat;                (* the number of the timer [setTimeout] makes next *)
  resolver : bool;                (* [Debounce.#resolve] is set *)
  phase : Phase;
  closed : bool;                  (* the watchers and the input service are closed *)
  token : CancellationToken.t;
  yielded : list (list Task);     (* the batches yielded so far *)
  errors : list Diagnostic;       (* the diagnostics of the [watch:error] events *)
}.

(** The constructor, followed by the start of [watch] up to its first
    [await]. *)
Definition new (tasks : list Task) (token : CancellationToken.t) : t :=
  mk [] (foldl (fun m task => JsMap.set (filePath task) task m) [] tasks)
     None [] 0 (negb (CancellationToken.isCancellationRequested token))
     (if CancellationToken.isCancellationRequested token then Returned else Awaiting)
     false token [] [].

Definition set_changedTestFiles v (s : t) :=
  mk v (watchedTestFiles s) (timeout s) (timers s) (nextTimer s) (resolver s) (phase s)
     (closed s) (token s) (yielded s) (errors s).
Definition set_watchedTestFiles v (s : t) :=
  mk (changedTestFiles s) v (timeout s) (timers s) (nextTimer s) (resolver s) (phase s)
     (closed s) (token s) (yielded s) (errors s).
Definition set_timeout v (s : t) :=
  mk (changedTestFiles s) (watchedTestFiles s) v (timers s) (nextTimer s) (resolver s)
     (phase s) (closed s) (token s) (yielded s) (errors s).
Definition set_timers v (s : t) :=
  mk (changedTestFiles s) (watchedTestFiles s) (timeout s) v (nextTimer s) (resolver s)
     (phase s) (closed s) (token s) (yielded s) (errors s).
Definition set_nextTimer v (s : t) :=
  mk (changedTestFiles s) (watchedTestFiles s) (timeout s) (timers s) v (resolver s)
     (phase s) (closed s) (token s) (yielded s) (errors s).
Definition set_phase v (s : t) :=
  mk (changedTestFiles s) (watchedTestFiles s) (timeout s) (timers s) (nextTimer s)
     (resolver s) v (closed s) (token s) (yielded s) (errors s).
Definition set_closed v (s : t) :=
  mk (changedTestFiles s) (watchedTestFiles s) (timeout s) (timers s) (nextTimer s)
     (resolver s) (phase s) v (token s) (yielded s) (errors s).
Definition set_token v (s : t) :=
  mk (changedTestFiles s) (watchedTestFiles s) (timeout s) (timers s) (nextTimer s)
     (resolver s) (phase s) (closed s) v (yielded s) (errors s).
Definition push_yielded v (s : t) :=
  mk (changedTestFiles s) (watchedTestFiles s) (timeout s) (timers s) (nextTimer s)
     (resolver s) (phase s) (closed s) (token s) (yielded s ++ [v]) (errors s).
Definition push_error v (s : t) :=
  mk (changedTestFiles s) (watchedTestFiles s) (timeout s) (timers s) (nextTimer s)
     (resolver s) (phase s) (closed s) (token s) (yielded s) (errors s ++ [v]).

(** The head of the [while] loop of [watch]: return when cancellation is
    requested, else await a new promise. *)
Definition loop (s : t) : t :=
  if CancellationToken.isCancellationRequested (token s)
  then set_phase Returned s else set_phase Awaiting s.

(** [this.#resolve?.(value)]: nothing when [#resolve] is not set; else only
    the first call on the promise that is awaited has an effect: the
    generator then yields a batch that is not empty, and goes round the
    loop on an empty one. *)
Definition resolve (value : list Task) (s : t) : t :=
  if negb (resolver s) then s else
  match phase s with
  | Awaiting =>
      if (0 <? length value)%nat then set_phase Suspended (push_yielded value s)
      else loop s
  | Suspended | Returned => s
  end.

(** [onResolve] *)
Definition onResolve (s : t) : list Task * t :=
  (JsMap.values (changedTestFiles s), set_changedTestFiles [] s).

(** The timers of the host: [clearTimeout(timer)] takes the timer out of
    the pending ones, and does nothing for a timer that is not pending or
    for [undefined]; [setTimeout] makes a new pending timer. *)
Definition without (timer : nat) (pending : list nat) : list nat :=
  List.filter (fun other => negb (other =? timer)%nat) pending.
Definition host_clearTimeout (timer : option nat) (s : t) : t :=
  match timer with
  | Some timer => set_timers (without timer (timers s)) s
  | None => s
  end.
Definition host_setTimeout (s : t) : nat * t :=
  (nextTimer s, set_nextTimer (S (nextTimer s)) (set_timers (timers s ++ [nextTimer s]) s)).

(** [Debounce.clearTimeout] and [Debounce.refreshTimeout] *)
Definition clearTimeout (s : t) : t := host_clearTimeout (timeout s) s.
Definition refreshTimeout (s : t) : t :=
  let s := clearTimeout s in
  let '(timer, s) := host_setTimeout s in
  set_timeout (Some timer) s.

(** [onClose] *)
Definition onClose (reason : CancellationReason) (s : t) : t :=
  let s := clearTimeout s in
  let s := set_closed true s in
  let s := set_token (CancellationToken.cancel reason (token s)) s in
  resolve [] s.

Section Callbacks.
(** [SelectService.isTestFile] *)
Variable isTestFile : string -> bool.

Definition onInput (chunk : string) (s : t) : t :=
  let c := toLowerCase chunk in
  if oneOf c [String (ascii_of_nat 3) ""; String (ascii_of_nat 4) "";
              String (ascii_of_nat 27) ""; "q"; "x"]%string
  then onClose WatchClose s
  else if oneOf c [String (ascii_of_nat 13) ""; " "; "a"]%string
  then
    let s := clearTimeout s in
    if (0 <? JsMap.size (watchedTestFiles s))%nat
    then resolve (JsMap.values (watchedTestFiles s)) s
    else s
  else s.

Definition onChangedFile (filePath : string) (s : t) : t :=
  let s := refreshTimeout s in
  match JsMap.get filePath (watchedTestFiles s) with
  | Some task => set_changedTestFiles (JsMap.set filePath task (changedTestFiles s)) s
  | None =>
      if isTestFile filePath then
        let task := mkTask filePath None in
        let s := set_changedTestFiles (JsMap.set filePath task (changedTestFiles s)) s in
        set_watchedTestFiles (JsMap.set filePath task (watchedTestFiles s)) s
      else s
  end.

Definition onRemovedFile (filePath : string) (s : t) : t :=
  let s := set_changedTestFiles (JsMap.delete filePath (changedTestFiles s)) s in
  let s := set_watchedTestFiles (JsMap.delete filePath (watchedTestFiles s)) s in
  if (JsMap.size (watchedTestFiles s) =? 0)%nat
  then push_error (Diagnostic_error
         ["No test files were left to run using current configuration."%string])
         (clearTimeout s)
  else s.

(** One callback. A closed watcher or input service calls nothing; a
    timer fires only while it is pending, and is no longer pending once
    it has fired. *)
Definition step (ev : WatchEvent) (s : t) : t :=
  match ev with
  | ChangedFile filePath => if closed s then s else onChangedFile filePath s
  | RemovedFile filePath => if closed s then s else onRemovedFile filePath s
  | ChangedConfigFile => if closed s then s else onClose ConfigChange s
  | Input chunk => if closed s then s else onInput chunk s
  | TimeoutFires timer =>
      if existsb (Nat.eqb timer) (timers s) then
        let s := set_timers (without timer (timers s)) s in
        if resolver s then
          let '(testFiles, s) := onResolve s in
          resolve testFiles s
        else s
      else s
  | Next =>
      match phase s with
      | Suspended => loop s
      | Awaiting | Returned => s
      end
  end.

Definition steps (evs : list WatchEvent) (s : t) : t := foldl (fun s ev => step ev s) s evs.
End Callbacks.
End WatchService.

(** * Notions used by the statements *)

(** ** Run modes *)

(** The bits a member adds by itself: its flags and the name filters. *)
Definition localMode (this : TestTreeWorker) (member : TestMember) : Z :=
  Z.lor (if truthy (bitand (flags member) 1) then 1 else 0)
    (Z.lor (if truthy (bitand (flags member) 2) || nameMatches (only (resolvedConfig this)) member
            then 2 else 0)
       (Z.lor (if truthy (bitand (flags member) 4) || nameMatches (skip (resolvedConfig this)) member
               then 4 else 0)
              (if truthy (bitand (flags member) 8) then 8 else 0))).

(** ** Worlds inside a run *)

(** The result handler holds a run, a target and a task: the state between
    [task:start] and [task:end]. *)
Definition Ready (w : World) : Prop :=
  is_Some (ResultHandler.result (resultHandler w)) /\
  is_Some (ResultHandler.targetResult (resultHandler w)) /\
  is_Some (ResultHandler.taskResult (resultHandler w)).

(** The events a visit of assertions can publish. *)
Definition assertionLevel (ev : Event) : bool :=
  match ev with
  | ExpectStart _ | ExpectError _ _ | ExpectFail _ _ | ExpectPass _ | ExpectSkip _
  | TaskError _ _ | DeprecationInfo _ => true
  | _ => false
  end.

Definition expectTerminal (ev : Event) : bool :=
  match ev with
  | ExpectError _ _ | ExpectFail _ _ | ExpectPass _ | ExpectSkip _ => true
  | _ => false
  end.

Definition testTerminal (ev : Event) : bool :=
  match ev with
  | TestError _ _ | TestFail _ | TestPass _ | TestSkip _ | TestTodo _ => true
  | _ => false
  end.

(** The result object of an [expect:*] event. *)
Definition expectResultOf (ev : Event) : option nat :=
  match ev with
  | ExpectStart e | ExpectError _ e | ExpectFail _ e | ExpectPass e | ExpectSkip e => Some e
  | _ => None
  end.

Definition allocatedIn (lo hi : nat) (ev : Event) : bool :=
  match expectResultOf ev with
  | Some e => (lo <=? e)%nat && (e <? hi)%nat
  | None => true
  end.

(** Every [expect:*] event published so far carries an [ExpectResult] that
    was made before it. *)
Definition WellAllocated (w : World) : Prop :=
  forallb (allocatedIn 0 (length (Store.expects (heap w)))) (log w) = true.

(** What a visit of assertions leaves alone: the fields of the result
    handler other than [#expectResult], the cancellation handler, the token
    when no cancellation handler is there, and the test results made. *)
Record Frame (w w' : World) : Prop := mkFrame {
  frame_cursors : ResultHandler.set_expectResult None (resultHandler w')
                  = ResultHandler.set_expectResult None (resultHandler w);
  frame_handler : cancellationHandler w' = cancellationHandler w;
  frame_token : cancellationHandler w = None -> cancellationToken w' = cancellationToken w;
  frame_tests : length (Store.tests (heap w')) = length (Store.tests (heap w));
  frame_expects : (length (Store.expects (heap w)) <= length (Store.expects (heap w')))%nat;
}.

(** [w'] comes after [w] by a visit of assertions: the frame is kept, and
    the events published in between are theirs, on results made in between. *)
Definition Kept (w w' : World) : Prop :=
  Frame w w' /\
  exists evs, log w' = log w ++ evs /\
    forallb assertionLevel evs = true /\
    forallb (allocatedIn (length (Store.expects (heap w)))
                         (length (Store.expects (heap w')))) evs = true.

(** What the visit of a test leaves alone. *)
Record Outer (w w' : World) : Prop := mkOuter {
  outer_cursors :
    ResultHandler.set_expectResult None (ResultHandler.set_testResult None (resultHandler w'))
    = ResultHandler.set_expectResult None (ResultHandler.set_testResult None (resultHandler w));
  outer_handler : cancellationHandler w' = cancellationHandler w;
  outer_token : cancellationHandler w = None -> cancellationToken w' = cancellationToken w;
}.

(** ** The outcome of [ExpectService.match] *)

(** What [ExpectService.match] does with an assertion: it calls
    [onDiagnostics] once and returns [undefined], or it returns a result. *)
Definition ExpectService_outcome (a : Assertion)
    : list Diagnostic + bool * list Diagnostic :=
  let ofMatcher :=
    match matcher a with
    | Reports ds => inl ds
    | Returns isMatch explain => inr (isMatch, explain)
    end in
  if negb (hasSource a) then
    inl [Diagnostic_error
           ["An argument for 'source' or type argument for 'Source' must be provided."%string]]
  else if oneOf (matcherNameText a) relationMatchers then
    if negb (hasTarget a) then
      inl [Diagnostic_error
             ["An argument for 'target' or type argument for 'Target' must be provided."%string]]
    else ofMatcher
  else if oneOf (matcherNameText a) primitiveMatchers then ofMatcher
  else if String.eqb (matcherNameText a) "toHaveProperty" then
    if negb (hasTarget a) then
      inl [Diagnostic_error ["An argument for 'key' must be provided."%string]]
    else ofMatcher
  else if String.eqb (matcherNameText a) "toRaiseError" then ofMatcher
  else inl [Diagnostic_error ["The matcher is not supported."%string]].

(** The [deprecation:info] event of [ExpectService.match]. *)
Definition deprecation (a : Assertion) : list Event :=
  if String.eqb (matcherNameText a) "toMatch"
  then [DeprecationInfo [Diagnostic_warning ["The '.toMatch()' matcher is deprecated."%string]]]
  else [].

(** The events of [#visitAssertion] once the members of the assertion have
    been visited; [e] is the [ExpectResult] it makes. *)
Definition assertionEvents (this : TestTreeWorker) (assertion : TestMember) (a : Assertion)
    (mode : Z) (e : nat) : list Event :=
  let runMode := resolveRunMode this mode assertion in
  ExpectStart e ::
  if isSkipped this runMode then [ExpectSkip e]
  else if (0 <? length (diagnostics assertion))%nat
          && negb (String.eqb (matcherNameText a) "toRaiseError")
  then [ExpectError (fromDiagnostics (diagnostics assertion)) e]
  else
    deprecation a ++
    match ExpectService_outcome a with
    | inl ds => [ExpectError ds e]
    | inr (isMatch, explain) =>
        if (if isNot a then negb isMatch else isMatch) then
          if truthy (bitand runMode 1) then [ExpectError [supposedToFail] e]
          else [ExpectPass e]
        else if truthy (bitand runMode 1) then [ExpectPass e]
        else [ExpectFail explain e]
    end.

(** The terminal event of a test, as [#visitTest] chooses it. *)
Definition testVerdict (this : TestTreeWorker) (test : TestMember) (mode : Z) (t : nat)
    (ev : Event) : Prop :=
  let runMode := resolveRunMode this mode test in
  if truthy (bitand runMode 8) then ev = TestTodo t
  else if negb (isSkipped this runMode) && (0 <? length (diagnostics test))%nat
  then ev = TestError (fromDiagnostics (diagnostics test)) t
  else if isSkipped this runMode then ev = TestSkip t
  else ev = TestFail t \/ ev = TestPass t.

(** Whether [#visitTest] visits the members of the test. *)
Definition testEntered (this : TestTreeWorker) (test : TestMember) (mode : Z) : bool :=
  let runMode := resolveRunMode this mode test in
  negb (truthy (bitand runMode 8)) &&
  negb (negb (isSkipped this runMode) && (0 <? length (diagnostics test))%nat).

(** ** Induction over the test tree *)

Section TestMember_ind.
Variable P : TestMember -> Prop.
Hypothesis Hdescribe : forall d f ms n s, Forall P ms -> P (mkDescribe d f ms n s).
Hypothesis Htest : forall d f ms n s, Forall P ms -> P (mkTest d f ms n s).
Hypothesis Hexpect : forall d f ms n s a, Forall P ms -> P (mkExpect d f ms n s a).

Fixpoint TestMember_tree_ind (m : TestMember) : P m :=
  let all := fix all (ms : list TestMember) : Forall P ms :=
    match ms with
    | [] => @List.Forall_nil _ P
    | m :: ms' => @List.Forall_cons _ P m ms' (TestMember_tree_ind m) (all ms')
    end in
  match m with
  | mkDescribe d f ms n s => Hdescribe d f ms n s (all ms)
  | mkTest d f ms n s => Htest d f ms n s (all ms)
  | mkExpect d f ms n s a => Hexpect d f ms n s a (all ms)
  end.
End TestMember_ind.

(** ** Events of interest *)

Definition isExpectEvent (ev : Event) : bool :=
  match ev with
  | ExpectStart _ | ExpectError _ _ | ExpectFail _ _ | ExpectPass _ | ExpectSkip _ => true
  | _ => false
  end.

(** The event carries the [ExpectResult] [e]. *)
Definition carries (e : nat) (ev : Event) : bool :=
  bool_decide (expectResultOf ev = Some e).

Definition isCaseSkip (ev : Event) : bool :=
  match ev with TestSkip _ => true | _ => false end.

Definition isCasePassOrFail (ev : Event) : bool :=
  match ev with TestPass _ | TestFail _ => true | _ => false end.

Definition count (p : Event -> bool) (evs : list Event) : nat := length (List.filter p evs).

(** The flags of a member, one by one. *)
Definition failFlag (m : TestMember) : bool := truthy (bitand (flags m) 1).
Definition onlyFlag (m : TestMember) : bool := truthy (bitand (flags m) 2).
Definition skipFlag (m : TestMember) : bool := truthy (bitand (flags m) 4).
Definition todoFlag (m : TestMember) : bool := truthy (bitand (flags m) 8).

(** The events of one case under only-pruning: one terminal event, which is
    [test:pass] or [test:fail] for the case flagged Only and [test:skip] for
    a case that is not. *)
Definition caseEvents (c : TestMember) (evs : list Event) : Prop :=
  exists t,
    if onlyFlag c
    then List.filter testTerminal evs = [TestPass t] \/
         List.filter testTerminal evs = [TestFail t]
    else List.filter testTerminal evs = [TestSkip t].

(** A case that does not carry the Todo flag, whose members are assertions,
    and which, if it is the one flagged Only, is not flagged Skip and has no
    attached diagnostics. *)
Definition plainCase (c : TestMember) : Prop :=
  brand c = Test /\ validate c = [] /\ todoFlag c = false /\
  (onlyFlag c = true -> skipFlag c = false /\ diagnostics c = []).

(** The run is not being cancelled, and no handler can cancel it. *)
Definition Uncancellable (w : World) : Prop :=
  cancellationHandler w = None /\
  CancellationToken.isCancellationRequested (cancellationToken w) = false.


(** A file that the project service and the language service open without
    diagnostics, and whose tree has the given members. *)
Definition opensCleanly (file : OpenedFile) (members : list TestMember) : Prop :=
  configFileErrors file = [] /\ languageService file = true /\
  syntacticDiagnostics file = [] /\ program file = true /\ sourceFile file = true /\
  testTree file = mkTestTree [] members.

(** ** Streams of events *)

(** A stream as the result handler sees it: between two events the
    dispatcher may make new result objects, which extends the tables of the
    heap and leaves the objects that exist alone. *)
Definition grows (σ σ' : Store.t) : Prop :=
  (exists l, Store.runs σ' = Store.runs σ ++ l) /\
  (exists l, Store.targets σ' = Store.targets σ ++ l) /\
  (exists l, Store.tasks σ' = Store.tasks σ ++ l) /\
  (exists l, Store.describes σ' = Store.describes σ ++ l) /\
  (exists l, Store.tests σ' = Store.tests σ ++ l) /\
  (exists l, Store.expects σ' = Store.expects σ ++ l).

(** The result object of a [target:start] and of a [task:start] was made
    for the event: [Runner.#run] and [TaskRunner.run] make it right before
    they publish the event. *)
Definition fresh (ev : Event) (σ : Store.t) : Prop :=
  match ev with
  | TargetStart g => exists versionTag, Store.targets σ !! g = Some (TargetResult.new versionTag)
  | TaskStart k => exists path, Store.tasks σ !! k = Some (TaskResult.new path)
  | _ => True
  end.

Definition startsResult (ev : Event) : bool :=
  match ev with TargetStart _ | TaskStart _ => true | _ => false end.

Inductive handles : ResultHandler.t * Store.t -> list Event -> ResultHandler.t * Store.t -> Prop :=
  | handles_nil s : handles s [] s
  | handles_new h σ σ' evs s :
      grows σ σ' -> handles (h, σ') evs s -> handles (h, σ) evs s
  | handles_event h σ ev s1 evs s :
      ResultHandler.handleEvent ev h σ = Some s1 -> fresh ev σ -> handles s1 evs s ->
      handles (h, σ) (ev :: evs) s.

(** The numbers of terminal events of each kind in a stream. *)
Definition isExpectFailure (ev : Event) : bool :=
  match ev with ExpectError _ _ | ExpectFail _ _ => true | _ => false end.
Definition isExpectPass (ev : Event) : bool :=
  match ev with ExpectPass _ => true | _ => false end.
Definition isExpectSkip (ev : Event) : bool :=
  match ev with ExpectSkip _ => true | _ => false end.
Definition isTestFailure (ev : Event) : bool :=
  match ev with TestError _ _ | TestFail _ => true | _ => false end.
Definition isTestPass (ev : Event) : bool :=
  match ev with TestPass _ => true | _ => false end.
Definition isTestTodo (ev : Event) : bool :=
  match ev with TestTodo _ => true | _ => false end.
Definition isTaskEnd (ev : Event) : bool :=
  match ev with TaskEnd _ => true | _ => false end.
Definition isTargetEnd (ev : Event) : bool :=
  match ev with TargetEnd _ => true | _ => false end.
Definition isRunStart (ev : Event) : bool :=
  match ev with RunStart _ => true | _ => false end.
Definition isTaskStart (ev : Event) : bool :=
  match ev with TaskStart _ => true | _ => false end.
Definition isTestEvent (ev : Event) : bool :=
  match ev with
  | TestStart _ | TestError _ _ | TestFail _ | TestPass _ | TestSkip _ | TestTodo _ => true
  | _ => false
  end.

Definition expectTally (evs : list Event) : ResultCount.t :=
  ResultCount.mk (count isExpectFailure evs) (count isExpectPass evs)
                 (count isExpectSkip evs) 0.

Definition testTally (evs : list Event) : ResultCount.t :=
  ResultCount.mk (count isTestFailure evs) (count isTestPass evs)
                 (count isCaseSkip evs) (count isTestTodo evs).

(** ** Visits of assertions *)

(** A visit of assertions returns, and keeps the frame. *)
Definition assertionsKept (this : TestTreeWorker) (m : TestMember) : Prop :=
  is_expect m = true -> validate m = [] ->
  forall mode parent w, Ready w ->
  exists w', visitMember this m mode parent w = Some w' /\ Kept w w'.

(** ** Counts against a stream *)

(** The counts of a run after a stream are its counts before plus the
    numbers of terminal events of the stream. The file and target counts
    are compared by their totals: which bucket a [task:end] or [target:end]
    goes to depends on the status of the result. *)
Definition RunCounted (evs : list Event) (x x' : Result.t) : Prop :=
  Result.expectCount x' = ResultCount.add (Result.expectCount x) (expectTally evs) /\
  Result.testCount x' = ResultCount.add (Result.testCount x) (testTally evs) /\
  ResultCount.total (Result.fileCount x')
    = (ResultCount.total (Result.fileCount x) + count isTaskEnd evs)%nat /\
  ResultCount.total (Result.targetCount x')
    = (ResultCount.total (Result.targetCount x) + count isTargetEnd evs)%nat.

Definition TaskCounted (evs : list Event) (y y' : TaskResult.t) : Prop :=
  TaskResult.expectCount y' = ResultCount.add (TaskResult.expectCount y) (expectTally evs) /\
  TaskResult.testCount y' = ResultCount.add (TaskResult.testCount y) (testTally evs).

(** ** The events of a run, as the result handler sees them *)

Definition inRun (ev : Event) : bool := negb (isRunStart ev).

(** [w'] comes after [w] in a run: the events published in between were
    handled by the result handler one after the other, with result objects
    made in between, and none of them is [run:start]. *)
Definition Follows (w w' : World) : Prop :=
  exists evs, log w' = log w ++ evs /\
    handles (resultHandler w, heap w) evs (resultHandler w', heap w') /\
    forallb inRun evs = true.

Definition memberFollows (this : TestTreeWorker) (m : TestMember) : Prop :=
  forall mode parent w w', visitMember this m mode parent w = Some w' -> Follows w w'.

(** ** Worlds from which the run goes on *)

(** What handling events and making result objects leaves of a heap: the
    group results stay as they are, and no table gets shorter. *)
Definition Extends (σ σ' : Store.t) : Prop :=
  (exists l, Store.describes σ' = Store.describes σ ++ l) /\
  (length (Store.runs σ) <= length (Store.runs σ'))%nat /\
  (length (Store.targets σ) <= length (Store.targets σ'))%nat /\
  (length (Store.tasks σ) <= length (Store.tasks σ'))%nat.

(** [w'] comes after [w] by the visit of members: the cursors of the result
    handler other than [#testResult] and [#expectResult] are where they
    were. *)
Definition Steady (w w' : World) : Prop := Outer w w' /\ Follows w w'.

(** The visit of a valid member returns; a group is visited where the
    result handler holds the parent the walker passes. *)
Definition memberReturns (this : TestTreeWorker) (m : TestMember) : Prop :=
  forall mode parent w,
    Ready w -> validate m = [] ->
    (brand m = Describe -> ResultHandler.describeResult (resultHandler w) = parent) ->
    exists w', visitMember this m mode parent w = Some w' /\ Steady w w'.

(** Between the tasks of a target: the result handler holds the run [r]
    and the target [g], whose result object exists, and no group. *)
Definition Idle (r g : nat) (w : World) : Prop :=
  ResultHandler.result (resultHandler w) = Some r /\
  ResultHandler.targetResult (resultHandler w) = Some g /\
  ResultHandler.describeResult (resultHandler w) = None /\
  (g < length (Store.targets (heap w)))%nat.

(** Between the targets of a run. *)
Definition Open (r : nat) (w : World) : Prop :=
  ResultHandler.result (resultHandler w) = Some r /\
  ResultHandler.describeResult (resultHandler w) = None.

(** ** Entries of a [Map] *)


(** * Examples

    Small trees, files and worlds on which the statements are run. The flags
    are those of [TestMemberFlags]: Fail is 1, Only is 2, Skip is 4 and Todo
    is 8. *)

Definition explanation : list Diagnostic :=
  [Diagnostic_error ["The source type is not 'string'."%string]].

(** [expect<string>().type.toBeString()] and [expect<number>().type.toBeString()] *)
Definition passing : Assertion := mkAssertion false "toBeString" true false (Returns true explanation).
Definition failing : Assertion := mkAssertion false "toBeString" true false (Returns false explanation).

Definition expectOf (flags : Z) (a : Assertion) (start : Z) : TestMember :=
  mkExpect [] flags [] "expect" start a.
Definition testOf (flags : Z) (name : string) (start : Z) (members : list TestMember) : TestMember :=
  mkTest [] flags members name start.
Definition describeOf (diagnostics : list TsDiagnostic) (name : string) (start : Z)
    (members : list TestMember) : TestMember :=
  mkDescribe diagnostics 0 members name start.

Definition fileOf (members : list TestMember) : OpenedFile :=
  mkOpenedFile (Some "tsconfig.json"%string) [] true [] true true (mkTestTree [] members).

Definition plainConfig : ResolvedConfig := mkResolvedConfig false None None ["5.4"%string].
Definition failFastConfig : ResolvedConfig :=
  mkResolvedConfig true None None ["5.3"; "5.4"]%string.

Definition firstTask : Task := mkTask "first.tst.ts" None.
Definition secondTask : Task := mkTask "second.tst.ts" None.

(** A store service with every version installed: it publishes nothing,
    and its compilers open [first] for the first task and [second] for any
    other. *)
Definition loadOf (first second : OpenedFile) (versionTag : string) (published : list Event)
    : list StoreEvent * option Compiler :=
  ([], Some (mkCompiler versionTag
               (fun task => if String.eqb (filePath task) "first.tst.ts" then first else second))).

(** A store service that installs version 5.3 on the way and cannot add
    any other version. *)
Definition installing (first second : OpenedFile) (versionTag : string)
    (published : list Event) : list StoreEvent * option Compiler :=
  if String.eqb versionTag "5.3" then
    ([Adds "/store/typescript@5.3.3" "5.3.3"],
     Some (mkCompiler "5.3.3"
             (fun task => if String.eqb (filePath task) "first.tst.ts" then first else second)))
  else ([Fails ["Cannot add the 'typescript' package for the '5.4' tag."%string]], None).

(** The world after [run:start] and [target:start] of a run of
    [plainConfig]: the state in which [TaskRunner.run] is called. *)
Definition targetWorld : World :=
  mkWorld [RunStart 0; TargetStart 0]
    (ResultHandler.mk None None None (Some 0%nat) (Some 0%nat) None None)
    None CancellationToken.new
    (Store.mk [Result.new] [TargetResult.new "5.4"] [] [] [] []).

(** The world after [project:uses] and [task:start] for the first task:
    the state in which the walker starts. *)
Definition readyWorld : World :=
  mkWorld [RunStart 0; TargetStart 0; ProjectUses "5.4" (Some "tsconfig.json"%string); TaskStart 0]
    (ResultHandler.mk None None (Some (0%nat, Some "tsconfig.json"%string))
       (Some 0%nat) (Some 0%nat) (Some 0%nat) None)
    None CancellationToken.new
    (Store.mk [Result.new]
       [TargetResult.mk [(Some "tsconfig.json"%string,
                          ProjectResult.mk "5.4" (Some "tsconfig.json"%string) [])] Runs "5.4"]
       [TaskResult.new "first.tst.ts"] [] [] []).

(** The walker of [plainConfig] for a file without an Only flag. *)
Definition plainWorker : TestTreeWorker := new_TestTreeWorker plainConfig false None 0.

(** Three cases, two passing and one failing, holding five assertions, four
    passing and one failing. *)
Definition threeCases : list TestMember :=
  [testOf 0 "first" 10 [expectOf 0 passing 11; expectOf 0 passing 12];
   testOf 0 "second" 20 [expectOf 0 passing 21; expectOf 0 failing 22];
   testOf 0 "third" 30 [expectOf 0 passing 31]].

(** Three cases, the second one flagged Only. *)
Definition onlySecond : list TestMember :=
  [testOf 0 "first" 10 [expectOf 0 passing 11];
   testOf 2 "second" 20 [expectOf 0 passing 21];
   testOf 0 "third" 30 [expectOf 0 failing 31]].

(** Three cases: one flagged Only, one flagged Todo, one without flags. *)
Definition onlyAndTodo : list TestMember :=
  [testOf 2 "first" 10 [expectOf 0 passing 11];
   testOf 8 "second" 20 [];
   testOf 0 "third" 30 [expectOf 0 passing 31]].

(** A case flagged Todo with two assertions. *)
Definition todoCase : TestMember :=
  testOf 8 "later" 10 [expectOf 0 passing 11; expectOf 0 failing 12].

(** A group with an attached diagnostic, and a case that follows it. *)
Definition brokenGroup : TestMember :=
  describeOf ["Argument of type 'number' is not assignable."%string] "group" 10
    [testOf 0 "inside" 11 [expectOf 0 passing 12]].
Definition laterCase : TestMember := testOf 0 "after" 20 [expectOf 0 passing 21].


(** A case whose first assertion fails. *)
Definition failingCase : TestMember :=
  testOf 0 "fails" 10 [expectOf 0 failing 11; expectOf 0 passing 12].

(** A watch session over the first task, awaiting its first batch. *)
Definition watching : WatchService.t := WatchService.new [firstTask] CancellationToken.new.

(** * Streams of events

    A run is read off the stream of the events it publishes. The kinds of
    result objects are the brackets of the stream: [run], [target], [task],
    [describe], [test] and [expect] each have an event that opens a result
    and events that close it. *)

Inductive Bracket :=
  RunBracket | TargetBracket | TaskBracket | DescribeBracket | TestBracket | ExpectBracket.

Definition opens (k : Bracket) (ev : Event) : bool :=
  match k, ev with
  | RunBracket, RunStart _ | TargetBracket, TargetStart _ | TaskBracket, TaskStart _
  | DescribeBracket, DescribeStart _ | TestBracket, TestStart _
  | ExpectBracket, ExpectStart _ => true
  | _, _ => false
  end.

Definition closes (k : Bracket) (ev : Event) : bool :=
  match k, ev with
  | RunBracket, RunEnd _ | TargetBracket, TargetEnd _ | TaskBracket, TaskEnd _
  | DescribeBracket, DescribeEnd _ => true
  | TestBracket, _ => testTerminal ev
  | ExpectBracket, _ => expectTerminal ev
  | _, _ => false
  end.

(** What an event adds to the number of open results of a kind. *)
Definition level (k : Bracket) (ev : Event) : Z :=
  (if opens k ev then 1 else 0) - (if closes k ev then 1 else 0).

(** The number of results of kind [k] a stream leaves open, and the lowest
    this number gets along the stream. *)
Definition net (k : Bracket) (evs : list Event) : Z :=
  fold_right (fun ev z => level k ev + z) 0 evs.
Definition low (k : Bracket) (evs : list Event) : Z :=
  fold_right (fun ev z => Z.min 0 (level k ev + z)) 0 evs.
Definition span (k : Bracket) (evs : list Event) : Z * Z := (net k evs, low k evs).

(** The span of a stream followed by another, of one event, and of the empty
    stream. *)
Definition compose (i j : Bracket -> Z * Z) (k : Bracket) : Z * Z :=
  (fst (i k) + fst (j k), Z.min (snd (i k)) (fst (i k) + snd (j k))).
Definition step (ev : Event) (k : Bracket) : Z * Z := (level k ev, Z.min 0 (level k ev)).
Definition idle (k : Bracket) : Z * Z := (0, 0).

(** The events of a stream all satisfy [P], and its spans are [i]. *)
Definition Spans (P : Event -> bool) (i : Bracket -> Z * Z) (evs : list Event) : Prop :=
  forallb P evs = true /\ forall k, span k evs = i k.

(** The events the walker of a test tree publishes, those of
    [ProjectService.openFile], and those of a task. *)
Definition walkerEvent (ev : Event) : bool :=
  match ev with
  | DescribeStart _ | DescribeEnd _
  | TestStart _ | TestError _ _ | TestFail _ | TestPass _ | TestSkip _ | TestTodo _
  | ExpectStart _ | ExpectError _ _ | ExpectFail _ _ | ExpectPass _ | ExpectSkip _
  | TaskError _ _ | DeprecationInfo _ => true
  | _ => false
  end.
Definition projectEvent (ev : Event) : bool :=
  match ev with ProjectUses _ _ | ProjectError _ => true | _ => false end.
Definition taskEvent (ev : Event) : bool :=
  walkerEvent ev || projectEvent ev ||
  match ev with TaskStart _ | TaskEnd _ => true | _ => false end.
Definition isTargetEvent (ev : Event) : bool :=
  match ev with TargetStart _ | TargetEnd _ => true | _ => false end.
(** The events of [StoreService.load]. *)
Definition isStoreEvent (ev : Event) : bool :=
  match ev with StoreAdds _ _ | StoreError _ => true | _ => false end.
(** The events between [run:start] and [run:end]. *)
Definition runEvent (ev : Event) : bool :=
  taskEvent ev || isTargetEvent ev || isStoreEvent ev.

(** Every call of [StoreService.load] returns a compiler for the version. *)
Definition loads (load : string -> list Event -> list StoreEvent * option Compiler)
    (versionTag : string) : Prop :=
  forall published, is_Some (snd (load versionTag published)).

(** The events under which nothing is run: a member that is skipped
    publishes only these. *)
Definition quietEvent (ev : Event) : bool :=
  match ev with
  | DescribeStart _ | DescribeEnd _ | TestStart _ | TestSkip _ | TestTodo _
  | ExpectStart _ | ExpectSkip _ | TaskError _ _ => true
  | _ => false
  end.

(** The event carries a diagnostic of the category error. *)
Definition carriesError (ev : Event) : bool :=
  match payload_diagnostics ev with
  | Some ds => existsb isError ds
  | None => false
  end.

(** The cancellation token after the cancellation handler, if one is
    added, has seen a stream. *)
Definition relay (handler : option CancellationReason) (evs : list Event)
    (token : CancellationToken.t) : CancellationToken.t :=
  fold_left (fun token ev =>
               match handler with
               | Some reason => CancellationHandler.handleEvent reason ev token
               | None => token
               end) evs token.

(** [w'] is [w] after the stream [evs] was published. *)
Definition Emits (evs : list Event) (w w' : World) : Prop :=
  log w' = log w ++ evs /\
  cancellationHandler w' = cancellationHandler w /\
  cancellationToken w' = relay (cancellationHandler w) evs (cancellationToken w).

(** The versions the [TargetResult] objects of a world were made for. *)
Definition targetsOf (w : World) : list string :=
  map TargetResult.versionTag (Store.targets (heap w)).

(** [w'] is [w] after a stream of events that satisfy [P] and span [i],
    published without a new [Result] or [TargetResult]. *)
Definition Traces (P : Event -> bool) (i : Bracket -> Z * Z) (w w' : World) : Prop :=
  exists evs, Emits evs w w' /\ Spans P i evs /\
    length (Store.runs (heap w')) = length (Store.runs (heap w)) /\
    targetsOf w' = targetsOf w.

Definition memberTraces (this : TestTreeWorker) (m : TestMember) : Prop :=
  forall mode parent w w',
    visitMember this m mode parent w = Some w' -> Traces walkerEvent idle w w'.

(** ** ExitCodeHandler *)

Module ExitCodeHandler.
(** [handleEvent([eventName, payload])], over [process.exitCode]. *)
Definition handleEvent (ev : Event) (exitCode : Z) : Z :=
  match ev with
  | RunStart _ => 0
  | _ =>
      match payload_diagnostics ev with
      | Some ds => if existsb isError ds then 1 else exitCode
      | None => exitCode
      end
  end.
End ExitCodeHandler.

(** [process.exitCode] after the handler has seen a stream. *)
Definition exitCodeAfter (evs : list Event) (exitCode : Z) : Z :=
  fold_left (fun code ev => ExitCodeHandler.handleEvent ev code) evs exitCode.

(** Visited in a mode that has the Skip bit, a member publishes only
    events under which nothing is run. *)
Definition memberQuiet (this : TestTreeWorker) (m : TestMember) : Prop :=
  forall mode parent w w',
    Z.testbit mode 2 = true ->
    visitMember this m mode parent w = Some w' -> Traces quietEvent idle w w'.

(** ** Watch sessions *)

(** An entry of the maps of [WatchService]: a task under its own path, for a
    file that was given to the constructor or is a test file. *)
Definition entryOk (origin : string -> bool) (kv : string * Task) : Prop :=
  filePath (snd kv) = fst kv /\ origin (fst kv) = true.

(** The files a watch session was started with, and the test files. *)
Definition watchable (isTestFile : string -> bool) (tasks : list Task) (f : string) : bool :=
  isTestFile f || existsb (String.eqb f) (map filePath tasks).

(** What the callbacks keep of a session. *)
Definition WatchInv (origin : string -> bool) (s : WatchService.t) : Prop :=
  List.NoDup (map fst (WatchService.changedTestFiles s)) /\
  List.NoDup (map fst (WatchService.watchedTestFiles s)) /\
  List.Forall (entryOk origin) (WatchService.changedTestFiles s) /\
  List.Forall (entryOk origin) (WatchService.watchedTestFiles s) /\
  List.Forall (fun batch : list Task =>
            batch <> [] /\ List.NoDup (map filePath batch) /\
            List.Forall (fun task => origin (filePath task) = true) batch)
         (WatchService.yielded s) /\
  (forall timer, In timer (WatchService.timers s) -> WatchService.timeout s = Some timer) /\
  (WatchService.closed s = true ->
   WatchService.timers s = [] /\
   CancellationToken.isCancellationRequested (WatchService.token s) = true).


(** The session in which [timer], made last, is the one pending timer. *)
Definition armed (timer : nat) (s : WatchService.t) : WatchService.t :=
  WatchService.set_timeout (Some timer)
    (WatchService.set_nextTimer (S timer) (WatchService.set_timers [timer] s)).

(** The file [f] is neither watched nor pending. *)
Definition Forgotten (f : string) (s : WatchService.t) : Prop :=
  ~ In f (map fst (WatchService.changedTestFiles s)) /\
  ~ In f (map fst (WatchService.watchedTestFiles s)).

(** Where the generator of a session can be: it has returned when it was
    started with a cancelled token (the promise of [setup] is then never
    made), and it awaits no promise once the session is closed. *)
Definition PhaseInv (s : WatchService.t) : Prop :=
  (WatchService.resolver s = false -> WatchService.phase s = Returned) /\
  (WatchService.closed s = true -> WatchService.phase s <> Awaiting).

(** * Version

    [Version.#satisfies] splits both version strings at every [.] and [-]
    and compares the elements as strings, one index after the other. The
    comparison of strings by [<] and [>] is the one of their code units;
    the model has it on the codes of the characters. *)

Module Version.
Definition isSeparator (c : ascii) : bool := Ascii.eqb c "." || Ascii.eqb c "-".

(** [text.split(/\.|-/)]: the array is never empty; it is given as its
    first element and the elements that follow. *)
Fixpoint split (text : string) : string * list string :=
  match text with
  | EmptyString => (EmptyString, [])
  | String c rest =>
      let '(element, elements) := split rest in
      if isSeparator c then (EmptyString, element :: elements)
      else (String c element, elements)
  end.

(** [compare(index)], over the elements from [index] on: [sourceElement]
    and [targetElement] are the elements at [index], and [index] is the
    last index of an array when no element follows in it. *)
Fixpoint compare (sourceElement : string) (sourceRest : list string)
    (targetElement : string) (targetRest : list string) : bool :=
  if String.ltb targetElement sourceElement then true
  else if String.ltb sourceElement targetElement then false
  else
    match sourceRest, targetRest with
    | s :: sourceRest', t :: targetRest' => compare s sourceRest' t targetRest'
    | _, _ => true
    end.

(** [Version.#satisfies] *)
Definition satisfies (source target : string) : bool :=
  let '(s, sourceRest) := split source in
  let '(t, targetRest) := split target in
  compare s sourceRest t targetRest.

Definition isGreaterThan (source target : string) : bool :=
  negb (String.eqb source target) && satisfies source target.

Definition isSatisfiedWith (source target : string) : bool :=
  String.eqb source target || satisfies source target.

(** [/^\d+/.test(target)] *)
Definition isVersionTag (target : string) : bool :=
  match target with
  | String c _ => (48 <=? nat_of_ascii c)%nat && (nat_of_ascii c <=? 57)%nat
  | EmptyString => false
  end.

(** The array [text.split(/\.|-/)]. *)
Definition elements (text : string) : list string :=
  let '(element, rest) := split text in element :: rest.
End Version.

(** * CommandLineOptionsWorker *)

Module CommandLine.
Inductive OptionBrand := BareTrue | Boolean | ListOf | StringOf.

Record OptionDefinition := mkDefinition {
  brand : OptionBrand;
  group : Z;
  name : string;
}.

(** [OptionDefinitionsMap.#definitions], without the descriptions. *)
Definition definitions : list OptionDefinition :=
  [mkDefinition StringOf 4 "$schema";
   mkDefinition StringOf 2 "config";
   mkDefinition Boolean (bitor 4 2) "failFast";
   mkDefinition BareTrue 2 "help";
   mkDefinition BareTrue 2 "install";
   mkDefinition BareTrue 2 "listFiles";
   mkDefinition StringOf 2 "only";
   mkDefinition BareTrue 2 "prune";
   mkDefinition StringOf 4 "rootPath";
   mkDefinition BareTrue 2 "showConfig";
   mkDefinition StringOf 2 "skip";
   mkDefinition ListOf (bitor 2 4) "target";
   mkDefinition ListOf 4 "testFileMatch";
   mkDefinition BareTrue 2 "update";
   mkDefinition BareTrue 2 "version";
   mkDefinition BareTrue 2 "watch"]%string.

(** [OptionDefinitionsMap.for(optionGroup)] *)
Definition definitionsFor (optionGroup : Z) : list (string * OptionDefinition) :=
  fold_left (fun m definition =>
               if truthy (bitand (group definition) optionGroup)
               then JsMap.set (name definition) definition m else m)
            definitions [].

(** The value of an option: [true] or [false], a string, or a list. *)
Inductive OptionValue :=
  | BooleanValue (b : bool)
  | StringValue (s : string)
  | ListValue (l : list string).

(** A diagnostic handed to [onDiagnostics], by what made it: the text
    [unknownOption], the text [expectsValue], or the validator. *)
Inductive ConfigDiagnostic :=
  | UnknownOption (optionName : string)
  | ExpectsValue (optionName : string)
  | FromValidator (diagnostic : Diagnostic).

Record State := mkState {
  commandLineOptions : list (string * OptionValue);
  pathMatch : list string;
  diagnostics : list ConfigDiagnostic;
}.

(** [text.startsWith(prefix)] *)
Definition startsWith (text prefix : string) : bool := String.prefix prefix text.

(** [arg.slice(2)] *)
Definition slice2 (arg : string) : string :=
  String.substring 2 (String.length arg - 2) arg.

(** [text.split(",")] *)
Fixpoint splitAtCommas (text : string) : list string :=
  match text with
  | EmptyString => [EmptyString]
  | String c rest =>
      match splitAtCommas rest with
      | element :: elements =>
          if Ascii.eqb c "," then EmptyString :: element :: elements
          else String c element :: elements
      | [] => [String c EmptyString]
      end
  end.

(** White space, among the characters of a byte string. *)
Definition isWhiteSpace (c : ascii) : bool :=
  let n := nat_of_ascii c in
  ((9 <=? n) && (n <=? 13) || (n =? 32) || (n =? 160))%nat.

Fixpoint trimStart (text : string) : string :=
  match text with
  | String c rest => if isWhiteSpace c then trimStart rest else text
  | EmptyString => EmptyString
  end.
Fixpoint trimEnd (text : string) : string :=
  match text with
  | String c rest =>
      match trimEnd rest with
      | EmptyString => if isWhiteSpace c then EmptyString else String c EmptyString
      | rest' => String c rest'
      end
  | EmptyString => EmptyString
  end.
(** [value.trim()] *)
Definition trim (text : string) : string := trimEnd (trimStart text).

Section Worker.
(** [OptionValidator.check], by the diagnostics it hands over; and the
    two functions of [Path]. *)
Variable check : string -> string -> list Diagnostic.
Variable Path_resolve : string -> string.
Variable Path_normalizeSlashes : string -> string.

Definition onDiagnostics (ds : list ConfigDiagnostic) (st : State) : State :=
  mkState (commandLineOptions st) (pathMatch st) (diagnostics st ++ ds).
Definition setOption (optionName : string) (v : OptionValue) (st : State) : State :=
  mkState (JsMap.set optionName v (commandLineOptions st)) (pathMatch st) (diagnostics st).
Definition pushPathMatch (p : string) (st : State) : State :=
  mkState (commandLineOptions st) (pathMatch st ++ [p]) (diagnostics st).

Definition validate (optionName optionValue : string) (st : State) : State :=
  onDiagnostics (map FromValidator (check optionName optionValue)) st.

(** [#resolveOptionValue(target = "")]; [None] is [undefined]. *)
Definition resolveOptionValue (target : option string) : string :=
  match target with
  | Some target => if startsWith target "-" then EmptyString else target
  | None => EmptyString
  end.

(** [#parseOptionValue]: whether the index moves on by one, and the
    state. *)
Definition parseOptionValue (next : option string) (definition : OptionDefinition)
    (st : State) : bool * State :=
  let optionValue := resolveOptionValue next in
  match brand definition with
  | BareTrue =>
      let st := validate (name definition) optionValue st in
      (false, setOption (name definition) (BooleanValue true) st)
  | Boolean =>
      let st := validate (name definition) optionValue st in
      let st := setOption (name definition)
                  (BooleanValue (negb (String.eqb optionValue "false"))) st in
      (String.eqb optionValue "false" || String.eqb optionValue "true", st)
  | ListOf =>
      if negb (String.eqb optionValue "") then
        let optionValues :=
          List.filter (fun value => negb (String.eqb value ""))
            (map trim (splitAtCommas optionValue)) in
        let st := fold_left (fun st value => validate (name definition) value st)
                    optionValues st in
        (true, setOption (name definition) (ListValue optionValues) st)
      else (false, onDiagnostics [ExpectsValue (name definition)] st)
  | StringOf =>
      if negb (String.eqb optionValue "") then
        let optionValue :=
          if String.eqb (name definition) "config" then Path_resolve optionValue
          else optionValue in
        let st := validate (name definition) optionValue st in
        (true, setOption (name definition) (StringValue optionValue) st)
      else (false, onDiagnostics [ExpectsValue (name definition)] st)
  end.

(** One round of the [while] loop of [parse], on the argument at
    [index] and the one after it. *)
Definition parseArg (arg : string) (next : option string) (st : State) : bool * State :=
  if startsWith arg "--" then
    match JsMap.get (slice2 arg) (definitionsFor 2) with
    | Some definition => parseOptionValue next definition st
    | None => (false, onDiagnostics [UnknownOption arg] st)
    end
  else if startsWith arg "-" then (false, onDiagnostics [UnknownOption arg] st)
  else (false, pushPathMatch (Path_normalizeSlashes arg) st).

(** [parse(commandLineArgs)], over the arguments from [index] on. *)
Fixpoint parse (commandLineArgs : list string) (st : State) : State :=
  match commandLineArgs with
  | [] => st
  | arg :: rest =>
      let '(moved, st) := parseArg arg (head rest) st in
      match rest with
      | _ :: rest' => if moved then parse rest' st else parse rest st
      | [] => st
      end
  end.
End Worker.

(** The diagnostic is an [unknownOption] one. *)
Definition isUnknownOption (d : ConfigDiagnostic) : bool :=
  match d with UnknownOption _ => true | _ => false end.

(** The argument starts with a dash and does not name an option. *)
Definition unknownDash (arg : string) : bool :=
  startsWith arg "-" &&
  negb (startsWith arg "--" && bool_decide (is_Some (JsMap.get (slice2 arg) (definitionsFor 2)))).

(** What a step leaves of a state: the same path matches, and no new
    [unknownOption] diagnostic. *)
Definition quietly (st st1 : State) : Prop :=
  pathMatch st1 = pathMatch st /\
  List.filter isUnknownOption (diagnostics st1) = List.filter isUnknownOption (diagnostics st).

(** The option was handled: it was given a value, or the diagnostic
    [expectsValue] was handed over for it. *)
Definition handled (optionName : string) (st : State) : Prop :=
  is_Some (JsMap.get optionName (commandLineOptions st)) \/
  In (ExpectsValue optionName) (diagnostics st).

(** Where the value of an option was read: a string or a list in an
    argument that does not start with a dash, and [false] in the argument
    [false]. *)
Definition readFrom (Path_resolve : string -> string) (commandLineArgs : list string)
    (v : OptionValue) : Prop :=
  match v with
  | BooleanValue b => b = false -> In "false"%string commandLineArgs
  | StringValue text =>
      exists arg, In arg commandLineArgs /\ startsWith arg "-" = false /\
        (text = arg \/ text = Path_resolve arg)
  | ListValue elements =>
      exists arg, In arg commandLineArgs /\ startsWith arg "-" = false /\
        elements = List.filter (fun value => negb (String.eqb value ""))
                     (map trim (splitAtCommas arg))
  end.

(** The options of a state are those of another, or were read from the
    arguments. *)
Definition optionsFrom (Path_resolve : string -> string) (commandLineArgs : list string)
    (st st1 : State) : Prop :=
  forall optionName v,
    JsMap.get optionName (commandLineOptions st1) = Some v ->
    JsMap.get optionName (commandLineOptions st) = Some v \/
    readFrom Path_resolve commandLineArgs v.

(** What was handled stays handled. *)
Definition keeps (st st1 : State) : Prop :=
  forall optionName, handled optionName st -> handled optionName st1.
End CommandLine.

(** * EventEmitter

    The static [#handlers] and the [#scopeHandlers] of each instance are
    sets of handler objects. A set keeps its elements in the order in which
    they were added, each once; a handler object is named by a number, and
    so is an instance. *)

Module JsSet.
Definition add (x : nat) (s : list nat) : list nat :=
  if existsb (Nat.eqb x) s then s else s ++ [x].
Definition delete (x : nat) (s : list nat) : list nat :=
  List.filter (fun y => negb (Nat.eqb x y)) s.
End JsSet.

Module EventEmitter.
Record t := mk {
  handlers : list nat;               (* [EventEmitter.#handlers] *)
  scopeHandlers : nat -> list nat;   (* [#scopeHandlers] of each instance *)
}.

(** Before any handler is added. *)
Definition new : t := mk [] (fun _ => []).





(** [EventEmitter.dispatch(event)]: the handlers that are called, in the
    order of the calls. *)
Definition dispatch (st : t) : list nat := handlers st.



End EventEmitter.

(** ** The status of a file *)

Definition isTaskError (ev : Event) : bool :=
  match ev with TaskError _ _ => true | _ => false end.

(** The events that make a file fail: [task:error], an assertion that
    failed and a case that failed. *)
Definition failsTheFile (ev : Event) : bool :=
  isTaskError ev || isExpectFailure ev || isTestFailure ev.

(** An event between the [task:start] and the [task:end] of a file. *)
Definition insideTask (ev : Event) : bool := negb (isTaskStart ev) && negb (isTaskEnd ev).

(** * IdentifierLookup

    The callee of a call expression, as [resolveTestMemberMeta] reads it:
    a property access has an inner expression and a name; every expression
    has its source text. *)

Module IdentifierLookup.
Inductive Expression :=
  | PropertyAccessExpression (expression : Expression) (name : string) (text : string)
  | OtherExpression (text : string).

Definition getText (e : Expression) : string :=
  match e with
  | PropertyAccessExpression _ _ text | OtherExpression text => text
  end.

(** [#identifiers]: the object [namedImports], with its keys in the order
    in which they were written, and [namespace]; [None] is [undefined]. *)
Record Identifiers := mkIdentifiers {
  namedImports : list (string * option string);
  namespace : option string;
}.

(** The identifiers of a new [IdentifierLookup]. *)
Definition new : Identifiers :=
  mkIdentifiers
    [("describe", None); ("expect", None); ("it", None); ("namespace", None); ("test", None)]%string
    None.

(** The [switch] on the name of a property access. *)
Definition addFlag (flags : Z) (name : string) : Z :=
  if String.eqb name "fail" then bitor flags 1
  else if String.eqb name "only" then bitor flags 2
  else if String.eqb name "skip" then bitor flags 4
  else if String.eqb name "todo" then bitor flags 8
  else flags.

(** The [while] loop: the flags and the expression it ends with. *)
Fixpoint walk (namespace : option string) (flags : Z) (expression : Expression)
    : Z * Expression :=
  match expression with
  | PropertyAccessExpression inner name _ =>
      if bool_decide (Some (getText inner) = namespace) then (flags, expression)
      else walk namespace (addFlag flags name) inner
  | OtherExpression _ => (flags, expression)
  end.

(** [Object.keys(namedImports).find((key) => namedImports[key] === text)] *)
Definition findKey (namedImports : list (string * option string)) (text : string)
    : option string :=
  fst <$> List.find (fun kv => bool_decide (snd kv = Some text)) namedImports.

(** [resolveTestMemberMeta(node)], over [node.expression]; [None] is
    [undefined]. *)
Definition resolveTestMemberMeta (this : Identifiers) (expression : Expression)
    : option (TestMemberBrand * Z) :=
  let '(flags, expression) := walk (namespace this) 0 expression in
  let identifierName :=
    match expression with
    | PropertyAccessExpression inner name _ =>
        if bool_decide (Some (getText inner) = namespace this) then Some name
        else findKey (namedImports this) (getText expression)
    | OtherExpression _ => findKey (namedImports this) (getText expression)
    end in
  match identifierName with
  | None => None
  | Some identifierName =>
      if String.eqb identifierName "" then None
      else if String.eqb identifierName "describe" then Some (Describe, flags)
      else if String.eqb identifierName "it" || String.eqb identifierName "test"
      then Some (Test, flags)
      else if String.eqb identifierName "expect" then Some (Expect, flags)
      else None
  end.

(** The names of the property accesses the loop goes through. *)
Fixpoint modifiers (namespace : option string) (expression : Expression) : list string :=
  match expression with
  | PropertyAccessExpression inner name _ =>
      if bool_decide (Some (getText inner) = namespace) then []
      else name :: modifiers namespace inner
  | OtherExpression _ => []
  end.

(** The flag a name stands for: Fail is 1, Only is 2, Skip is 4 and Todo
    is 8. *)
Definition flagOf (name : string) : Z :=
  if String.eqb name "fail" then 1
  else if String.eqb name "only" then 2
  else if String.eqb name "skip" then 4
  else if String.eqb name "todo" then 8
  else 0.
End IdentifierLookup.

(** * Manifest and ManifestService

    The metadata of the [typescript] package is given by the keys of its
    [versions], in their order, and by its [dist-tags]. The [packages] of a
    manifest are left out. *)

Module Manifest.
Record t := mk {
  resolutions : list (string * string);
  versions : list string;
}.

Definition isDigit (c : ascii) : bool :=
  ((48 <=? nat_of_ascii c) && (nat_of_ascii c <=? 57))%nat.

(** [/^(4|5)\.\d\.\d$/.test(tag)] *)
Definition isSupported (tag : string) : bool :=
  match tag with
  | String a (String b (String c (String d (String e EmptyString)))) =>
      (Ascii.eqb a "4" || Ascii.eqb a "5") && Ascii.eqb b "." && isDigit c
      && Ascii.eqb d "." && isDigit e
  | _ => false
  end.

(** [version.slice(0, -2)] *)
Definition minorOf (version : string) : string :=
  String.substring 0 (String.length version - 2) version.

(** [[...new Set(array)]] *)
Definition unique (array : list string) : list string :=
  fold_left (fun seen x => if existsb (String.eqb x) seen then seen else seen ++ [x]) array [].

(** [array.findLast(predicate)] *)
Definition findLast {A} (predicate : A -> bool) (array : list A) : option A :=
  List.find predicate (rev array).

(** [text.startsWith(prefix)] *)
Definition startsWith (text prefix : string) : bool := String.prefix prefix text.

(** [ManifestService.#load], from the response on. *)
Definition load (packageVersions : list string) (distTags : list (string * string)) : t :=
  let versions := List.filter isSupported packageVersions in
  let minorVersions := unique (map minorOf versions) in
  let resolutions :=
    fold_left (fun resolutions tag =>
                 match findLast (fun version => startsWith version tag) versions with
                 | Some resolvedVersion => JsMap.set tag resolvedVersion resolutions
                 | None => resolutions
                 end) minorVersions [] in
  let resolutions :=
    fold_left (fun resolutions tag =>
                 match JsMap.get tag distTags with
                 | Some version => JsMap.set tag version resolutions
                 | None => resolutions
                 end) ["beta"; "latest"; "next"; "rc"]%string resolutions in
  mk resolutions versions.

(** [resolve(tag)]; [None] is [undefined]. *)
Definition resolve (tag : string) (this : t) : option string :=
  if existsb (String.eqb tag) (versions this) then Some tag
  else JsMap.get tag (resolutions this).
End Manifest.

(** ** The members of a tree *)

(** A member and the members below it, at any depth. *)
Fixpoint allMembers (m : TestMember) : list TestMember :=
  m :: (fix below (ms : list TestMember) : list TestMember :=
          match ms with
          | [] => []
          | b :: ms' => allMembers b ++ below ms'
          end) (members m).

(** * SourceFile

    Positions are numbers; [None] for a character is the empty string that
    [charAt] gives outside the text, and for a number it is [NaN]. *)

Module SourceFile.
Definition CR : ascii := ascii_of_nat 13.
Definition LF : ascii := ascii_of_nat 10.

(** [text.charAt(index)] *)
Definition charAt (text : string) (index : Z) : option ascii :=
  if index <? 0 then None else String.get (Z.to_nat index) text.

(** [text.charAt(index) === c] *)
Definition charIs (text : string) (index : Z) (c : ascii) : bool :=
  match charAt text index with
  | Some x => Ascii.eqb x c
  | None => false
  end.

(** The [while] loop of [#createLineMap], one iteration for each unit of
    [fuel]; [None] when the fuel runs out. *)
Fixpoint createLineMap_loop (fuel : nat) (text : string) (position : Z) (result : list Z)
    : option (list Z) :=
  match fuel with
  | O => None
  | S fuel =>
      if position <? Z.of_nat (String.length text) then
        let position := if charIs text (position - 1) CR then position + 1 else position in
        let result := if charIs text (position - 1) LF then result ++ [position] else result in
        createLineMap_loop fuel text (position + 1) result
      else Some (result ++ [position])
  end.

(** [#createLineMap]: the loop runs at most once for each character. *)
Definition createLineMap (text : string) : option (list Z) :=
  createLineMap_loop (S (String.length text)) text 0 [0].

(** [array.findLastIndex(predicate)]: the last index at which the
    predicate holds, or -1. *)
Fixpoint findLastIndex_from {A} (predicate : A -> bool) (index : Z) (array : list A)
    (found : Z) : Z :=
  match array with
  | [] => found
  | x :: rest =>
      findLastIndex_from predicate (index + 1) rest (if predicate x then index else found)
  end.
Definition findLastIndex {A} (predicate : A -> bool) (array : list A) : Z :=
  findLastIndex_from predicate 0 array (-1).

(** [getLineAndCharacterOfPosition(position)] over the line map. *)
Definition getLineAndCharacterOfPosition (lineMap : list Z) (position : Z) : Z * option Z :=
  let line := findLastIndex (fun line => line <=? position) lineMap in
  let character :=
    if line <? 0 then None
    else (fun start => position - start) <$> lineMap !! Z.to_nat line in
  (line, character).
End SourceFile.

(** The numbers of a list are in ascending order. *)
Fixpoint ascending (l : list Z) : Prop :=
  match l with
  | [] => True
  | x :: rest => List.Forall (Z.lt x) rest /\ ascending rest
  end.

(** * JsonNode and JsonScanner

    A character is [None] where [charAt] gives the empty string; the text
    of a node is [None] where it is [undefined]. *)

(** Regular expressions of one character class. *)
Module RegExp.
(** The class tested on the first character that [charAt] gives. *)
Definition test (class : ascii -> bool) (character : option ascii) : bool :=
  match character with
  | Some c => class c
  | None => false
  end.
Definition among (characters : list ascii) (c : ascii) : bool :=
  existsb (Ascii.eqb c) characters.

Definition quote : ascii := ascii_of_nat 34.
(** [\s] *)
Definition whiteSpace : ascii -> bool := CommandLine.isWhiteSpace.
(** [\d] *)
Definition digit (c : ascii) : bool :=
  let n := nat_of_ascii c in ((48 <=? n) && (n <=? 57))%nat.
End RegExp.

Module JsonNode.
Import RegExp.

Record t := node {
  text : option string;
  origin : Z * Z;
}.

Fixpoint dropLast (text : string) : string :=
  match text with
  | EmptyString => EmptyString
  | String c EmptyString => EmptyString
  | String c rest => String c (dropLast rest)
  end.
(** [text.slice(1, -1)] *)
Definition slice1 (text : string) : string :=
  match text with
  | EmptyString => EmptyString
  | String _ rest => dropLast rest
  end.

Section Value.
(** The numbers of the language, and [Number.parseFloat]. *)
Variable Number : Type.
Variable parseFloat : string -> Number.

Inductive Value :=
| Undefined
| Text (value : string)
| Boolean (value : bool)
| Numeric (value : Number).

(** [getValue(options)], with [options?.expectsIdentifier] as a
    boolean. *)
Definition getValue (n : t) (expectsIdentifier : bool) : Value :=
  match text n with
  | None => Undefined
  | Some text =>
      if test (among ["'"%char; quote]) (String.get 0 text) then Text (slice1 text)
      else if expectsIdentifier then Text text
      else if String.eqb text "true" then Boolean true
      else if String.eqb text "false" then Boolean false
      else if test digit (String.get 0 text) then Numeric (parseFloat text)
      else Undefined
  end.
End Value.
End JsonNode.

(** The scanner of the configuration file: the text of the source file and
    two positions. *)
Module JsonScanner.
Import RegExp.

Record t := mk {
  sourceFile : string;
  currentPosition : Z;
  previousPosition : Z;
}.

Definition new (sourceFile : string) : t := mk sourceFile 0 0.

(** The characters that end a bare text: white space, a comma, a colon,
    a closing bracket or brace. *)
Definition delimiter (c : ascii) : bool :=
  whiteSpace c || among [","; ":"; "]"; "}"]%char c.
(** The characters that open a text: a bracket, a brace or a quote. *)
Definition opening (c : ascii) : bool :=
  among ["["; "{"; "'"; quote]%char c.

(** [character === token], for the result of [charAt] *)
Definition textOf (character : option ascii) : string :=
  match character with
  | Some c => String c EmptyString
  | None => EmptyString
  end.

Definition getOrigin (s : t) : Z * Z := (previousPosition s, currentPosition s).
Definition isRead (s : t) : bool :=
  negb (currentPosition s <? Z.of_nat (String.length (sourceFile s))).
Definition peekCharacter (s : t) : option ascii :=
  SourceFile.charAt (sourceFile s) (currentPosition s).
Definition peekNextCharacter (s : t) : option ascii :=
  SourceFile.charAt (sourceFile s) (currentPosition s + 1).

(** [this.#currentPosition += n] *)
Definition move (n : Z) (s : t) : t :=
  mk (sourceFile s) (currentPosition s + n) (previousPosition s).
(** [this.#previousPosition = this.#currentPosition] *)
Definition mark (s : t) : t :=
  mk (sourceFile s) (currentPosition s) (currentPosition s).
Definition readCharacter (s : t) : option ascii * t := (peekCharacter s, move 1 s).

(** The loops run at most once for each character of the text. *)
Definition fuelOf (s : t) : nat := S (String.length (sourceFile s)).

(** The loop over a line comment; [None] when the fuel runs out. *)
Fixpoint skipLineComment (fuel : nat) (s : t) : option t :=
  match fuel with
  | O => None
  | S fuel =>
      if isRead s then Some s
      else
        let '(c, s) := readCharacter s in
        if String.eqb (textOf c) (String SourceFile.LF EmptyString) then Some s
        else skipLineComment fuel s
  end.

(** The loop over a block comment. *)
Fixpoint skipBlockComment (fuel : nat) (s : t) : option t :=
  match fuel with
  | O => None
  | S fuel =>
      if isRead s then Some s
      else if String.eqb (textOf (peekCharacter s)) "*"
              && String.eqb (textOf (peekNextCharacter s)) "/"
      then Some (move 2 s)
      else skipBlockComment fuel (move 1 s)
  end.

(** The outer loop of [#skipTrivia]. *)
Fixpoint skipTrivia_loop (fuel : nat) (s : t) : option t :=
  match fuel with
  | O => None
  | S fuel =>
      if isRead s then Some s
      else if test whiteSpace (peekCharacter s) then skipTrivia_loop fuel (move 1 s)
      else if String.eqb (textOf (peekCharacter s)) "/" then
        if String.eqb (textOf (peekNextCharacter s)) "/" then
          match skipLineComment (fuelOf s) (move 2 s) with
          | Some s => skipTrivia_loop fuel s
          | None => None
          end
        else if String.eqb (textOf (peekNextCharacter s)) "*" then
          match skipBlockComment (fuelOf s) (move 2 s) with
          | Some s => skipTrivia_loop fuel s
          | None => None
          end
        else Some s
      else Some s
  end.

Definition skipTrivia (s : t) : option t :=
  match skipTrivia_loop (fuelOf s) s with
  | Some s => Some (mark s)
  | None => None
  end.

(** [peekToken(token)] *)
Definition peekToken (token : string) (s : t) : option (bool * t) :=
  match skipTrivia s with
  | Some s => Some (String.eqb (textOf (peekCharacter s)) token, s)
  | None => None
  end.

(** [readToken(token)] *)
Definition readToken (token : string) (s : t) : option (JsonNode.t * t) :=
  match skipTrivia s with
  | Some s =>
      let s := mark s in
      if String.eqb (textOf (peekCharacter s)) token then
        let s := move 1 s in
        Some (JsonNode.node (Some token) (getOrigin s), s)
      else Some (JsonNode.node None (getOrigin s), s)
  | None => None
  end.

(** [text.slice(-1)] *)
Fixpoint sliceLast (text : string) : string :=
  match text with
  | EmptyString => EmptyString
  | String c EmptyString => text
  | String _ rest => sliceLast rest
  end.

(** The closing token of an opening one. *)
Definition closingOf (text : string) : string :=
  if String.eqb text "[" then "]"
  else if String.eqb text "{" then "}"
  else text.

(** The [while] loop of [read]. *)
Fixpoint read_loop (fuel : nat) (text closingTokenText : string) (s : t)
    : option (string * t) :=
  match fuel with
  | O => None
  | S fuel =>
      if isRead s then Some (text, s)
      else
        let '(c, s) := readCharacter s in
        let text := (text ++ textOf c)%string in
        if String.eqb (sliceLast text) closingTokenText
           || (String.eqb closingTokenText EmptyString
               && test delimiter (peekCharacter s))
        then Some (text, s)
        else read_loop fuel text closingTokenText s
  end.

(** [read()] *)
Definition read (s : t) : option (JsonNode.t * t) :=
  match skipTrivia s with
  | Some s =>
      let s := mark s in
      if test delimiter (peekCharacter s) then Some (JsonNode.node None (getOrigin s), s)
      else
        let '(text, closingTokenText, s) :=
          if test opening (peekCharacter s) then
            let '(c, s) := readCharacter s in
            let text := (EmptyString ++ textOf c)%string in
            (text, closingOf text, s)
          else (EmptyString, EmptyString, s) in
        match read_loop (fuelOf s) text closingTokenText s with
        | Some (text, s) => Some (JsonNode.node (Some text) (getOrigin s), s)
        | None => None
        end
  | None => None
  end.

(** The positions of a scanner lie in its text. *)
Definition inText (s : t) : bool :=
  (0 <=? currentPosition s) && (currentPosition s <=? Z.of_nat (String.length (sourceFile s))).

(** [text.slice(start, end)], for positions of the text *)
Definition slice (text : string) (start finish : Z) : string :=
  String.substring (Z.to_nat start) (Z.to_nat (finish - start)) text.

(** A line or block comment starts at the current position. *)
Definition atComment (s : t) : bool :=
  String.eqb (textOf (peekCharacter s)) "/"
  && (String.eqb (textOf (peekNextCharacter s)) "/"
      || String.eqb (textOf (peekNextCharacter s)) "*").

(** Where the scanner stands after the trivia: not at white space and not
    at the start of a comment. *)
Definition atToken (s : t) : Prop :=
  test whiteSpace (peekCharacter s) = false /\ atComment s = false.

(** One scanner is ahead of another: the same text and mark, a position
    not before the other's and in the text. *)
Definition Ahead (s s' : t) : Prop :=
  sourceFile s' = sourceFile s /\ previousPosition s' = previousPosition s /\
  currentPosition s <= currentPosition s' <= Z.of_nat (String.length (sourceFile s)).

(** No character of the text is of the class. *)
Fixpoint free (class : ascii -> bool) (text : string) : bool :=
  match text with
  | EmptyString => true
  | String c rest => negb (class c) && free class rest
  end.

(** The text has no end of a block comment. *)
Fixpoint unclosed (body : string) : bool :=
  match body with
  | EmptyString => true
  | String c rest =>
      negb (Ascii.eqb c "*" && test (fun d => Ascii.eqb d "/") (String.get 0 rest))
      && unclosed rest
  end.

(** The scanner stands between the two parts of its text. *)
Definition At (s : t) (before after : string) : Prop :=
  sourceFile s = (before ++ after)%string /\
  currentPosition s = Z.of_nat (String.length before).

(** White space and comments; the flag tells that the last comment is
    not ended. *)
Inductive Trivia : bool -> string -> Prop :=
| Trivia_none : Trivia false EmptyString
| Trivia_space c rest o :
    whiteSpace c = true -> Trivia o rest -> Trivia o (String c rest)
| Trivia_line body rest o :
    free (Ascii.eqb SourceFile.LF) body = true -> Trivia o rest ->
    Trivia o ("//" ++ body ++ String SourceFile.LF rest)%string
| Trivia_block body rest o :
    unclosed body = true -> Trivia o rest ->
    Trivia o ("/*" ++ body ++ "*/" ++ rest)%string
| Trivia_line_open body :
    free (Ascii.eqb SourceFile.LF) body = true -> Trivia true ("//" ++ body)%string
| Trivia_block_open body :
    unclosed body = true -> Trivia true ("/*" ++ body)%string.
End JsonScanner.

(** ** The outcomes of files and targets, read off a stream *)

(** The events that make a target fail, besides a file that failed: a
    [store:error] with a diagnostic of the category error, [project:error]
    and [task:error]. *)
Definition failsTheTarget (ev : Event) : bool :=
  match ev with
  | StoreError ds => existsb isError ds
  | ProjectError _ | TaskError _ _ => true
  | _ => false
  end.

(** What a stream has told so far: whether an event since the last
    [task:start] fails the file, whether an event since the last
    [target:start] fails the target, and the numbers of files and of
    targets that have ended, failed and passed. *)
Record Outcomes := mkOutcomes {
  fileFails : bool;
  targetFails : bool;
  fileTally : ResultCount.t;
  targetTally : ResultCount.t;
}.

Definition outcome (o : Outcomes) (ev : Event) : Outcomes :=
  match ev with
  | TargetStart _ => mkOutcomes (fileFails o) false (fileTally o) (targetTally o)
  | TaskStart _ => mkOutcomes false (targetFails o) (fileTally o) (targetTally o)
  | TaskEnd _ =>
      if fileFails o
      then mkOutcomes true true (ResultCount.incr_failed (fileTally o)) (targetTally o)
      else mkOutcomes false (targetFails o) (ResultCount.incr_passed (fileTally o))
             (targetTally o)
  | TargetEnd _ =>
      if targetFails o
      then mkOutcomes (fileFails o) true (fileTally o) (ResultCount.incr_failed (targetTally o))
      else mkOutcomes (fileFails o) false (fileTally o)
             (ResultCount.incr_passed (targetTally o))
  | _ =>
      mkOutcomes (fileFails o || failsTheFile ev) (targetFails o || failsTheTarget ev)
        (fileTally o) (targetTally o)
  end.

Definition outcomesFrom (o : Outcomes) (evs : list Event) : Outcomes :=
  fold_left outcome evs o.

(** The outcomes of a stream that starts between two targets. *)
Definition outcomes (evs : list Event) : Outcomes :=
  outcomesFrom (mkOutcomes false false ResultCount.new ResultCount.new) evs.

(** The result handler and the result objects agree with the outcomes [o]
    of the stream so far, for the run [r] whose file and target counts
    were [files] and [targets] when the stream began: the counts of the
    run are those plus the tallies, the status and the counts of the file
    that is run tell whether it fails, and so does the status of the
    target that is run. *)
Definition Settled (r : nat) (files targets : ResultCount.t) (o : Outcomes)
    (s : ResultHandler.t * Store.t) : Prop :=
  (ResultHandler.result (fst s) = Some r \/ ResultHandler.result (fst s) = None) /\
  (exists x, Store.runs (snd s) !! r = Some x /\
     Result.fileCount x = ResultCount.add files (fileTally o) /\
     Result.targetCount x = ResultCount.add targets (targetTally o)) /\
  (forall k, ResultHandler.taskResult (fst s) = Some k ->
     exists y, Store.tasks (snd s) !! k = Some y /\
       is_failed (TaskResult.status y)
       || (0 <? ResultCount.failed (TaskResult.expectCount y))%nat
       || (0 <? ResultCount.failed (TaskResult.testCount y))%nat = fileFails o) /\
  (forall g, ResultHandler.targetResult (fst s) = Some g ->
     exists z, Store.targets (snd s) !! g = Some z /\
       is_failed (TargetResult.status z) = targetFails o).

(** ** The files a stream runs, target by target *)

(** The files the [TaskResult] objects of a heap were made for, and the
    versions its [TargetResult] objects were made for. *)
Definition pathsOf (σ : Store.t) : list string := map TaskResult.filePath (Store.tasks σ).
Definition versionsOf (σ : Store.t) : list string :=
  map TargetResult.versionTag (Store.targets σ).

(** The task and target results of [σ] are in [σ'], for the same files and
    versions. *)
Definition Holds (σ σ' : Store.t) : Prop :=
  (exists l, pathsOf σ' = pathsOf σ ++ l) /\ (exists l, versionsOf σ' = versionsOf σ ++ l).

(** The target that is run after an event, [g] being the one before. *)
Definition inTarget (g : option nat) (ev : Event) : option nat :=
  match ev with
  | TargetStart g' => Some g'
  | TargetEnd _ => None
  | _ => g
  end.

Definition taskStarted (ev : Event) : option nat :=
  match ev with TaskStart k => Some k | _ => None end.
Definition taskEnded (ev : Event) : option nat :=
  match ev with TaskEnd k => Some k | _ => None end.

(** For each event of a stream that [pick]s a task result, in their
    order: the version of the target that is run, and the file of the
    task result; a part is [None] when no target is run, or when the heap
    has no such result. *)
Fixpoint pairsOf (pick : Event -> option nat) (σ : Store.t) (g : option nat)
    (evs : list Event) : list (option string * option string) :=
  match evs with
  | [] => []
  | ev :: evs =>
      match pick ev with
      | Some k => [(g ≫= fun g => versionsOf σ !! g, pathsOf σ !! k)]
      | None => []
      end ++ pairsOf pick σ (inTarget g ev) evs
  end.

(** The pairs of a version and a file, the versions first. *)
Definition pairs (versions : list string) (tasks : list Task)
    : list (option string * option string) :=
  flat_map (fun versionTag => map (fun task => (Some versionTag, Some (filePath task))) tasks)
    versions.

(** The stream [evs] runs the file [path] once under the target that is
    run, whatever heap [σ] comes after [σ']: it starts and ends one task
    result, made for the file, and stays in the target. *)
Definition RunsFile (path : string) (σ' : Store.t) (evs : list Event) : Prop :=
  forall σ g, Holds σ' σ ->
    pairsOf taskStarted σ g evs = [(g ≫= fun g => versionsOf σ !! g, Some path)] /\
    pairsOf taskEnded σ g evs = [(g ≫= fun g => versionsOf σ !! g, Some path)] /\
    fold_left inTarget evs g = g.

(** The stream [evs] runs the files of [tasks] under its targets, made for
    [versions]. *)
Definition RunsTargets (versions : list string) (tasks : list Task) (σ' : Store.t)
    (evs : list Event) : Prop :=
  forall σ, Holds σ' σ ->
    pairsOf taskStarted σ None evs = pairs versions tasks /\
    pairsOf taskEnded σ None evs = pairs versions tasks /\
    fold_left inTarget evs None = None.

(** * Run-mode resolution *)

Lemma testbit_ToInt32 z i : 0 <= i < 32 -> Z.testbit (ToInt32 z) i = Z.testbit z i.
Proof.
  intros Hi. unfold ToInt32.
  assert (Hm : Z.testbit (z mod 2 ^ 32) i = Z.testbit z i)
    by (apply Z.mod_pow2_bits_low; lia).
  destruct (z mod 2 ^ 32 <? 2 ^ 31); [exact Hm|].
  rewrite <- Hm. set (m := z mod 2 ^ 32).
  transitivity (Z.testbit ((m - 2 ^ 32) mod 2 ^ 32) i).
  - symmetry. apply Z.mod_pow2_bits_low. lia.
  - replace (m - 2 ^ 32) with (m + (-1) * 2 ^ 32) by lia.
    rewrite Z_mod_plus_full. apply Z.mod_pow2_bits_low. lia.
Qed.

Lemma testbit_bitor a b i : 0 <= i < 32 ->
  Z.testbit (bitor a b) i = Z.testbit a i || Z.testbit b i.
Proof. intros. unfold bitor. now rewrite Z.lor_spec, !testbit_ToInt32. Qed.

Lemma testbit_bitand a b i : 0 <= i < 32 ->
  Z.testbit (bitand a b) i = Z.testbit a i && Z.testbit b i.
Proof. intros. unfold bitand. now rewrite Z.land_spec, !testbit_ToInt32. Qed.

Lemma testbit_bitnot a i : 0 <= i < 32 ->
  Z.testbit (bitnot a) i = negb (Z.testbit a i).
Proof. intros. unfold bitnot. rewrite Z.lnot_spec by lia. now rewrite testbit_ToInt32. Qed.

Lemma testbit_cond_bitor (b : bool) m c i : 0 <= i < 32 ->
  Z.testbit (if b then bitor m c else m) i = Z.testbit m i || (b && Z.testbit c i).
Proof.
  intros Hi. destruct b; simpl.
  - now apply testbit_bitor.
  - now rewrite orb_false_r.
Qed.

Lemma testbit_cond (b : bool) c i :
  Z.testbit (if b then c else 0) i = b && Z.testbit c i.
Proof. destruct b; simpl; [reflexivity | apply Z.testbit_0_l]. Qed.

Lemma testbit_two i : Z.testbit 2 i = (i =? 1).
Proof. rewrite Z.eqb_sym. apply (Z.pow2_bits_eqb 1 i). lia. Qed.

Lemma testbit_four i : Z.testbit 4 i = (i =? 2).
Proof. rewrite Z.eqb_sym. apply (Z.pow2_bits_eqb 2 i). lia. Qed.

Lemma resolveRunMode_testbit this mode member i : 0 <= i < 32 ->
  Z.testbit (resolveRunMode this mode member) i =
  if positionMatches (position this) member
  then (Z.testbit mode i || Z.testbit (localMode this member) i || (i =? 1)) && negb (i =? 2)
  else Z.testbit mode i || Z.testbit (localMode this member) i.
Proof.
  intros Hi. unfold resolveRunMode, localMode.
  rewrite !Z.lor_spec, !testbit_cond.
  destruct (positionMatches _ _).
  - rewrite testbit_bitand, testbit_bitor, testbit_bitnot by assumption.
    rewrite !testbit_cond_bitor by assumption.
    rewrite (testbit_two i), (testbit_four i).
    rewrite <- !orb_assoc. reflexivity.
  - rewrite !testbit_cond_bitor by assumption.
    rewrite <- !orb_assoc. reflexivity.
Qed.


(** * The walker *)

Lemma allocatedIn_weaken lo hi lo' hi' ev :
  (lo' <= lo)%nat -> (hi <= hi')%nat -> allocatedIn lo hi ev = true -> allocatedIn lo' hi' ev = true.
Proof.
  unfold allocatedIn. destruct (expectResultOf ev); [|reflexivity].
  rewrite !andb_true_iff, !Nat.leb_le, !Nat.ltb_lt. lia.
Qed.

Lemma forallb_allocatedIn_weaken lo hi lo' hi' evs :
  (lo' <= lo)%nat -> (hi <= hi')%nat ->
  forallb (allocatedIn lo hi) evs = true -> forallb (allocatedIn lo' hi') evs = true.
Proof.
  intros Hlo Hhi. rewrite !forallb_forall. intros H ev Hin.
  eapply allocatedIn_weaken; eauto.
Qed.

Lemma Frame_refl w : Frame w w.
Proof. split; auto. Qed.

Lemma Frame_trans w1 w2 w3 : Frame w1 w2 -> Frame w2 w3 -> Frame w1 w3.
Proof.
  intros [c1 h1 t1 n1 x1] [c2 h2 t2 n2 x2]. split; try congruence; try lia.
  intros H. rewrite t2, t1; congruence.
Qed.

Lemma Kept_refl w : Kept w w.
Proof. split; [apply Frame_refl|]. exists []. now rewrite app_nil_r. Qed.

Lemma Kept_trans w1 w2 w3 : Kept w1 w2 -> Kept w2 w3 -> Kept w1 w3.
Proof.
  intros [F1 (e1 & l1 & f1 & a1)] [F2 (e2 & l2 & f2 & a2)].
  split; [eapply Frame_trans; eauto|].
  destruct F1 as [_ _ _ _ x1], F2 as [_ _ _ _ x2].
  exists (e1 ++ e2). rewrite l2, l1, <- app_assoc, !forallb_app, f1, f2.
  repeat split; auto. apply andb_true_iff. split.
  - eapply forallb_allocatedIn_weaken; [| |exact a1]; lia.
  - eapply forallb_allocatedIn_weaken; [| |exact a2]; lia.
Qed.

Lemma Frame_Ready w w' : Frame w w' -> Ready w -> Ready w'.
Proof.
  intros [c _ _ _ _] (r & g & k). unfold Ready in *.
  destruct (resultHandler w), (resultHandler w'); simpl in *.
  inversion c; subst. auto.
Qed.

Lemma Kept_WellAllocated w w' : Kept w w' -> WellAllocated w -> WellAllocated w'.
Proof.
  intros [[_ _ _ _ x] (e & l & _ & a)] H. unfold WellAllocated in *.
  rewrite l, forallb_app. apply andb_true_iff. split.
  - eapply forallb_allocatedIn_weaken; [| |exact H]; lia.
  - eapply forallb_allocatedIn_weaken; [| |exact a]; lia.
Qed.

Ltac break_world w :=
  let l := fresh "l" in let h := fresh "h" in let ch := fresh "ch" in
  let tok := fresh "tok" in let σ := fresh "σ" in
  destruct w as [l h ch tok σ];
  let d := fresh "d" in let ex := fresh "ex" in let p := fresh "p" in
  let r := fresh "r" in let g := fresh "g" in let tk := fresh "tk" in let t := fresh "t" in
  destruct h as [d ex p r g tk t]; simpl in *.

Lemma expects_countExpect bump r k t σ :
  Store.expects (ResultHandler.countExpect bump r k t σ) = Store.expects σ.
Proof. unfold ResultHandler.countExpect. destruct t; reflexivity. Qed.

Lemma length_tests_countExpect bump r k t σ :
  length (Store.tests (ResultHandler.countExpect bump r k t σ)) = length (Store.tests σ).
Proof. unfold ResultHandler.countExpect. destruct t; simpl; now rewrite ?length_alter. Qed.

Ltac frame_tac :=
  split; simpl; auto;
  try (intros ->; reflexivity);
  rewrite ?length_alter, ?expects_countExpect, ?length_tests_countExpect, ?length_app;
  simpl; try lia.

(** [new ExpectResult(assertion, parentResult)] followed by [expect:start]. *)
Lemma dispatch_ExpectStart parent w :
  Ready w ->
  let e := length (Store.expects (heap w)) in
  exists w',
    dispatch (ExpectStart e)
      (on_heap (Store.on_expects (fun l => l ++ [ExpectResult.new parent])) w) = Some w' /\
    Frame w w' /\ log w' = log w ++ [ExpectStart e] /\
    length (Store.expects (heap w')) = S e /\
    ResultHandler.expectResult (resultHandler w') = Some e.
Proof.
  intros (_ & _ & [k Hk]). unfold dispatch. break_world w. subst.
  destruct t; simpl; eexists; (split; [reflexivity|]); simpl;
    rewrite ?length_app; simpl; (split; [|repeat split; lia]);
    frame_tac.
Qed.

Lemma dispatch_expectTerminal ev w :
  Ready w -> is_Some (ResultHandler.expectResult (resultHandler w)) ->
  expectTerminal ev = true ->
  exists w', dispatch ev w = Some w' /\ Frame w w' /\ log w' = log w ++ [ev] /\
    length (Store.expects (heap w')) = length (Store.expects (heap w)).
Proof.
  intros ([r' Hr] & _ & [k Hk]) [e He] Hev. unfold dispatch. break_world w. subst.
  destruct ev; try discriminate Hev; simpl;
    (eexists; split; [reflexivity|]); simpl;
    rewrite ?length_alter, ?expects_countExpect;
    (split; [|split; reflexivity]); frame_tac.
Qed.

Lemma dispatch_aside ev w :
  Ready w ->
  (match ev with TaskError _ _ | DeprecationInfo _ => True | _ => False end) ->
  exists w', dispatch ev w = Some w' /\ Frame w w' /\ log w' = log w ++ [ev] /\
    length (Store.expects (heap w')) = length (Store.expects (heap w)) /\
    ResultHandler.expectResult (resultHandler w') = ResultHandler.expectResult (resultHandler w).
Proof.
  intros (_ & [g' Hg] & [k Hk]) Hev. unfold dispatch. break_world w. subst.
  destruct ev; try contradiction; simpl;
    (eexists; split; [reflexivity|]); simpl;
    (split; [|repeat split; reflexivity]); frame_tac.
Qed.

Lemma ExpectService_match_outcome onD a w :
  ExpectService_match onD a w =
  w1 ← (if String.eqb (matcherNameText a) "toMatch"
        then dispatch (DeprecationInfo
               [Diagnostic_warning ["The '.toMatch()' matcher is deprecated."%string]]) w
        else Some w);
  match ExpectService_outcome a with
  | inl ds => w2 ← onD ds w1; Some (None, w2)
  | inr r => Some (Some r, w1)
  end.
Proof.
  unfold ExpectService_match, ExpectService_outcome, runMatcher.
  destruct (if String.eqb _ _ then _ else _) as [w1|]; [|reflexivity]. simpl.
  repeat (case_match; try reflexivity).
Qed.

Lemma assertionEvents_level this assertion a mode e :
  forallb assertionLevel (assertionEvents this assertion a mode e) = true.
Proof.
  unfold assertionEvents, deprecation. simpl.
  repeat (case_match; simpl; try reflexivity).
Qed.

Lemma assertionEvents_allocated this assertion a mode e :
  forallb (allocatedIn e (S e)) (assertionEvents this assertion a mode e) = true.
Proof.
  assert (He : allocatedIn e (S e) (ExpectStart e) = true /\
               (forall ds, allocatedIn e (S e) (ExpectError ds e) = true) /\
               (forall ds, allocatedIn e (S e) (ExpectFail ds e) = true) /\
               allocatedIn e (S e) (ExpectPass e) = true /\
               allocatedIn e (S e) (ExpectSkip e) = true).
  { unfold allocatedIn; simpl.
    replace (e <=? e)%nat with true by (symmetry; apply Nat.leb_le; lia).
    replace (e <? S e)%nat with true by (symmetry; apply Nat.ltb_lt; lia).
    auto. }
  destruct He as (H1 & H2 & H3 & H4 & H5).
  unfold assertionEvents, deprecation. simpl. rewrite H1. simpl.
  repeat (case_match; simpl; rewrite ?H2, ?H3, ?H4, ?H5; try reflexivity).
Qed.

Lemma visitAssertion_events this vis assertion a mode parent w w1 :
  vis (members assertion) mode parent w = Some w1 ->
  Ready w1 ->
  let e := length (Store.expects (heap w1)) in
  exists w',
    visitAssertion this vis assertion a mode parent w = Some w' /\
    Frame w1 w' /\
    log w' = log w1 ++ assertionEvents this assertion a mode e /\
    length (Store.expects (heap w')) = S e.
Proof.
  intros Hvis HR. cbv zeta. unfold visitAssertion. rewrite Hvis. simpl.
  destruct (dispatch_ExpectStart parent w1 HR) as (w2 & -> & F2 & L2 & N2 & E2). simpl.
  set (e := length (Store.expects (heap w1))) in *.
  assert (HR2 : Ready w2) by (eapply Frame_Ready; eauto).
  unfold assertionEvents.
  destruct (isSkipped _ _).
  { destruct (dispatch_expectTerminal (ExpectSkip e) w2 HR2) as (w3 & -> & F3 & L3 & N3);
      [rewrite E2; eauto | reflexivity |].
    exists w3. refine (conj eq_refl (conj _ (conj _ _))); [eapply Frame_trans; eauto | | congruence].
    rewrite L3, L2, <- app_assoc. reflexivity. }
  destruct (_ && _).
  { destruct (dispatch_expectTerminal (ExpectError (fromDiagnostics (diagnostics assertion)) e) w2 HR2)
      as (w3 & -> & F3 & L3 & N3); [rewrite E2; eauto | reflexivity |].
    exists w3. refine (conj eq_refl (conj _ (conj _ _))); [eapply Frame_trans; eauto | | congruence].
    rewrite L3, L2, <- app_assoc. reflexivity. }
  rewrite ExpectService_match_outcome. unfold deprecation.
  assert (Hdep : exists w3,
    (if String.eqb (matcherNameText a) "toMatch"
     then dispatch (DeprecationInfo
            [Diagnostic_warning ["The '.toMatch()' matcher is deprecated."%string]]) w2
     else Some w2) = Some w3 /\ Frame w2 w3 /\
    log w3 = log w2 ++ (if String.eqb (matcherNameText a) "toMatch"
       then [DeprecationInfo [Diagnostic_warning ["The '.toMatch()' matcher is deprecated."%string]]]
       else []) /\
    length (Store.expects (heap w3)) = length (Store.expects (heap w2)) /\
    ResultHandler.expectResult (resultHandler w3) = Some e).
  { destruct (String.eqb _ _).
    - destruct (dispatch_aside (DeprecationInfo
        [Diagnostic_warning ["The '.toMatch()' matcher is deprecated."%string]]) w2 HR2 I)
        as (w3 & -> & F3 & L3 & N3 & E3).
      exists w3. refine (conj eq_refl (conj F3 (conj L3 (conj N3 _)))). congruence.
    - exists w2. refine (conj eq_refl (conj (Frame_refl _) (conj _ (conj eq_refl E2)))).
      now rewrite app_nil_r. }
  destruct Hdep as (w3 & -> & F3 & L3 & N3 & E3). simpl.
  assert (HR3 : Ready w3) by (eapply Frame_Ready; eauto).
  assert (Hterm : forall ev, expectTerminal ev = true ->
    exists w', dispatch ev w3 = Some w' /\ Frame w1 w' /\
      log w' = log w1 ++ ExpectStart e ::
        (if String.eqb (matcherNameText a) "toMatch"
         then [DeprecationInfo [Diagnostic_warning ["The '.toMatch()' matcher is deprecated."%string]]]
         else []) ++ [ev] /\
      length (Store.expects (heap w')) = S e).
  { intros ev Hev.
    destruct (dispatch_expectTerminal ev w3 HR3) as (w4 & -> & F4 & L4 & N4);
      [rewrite E3; eauto | assumption |].
    exists w4. refine (conj eq_refl (conj _ (conj _ _))); [eauto using Frame_trans | | congruence].
    rewrite L4, L3, L2, <- !app_assoc. reflexivity. }
  destruct (ExpectService_outcome a) as [ds | [isMatch explain]].
  { destruct (Hterm (ExpectError ds e) eq_refl) as (w4 & -> & H4). simpl. eauto. }
  simpl. destruct (if isNot a then _ else _), (truthy _); simpl; apply Hterm; reflexivity.
Qed.

Lemma Kept_of_Frame w w' evs :
  Frame w w' -> log w' = log w ++ evs ->
  forallb assertionLevel evs = true ->
  forallb (allocatedIn (length (Store.expects (heap w))) (length (Store.expects (heap w')))) evs = true ->
  Kept w w'.
Proof. intros F L A B. split; [exact F|]. exists evs. auto. Qed.

Lemma validate_nil_members m :
  validate m = [] ->
  Forall (fun member =>
            is_expect member = match brand m with Describe => false | _ => true end)
         (members m).
Proof.
  unfold validate. intros H. apply Forall_forall. intros member Hin.
  destruct (brand m).
  - destruct (is_expect member) eqn:E; [|reflexivity].
    assert (In (cannotBeNested member m)
      (flat_map (fun member => if is_expect member then [cannotBeNested member m] else [])
                (members m))).
    { apply in_flat_map. exists member. split; [now apply list_elem_of_In|]. rewrite E. now left. }
    rewrite H in H0. contradiction.
  - destruct (is_expect member) eqn:E; [reflexivity|].
    assert (In (cannotBeNested member m)
      (flat_map (fun member => if negb (is_expect member) then [cannotBeNested member m] else [])
                (members m))).
    { apply in_flat_map. exists member. split; [now apply list_elem_of_In|]. rewrite E. now left. }
    rewrite H in H0. contradiction.
  - destruct (is_expect member) eqn:E; [reflexivity|].
    assert (In (cannotBeNested member m)
      (flat_map (fun member => if negb (is_expect member) then [cannotBeNested member m] else [])
                (members m))).
    { apply in_flat_map. exists member. split; [now apply list_elem_of_In|]. rewrite E. now left. }
    rewrite H in H0. contradiction.
Qed.

Section Walk.
Variable this : TestTreeWorker.

Lemma visitMember_eq member :
  visitMember this member = visitMember_body this (visit this) member.
Proof. destruct member; reflexivity. Qed.

Lemma visit_cons member rest runMode parentResult w :
  visit this (member :: rest) runMode parentResult w =
  if CancellationToken.isCancellationRequested (cancellationToken w) then Some w
  else match validate member with
       | [] => w ← visitMember this member runMode parentResult w;
               visit this rest runMode parentResult w
       | validationError => dispatch (TaskError validationError (taskResult this)) w
       end.
Proof. reflexivity. Qed.

Lemma visit_assertions_kept ms :
  Forall (assertionsKept this) ms -> Forall (fun m => is_expect m = true) ms ->
  forall mode parent w, Ready w ->
  exists w', visit this ms mode parent w = Some w' /\ Kept w w'.
Proof.
  induction 1 as [|m ms Hm _ IH]; intros Hex mode parent w HR.
  - exists w. split; [reflexivity | apply Kept_refl].
  - inversion Hex as [|? ? Hm_ex Hms_ex]; subst.
    rewrite visit_cons.
    destruct (CancellationToken.isCancellationRequested _).
    { exists w. split; [reflexivity | apply Kept_refl]. }
    destruct (validate m) as [|v vs] eqn:Hval.
    + destruct (Hm Hm_ex Hval mode parent w HR) as (w1 & -> & K1). simpl.
      destruct (IH Hms_ex mode parent w1) as (w2 & -> & K2).
      { destruct K1 as [F1 _]. eapply Frame_Ready; eauto. }
      exists w2. split; [reflexivity | eapply Kept_trans; eauto].
    + destruct (dispatch_aside (TaskError (v :: vs) (taskResult this)) w HR I)
        as (w1 & -> & F1 & L1 & N1 & _).
      exists w1. split; [reflexivity|].
      eapply Kept_of_Frame; eauto.
Qed.

Lemma visitMember_assertions_kept m : assertionsKept this m.
Proof.
  induction m as [d f ms n s IH | d f ms n s IH | d f ms n s a IH] using TestMember_tree_ind;
    intros Hex Hval mode parent w HR; try discriminate Hex.
  rewrite visitMember_eq. simpl.
  destruct (visit_assertions_kept ms IH (validate_nil_members _ Hval) mode parent w HR)
    as (w1 & Hvis & K1).
  assert (HR1 : Ready w1) by (destruct K1 as [F1 _]; eapply Frame_Ready; eauto).
  destruct (visitAssertion_events this (visit this) (mkExpect d f ms n s a) a mode parent
              w w1 Hvis HR1) as (w2 & -> & F2 & L2 & N2).
  exists w2. split; [reflexivity|].
  eapply Kept_trans; [exact K1|].
  eapply Kept_of_Frame; eauto using assertionEvents_level.
  rewrite N2. apply assertionEvents_allocated.
Qed.

Lemma visit_expects_kept ms mode parent w :
  Forall (fun m => is_expect m = true) ms -> Ready w ->
  exists w', visit this ms mode parent w = Some w' /\ Kept w w'.
Proof.
  intros Hex HR. apply visit_assertions_kept; auto.
  apply Forall_forall. intros m _. apply visitMember_assertions_kept.
Qed.
End Walk.

Lemma Outer_refl w : Outer w w.
Proof. split; auto. Qed.

Lemma Outer_trans w1 w2 w3 : Outer w1 w2 -> Outer w2 w3 -> Outer w1 w3.
Proof.
  intros [c1 h1 t1] [c2 h2 t2]. split; try congruence.
  intros H. rewrite t2, t1; congruence.
Qed.

Lemma Frame_Outer w w' : Frame w w' -> Outer w w'.
Proof.
  intros [c h t _ _]. split; auto.
  destruct (resultHandler w), (resultHandler w'); simpl in *.
  inversion c; subst; reflexivity.
Qed.

Lemma Outer_Ready w w' : Outer w w' -> Ready w -> Ready w'.
Proof.
  intros [c _ _] (r & g & k). unfold Ready in *.
  destruct (resultHandler w), (resultHandler w'); simpl in *.
  inversion c; subst. auto.
Qed.

(** [new TestResult(test, parentResult)] followed by [test:start]. *)
Lemma dispatch_TestStart parent w :
  Ready w ->
  let t := length (Store.tests (heap w)) in
  exists w',
    dispatch (TestStart t)
      (on_heap (Store.on_tests (fun l => l ++ [TestResult.new parent])) w) = Some w' /\
    Outer w w' /\ log w' = log w ++ [TestStart t] /\
    length (Store.tests (heap w')) = S t /\
    ResultHandler.testResult (resultHandler w') = Some t.
Proof.
  intros (_ & _ & [k Hk]). unfold dispatch. break_world w. subst.
  destruct d; simpl; eexists; (split; [reflexivity|]); simpl;
    rewrite ?length_app; simpl;
    (split; [|split; [reflexivity | split; [lia | reflexivity]]]);
    split; simpl; auto; intros ->; reflexivity.
Qed.

Lemma dispatch_testTerminal ev w :
  Ready w -> is_Some (ResultHandler.testResult (resultHandler w)) ->
  testTerminal ev = true ->
  exists w', dispatch ev w = Some w' /\ Outer w w' /\ log w' = log w ++ [ev].
Proof.
  intros ([r' Hr] & _ & [k Hk]) [e He] Hev. unfold dispatch. break_world w. subst.
  destruct ev; try discriminate Hev; simpl;
    (eexists; split; [reflexivity|]); simpl;
    (split; [|reflexivity]); split; simpl; auto; intros ->; reflexivity.
Qed.

Ltac finish :=
  repeat (split; [solve [eauto | intros; discriminate] |]); auto.

Lemma visitTest_events this d f ms n s mode parent w :
  let test := mkTest d f ms n s in
  Ready w -> validate test = [] ->
  let t := length (Store.tests (heap w)) in
  exists w' evs last,
    visitMember this test mode parent w = Some w' /\
    Outer w w' /\
    log w' = log w ++ TestStart t :: evs ++ [last] /\
    forallb assertionLevel evs = true /\
    (testEntered this test mode = false -> evs = []) /\
    testVerdict this test mode t last.
Proof.
  intros test HR Hval. subst test. cbv zeta. rewrite visitMember_eq. simpl. unfold visitTest.
  destruct (dispatch_TestStart parent w HR) as (w1 & -> & O1 & L1 & N1 & T1). simpl.
  set (t := length (Store.tests (heap w))) in *.
  set (test := mkTest d f ms n s) in *.
  assert (HR1 : Ready w1) by (eapply Outer_Ready; eauto).
  assert (Hlast : forall w2 evs ev, Ready w2 -> Outer w1 w2 ->
      ResultHandler.testResult (resultHandler w2) = Some t ->
      log w2 = log w1 ++ evs -> testTerminal ev = true ->
      exists w', dispatch ev w2 = Some w' /\ Outer w w' /\
                 log w' = log w ++ TestStart t :: evs ++ [ev]).
  { intros w2 evs ev HR2 O2 T2 L2 Hev.
    destruct (dispatch_testTerminal ev w2 HR2) as (w3 & -> & O3 & L3);
      [rewrite T2; eauto | assumption |].
    exists w3. split; [reflexivity|]. split; [eauto using Outer_trans|].
    rewrite L3, L2, L1, <- !app_assoc. reflexivity. }
  unfold testVerdict, testEntered. cbv zeta.
  destruct (truthy (bitand (resolveRunMode this mode test) 8)).
  { destruct (Hlast w1 [] (TestTodo t) HR1 (Outer_refl _) T1) as (w2 & -> & O2 & L2);
      [now rewrite app_nil_r | reflexivity |].
    exists w2, [], (TestTodo t). split; [reflexivity|]. finish. }
  destruct (negb (isSkipped this (resolveRunMode this mode test)) && _) eqn:Herr.
  { destruct (Hlast w1 [] (TestError (fromDiagnostics d) t) HR1 (Outer_refl _) T1)
      as (w2 & -> & O2 & L2); [now rewrite app_nil_r | reflexivity |].
    exists w2, [], (TestError (fromDiagnostics d) t). split; [reflexivity|]. finish. }
  destruct (visit_expects_kept this ms (resolveRunMode this mode test) (Some (InTest t)) w1)
    as (w2 & Hvis & [F2 (evs & L2 & A2 & _)]); [exact (validate_nil_members _ Hval) | exact HR1 |].
  change (visit_loop this (visitMember this)) with (visit this).
  simpl members. rewrite Hvis. simpl.
  assert (HR2 : Ready w2) by (eapply Frame_Ready; eauto).
  assert (T2 : ResultHandler.testResult (resultHandler w2) = Some t).
  { rewrite <- T1. exact (f_equal ResultHandler.testResult (frame_cursors _ _ F2)). }
  destruct (isSkipped this (resolveRunMode this mode test)).
  { destruct (Hlast w2 evs (TestSkip t) HR2 (Frame_Outer _ _ F2) T2 L2 eq_refl) as (w3 & -> & O3 & L3).
    exists w3, evs, (TestSkip t). split; [reflexivity|]. finish. }
  assert (Hlook : is_Some (Store.tests (heap w2) !! t)).
  { apply lookup_lt_is_Some. destruct F2 as [_ _ _ n2 _]. lia. }
  destruct Hlook as [tr ->]. simpl.
  destruct (0 <? ResultCount.failed (TestResult.expectCount tr))%nat.
  - destruct (Hlast w2 evs (TestFail t) HR2 (Frame_Outer _ _ F2) T2 L2 eq_refl) as (w3 & -> & O3 & L3).
    exists w3, evs, (TestFail t). split; [reflexivity|]. finish.
  - destruct (Hlast w2 evs (TestPass t) HR2 (Frame_Outer _ _ F2) T2 L2 eq_refl) as (w3 & -> & O3 & L3).
    exists w3, evs, (TestPass t). split; [reflexivity|]. finish.
Qed.

(** * Todo isolation *)

(** C7: a case whose resolved mode has the Todo bit publishes [test:start]
    and then [test:todo], and nothing else: its members are not visited, so
    no [expect:*] event is published. *)
Theorem todo_case_is_isolated this d f ms n s mode parent w :
  let test := mkTest d f ms n s in
  let t := length (Store.tests (heap w)) in
  Ready w ->
  truthy (bitand (resolveRunMode this mode test) 8) = true ->
  exists w',
    visitMember this test mode parent w = Some w' /\
    log w' = log w ++ [TestStart t; TestTodo t] /\
    List.filter isExpectEvent (log w') = List.filter isExpectEvent (log w).
Proof.
  intros test t HR Htodo. subst test t. rewrite visitMember_eq. simpl. unfold visitTest.
  destruct (dispatch_TestStart parent w HR) as (w1 & -> & O1 & L1 & N1 & T1). simpl.
  rewrite Htodo.
  destruct (dispatch_testTerminal (TestTodo (length (Store.tests (heap w)))) w1)
    as (w2 & -> & O2 & L2); [eapply Outer_Ready; eauto | rewrite T1; eauto | reflexivity |].
  exists w2. split; [reflexivity|].
  assert (L : log w2 = log w ++ [TestStart (length (Store.tests (heap w)));
                                 TestTodo (length (Store.tests (heap w)))])
    by (rewrite L2, L1, <- app_assoc; reflexivity).
  split; [exact L|].
  rewrite L, List.filter_app. simpl. apply app_nil_r.
Qed.

(** * Fail inversion *)

Lemma carries_older e l :
  forallb (allocatedIn 0 e) l = true -> List.filter (carries e) l = [].
Proof.
  induction l as [|ev l IH]; simpl; [reflexivity|].
  rewrite andb_true_iff. intros [Hev Hl]. rewrite (IH Hl).
  unfold carries, allocatedIn in *. destruct (expectResultOf ev) as [e'|].
  - apply andb_true_iff in Hev as [_ Hlt]. apply Nat.ltb_lt in Hlt.
    rewrite bool_decide_eq_false_2; [reflexivity|]. intros [= ->]. lia.
  - rewrite bool_decide_eq_false_2; [reflexivity | discriminate].
Qed.

Lemma carries_deprecation e a : List.filter (carries e) (deprecation a) = [].
Proof. unfold deprecation. destruct (String.eqb _ _); reflexivity. Qed.

(** C1: an assertion that is evaluated under a mode with the Fail bit
    publishes, for its own result, [expect:start] and then exactly one
    terminal event: [expect:error] when the outcome holds, [expect:pass]
    when it does not. *)
Theorem fail_flag_inverts this d f ms n s a mode parent w isMatch explain :
  let assertion := mkExpect d f ms n s a in
  let runMode := resolveRunMode this mode assertion in
  let verdict e :=
    if (if isNot a then negb isMatch else isMatch)
    then ExpectError [supposedToFail] e else ExpectPass e in
  Ready w -> WellAllocated w ->
  validate assertion = [] ->
  isSkipped this runMode = false ->
  (0 <? length d)%nat && negb (String.eqb (matcherNameText a) "toRaiseError") = false ->
  ExpectService_outcome a = inr (isMatch, explain) ->
  truthy (bitand runMode 1) = true ->
  exists w1 w',
    visit this ms mode parent w = Some w1 /\
    visitMember this assertion mode parent w = Some w' /\
    let e := length (Store.expects (heap w1)) in
    log w' = log w1 ++ ExpectStart e :: deprecation a ++ [verdict e] /\
    List.filter (carries e) (log w') = [ExpectStart e; verdict e].
Proof.
  intros assertion runMode verdict HR HW Hval Hskip Hblock Hout Hfail.
  destruct (visit_expects_kept this ms mode parent w (validate_nil_members _ Hval) HR)
    as (w1 & Hvis & K1).
  assert (HR1 : Ready w1) by (destruct K1 as [F1 _]; eapply Frame_Ready; eauto).
  assert (HW1 : WellAllocated w1) by (eapply Kept_WellAllocated; eauto).
  destruct (visitAssertion_events this (visit this) assertion a mode parent w w1 Hvis HR1)
    as (w2 & Hrun & F2 & L2 & N2).
  exists w1, w2. split; [exact Hvis|]. split; [rewrite visitMember_eq; exact Hrun|].
  cbv zeta. set (e := length (Store.expects (heap w1))) in *.
  assert (Hev : assertionEvents this assertion a mode e
                = ExpectStart e :: deprecation a ++ [verdict e]).
  { unfold assertionEvents. fold runMode. rewrite Hskip. simpl diagnostics.
    rewrite Hblock, Hout, Hfail. subst verdict. simpl.
    destruct (if isNot a then negb isMatch else isMatch); reflexivity. }
  rewrite Hev in L2. split; [exact L2|].
  rewrite L2, List.filter_app, (carries_older e (log w1) HW1). simpl.
  rewrite List.filter_app, carries_deprecation. simpl.
  assert (He : carries e (ExpectStart e) = true) by (apply bool_decide_eq_true_2; reflexivity).
  assert (Hv : carries e (verdict e) = true).
  { subst verdict. simpl. destruct (if isNot a then negb isMatch else isMatch);
      apply bool_decide_eq_true_2; reflexivity. }
  rewrite He, Hv. reflexivity.
Qed.

(** * Only-pruning *)

Lemma filter_testTerminal_assertions evs :
  forallb assertionLevel evs = true -> List.filter testTerminal evs = [].
Proof.
  induction evs as [|ev evs IH]; simpl; [reflexivity|].
  rewrite andb_true_iff. intros [Hev Hevs]. rewrite (IH Hevs).
  destruct ev; try discriminate Hev; reflexivity.
Qed.

Section PlainWorker.
Variable this : TestTreeWorker.
Hypothesis Honly : only (resolvedConfig this) = None.
Hypothesis Hskip : skip (resolvedConfig this) = None.
Hypothesis Hposition : position this = None.

(** Without filters and without a position, the mode of a top-level member
    holds the flags of the member. *)
Lemma resolveRunMode_plain c :
  resolveRunMode this 0 c =
  Z.lor (if failFlag c then 1 else 0)
    (Z.lor (if onlyFlag c then 2 else 0)
       (Z.lor (if skipFlag c then 4 else 0) (if todoFlag c then 8 else 0))).
Proof.
  unfold skipFlag, todoFlag, failFlag, onlyFlag, resolveRunMode.
  rewrite Honly, Hskip, Hposition. simpl.
  destruct (truthy (bitand (flags c) 1)), (truthy (bitand (flags c) 2)),
    (truthy (bitand (flags c) 4)), (truthy (bitand (flags c) 8)); reflexivity.
Qed.

Lemma plain_case d f ms n s w :
  let c := mkTest d f ms n s in
  worker_hasOnly this = true ->
  validate c = [] -> todoFlag c = false ->
  (onlyFlag c = true -> skipFlag c = false /\ d = []) ->
  Ready w ->
  exists w' evs,
    visitMember this c 0 None w = Some w' /\ Outer w w' /\
    log w' = log w ++ evs /\ caseEvents c evs.
Proof.
  intros c Hhas Hval Ht Hd HR.
  destruct (visitTest_events this d f ms n s 0 None w HR Hval)
    as (w' & evs & last & Hrun & O & L & A & _ & V).
  fold c in Hrun, V.
  exists w', (TestStart (length (Store.tests (heap w))) :: evs ++ [last]).
  split; [exact Hrun|]. split; [exact O|]. split; [exact L|].
  exists (length (Store.tests (heap w))). simpl.
  rewrite List.filter_app, (filter_testTerminal_assertions evs A). simpl.
  unfold testVerdict, isSkipped in V. cbv zeta in V.
  rewrite (resolveRunMode_plain c), Hhas, Ht in V.
  destruct (onlyFlag c) eqn:Ho.
  - destruct (Hd eq_refl) as [Hs ->]. rewrite Hs in V.
    destruct (failFlag c); simpl in V; destruct V as [-> | ->]; simpl; auto.
  - destruct (failFlag c), (skipFlag c); simpl in V; subst last; reflexivity.
Qed.
End PlainWorker.

Lemma hasOnly_of_flag cases :
  (0 < length (List.filter onlyFlag cases))%nat -> hasOnly cases = true.
Proof.
  induction cases as [|c cases IH]; simpl; [lia|].
  unfold hasOnly in *. simpl. destruct (onlyFlag c) eqn:Ho.
  - intros _. destruct c; unfold onlyFlag in Ho; simpl in *; rewrite Ho; reflexivity.
  - intros H. rewrite (IH H). apply orb_true_r.
Qed.

Lemma count_app p l1 l2 : count p (l1 ++ l2) = (count p l1 + count p l2)%nat.
Proof. unfold count. now rewrite List.filter_app, length_app. Qed.

Lemma caseEvents_counts c evs :
  caseEvents c evs ->
  count isCaseSkip evs = (if onlyFlag c then 0 else 1)%nat /\
  count isCasePassOrFail evs = (if onlyFlag c then 1 else 0)%nat.
Proof.
  intros [t H]. unfold count.
  assert (Hs : List.filter isCaseSkip evs = List.filter isCaseSkip (List.filter testTerminal evs)).
  { clear. induction evs as [|ev evs IH]; [reflexivity|].
    destruct ev; simpl; rewrite <- ?IH; reflexivity. }
  assert (Hp : List.filter isCasePassOrFail evs
               = List.filter isCasePassOrFail (List.filter testTerminal evs)).
  { clear. induction evs as [|ev evs IH]; [reflexivity|].
    destruct ev; simpl; rewrite <- ?IH; reflexivity. }
  rewrite Hs, Hp. destruct (onlyFlag c); [destruct H as [-> | ->] | rewrite H]; auto.
Qed.

Lemma Outer_Uncancellable w w' : Outer w w' -> Uncancellable w -> Uncancellable w'.
Proof.
  intros [_ h t] [Hh Ht]. split; [congruence|]. rewrite (t Hh). exact Ht.
Qed.

Lemma visit_plain_case this c rest w :
  only (resolvedConfig this) = None -> skip (resolvedConfig this) = None ->
  position this = None -> worker_hasOnly this = true ->
  plainCase c -> Ready w -> Uncancellable w ->
  exists w' evs,
    visit this (c :: rest) 0 None w = visit this rest 0 None w' /\
    Ready w' /\ Uncancellable w' /\ log w' = log w ++ evs /\ caseEvents c evs.
Proof.
  intros Ho Hs Hp Hhas (Hb & Hval & Htd & Hd) HR HU.
  destruct c as [d f ms n s | d f ms n s | d f ms n s a]; try discriminate Hb.
  destruct (plain_case this Ho Hs Hp d f ms n s w Hhas Hval Htd Hd HR)
    as (w' & evs & Hrun & O & L & C).
  exists w', evs. rewrite visit_cons. destruct HU as [Hh Ht]. rewrite Ht, Hval, Hrun. simpl.
  split; [reflexivity|]. split; [eapply Outer_Ready; eauto|].
  split; [eapply Outer_Uncancellable; eauto; split; assumption|]. auto.
Qed.

Lemma TaskRunner_run'_visits config file task k w ms :
  languageService file = true -> syntacticDiagnostics file = [] ->
  program file = true -> sourceFile file = true ->
  testTree file = mkTestTree [] ms ->
  TaskRunner_run' config file task k w =
  visit (new_TestTreeWorker config (hasOnly ms) (task_position task) k) ms 0 None w.
Proof.
  intros Hls Hsd Hpr Hsf Htree. unfold TaskRunner_run'.
  rewrite Hls, Hsd, Hpr, Hsf, Htree. reflexivity.
Qed.

(** C2, as amended: in a file whose top-level members are three cases, none
    flagged Todo and exactly one flagged Only, which is not flagged Skip
    and has no attached diagnostics, run without filters, without a
    position and without cancellation, the case flagged Only gets one
    [test:pass] or [test:fail] and the other two get one [test:skip] each,
    whatever the order of the three. *)
Theorem only_pruning config file task k w c1 c2 c3 :
  only config = None -> skip config = None -> task_position task = None ->
  languageService file = true -> syntacticDiagnostics file = [] ->
  program file = true -> sourceFile file = true ->
  testTree file = mkTestTree [] [c1; c2; c3] ->
  plainCase c1 -> plainCase c2 -> plainCase c3 ->
  length (List.filter onlyFlag [c1; c2; c3]) = 1%nat ->
  Ready w -> Uncancellable w ->
  exists w' evs1 evs2 evs3,
    TaskRunner_run' config file task k w = Some w' /\
    log w' = log w ++ evs1 ++ evs2 ++ evs3 /\
    caseEvents c1 evs1 /\ caseEvents c2 evs2 /\ caseEvents c3 evs3 /\
    count isCasePassOrFail (evs1 ++ evs2 ++ evs3) = 1%nat /\
    count isCaseSkip (evs1 ++ evs2 ++ evs3) = 2%nat.
Proof.
  intros Ho Hs Hp Hls Hsd Hpr Hsf Htree P1 P2 P3 Hone HR HU.
  rewrite (TaskRunner_run'_visits config file task k w _ Hls Hsd Hpr Hsf Htree).
  set (this := new_TestTreeWorker config (hasOnly [c1; c2; c3]) (task_position task) k).
  assert (Ho' : only (resolvedConfig this) = None) by exact Ho.
  assert (Hs' : skip (resolvedConfig this) = None) by exact Hs.
  assert (Hp' : position this = None) by exact Hp.
  assert (Hhas : worker_hasOnly this = true).
  { assert (Hh : hasOnly [c1; c2; c3] = true)
      by (apply hasOnly_of_flag; rewrite Hone; lia).
    unfold this, new_TestTreeWorker. cbn [worker_hasOnly]. rewrite Hh. reflexivity. }
  destruct (visit_plain_case this c1 [c2; c3] w Ho' Hs' Hp' Hhas P1 HR HU)
    as (w1 & evs1 & -> & HR1 & HU1 & L1 & C1).
  destruct (visit_plain_case this c2 [c3] w1 Ho' Hs' Hp' Hhas P2 HR1 HU1)
    as (w2 & evs2 & -> & HR2 & HU2 & L2 & C2).
  destruct (visit_plain_case this c3 [] w2 Ho' Hs' Hp' Hhas P3 HR2 HU2)
    as (w3 & evs3 & -> & HR3 & HU3 & L3 & C3).
  exists w3, evs1, evs2, evs3. split; [reflexivity|].
  split; [rewrite L3, L2, L1, <- !app_assoc; reflexivity|].
  split; [exact C1|]. split; [exact C2|]. split; [exact C3|].
  rewrite !count_app.
  destruct (caseEvents_counts _ _ C1) as [-> ->].
  destruct (caseEvents_counts _ _ C2) as [-> ->].
  destruct (caseEvents_counts _ _ C3) as [-> ->].
  simpl in Hone.
  destruct (onlyFlag c1), (onlyFlag c2), (onlyFlag c3); simpl in Hone; try discriminate Hone;
    split; reflexivity.
Qed.

(** * Groups with attached diagnostics *)

Lemma lookup_snoc {A} (l : list A) (x : A) : (l ++ [x]) !! length l = Some x.
Proof. rewrite lookup_app_r by lia. now rewrite Nat.sub_diag. Qed.

(** C4, as amended: a group that is neither skipped, pruned nor todo and
    that has attached diagnostics publishes [describe:start], [task:error]
    with these diagnostics and [describe:end]; its members are not visited,
    and the visit goes on with the siblings that follow the group. *)
Theorem describe_with_diagnostics this d f ms n s mode parent rest w :
  let describe := mkDescribe d f ms n s in
  let runMode := resolveRunMode this mode describe in
  let r := length (Store.describes (heap w)) in
  Ready w ->
  isSkipped this runMode || truthy (bitand runMode 8) = false ->
  (0 < length d)%nat ->
  exists w',
    visitMember this describe mode parent w = Some w' /\
    log w' = log w ++ [DescribeStart r; TaskError (fromDiagnostics d) (taskResult this);
                       DescribeEnd r] /\
    (validate describe = [] ->
     CancellationToken.isCancellationRequested (cancellationToken w) = false ->
     visit this (describe :: rest) mode parent w = visit this rest mode parent w').
Proof.
  intros describe runMode r (_ & [g Hg] & [k Hk]) Hmode Hd.
  assert (Hrun : exists w',
    visitMember this describe mode parent w = Some w' /\
    log w' = log w ++ [DescribeStart r; TaskError (fromDiagnostics d) (taskResult this);
                       DescribeEnd r]).
  { rewrite visitMember_eq. simpl. unfold visitDescribe. fold describe. fold runMode.
    rewrite Hmode. simpl diagnostics.
    replace (0 <? length d)%nat with true by (symmetry; apply Nat.ltb_lt; exact Hd).
    subst r. unfold dispatch. break_world w. subst. simpl.
    destruct d0; simpl; rewrite lookup_snoc; simpl;
      (eexists; split; [reflexivity|]); rewrite <- !app_assoc; reflexivity. }
  destruct Hrun as (w' & Hrun & L). exists w'. split; [exact Hrun|]. split; [exact L|].
  intros Hval Hc. rewrite visit_cons, Hc, Hval, Hrun. reflexivity.
Qed.

(** * Structural validation *)

Section Siblings.
Variable this : TestTreeWorker.

Lemma visit_cancelled ms mode parent w :
  CancellationToken.isCancellationRequested (cancellationToken w) = true ->
  visit this ms mode parent w = Some w.
Proof. intros H. destruct ms; [reflexivity|]. now rewrite visit_cons, H. Qed.


End Siblings.

Lemma dispatch_eq ev l h ch tok σ :
  dispatch ev (mkWorld l h ch tok σ) =
  '(h', σ') ← ResultHandler.handleEvent ev h σ;
  Some (mkWorld (l ++ [ev]) h' ch
          (match ch with
           | Some reason => CancellationHandler.handleEvent reason ev tok
           | None => tok
           end) σ').
Proof. reflexivity. Qed.




(** * The stream of a run *)

Lemma handles_app s evs s1 evs' s2 :
  handles s evs s1 -> handles s1 evs' s2 -> handles s (evs ++ evs') s2.
Proof.
  induction 1 as [s | h σ σ' evs s Hg _ IH | h σ ev s1 evs s Hev Hfresh _ IH]; intros H2.
  - exact H2.
  - eapply handles_new; eauto.
  - simpl. eapply handles_event; eauto.
Qed.

Lemma handles_split s evs1 evs2 s' :
  handles s (evs1 ++ evs2) s' ->
  exists s1, handles s evs1 s1 /\ handles s1 evs2 s'.
Proof.
  intros H. remember (evs1 ++ evs2) as evs eqn:E. revert evs1 E.
  induction H as [s | h σ σ' evs s Hg H IH | h σ ev s1 evs s Hev Hfresh H IH]; intros evs1 E.
  - symmetry in E. apply app_eq_nil in E as [-> ->]. exists s. split; constructor.
  - destruct (IH evs1 E) as (s1 & H1 & H2). exists s1. split; [|exact H2].
    eapply handles_new; eauto.
  - destruct evs1 as [|ev1 evs1]; simpl in E.
    + subst evs2. exists (h, σ). split; [constructor|]. eapply handles_event; eauto.
    + injection E as <- E. destruct (IH evs1 E) as (s2 & H1 & H2).
      exists s2. split; [|exact H2]. eapply handles_event; eauto.
Qed.

Lemma grows_refl σ : grows σ σ.
Proof. repeat split; exists []; now rewrite app_nil_r. Qed.

Lemma Follows_refl w : Follows w w.
Proof. exists []. rewrite app_nil_r. repeat split. constructor. Qed.

Lemma Follows_trans w1 w2 w3 : Follows w1 w2 -> Follows w2 w3 -> Follows w1 w3.
Proof.
  intros (e1 & L1 & H1 & I1) (e2 & L2 & H2 & I2). exists (e1 ++ e2).
  rewrite L2, L1, <- app_assoc, forallb_app, I1, I2.
  repeat split. eapply handles_app; eauto.
Qed.

Lemma Follows_start ev w w' :
  dispatch ev w = Some w' -> isRunStart ev = false -> fresh ev (heap w) -> Follows w w'.
Proof.
  unfold dispatch. intros H Hev Hf.
  destruct (ResultHandler.handleEvent ev (resultHandler w) (heap w)) as [[h σ]|] eqn:E;
    [|discriminate H].
  simpl in H. injection H as <-. exists [ev]. simpl. unfold inRun. rewrite Hev.
  repeat split. eapply handles_event; [exact E | exact Hf | constructor].
Qed.

Lemma fresh_other ev σ : startsResult ev = false -> fresh ev σ.
Proof. destruct ev; try discriminate; intros _; exact I. Qed.

Lemma Follows_dispatch ev w w' :
  dispatch ev w = Some w' -> isRunStart ev = false -> startsResult ev = false -> Follows w w'.
Proof. intros H Hev Hs. eapply Follows_start; eauto using fresh_other. Qed.

Lemma Follows_alloc f w :
  grows (heap w) (f (heap w)) -> Follows w (on_heap f w).
Proof.
  intros Hg. exists []. simpl. rewrite app_nil_r. repeat split.
  eapply handles_new; [exact Hg | constructor].
Qed.

Lemma grows_tasks x σ : grows σ (Store.on_tasks (fun l => l ++ [x]) σ).
Proof. repeat split; simpl; try (exists []; now rewrite app_nil_r). now exists [x]. Qed.
Lemma grows_targets x σ : grows σ (Store.on_targets (fun l => l ++ [x]) σ).
Proof. repeat split; simpl; try (exists []; now rewrite app_nil_r). now exists [x]. Qed.
Lemma grows_runs x σ : grows σ (Store.on_runs (fun l => l ++ [x]) σ).
Proof. repeat split; simpl; try (exists []; now rewrite app_nil_r). now exists [x]. Qed.
Lemma grows_describes x σ : grows σ (Store.on_describes (fun l => l ++ [x]) σ).
Proof. repeat split; simpl; try (exists []; now rewrite app_nil_r). now exists [x]. Qed.
Lemma grows_tests x σ : grows σ (Store.on_tests (fun l => l ++ [x]) σ).
Proof. repeat split; simpl; try (exists []; now rewrite app_nil_r). now exists [x]. Qed.
Lemma grows_expects x σ : grows σ (Store.on_expects (fun l => l ++ [x]) σ).
Proof. repeat split; simpl; try (exists []; now rewrite app_nil_r). now exists [x]. Qed.

Create HintDb follows.
#[local] Hint Resolve Follows_refl grows_tasks grows_targets grows_runs grows_describes
  grows_tests grows_expects : follows.

(** Takes a hypothesis [H : ... = Some w'] on a sequence of calls apart,
    call by call. *)
Ltac follow H :=
  lazymatch type of H with
  | Some _ = Some _ => injection H as <-
  | None = Some _ => discriminate H
  | mbind _ _ = Some _ =>
      let w := fresh "w" in let E := fresh "E" in
      apply bind_Some in H as (w & E & H); follow E; follow H
  | (if ?b then _ else _) = Some _ => destruct b eqn:?; follow H
  | match ?x with _ => _ end = Some _ => destruct x eqn:?; follow H
  | _ => idtac
  end.

(** Chains the steps found by [follow]. *)
Ltac chain :=
  repeat match goal with
  | |- Follows ?w ?w => apply Follows_refl
  | H : dispatch ?ev ?w = Some ?w' |- Follows _ ?w' =>
      apply (Follows_trans _ w); [clear H | exact (Follows_dispatch ev w w' H eq_refl eq_refl)]
  | |- Follows ?w (on_heap ?f ?w) => apply Follows_alloc; auto with follows
  | |- Follows _ (on_heap ?f ?w) =>
      apply (Follows_trans _ w); [| apply Follows_alloc; auto with follows]
  | F : Follows ?w ?w' |- Follows _ ?w' =>
      apply (Follows_trans _ w); [clear F | exact F]
  | IH : forall v v', visit ?t ?ms ?m ?p v = Some v' -> Follows v v',
    H : visit ?t ?ms ?m ?p ?w = Some ?w' |- Follows _ ?w' =>
      apply (Follows_trans _ w); [clear H | exact (IH w w' H)]
  end.

Section WalkFollows.
Variable this : TestTreeWorker.

Lemma visit_follows ms :
  Forall (memberFollows this) ms ->
  forall mode parent w w', visit this ms mode parent w = Some w' -> Follows w w'.
Proof.
  induction 1 as [|m ms Hm _ IH]; intros mode parent w w' H.
  - injection H as <-. apply Follows_refl.
  - rewrite visit_cons in H. follow H; try apply Follows_refl.
    + eapply Follows_trans; [eapply Hm | eapply IH]; eauto.
    + chain.
Qed.

Lemma ExpectService_match_follows e a w r w' :
  ExpectService_match (fun ds => dispatch (ExpectError ds e)) a w = Some (r, w') ->
  Follows w w'.
Proof.
  rewrite ExpectService_match_outcome. intros H.
  apply bind_Some in H as (w1 & E1 & H).
  assert (F1 : Follows w w1) by (follow E1; chain).
  apply (Follows_trans _ _ _ F1). clear E1 F1.
  destruct (ExpectService_outcome a) as [ds|res].
  - apply bind_Some in H as (w2 & E2 & H). injection H as _ <-. chain.
  - injection H as _ <-. apply Follows_refl.
Qed.

Lemma visitAssertion_follows assertion a mode parent w w' :
  (forall w w', visit this (members assertion) mode parent w = Some w' -> Follows w w') ->
  visitAssertion this (visit this) assertion a mode parent w = Some w' -> Follows w w'.
Proof.
  intros Hms H. unfold visitAssertion in H.
  apply bind_Some in H as (w1 & E1 & H). apply Hms in E1.
  apply (Follows_trans _ _ _ E1). clear E1 Hms.
  apply bind_Some in H as (w2 & E2 & H).
  destruct (isSkipped _ _); [chain|].
  destruct (_ && _); [chain|].
  apply bind_Some in H as ([r w3] & E3 & H).
  apply ExpectService_match_follows in E3.
  assert (F3 : Follows w1 w3) by (eapply Follows_trans; [|exact E3]; chain).
  apply (Follows_trans _ _ _ F3). clear E2 E3 F3.
  follow H; chain.
Qed.

Lemma visitMember_follows m : memberFollows this m.
Proof.
  induction m as [d f ms n s IH | d f ms n s IH | d f ms n s a IH] using TestMember_tree_ind;
    intros mode parent w w' H; rewrite visitMember_eq in H; simpl in H.
  - unfold visitDescribe in H.
    pose proof (fun v v' => visit_follows ms IH (resolveRunMode this mode (mkDescribe d f ms n s))
                  (Some (InDescribe (length (Store.describes (heap w))))) v v') as Hms.
    follow H; chain.
  - unfold visitTest in H.
    pose proof (fun v v' => visit_follows ms IH (resolveRunMode this mode (mkTest d f ms n s))
                  (Some (InTest (length (Store.tests (heap w))))) v v') as Hms.
    follow H; chain.
  - eapply visitAssertion_follows; [|exact H]. intros w0 w0'. apply (visit_follows ms IH).
Qed.
End WalkFollows.

Lemma visit_stream this ms mode parent w w' :
  visit this ms mode parent w = Some w' -> Follows w w'.
Proof.
  apply visit_follows, Forall_forall. intros m _. apply visitMember_follows.
Qed.

Section RunFollows.
Variable config : ResolvedConfig.
Variable load : string -> list Event -> list StoreEvent * option Compiler.

Lemma TaskRunner_run'_follows file task k w w' :
  TaskRunner_run' config file task k w = Some w' -> Follows w w'.
Proof.
  unfold TaskRunner_run'. intros H. follow H; chain. eapply visit_stream; eauto.
Qed.

Lemma openFile_follows compiler file w w' :
  ProjectService_openFile compiler file w = Some w' -> Follows w w'.
Proof. unfold ProjectService_openFile. intros H. follow H; chain. Qed.

Lemma TaskRunner_run_follows compiler task w w' :
  TaskRunner_run config compiler task w = Some w' -> Follows w w'.
Proof.
  unfold TaskRunner_run. intros H. follow H; try apply Follows_refl.
  apply openFile_follows in E. apply TaskRunner_run'_follows in E1.
  apply (Follows_start _ _ _) in E0; [|reflexivity | eexists; apply lookup_snoc].
  chain.
Qed.

Lemma runTasks_follows compiler tasks w w' :
  runTasks config compiler tasks w = Some w' -> Follows w w'.
Proof.
  revert w. induction tasks as [|task tasks IH]; intros w H; simpl in H.
  - injection H as <-. apply Follows_refl.
  - apply bind_Some in H as (w1 & E & H). apply TaskRunner_run_follows in E.
    apply IH in H. eapply Follows_trans; eauto.
Qed.

Lemma storeEvents_follow published w w' :
  dispatchAll (map storeEvent published) w = Some w' -> Follows w w'.
Proof.
  revert w. induction published as [|ev published IH]; intros w H; simpl in H.
  - injection H as <-. apply Follows_refl.
  - apply bind_Some in H as (w1 & E & H). apply IH in H.
    apply (Follows_trans _ w1); [|exact H].
    apply (Follows_dispatch _ _ _ E); now destruct ev.
Qed.

Lemma runTarget_follows tasks v w w' :
  runTarget config load tasks v w = Some w' -> Follows w w'.
Proof.
  unfold runTarget. intros H.
  apply bind_Some in H as (w1 & E1 & H).
  destruct (load v (log w1)) as [published compiler].
  apply bind_Some in H as (w2 & E2 & H). apply bind_Some in H as (w3 & E3 & H).
  apply storeEvents_follow in E2.
  assert (F3 : Follows w2 w3).
  { destruct compiler; [eapply runTasks_follows; eauto | injection E3 as <-; apply Follows_refl]. }
  apply (Follows_start _ _ _) in E1; [|reflexivity | eexists; apply lookup_snoc].
  chain.
Qed.

Lemma runTargets_follows tasks vs w w' :
  runTargets config load tasks vs w = Some w' -> Follows w w'.
Proof.
  revert w. induction vs as [|v vs IH]; intros w H; simpl in H.
  - injection H as <-. apply Follows_refl.
  - apply bind_Some in H as (w1 & E & H). apply runTarget_follows in E.
    apply IH in H. eapply Follows_trans; eauto.
Qed.

(** The stream of a run: [run:start] for the first [Result], and then
    events that are not [run:start], handled one after the other. *)
Lemma Runner_run_stream tasks w' :
  Runner_run config load tasks initialWorld = Some w' ->
  exists evs,
    log w' = RunStart 0 :: evs /\ forallb inRun evs = true /\
    handles (ResultHandler.set_result (Some 0%nat) ResultHandler.new,
             Store.on_runs (fun _ => [Result.new]) Store.empty)
            evs (resultHandler w', heap w').
Proof.
  unfold Runner_run, Runner_run'. intros H.
  apply bind_Some in H as (w4 & H & E4). injection E4 as <-.
  apply bind_Some in H as (w1 & E1 & H). apply bind_Some in H as (w2 & E2 & H).
  apply bind_Some in H as (w3 & E3 & H).
  apply runTargets_follows in E2.
  assert (F : Follows w1 w3) by chain.
  assert (H1 : log w1 = [RunStart 0] /\
               resultHandler w1 = ResultHandler.set_result (Some 0%nat) ResultHandler.new /\
               heap w1 = Store.on_runs (fun _ => [Result.new]) Store.empty).
  { destruct (failFast config); injection E1 as <-; auto. }
  destruct H1 as (L1 & R1 & S1). destruct F as (evs & L & Hh & Hin).
  rewrite L1, R1, S1 in *. exists evs.
  destruct (bool_decide _); injection H as <-; simpl; auto.
Qed.
End RunFollows.

(** * Count consistency *)

Lemma count_cons p ev evs :
  count p (ev :: evs) = ((if p ev then 1 else 0) + count p evs)%nat.
Proof. unfold count. simpl. destruct (p ev); reflexivity. Qed.

Lemma ResultCount_eq (a b : ResultCount.t) :
  ResultCount.failed a = ResultCount.failed b ->
  ResultCount.passed a = ResultCount.passed b ->
  ResultCount.skipped a = ResultCount.skipped b ->
  ResultCount.todo a = ResultCount.todo b -> a = b.
Proof. destruct a, b; simpl; congruence. Qed.

Lemma RunCounted_nil x : RunCounted [] x x.
Proof.
  unfold RunCounted, expectTally, testTally, count. simpl.
  repeat split; try lia; apply ResultCount_eq; simpl; lia.
Qed.

Lemma RunCounted_cons ev evs x x1 x' :
  RunCounted [ev] x x1 -> RunCounted evs x1 x' -> RunCounted (ev :: evs) x x'.
Proof.
  unfold RunCounted, expectTally, testTally.
  intros (E1 & T1 & F1 & G1) (E2 & T2 & F2 & G2).
  rewrite !(count_cons _ ev evs). rewrite !(count_cons _ ev []) in *.
  unfold count in E1, T1, F1, G1. simpl in E1, T1, F1, G1.
  rewrite E2, T2, F2, G2, E1, T1, F1, G1.
  repeat split; try lia; apply ResultCount_eq; simpl; lia.
Qed.

Lemma grows_lookup {A} (l l' : list A) i x :
  (exists k, l' = l ++ k) -> l !! i = Some x -> l' !! i = Some x.
Proof. intros [k ->] H. now apply lookup_app_l_Some. Qed.

Lemma runs_countExpect bump r k t σ :
  Store.runs (ResultHandler.countExpect bump r k t σ)
  = alter (Result.on_expectCount bump) r (Store.runs σ).
Proof. unfold ResultHandler.countExpect. destruct t; reflexivity. Qed.

Lemma tasks_countExpect bump r k t σ :
  Store.tasks (ResultHandler.countExpect bump r k t σ)
  = alter (TaskResult.on_expectCount bump) k (Store.tasks σ).
Proof. unfold ResultHandler.countExpect. destruct t; reflexivity. Qed.

Lemma tests_countExpect bump r k t σ :
  Store.tests (ResultHandler.countExpect bump r k t σ)
  = match t with
    | Some t => alter (TestResult.on_expectCount bump) t (Store.tests σ)
    | None => Store.tests σ
    end.
Proof. unfold ResultHandler.countExpect. destruct t; reflexivity. Qed.

Ltac handler_cases H :=
  unfold ResultHandler.handleEvent in H;
  repeat (simpl in H;
          match type of H with
          | None = Some _ => discriminate H
          | context [mbind _ ?x] => destruct x eqn:?
          | context [if ?b then _ else _] => destruct b eqn:?
          | context [match ?x with _ => _ end] => destruct x eqn:?
          end);
  try discriminate H; try (injection H as <- <-).

Lemma run_step ev h σ h1 σ1 :
  ResultHandler.handleEvent ev h σ = Some (h1, σ1) -> isRunStart ev = false ->
  match ResultHandler.result h with
  | Some r =>
      (ResultHandler.result h1 = Some r \/ ResultHandler.result h1 = None) /\
      forall x, Store.runs σ !! r = Some x ->
        exists x1, Store.runs σ1 !! r = Some x1 /\ RunCounted [ev] x x1
  | None =>
      ResultHandler.result h1 = None /\ Store.runs σ1 = Store.runs σ /\
      RunCounted [ev] Result.new Result.new
  end.
Proof.
  intros H Hev. destruct h as [d ex p r g tk t].
  destruct ev; try discriminate Hev; handler_cases H; simpl;
    try (split; [reflexivity|]; split; [reflexivity|]; apply RunCounted_nil);
    try (destruct r; [|split; [reflexivity|]; split; [reflexivity|]; apply RunCounted_nil]);
    try (split; [auto|]; intros x Hx;
         rewrite ?runs_countExpect, ?list_lookup_alter_eq, ?Hx; simpl;
         eexists; split; [reflexivity|];
         unfold RunCounted, expectTally, testTally, count; simpl;
         repeat split; try (apply ResultCount_eq; simpl; lia);
         unfold ResultCount.total; simpl; lia).
Qed.

Lemma RunCounted_silent evs x :
  RunCounted evs Result.new Result.new -> RunCounted evs x x.
Proof.
  unfold RunCounted. intros (E & T & F & G).
  apply (f_equal ResultCount.failed) in E as E1. apply (f_equal ResultCount.passed) in E as E2.
  apply (f_equal ResultCount.skipped) in E as E3.
  apply (f_equal ResultCount.failed) in T as T1. apply (f_equal ResultCount.passed) in T as T2.
  apply (f_equal ResultCount.skipped) in T as T3. apply (f_equal ResultCount.todo) in T as T4.
  clear E T. unfold expectTally, testTally in *. simpl in *.
  change (ResultCount.total ResultCount.new) with 0%nat in F, G.
  repeat split; try lia; apply ResultCount_eq; simpl; lia.
Qed.

Lemma run_level s evs s' :
  handles s evs s' -> forallb (fun ev => negb (isRunStart ev)) evs = true ->
  match ResultHandler.result (fst s) with
  | Some r =>
      forall x, Store.runs (snd s) !! r = Some x ->
        exists x', Store.runs (snd s') !! r = Some x' /\ RunCounted evs x x'
  | None =>
      (forall r x, Store.runs (snd s) !! r = Some x -> Store.runs (snd s') !! r = Some x) /\
      RunCounted evs Result.new Result.new
  end.
Proof.
  induction 1 as [s | h σ σ' evs s Hg _ IH | h σ ev [h1 σ1] evs s Hev Hfresh _ IH]; intros Hno.
  - destruct (ResultHandler.result (fst s)).
    + intros x Hx. exists x. split; [exact Hx | apply RunCounted_nil].
    + split; [auto | apply RunCounted_nil].
  - specialize (IH Hno). simpl in *. destruct Hg as (Hruns & _).
    destruct (ResultHandler.result h).
    + intros x Hx. apply IH. eapply grows_lookup; eauto.
    + destruct IH as [IH1 IH2]. split; [|exact IH2].
      intros r x Hx. apply IH1. eapply grows_lookup; eauto.
  - simpl in Hno. apply andb_true_iff in Hno as [Hev1 Hno]. apply negb_true_iff in Hev1.
    specialize (IH Hno). pose proof (run_step ev h σ h1 σ1 Hev Hev1) as Hstep. simpl in *.
    destruct (ResultHandler.result h) as [r|].
    + destruct Hstep as [Hr Hstep]. intros x Hx.
      destruct (Hstep x Hx) as (x1 & Hx1 & C1).
      destruct Hr as [Hr | Hr]; rewrite Hr in IH.
      * destruct (IH x1 Hx1) as (x' & Hx' & C'). exists x'. split; [exact Hx'|].
        eapply RunCounted_cons; eauto.
      * destruct IH as [IH1 IH2]. exists x1. split; [apply IH1; exact Hx1|].
        eapply RunCounted_cons; [exact C1|]. apply RunCounted_silent. exact IH2.
    + destruct Hstep as (Hr & Hruns & C1). rewrite Hr in IH. destruct IH as [IH1 IH2].
      split.
      * intros r x Hx. apply IH1. rewrite Hruns. exact Hx.
      * eapply RunCounted_cons; eauto.
Qed.

Lemma TaskCounted_nil y : TaskCounted [] y y.
Proof.
  unfold TaskCounted, expectTally, testTally, count. simpl.
  split; apply ResultCount_eq; simpl; lia.
Qed.

Lemma TaskCounted_cons ev evs y y1 y' :
  TaskCounted [ev] y y1 -> TaskCounted evs y1 y' -> TaskCounted (ev :: evs) y y'.
Proof.
  unfold TaskCounted, expectTally, testTally. intros (E1 & T1) (E2 & T2).
  rewrite !(count_cons _ ev evs). rewrite !(count_cons _ ev []) in *.
  unfold count in E1, T1. simpl in E1, T1. rewrite E2, T2, E1, T1.
  split; apply ResultCount_eq; simpl; lia.
Qed.

Lemma TaskCounted_silent evs y :
  TaskCounted evs (TaskResult.new "") (TaskResult.new "") -> TaskCounted evs y y.
Proof.
  unfold TaskCounted. intros (E & T).
  apply (f_equal ResultCount.failed) in E as E1. apply (f_equal ResultCount.passed) in E as E2.
  apply (f_equal ResultCount.skipped) in E as E3.
  apply (f_equal ResultCount.failed) in T as T1. apply (f_equal ResultCount.passed) in T as T2.
  apply (f_equal ResultCount.skipped) in T as T3. apply (f_equal ResultCount.todo) in T as T4.
  clear E T. unfold expectTally, testTally in *. simpl in *.
  split; apply ResultCount_eq; simpl; lia.
Qed.

Lemma task_step ev h σ h1 σ1 :
  ResultHandler.handleEvent ev h σ = Some (h1, σ1) -> isTaskStart ev = false ->
  match ResultHandler.taskResult h with
  | Some k =>
      (ResultHandler.taskResult h1 = Some k \/ ResultHandler.taskResult h1 = None) /\
      forall y, Store.tasks σ !! k = Some y ->
        exists y1, Store.tasks σ1 !! k = Some y1 /\ TaskCounted [ev] y y1
  | None =>
      ResultHandler.taskResult h1 = None /\ Store.tasks σ1 = Store.tasks σ /\
      TaskCounted [ev] (TaskResult.new "") (TaskResult.new "")
  end.
Proof.
  intros H Hev. destruct h as [d ex p r g tk t].
  destruct ev; try discriminate Hev; handler_cases H; simpl;
    try (split; [reflexivity|]; split; [reflexivity|]; apply TaskCounted_nil);
    try (destruct tk; [|split; [reflexivity|]; split; [reflexivity|]; apply TaskCounted_nil]);
    try (split; [auto|]; intros y Hy;
         rewrite ?tasks_countExpect, ?list_lookup_alter_eq; simpl;
         rewrite ?list_lookup_alter_eq, ?Hy; simpl;
         eexists; split; [reflexivity|];
         unfold TaskCounted, expectTally, testTally, count; simpl;
         split; apply ResultCount_eq; simpl; lia).
Qed.

Lemma task_level s evs s' :
  handles s evs s' -> forallb (fun ev => negb (isTaskStart ev)) evs = true ->
  match ResultHandler.taskResult (fst s) with
  | Some k =>
      forall y, Store.tasks (snd s) !! k = Some y ->
        exists y', Store.tasks (snd s') !! k = Some y' /\ TaskCounted evs y y'
  | None =>
      (forall k y, Store.tasks (snd s) !! k = Some y -> Store.tasks (snd s') !! k = Some y) /\
      TaskCounted evs (TaskResult.new "") (TaskResult.new "")
  end.
Proof.
  induction 1 as [s | h σ σ' evs s Hg _ IH | h σ ev [h1 σ1] evs s Hev Hfresh _ IH]; intros Hno.
  - destruct (ResultHandler.taskResult (fst s)).
    + intros y Hy. exists y. split; [exact Hy | apply TaskCounted_nil].
    + split; [auto | apply TaskCounted_nil].
  - specialize (IH Hno). simpl in *. destruct Hg as (_ & _ & Htasks & _).
    destruct (ResultHandler.taskResult h).
    + intros y Hy. apply IH. eapply grows_lookup; eauto.
    + destruct IH as [IH1 IH2]. split; [|exact IH2].
      intros k y Hy. apply IH1. eapply grows_lookup; eauto.
  - simpl in Hno. apply andb_true_iff in Hno as [Hev1 Hno]. apply negb_true_iff in Hev1.
    specialize (IH Hno). pose proof (task_step ev h σ h1 σ1 Hev Hev1) as Hstep. simpl in *.
    destruct (ResultHandler.taskResult h) as [k|].
    + destruct Hstep as [Hk Hstep]. intros y Hy.
      destruct (Hstep y Hy) as (y1 & Hy1 & C1).
      destruct Hk as [Hk | Hk]; rewrite Hk in IH.
      * destruct (IH y1 Hy1) as (y' & Hy' & C'). exists y'. split; [exact Hy'|].
        eapply TaskCounted_cons; eauto.
      * destruct IH as [IH1 IH2]. exists y1. split; [apply IH1; exact Hy1|].
        eapply TaskCounted_cons; [exact C1|]. apply TaskCounted_silent. exact IH2.
    + destruct Hstep as (Hk & Htasks & C1). rewrite Hk in IH. destruct IH as [IH1 IH2].
      split.
      * intros k y Hy. apply IH1. rewrite Htasks. exact Hy.
      * eapply TaskCounted_cons; eauto.
Qed.

Lemma case_step ev h σ h1 σ1 t z :
  ResultHandler.handleEvent ev h σ = Some (h1, σ1) -> isTestEvent ev = false ->
  ResultHandler.testResult h = Some t -> Store.tests σ !! t = Some z ->
  ResultHandler.testResult h1 = Some t /\
  exists z1, Store.tests σ1 !! t = Some z1 /\
    TestResult.expectCount z1 = ResultCount.add (TestResult.expectCount z) (expectTally [ev]).
Proof.
  intros H Hev Ht Hz. destruct h as [d ex p r g tk t']. simpl in Ht. subst t'.
  destruct ev; try discriminate Hev; handler_cases H; simpl;
    (split; [reflexivity|]);
    rewrite ?tests_countExpect, ?list_lookup_alter_eq, ?Hz; simpl;
    (eexists; split; [reflexivity|]);
    unfold expectTally, count; simpl; apply ResultCount_eq; simpl; lia.
Qed.

Lemma case_level s evs s' t z :
  handles s evs s' -> forallb (fun ev => negb (isTestEvent ev)) evs = true ->
  ResultHandler.testResult (fst s) = Some t -> Store.tests (snd s) !! t = Some z ->
  exists z', Store.tests (snd s') !! t = Some z' /\
    TestResult.expectCount z' = ResultCount.add (TestResult.expectCount z) (expectTally evs).
Proof.
  intros H. revert z.
  induction H as [s | h σ σ' evs s Hg _ IH | h σ ev [h1 σ1] evs s Hev Hfresh _ IH];
    intros z Hno Ht Hz.
  - exists z. split; [exact Hz|]. unfold expectTally, count. simpl.
    apply ResultCount_eq; simpl; lia.
  - simpl in *. destruct Hg as (_ & _ & _ & _ & Htests & _).
    apply (IH z Hno Ht). eapply grows_lookup; eauto.
  - simpl in Hno. apply andb_true_iff in Hno as [Hev1 Hno]. apply negb_true_iff in Hev1.
    simpl in *.
    destruct (case_step ev h σ h1 σ1 t z Hev Hev1 Ht Hz) as (Ht1 & z1 & Hz1 & E1).
    destruct (IH z1 Hno Ht1 Hz1) as (z' & Hz' & E'). exists z'. split; [exact Hz'|].
    rewrite E', E1. unfold expectTally. rewrite !(count_cons _ ev evs), !(count_cons _ ev []).
    unfold count. simpl. apply ResultCount_eq; simpl; lia.
Qed.

Lemma ResultCount_add_new c : ResultCount.add ResultCount.new c = c.
Proof. destruct c; reflexivity. Qed.

Lemma inRun_run_level s evs s' r x :
  handles s evs s' -> forallb inRun evs = true ->
  ResultHandler.result (fst s) = Some r -> Store.runs (snd s) !! r = Some x ->
  exists x', Store.runs (snd s') !! r = Some x' /\ RunCounted evs x x'.
Proof.
  intros H Hin Hr Hx. pose proof (run_level s evs s' H Hin) as L. rewrite Hr in L. auto.
Qed.

(** * The run returns *)

Lemma Extends_refl σ : Extends σ σ.
Proof. split; [exists []; now rewrite app_nil_r | auto]. Qed.

Lemma Extends_trans σ1 σ2 σ3 : Extends σ1 σ2 -> Extends σ2 σ3 -> Extends σ1 σ3.
Proof.
  intros ([l1 H1] & a1 & b1 & c1) ([l2 H2] & a2 & b2 & c2). split.
  - exists (l1 ++ l2). now rewrite H2, H1, <- app_assoc.
  - repeat split; lia.
Qed.

Lemma grows_Extends σ σ' : grows σ σ' -> Extends σ σ'.
Proof.
  intros ([l1 H1] & [l2 H2] & [l3 H3] & H4 & _). split; [exact H4|].
  rewrite H1, H2, H3, !length_app. repeat split; lia.
Qed.

Lemma handleEvent_Extends ev h σ h' σ' :
  ResultHandler.handleEvent ev h σ = Some (h', σ') -> Extends σ σ'.
Proof.
  intros H. destruct h as [d ex p r g tk t].
  destruct ev; handler_cases H; try apply Extends_refl;
    (split; [exists []; rewrite app_nil_r; unfold ResultHandler.countExpect, ResultHandler.countTest;
             repeat case_match; reflexivity|]);
    unfold ResultHandler.countExpect, ResultHandler.countTest;
    repeat case_match; simpl; rewrite ?length_alter; auto.
Qed.

Lemma handles_Extends s evs s' : handles s evs s' -> Extends (snd s) (snd s').
Proof.
  induction 1 as [s | h σ σ' evs s Hg _ IH | h σ ev [h1 σ1] evs s Hev Hfresh _ IH]; simpl in *.
  - apply Extends_refl.
  - eapply Extends_trans; [apply grows_Extends|]; eauto.
  - eapply Extends_trans; [eapply handleEvent_Extends|]; eauto.
Qed.

Lemma Follows_Extends w w' : Follows w w' -> Extends (heap w) (heap w').
Proof. intros (evs & _ & H & _). exact (handles_Extends _ _ _ H). Qed.

Lemma Steady_refl w : Steady w w.
Proof. split; [apply Outer_refl | apply Follows_refl]. Qed.

Lemma Steady_trans w1 w2 w3 : Steady w1 w2 -> Steady w2 w3 -> Steady w1 w3.
Proof. intros [O1 F1] [O2 F2]. split; [eapply Outer_trans | eapply Follows_trans]; eauto. Qed.

Lemma Outer_describeResult w w' :
  Outer w w' ->
  ResultHandler.describeResult (resultHandler w') = ResultHandler.describeResult (resultHandler w).
Proof.
  intros [c _ _]. destruct (resultHandler w), (resultHandler w'); simpl in *.
  now inversion c.
Qed.

Lemma Outer_taskResult w w' :
  Outer w w' ->
  ResultHandler.taskResult (resultHandler w') = ResultHandler.taskResult (resultHandler w).
Proof.
  intros [c _ _]. destruct (resultHandler w), (resultHandler w'); simpl in *.
  now inversion c.
Qed.

Section WalkReturns.
Variable this : TestTreeWorker.

Lemma visit_returns ms :
  Forall (memberReturns this) ms ->
  forall mode parent w,
    Ready w ->
    (Exists (fun m => brand m = Describe) ms ->
     ResultHandler.describeResult (resultHandler w) = parent) ->
    exists w', visit this ms mode parent w = Some w' /\ Steady w w'.
Proof.
  induction 1 as [|m ms Hm _ IH]; intros mode parent w HR Hal.
  - exists w. split; [reflexivity | apply Steady_refl].
  - rewrite visit_cons.
    destruct (CancellationToken.isCancellationRequested _).
    { exists w. split; [reflexivity | apply Steady_refl]. }
    destruct (validate m) as [|v vs] eqn:Hval.
    + destruct (Hm mode parent w HR Hval) as (w1 & -> & S1).
      { intros Hb. apply Hal. now left. }
      simpl. destruct S1 as [O1 F1].
      destruct (IH mode parent w1) as (w2 & -> & S2).
      { eapply Outer_Ready; eauto. }
      { intros Hex. rewrite (Outer_describeResult _ _ O1). apply Hal. now right. }
      exists w2. split; [reflexivity|]. eapply Steady_trans; [split|]; eauto.
    + destruct (dispatch_aside (TaskError (v :: vs) (taskResult this)) w HR I)
        as (w1 & Hd & F1 & _).
      exists w1. split; [exact Hd|]. split; [now apply Frame_Outer|].
      eapply Follows_dispatch; eauto.
Qed.

Lemma visitDescribe_returns d f ms n s :
  Forall (memberReturns this) ms -> memberReturns this (mkDescribe d f ms n s).
Proof.
  intros IH mode parent w HR Hval Hal. specialize (Hal eq_refl).
  assert (Hf : forall w', visitMember this (mkDescribe d f ms n s) mode parent w = Some w' ->
                 Follows w w') by (intros w'; apply visitMember_follows).
  rewrite visitMember_eq in *. simpl in *. unfold visitDescribe in *.
  set (r := length (Store.describes (heap w))) in *.
  set (runMode := resolveRunMode this mode (mkDescribe d f ms n s)) in *.
  (* describe:start *)
  assert (H1 : exists w1,
    dispatch (DescribeStart r)
      (on_heap (Store.on_describes (fun l => l ++ [DescribeResult.mk parent])) w) = Some w1 /\
    resultHandler w1 = ResultHandler.set_describeResult (Some (InDescribe r)) (resultHandler w) /\
    Store.describes (heap w1) = Store.describes (heap w) ++ [DescribeResult.mk parent] /\
    cancellationHandler w1 = cancellationHandler w /\
    cancellationToken w1 = cancellationToken w).
  { destruct HR as (_ & _ & [k Hk]). unfold dispatch. break_world w. subst.
    clear Hf. destruct parent as [[?|?]|]; simpl; eexists; (split; [reflexivity|]); simpl;
      destruct ch; auto. }
  destruct H1 as (w1 & E1 & R1 & D1 & C1 & T1). rewrite E1 in *. simpl in *.
  assert (HR1 : Ready w1).
  { unfold Ready in *. rewrite R1. destruct (resultHandler w); simpl in *. exact HR. }
  (* the members, or [task:error] *)
  assert (H2 : exists w2,
    (if negb (isSkipped this runMode || truthy (bitand runMode 8)) && (0 <? length d)%nat
     then dispatch (TaskError (fromDiagnostics d) (taskResult this)) w1
     else visit this ms runMode (Some (InDescribe r)) w1) = Some w2 /\
    Steady w1 w2).
  { destruct (_ && _).
    - destruct (dispatch_aside (TaskError (fromDiagnostics d) (taskResult this)) w1 HR1 I)
        as (w2 & Hd & F2 & _).
      exists w2. split; [exact Hd|]. split; [now apply Frame_Outer|].
      eapply Follows_dispatch; eauto.
    - apply (visit_returns ms IH); [exact HR1|]. intros _. rewrite R1.
      destruct (resultHandler w); reflexivity. }
  destruct H2 as (w2 & E2 & [O2 F2]).
  change (visit_loop this (visitMember this)) with (visit this) in *.
  rewrite E2 in *. simpl in *.
  (* describe:end *)
  assert (D2 : Store.describes (heap w2) !! r = Some (DescribeResult.mk parent)).
  { destruct (Follows_Extends _ _ F2) as ([l Hl] & _). rewrite Hl, D1, <- app_assoc.
    rewrite lookup_app_r by (unfold r; lia). unfold r. now rewrite Nat.sub_diag. }
  assert (R2 : ResultHandler.describeResult (resultHandler w2) = Some (InDescribe r)).
  { rewrite (Outer_describeResult _ _ O2), R1. destruct (resultHandler w); reflexivity. }
  assert (H3 : exists w3, dispatch (DescribeEnd r) w2 = Some w3 /\
    resultHandler w3 = ResultHandler.set_describeResult parent (resultHandler w2) /\
    cancellationHandler w3 = cancellationHandler w2 /\
    cancellationToken w3 = cancellationToken w2).
  { unfold dispatch. break_world w2. subst. simpl. rewrite D2. simpl.
    eexists. split; [reflexivity|]. simpl. destruct ch; auto. }
  destruct H3 as (w3 & E3 & R3 & C3 & T3). rewrite E3 in *.
  exists w3. split; [reflexivity|]. split; [|apply Hf; reflexivity].
  destruct O2 as [c2 h2 t2]. split.
  - rewrite R3. rewrite R1 in c2. rewrite <- Hal.
    destruct (resultHandler w), (resultHandler w2); simpl in *. inversion c2; subst. reflexivity.
  - congruence.
  - intros Hn. rewrite T3, t2, T1; congruence.
Qed.

Lemma visitMember_returns m : memberReturns this m.
Proof.
  induction m as [d f ms n s IH | d f ms n s IH | d f ms n s a IH] using TestMember_tree_ind.
  - apply visitDescribe_returns. exact IH.
  - intros mode parent w HR Hval _.
    destruct (visitTest_events this d f ms n s mode parent w HR Hval)
      as (w' & evs & last & Hrun & O & _).
    exists w'. split; [exact Hrun|]. split; [exact O|].
    eapply visitMember_follows; eauto.
  - intros mode parent w HR Hval _.
    destruct (visitMember_assertions_kept this (mkExpect d f ms n s a) eq_refl Hval mode parent w HR)
      as (w' & Hrun & [F _]).
    exists w'. split; [exact Hrun|]. split; [now apply Frame_Outer|].
    eapply visitMember_follows; eauto.
Qed.

(** [visit] returns, from the top of a file or below a group. *)
Lemma visit_total ms mode parent w :
  Ready w -> ResultHandler.describeResult (resultHandler w) = parent ->
  exists w', visit this ms mode parent w = Some w' /\ Steady w w'.
Proof.
  intros HR Hal. apply visit_returns; auto.
  apply Forall_forall. intros m _. apply visitMember_returns.
Qed.
End WalkReturns.

Lemma Steady_Idle r g w w' : Steady w w' -> Idle r g w -> Idle r g w'.
Proof.
  intros [[c _ _] F] (Hr & Hg & Hd & Hlt). destruct (Follows_Extends _ _ F) as (_ & _ & Ht & _).
  unfold Idle. destruct (resultHandler w), (resultHandler w'); simpl in *.
  inversion c; subst. repeat split; auto. lia.
Qed.

Section RunReturns.
Variable config : ResolvedConfig.
Variable load : string -> list Event -> list StoreEvent * option Compiler.

Lemma TaskRunner_run'_total file task k w :
  Ready w -> ResultHandler.describeResult (resultHandler w) = None ->
  exists w', TaskRunner_run' config file task k w = Some w' /\ Steady w w'.
Proof.
  intros HR Hd. unfold TaskRunner_run'.
  assert (Herr : forall ds, exists w',
    dispatch (TaskError ds k) w = Some w' /\ Steady w w').
  { intros ds. destruct (dispatch_aside (TaskError ds k) w HR I) as (w' & H & F & _).
    exists w'. split; [exact H|]. split; [now apply Frame_Outer|].
    eapply Follows_dispatch; eauto. }
  destruct (negb (languageService file)); [exists w; split; [reflexivity | apply Steady_refl]|].
  destruct (0 <? length (syntacticDiagnostics file))%nat; [apply Herr|].
  destruct (negb (program file)); [exists w; split; [reflexivity | apply Steady_refl]|].
  destruct (negb (sourceFile file)); [exists w; split; [reflexivity | apply Steady_refl]|].
  destruct (0 <? length (tree_diagnostics (testTree file)))%nat; [apply Herr|].
  apply visit_total; assumption.
Qed.

Lemma TaskRunner_run_total compiler task r g w :
  Idle r g w ->
  exists w', TaskRunner_run config compiler task w = Some w' /\ Idle r g w'.
Proof.
  intros HI. unfold TaskRunner_run.
  destruct (CancellationToken.isCancellationRequested _); [eauto|].
  set (file := openFile compiler task).
  (* [project:uses], [project:error], [task:start] *)
  assert (H1 : exists w1,
    ProjectService_openFile compiler file w = Some w1 /\ Idle r g w1 /\
    is_Some (ResultHandler.projectResult (resultHandler w1))).
  { destruct HI as (Hr & Hg & Hd & Hlt). apply lookup_lt_is_Some in Hlt as [tg Htg].
    unfold ProjectService_openFile, dispatch. break_world w. subst. simpl. rewrite Htg. simpl.
    destruct (JsMap.get _ _); simpl; destruct (0 <? _)%nat; simpl;
      (eexists; split; [reflexivity|]); unfold Idle; simpl;
      rewrite ?length_alter; (split; [|eauto]); repeat split;
      eauto using lookup_lt_Some. }
  destruct H1 as (w1 & -> & HI1 & [pr Hpr]). simpl.
  set (k := length (Store.tasks (heap w1))).
  assert (H2 : exists w2,
    dispatch (TaskStart k)
      (on_heap (Store.on_tasks (fun l => l ++ [TaskResult.new (filePath task)])) w1) = Some w2 /\
    Idle r g w2 /\ ResultHandler.taskResult (resultHandler w2) = Some k /\
    (k < length (Store.tasks (heap w2)))%nat).
  { destruct HI1 as (Hr & Hg & Hd & Hlt). unfold dispatch. subst k. break_world w1. subst.
    simpl. eexists. split; [reflexivity|]. unfold Idle. simpl.
    rewrite length_app. simpl. repeat split; auto; lia. }
  destruct H2 as (w2 & -> & HI2 & Hk2 & Hlt2). simpl.
  assert (HR2 : Ready w2).
  { destruct HI2 as (Hr & Hg & _). unfold Ready. rewrite Hr, Hg, Hk2. eauto. }
  destruct (TaskRunner_run'_total file task k w2 HR2) as (w3 & -> & S3);
    [apply HI2|]. simpl.
  (* [task:end] *)
  pose proof (Steady_Idle r g _ _ S3 HI2) as HI3.
  assert (Hk3 : ResultHandler.taskResult (resultHandler w3) = Some k).
  { destruct S3 as [O3 _]. now rewrite (Outer_taskResult _ _ O3). }
  assert (Hlt3 : (k < length (Store.tasks (heap w3)))%nat).
  { destruct S3 as [_ F3]. destruct (Follows_Extends _ _ F3) as (_ & _ & _ & Ht). lia. }
  destruct HI3 as (Hr & Hg & Hd & Hlt). apply lookup_lt_is_Some in Hlt3 as [tk Htk].
  unfold dispatch. break_world w3. subst. simpl. rewrite Htk. simpl.
  destruct (_ || _); simpl; (eexists; split; [reflexivity|]); unfold Idle; simpl;
    rewrite ?length_alter; auto.
Qed.

Lemma runTasks_total compiler tasks r g w :
  Idle r g w -> exists w', runTasks config compiler tasks w = Some w' /\ Idle r g w'.
Proof.
  revert w. induction tasks as [|task tasks IH]; intros w HI; simpl; [eauto|].
  destruct (TaskRunner_run_total compiler task r g w HI) as (w1 & -> & HI1). simpl.
  apply IH. exact HI1.
Qed.

Lemma storeEvents_total published r g w :
  Idle r g w ->
  exists w', dispatchAll (map storeEvent published) w = Some w' /\ Idle r g w'.
Proof.
  revert w. induction published as [|ev published IH]; intros w HI; simpl; [eauto|].
  assert (H1 : exists w1, dispatch (storeEvent ev) w = Some w1 /\ Idle r g w1).
  { destruct HI as (Hr & Hg & Hd & Hlt). unfold dispatch. break_world w. subst.
    destruct ev; simpl; (eexists; split; [reflexivity|]); unfold Idle; simpl;
      rewrite ?length_alter; auto. }
  destruct H1 as (w1 & -> & HI1). simpl. apply IH. exact HI1.
Qed.

Lemma runTarget_total tasks v r w :
  Open r w -> exists w', runTarget config load tasks v w = Some w' /\ Open r w'.
Proof.
  intros [Hr Hd]. unfold runTarget.
  set (g := length (Store.targets (heap w))).
  assert (H1 : exists w1,
    dispatch (TargetStart g)
      (on_heap (Store.on_targets (fun l => l ++ [TargetResult.new v])) w) = Some w1 /\
    Idle r g w1).
  { unfold dispatch. subst g. break_world w. subst. simpl. eexists. split; [reflexivity|].
    unfold Idle. simpl. rewrite length_app. simpl. repeat split; auto; lia. }
  destruct H1 as (w1 & -> & HI1). simpl.
  destruct (load v (log w1)) as [published compiler].
  destruct (storeEvents_total published r g w1 HI1) as (w2 & -> & HI2). simpl.
  assert (H3 : exists w3,
    match compiler with
    | Some compiler => runTasks config compiler tasks w2
    | None => Some w2
    end = Some w3 /\ Idle r g w3).
  { destruct compiler; [now apply runTasks_total | eauto]. }
  destruct H3 as (w3 & -> & (Hr3 & Hg3 & Hd3 & Hlt3)). simpl.
  apply lookup_lt_is_Some in Hlt3 as [tg Htg].
  unfold dispatch. break_world w3. subst. simpl. rewrite Htg. simpl.
  destruct (is_failed _); simpl; (eexists; split; [reflexivity|]); split; reflexivity.
Qed.

Lemma runTargets_total tasks vs r w :
  Open r w -> exists w', runTargets config load tasks vs w = Some w' /\ Open r w'.
Proof.
  revert w. induction vs as [|v vs IH]; intros w HO; simpl; [eauto|].
  destruct (runTarget_total tasks v r w HO) as (w1 & -> & HO1). simpl.
  apply IH. exact HO1.
Qed.

(** The run returns: no event reaches the result handler in a state in
    which it reads a result that is not set. *)
Lemma Runner_run_total tasks :
  exists w', Runner_run config load tasks initialWorld = Some w'.
Proof.
  unfold Runner_run, Runner_run'.
  set (w0 := if failFast config then set_cancellationHandler (Some FailFast) initialWorld
             else initialWorld).
  assert (H1 : exists w1,
    dispatch (RunStart (length (Store.runs (heap w0))))
      (on_heap (Store.on_runs (fun l => l ++ [Result.new])) w0) = Some w1 /\ Open 0 w1).
  { subst w0. destruct (failFast config); eexists; (split; [reflexivity|]); split; reflexivity. }
  destruct H1 as (w1 & -> & HO1). simpl.
  destruct (runTargets_total tasks (target config) 0 w1 HO1) as (w2 & -> & [Hr2 Hd2]). simpl.
  unfold dispatch. break_world w2. subst. simpl.
  destruct (bool_decide _); simpl; eauto.
Qed.
End RunReturns.

(** * The outcomes of files and targets *)

Lemma ResultCount_add_incr_failed a b :
  ResultCount.add a (ResultCount.incr_failed b) = ResultCount.incr_failed (ResultCount.add a b).
Proof. apply ResultCount_eq; simpl; lia. Qed.

Lemma ResultCount_add_incr_passed a b :
  ResultCount.add a (ResultCount.incr_passed b) = ResultCount.incr_passed (ResultCount.add a b).
Proof. apply ResultCount_eq; simpl; lia. Qed.

Lemma Settled_grows r files targets o h σ σ' :
  grows σ σ' -> Settled r files targets o (h, σ) -> Settled r files targets o (h, σ').
Proof.
  intros (Hruns & Htargets & Htasks & _) (Hr & (x & Hx & Fx & Gx) & Hk & Hg). simpl in *.
  split; [exact Hr|]. split; [|split].
  - exists x. split; [eapply grows_lookup; eauto | auto].
  - intros k Ek. destruct (Hk k Ek) as (y & Hy & E). exists y.
    split; [eapply grows_lookup; eauto | exact E].
  - intros g Eg. destruct (Hg g Eg) as (z & Hz & E). exists z.
    split; [eapply grows_lookup; eauto | exact E].
Qed.

Lemma status_push_results ds path tg :
  TargetResult.status
    match JsMap.get path (TargetResult.results tg) with
    | Some p => TargetResult.set_results
                  (JsMap.set path (ProjectResult.push_diagnostics ds p) (TargetResult.results tg)) tg
    | None => tg
    end = TargetResult.status tg.
Proof. now destruct (JsMap.get path (TargetResult.results tg)). Qed.

(** The facts that [Settled] gives for the file and the target that are
    run, and the flags of the outcomes rewritten with them. *)
Ltac flags :=
  intros;
  repeat match goal with
         | Hk : forall k, ?t = Some k -> _, E : ?t = Some ?a |- _ =>
             destruct (Hk a E) as (? & ? & ?); clear Hk
         | Hk : forall k, Some ?a = Some k -> _ |- _ =>
             destruct (Hk a eq_refl) as (? & ? & ?); clear Hk
         end;
  simplify_eq;
  repeat match goal with
         | F : _ = fileFails _ |- _ => try rewrite <- F; clear F
         | F : _ = targetFails _ |- _ => try rewrite <- F; clear F
         end;
  repeat match goal with
         | E : ?c = true |- context [?c] => rewrite E
         | E : ?c = false |- context [?c] => rewrite E
         end.

Lemma settled_step r files targets o ev h σ h1 σ1 :
  ResultHandler.handleEvent ev h σ = Some (h1, σ1) -> isRunStart ev = false ->
  fresh ev σ ->
  Settled r files targets o (h, σ) -> Settled r files targets (outcome o ev) (h1, σ1).
Proof.
  intros H Hev Hf (Hr & (x & Hx & Fx & Gx) & Hk & Hg).
  destruct h as [d ex p rr g tk t]. simpl in Hr, Hx, Hk, Hg.
  destruct ev; try discriminate Hev; clear Hev; simpl in Hf;
    (destruct Hr as [-> | ->]; handler_cases H);
    unfold Settled; cbn [fst snd ResultHandler.result ResultHandler.taskResult
                          ResultHandler.targetResult ResultHandler.set_result
                          ResultHandler.set_targetResult ResultHandler.set_taskResult
                          ResultHandler.set_testResult ResultHandler.set_expectResult
                          ResultHandler.set_describeResult ResultHandler.set_projectResult].
  all: (split; [auto|]).
  all: try destruct Hf as (? & Hf).
  all: unfold ResultHandler.countExpect, ResultHandler.countTest;
       cbn [outcome Store.runs Store.targets Store.tasks Store.on_runs Store.on_targets
            Store.on_tasks Store.on_tests Store.on_expects Store.on_describes].
  all: try match goal with
           | |- context [match ?t with Some _ => _ | None => _ end] => is_var t; destruct t
           end;
       cbn [Store.runs Store.targets Store.tasks Store.on_runs Store.on_targets
            Store.on_tasks Store.on_tests Store.on_expects Store.on_describes].
  all: split; [|split]; flags;
       try match goal with
           | |- context [alter _ ?i (alter _ ?j _) !! ?j] =>
               destruct (decide (i = j)) as [->|];
               [|rewrite list_lookup_alter_ne by assumption]
           end;
       rewrite ?list_lookup_alter_eq;
       repeat match goal with
              | H : ?l !! ?i = Some _ |- context [?l !! ?i] => rewrite H
              end;
       try (eexists; (split; [reflexivity|]); simpl;
            repeat match goal with
                   | E : ?c = true |- context [?c] => rewrite E
                   | E : ?c = false |- context [?c] => rewrite E
                   end;
            rewrite ?ResultCount_add_incr_failed, ?ResultCount_add_incr_passed,
              ?status_push_results, ?orb_true_r, ?orb_false_r;
            first [reflexivity | split; congruence]).
  all: eexists; (split; [reflexivity|]); cbv beta;
       rewrite status_push_results; cbn [targetFails failsTheTarget];
       rewrite orb_true_r; reflexivity.
Qed.

Lemma settled_level r files targets o s evs s' :
  handles s evs s' -> Forall (fun ev => isRunStart ev = false) evs ->
  Settled r files targets o s -> Settled r files targets (outcomesFrom o evs) s'.
Proof.
  intros H. revert o. induction H as [s | h σ σ' evs s G H IH | h σ ev s1 evs s E F H IH];
    intros o Hevs Hs.
  - exact Hs.
  - apply IH; [exact Hevs|]. eapply Settled_grows; eassumption.
  - destruct s1 as [h1 σ1]. inversion Hevs; subst. simpl. apply IH; [assumption|].
    eapply settled_step; eassumption.
Qed.

Lemma not_RunStart_all evs :
  forallb (fun ev => negb (isRunStart ev)) evs = true ->
  Forall (fun ev => isRunStart ev = false) evs.
Proof.
  induction evs as [|ev evs IH]; simpl; intros H; constructor.
  - apply andb_true_iff in H as [H _]. now apply negb_true_iff.
  - apply andb_true_iff in H as [_ H]. exact (IH H).
Qed.

(** The state in which the events of the first run are handled. *)
Lemma Settled_start :
  Settled 0 ResultCount.new ResultCount.new
    (mkOutcomes false false ResultCount.new ResultCount.new)
    (ResultHandler.set_result (Some 0%nat) ResultHandler.new,
     Store.on_runs (fun _ => [Result.new]) Store.empty).
Proof.
  split; [left; reflexivity|]. split; [|split].
  - exists Result.new. split; [reflexivity|]. split; reflexivity.
  - intros k [=].
  - intros g [=].
Qed.

(** C3: the counts kept by the result handler are the numbers of terminal
    events handled. For any stream of events handled one after the other,
    the counts of the run, of the task and of the case that the handler
    holds are the counts they had plus the numbers of terminal events of
    each kind in the stream; and the file and target counts of the run are
    the counts it had plus the numbers of files and of targets that ended
    in the stream, failed and passed: a file ends failed when, since its
    [task:start], a [task:error] was handled or an assertion or a case
    failed, and a target ends failed when, since its [target:start], one
    of its files ended failed or a [store:error] with an error, a
    [project:error] or a [task:error] was handled. Every run returns, and
    every segment of its events is such a stream; so after every prefix of
    the events of a run, the counts of the run are the numbers of terminal
    events in the prefix, bucket by bucket, and a run with 2 passed and 1
    failed cases, 4 passed and 1 failed assertions ends with test counts
    of 2 passed, 1 failed, total 3 and expect counts of 4 passed, 1
    failed, total 5. *)
Theorem count_consistency :
  (forall s evs s', handles s evs s' ->
     (forall r x,
        forallb (fun ev => negb (isRunStart ev)) evs = true ->
        ResultHandler.result (fst s) = Some r -> Store.runs (snd s) !! r = Some x ->
        exists x', Store.runs (snd s') !! r = Some x' /\
          Result.expectCount x' = ResultCount.add (Result.expectCount x) (expectTally evs) /\
          Result.testCount x' = ResultCount.add (Result.testCount x) (testTally evs) /\
          ResultCount.total (Result.fileCount x')
            = (ResultCount.total (Result.fileCount x) + count isTaskEnd evs)%nat /\
          ResultCount.total (Result.targetCount x')
            = (ResultCount.total (Result.targetCount x) + count isTargetEnd evs)%nat) /\
     (forall k y,
        forallb (fun ev => negb (isTaskStart ev)) evs = true ->
        ResultHandler.taskResult (fst s) = Some k -> Store.tasks (snd s) !! k = Some y ->
        exists y', Store.tasks (snd s') !! k = Some y' /\
          TaskResult.expectCount y' = ResultCount.add (TaskResult.expectCount y) (expectTally evs) /\
          TaskResult.testCount y' = ResultCount.add (TaskResult.testCount y) (testTally evs)) /\
     (forall t z,
        forallb (fun ev => negb (isTestEvent ev)) evs = true ->
        ResultHandler.testResult (fst s) = Some t -> Store.tests (snd s) !! t = Some z ->
        exists z', Store.tests (snd s') !! t = Some z' /\
          TestResult.expectCount z'
            = ResultCount.add (TestResult.expectCount z) (expectTally evs)) /\
     (forall r x o,
        forallb (fun ev => negb (isRunStart ev)) evs = true ->
        Settled r (Result.fileCount x) (Result.targetCount x) o s ->
        exists x', Store.runs (snd s') !! r = Some x' /\
          Result.fileCount x'
            = ResultCount.add (Result.fileCount x) (fileTally (outcomesFrom o evs)) /\
          Result.targetCount x'
            = ResultCount.add (Result.targetCount x) (targetTally (outcomesFrom o evs)))) /\
  (forall config load tasks, exists w', Runner_run config load tasks initialWorld = Some w') /\
  (forall config load tasks w' pre evs post,
     Runner_run config load tasks initialWorld = Some w' ->
     log w' = pre ++ evs ++ post ->
     exists s s',
       handles (ResultHandler.new, Store.empty) pre s /\ handles s evs s' /\
       handles s' post (resultHandler w', heap w')) /\
  (forall config load tasks w' evs rest,
     Runner_run config load tasks initialWorld = Some w' ->
     log w' = RunStart 0 :: evs ++ rest ->
     exists s x,
       handles (ResultHandler.new, Store.empty) (RunStart 0 :: evs) s /\
       handles s rest (resultHandler w', heap w') /\
       Store.runs (snd s) !! 0%nat = Some x /\
       Result.expectCount x = expectTally evs /\
       Result.testCount x = testTally evs /\
       ResultCount.total (Result.fileCount x) = count isTaskEnd evs /\
       ResultCount.total (Result.targetCount x) = count isTargetEnd evs /\
       Result.fileCount x = fileTally (outcomes evs) /\
       Result.targetCount x = targetTally (outcomes evs)) /\
  (forall config load tasks w' evs,
     Runner_run config load tasks initialWorld = Some w' ->
     log w' = RunStart 0 :: evs ->
     testTally evs = ResultCount.mk 1 2 0 0 -> expectTally evs = ResultCount.mk 1 4 0 0 ->
     exists x, Store.runs (heap w') !! 0%nat = Some x /\
       Result.testCount x = ResultCount.mk 1 2 0 0 /\
       ResultCount.total (Result.testCount x) = 3%nat /\
       Result.expectCount x = ResultCount.mk 1 4 0 0 /\
       ResultCount.total (Result.expectCount x) = 5%nat).
Proof.
  assert (Hstart : handles (ResultHandler.new, Store.empty) [RunStart 0]
            (ResultHandler.set_result (Some 0%nat) ResultHandler.new,
             Store.on_runs (fun _ => [Result.new]) Store.empty)).
  { eapply handles_new; [apply (grows_runs Result.new)|].
    eapply handles_event; [reflexivity | exact I | constructor]. }
  split; [|split; [exact Runner_run_total|split; [|split]]].
  - intros s evs s' H. split; [|split; [|split]].
    + intros r x Hno Hr Hx.
      destruct (inRun_run_level s evs s' r x H Hno Hr Hx) as (x' & Hx' & E & T & F & G).
      eauto 10.
    + intros k y Hno Hk Hy. pose proof (task_level s evs s' H Hno) as L. rewrite Hk in L.
      destruct (L y Hy) as (y' & Hy' & E & T). eauto.
    + intros t z Hno Ht Hz. eapply case_level; eauto.
    + intros r x o Hno Hs.
      destruct (settled_level _ _ _ _ _ _ _ H (not_RunStart_all _ Hno) Hs)
        as (_ & (x' & Hx' & F & G) & _). eauto.
  - intros config load tasks w' pre evs post Hrun Hlog.
    destruct (Runner_run_stream config load tasks w' Hrun) as (evs0 & L & _ & H).
    assert (Hall : handles (ResultHandler.new, Store.empty) (pre ++ evs ++ post)
                     (resultHandler w', heap w')).
    { rewrite <- Hlog, L. exact (handles_app _ _ _ _ _ Hstart H). }
    destruct (handles_split _ _ _ _ Hall) as (s & H1 & H2).
    destruct (handles_split _ _ _ _ H2) as (s' & H3 & H4). eauto.
  - intros config load tasks w' evs rest Hrun Hlog.
    destruct (Runner_run_stream config load tasks w' Hrun) as (evs0 & L & Hin & H).
    rewrite L in Hlog. injection Hlog as ->.
    destruct (handles_split _ _ _ _ H) as (s & H1 & H2).
    rewrite forallb_app in Hin. apply andb_true_iff in Hin as [Hin _].
    destruct (inRun_run_level _ evs s 0%nat Result.new H1 Hin eq_refl eq_refl)
      as (x & Hx & E & T & F & G).
    destruct (settled_level 0 ResultCount.new ResultCount.new _ _ _ _ H1
                (not_RunStart_all _ Hin) Settled_start)
      as (_ & (x0 & Hx0 & F' & G') & _).
    rewrite Hx in Hx0. injection Hx0 as <-. rewrite ResultCount_add_new in F', G'.
    exists s, x. split; [exact (handles_app _ _ _ _ _ Hstart H1)|]. split; [exact H2|].
    split; [exact Hx|].
    change (Result.expectCount Result.new) with ResultCount.new in E.
    change (Result.testCount Result.new) with ResultCount.new in T.
    rewrite ResultCount_add_new in E, T. auto 10.
  - intros config load tasks w' evs Hrun Hlog Ht He.
    destruct (Runner_run_stream config load tasks w' Hrun) as (evs0 & L & Hin & H).
    rewrite L in Hlog. injection Hlog as ->.
    destruct (inRun_run_level _ evs _ 0%nat Result.new H Hin eq_refl eq_refl)
      as (x & Hx & E & T & _).
    exists x. split; [exact Hx|].
    change (Result.expectCount Result.new) with ResultCount.new in E.
    change (Result.testCount Result.new) with ResultCount.new in T.
    rewrite ResultCount_add_new in E, T. rewrite E, T, Ht, He. auto.
Qed.

(** * Watch debounce *)

Section JsMapFacts.
Context {K V : Type} `{EqDecision K}.
Implicit Types m : list (K * V).


Lemma JsMap_get_set k v m : JsMap.get k (JsMap.set k v m) = Some v.
Proof.
  induction m as [|[k' v'] m IH]; simpl.
  - destruct (decide (k = k)); [reflexivity | contradiction].
  - destruct (decide (k' = k)) as [->|Hne]; simpl.
    + destruct (decide (k = k)); [reflexivity | contradiction].
    + destruct (decide (k' = k)); [contradiction | exact IH].
Qed.



End JsMapFacts.

Section Watch.
Variable isTestFile : string -> bool.
Import WatchService.

Lemma without_all timer pending :
  (forall other, In other pending -> other = timer) -> without timer pending = [].
Proof.
  induction pending as [|other pending IH]; intros H; [reflexivity|]. simpl.
  rewrite (H other (or_introl eq_refl)), Nat.eqb_refl. simpl.
  apply IH. intros o Ho. apply H. now right.
Qed.

Lemma pending_timer timer pending :
  existsb (Nat.eqb timer) pending = true <-> In timer pending.
Proof.
  rewrite existsb_exists. split.
  - intros (other & Hin & E). apply Nat.eqb_eq in E. now subst.
  - intros Hin. exists timer. split; [exact Hin | apply Nat.eqb_refl].
Qed.

(** [Debounce.clearTimeout] leaves no timer pending, when the pending
    ones are [Debounce.#timeout]. *)
Lemma clearTimeout_timers s :
  (forall timer, In timer (timers s) -> timeout s = Some timer) ->
  timers (clearTimeout s) = [].
Proof.
  intros H. unfold clearTimeout, host_clearTimeout.
  destruct (timeout s) as [timer|] eqn:E; simpl.
  - apply without_all. intros other Hin. specialize (H other Hin). congruence.
  - destruct (timers s) as [|timer pending]; [reflexivity|].
    specialize (H timer (or_introl eq_refl)). discriminate.
Qed.

Lemma clearTimeout_eq s :
  (forall timer, In timer (timers s) -> timeout s = Some timer) ->
  clearTimeout s = set_timers [] s.
Proof.
  intros H. pose proof (clearTimeout_timers s H) as E. revert E.
  unfold clearTimeout, host_clearTimeout. destruct (timeout s); simpl.
  - intros ->. reflexivity.
  - intros _. destruct (timers s) as [|timer pending] eqn:Ht.
    + destruct s; simpl in *; subst; reflexivity.
    + specialize (H timer (or_introl eq_refl)). discriminate.
Qed.

Lemma refreshTimeout_eq s :
  (forall timer, In timer (timers s) -> timeout s = Some timer) ->
  refreshTimeout s = armed (nextTimer s) s.
Proof.
  intros H. unfold refreshTimeout. rewrite (clearTimeout_eq s H). reflexivity.
Qed.

Lemma clearTimeout_cases s : exists pending, clearTimeout s = set_timers pending s.
Proof.
  unfold clearTimeout, host_clearTimeout. destruct (timeout s); [eexists; reflexivity|].
  exists (timers s). destruct s; reflexivity.
Qed.

Lemma refreshTimeout_cases s :
  exists pending, refreshTimeout s =
    set_timeout (Some (nextTimer s)) (set_nextTimer (S (nextTimer s)) (set_timers pending s)).
Proof.
  unfold refreshTimeout. destruct (clearTimeout_cases s) as (pending & ->).
  eexists. reflexivity.
Qed.


End Watch.

(** Writes out what [Debounce.clearTimeout] and [Debounce.refreshTimeout]
    leave of a session. *)
Ltac timers_out :=
  repeat match goal with
         | |- context [WatchService.refreshTimeout ?x] =>
             let pending := fresh "pending" in
             destruct (refreshTimeout_cases x) as (pending & ->)
         | |- context [WatchService.clearTimeout ?x] =>
             let pending := fresh "pending" in
             destruct (clearTimeout_cases x) as (pending & ->)
         end.

Section JsMapKeys.
Context {K V : Type} `{EqDecision K}.
Implicit Types m : list (K * V).

Lemma JsMap_set_keys k v m :
  forall k', In k' (map fst (JsMap.set k v m)) -> k' = k \/ In k' (map fst m).
Proof.
  induction m as [|[k0 v0] m IH]; simpl; intros k' Hin.
  - destruct Hin as [<-|[]]. now left.
  - destruct (decide (k0 = k)) as [->|Hne]; simpl in Hin.
    + right. exact Hin.
    + destruct Hin as [<-|Hin]; [right; now left|].
      destruct (IH k' Hin) as [->|Hin']; [now left | right; now right].
Qed.

Lemma JsMap_set_NoDup k v m :
  List.NoDup (map fst m) -> List.NoDup (map fst (JsMap.set k v m)).
Proof.
  induction m as [|[k0 v0] m IH]; simpl; intros Hnd.
  - constructor; [intros [] | constructor].
  - inversion Hnd as [|? ? Hnotin Hnd']; subst.
    destruct (decide (k0 = k)) as [->|Hne]; simpl.
    + constructor; assumption.
    + constructor; [|now apply IH].
      intros Hin. destruct (JsMap_set_keys k v m k0 Hin) as [->|Hin']; [now apply Hne | now apply Hnotin].
Qed.

Lemma JsMap_delete_keys k m :
  forall k', In k' (map fst (JsMap.delete k m)) -> In k' (map fst m).
Proof.
  induction m as [|[k0 v0] m IH]; simpl; intros k' Hin; [exact Hin|].
  destruct (decide (k0 = k)); simpl in *; [now right|].
  destruct Hin as [<-|Hin]; [now left | right; now apply IH].
Qed.

Lemma JsMap_delete_NoDup k m :
  List.NoDup (map fst m) -> List.NoDup (map fst (JsMap.delete k m)).
Proof.
  induction m as [|[k0 v0] m IH]; simpl; intros Hnd; [exact Hnd|].
  inversion Hnd as [|? ? Hnotin Hnd']; subst.
  destruct (decide (k0 = k)); simpl; [exact Hnd'|].
  constructor; [|now apply IH]. intros Hin. apply Hnotin. now apply JsMap_delete_keys in Hin.
Qed.
End JsMapKeys.

Section WatchInvariant.
Variable isTestFile : string -> bool.
Import WatchService.

(** What every callback keeps: a key is held once in the map of changed
    files, and [Debounce.#resolve] stays as [setup] left it. *)
Lemma resolve_inv value s :
  changedTestFiles (resolve value s) = changedTestFiles s /\
  resolver (resolve value s) = resolver s.
Proof.
  unfold resolve, loop. destruct (resolver s) eqn:Hr, (phase s); simpl; auto;
    repeat (case_match; simpl; auto).
Qed.



End WatchInvariant.

(** * The total of a counts record *)

(** C10: the total of a counts record is the sum of its four buckets: it is
    computed from them, so it is 0 for a new record, grows by one with each
    increment and adds up over sums. *)
Theorem total_is_derived :
  (forall c, ResultCount.total c
     = (ResultCount.failed c + ResultCount.passed c + ResultCount.skipped c
        + ResultCount.todo c)%nat) /\
  ResultCount.total ResultCount.new = 0%nat /\
  (forall c, ResultCount.total (ResultCount.incr_failed c) = S (ResultCount.total c) /\
             ResultCount.total (ResultCount.incr_passed c) = S (ResultCount.total c) /\
             ResultCount.total (ResultCount.incr_skipped c) = S (ResultCount.total c) /\
             ResultCount.total (ResultCount.incr_todo c) = S (ResultCount.total c)) /\
  (forall a b, ResultCount.total (ResultCount.add a b)
     = (ResultCount.total a + ResultCount.total b)%nat).
Proof.
  split; [reflexivity|]. split; [reflexivity|]. split.
  - intros c. unfold ResultCount.total. simpl. repeat split; lia.
  - intros a b. unfold ResultCount.total. simpl. lia.
Qed.

(** * Fail-fast *)

Lemma TaskRunner_run_cancelled config compiler task w :
  CancellationToken.isCancellationRequested (cancellationToken w) = true ->
  TaskRunner_run config compiler task w = Some w.
Proof. intros H. unfold TaskRunner_run. now rewrite H. Qed.

Lemma runTasks_cancelled config compiler tasks w :
  CancellationToken.isCancellationRequested (cancellationToken w) = true ->
  runTasks config compiler tasks w = Some w.
Proof.
  intros H. induction tasks as [|task tasks IH]; [reflexivity|].
  simpl. rewrite TaskRunner_run_cancelled by exact H. simpl. exact IH.
Qed.

Section RunnerEquations.
Variable config : ResolvedConfig.
Variable load : string -> list Event -> list StoreEvent * option Compiler.

Lemma runTargets_cons tasks v vs w :
  runTargets config load tasks (v :: vs) w =
  w1 ← runTarget config load tasks v w; runTargets config load tasks vs w1.
Proof. reflexivity. Qed.

Lemma runTarget_eq tasks v w :
  runTarget config load tasks v w =
  w1 ← dispatch (TargetStart (length (Store.targets (heap w))))
         (on_heap (Store.on_targets (fun l => l ++ [TargetResult.new v])) w);
  w2 ← dispatchAll (map storeEvent (fst (load v (log w1)))) w1;
  w3 ← match snd (load v (log w1)) with
       | Some compiler => runTasks config compiler tasks w2
       | None => Some w2
       end;
  dispatch (TargetEnd (length (Store.targets (heap w)))) w3.
Proof.
  unfold runTarget. destruct (dispatch _ _) as [w1|]; [|reflexivity]. simpl.
  now destruct (load v (log w1)).
Qed.

Lemma runTasks_cons compiler task tasks w :
  runTasks config compiler (task :: tasks) w =
  w1 ← TaskRunner_run config compiler task w; runTasks config compiler tasks w1.
Proof. reflexivity. Qed.

Lemma TaskRunner_run_eq compiler task w :
  CancellationToken.isCancellationRequested (cancellationToken w) = false ->
  TaskRunner_run config compiler task w =
  w1 ← ProjectService_openFile compiler (openFile compiler task) w;
  w2 ← dispatch (TaskStart (length (Store.tasks (heap w1))))
         (on_heap (Store.on_tasks (fun l => l ++ [TaskResult.new (filePath task)])) w1);
  w3 ← TaskRunner_run' config (openFile compiler task) task (length (Store.tasks (heap w1))) w2;
  dispatch (TaskEnd (length (Store.tasks (heap w1)))) w3.
Proof. intros H. unfold TaskRunner_run. now rewrite H. Qed.

Lemma openFile_eq compiler file w :
  configFileErrors file = [] ->
  ProjectService_openFile compiler file w =
  dispatch (ProjectUses (version compiler) (configFileName file)) w.
Proof.
  intros H. unfold ProjectService_openFile. rewrite H. simpl.
  destruct (dispatch _ w); reflexivity.
Qed.
End RunnerEquations.

(** An event that carries an error diagnostic cancels the run when the
    cancellation handler is registered. *)
Lemma dispatch_cancels reason ev ds w w' :
  cancellationHandler w = Some reason ->
  payload_diagnostics ev = Some ds -> existsb isError ds = true ->
  dispatch ev w = Some w' ->
  CancellationToken.isCancellationRequested (cancellationToken w') = true.
Proof.
  intros Hh Hp He H. unfold dispatch in H.
  destruct (ResultHandler.handleEvent _ _ _) as [[h σ]|]; [|discriminate H].
  simpl in H. injection H as <-. simpl. rewrite Hh.
  unfold CancellationHandler.handleEvent. rewrite Hp, He.
  unfold CancellationToken.cancel, CancellationToken.isCancellationRequested.
  destruct (CancellationToken.isCancelled (cancellationToken w)) eqn:Hc; simpl; auto.
Qed.

(** A load that goes without a [store:error] leaves the world as it is,
    but for the events it publishes. *)
Lemma storeEvents_quiet published l h ch tok σ :
  noStoreError published = true ->
  dispatchAll (map storeEvent published) (mkWorld l h ch tok σ) =
  Some (mkWorld (l ++ map storeEvent published) h ch tok σ).
Proof.
  revert l. induction published as [|ev published IH]; intros l H; simpl.
  - now rewrite app_nil_r.
  - simpl in H. destruct ev as [path version | text]; [|discriminate H].
    rewrite dispatch_eq. simpl.
    assert (Ht : match ch with
                 | Some reason =>
                     CancellationHandler.handleEvent reason (StoreAdds path version) tok
                 | None => tok
                 end = tok) by now destruct ch.
    rewrite Ht, (IH _ H), <- app_assoc. reflexivity.
Qed.

(** Once cancellation is requested, the events of a load leave the token
    and the cursors of the result handler as they are. *)
Lemma storeEvents_cancelled published w g :
  CancellationToken.isCancellationRequested (cancellationToken w) = true ->
  ResultHandler.targetResult (resultHandler w) = Some g ->
  exists w',
    dispatchAll (map storeEvent published) w = Some w' /\
    log w' = log w ++ map storeEvent published /\
    CancellationToken.isCancellationRequested (cancellationToken w') = true /\
    resultHandler w' = resultHandler w /\
    length (Store.targets (heap w')) = length (Store.targets (heap w)).
Proof.
  revert w. induction published as [|ev published IH]; intros w Hc Hg; simpl.
  - exists w. rewrite app_nil_r. auto.
  - assert (H1 : exists w1,
      dispatch (storeEvent ev) w = Some w1 /\ log w1 = log w ++ [storeEvent ev] /\
      CancellationToken.isCancellationRequested (cancellationToken w1) = true /\
      resultHandler w1 = resultHandler w /\
      length (Store.targets (heap w1)) = length (Store.targets (heap w))).
    { unfold dispatch. break_world w. subst.
      destruct ev; simpl; (eexists; split; [reflexivity|]); simpl;
        rewrite ?length_alter; repeat split;
        destruct ch; simpl; try reflexivity;
        unfold CancellationHandler.handleEvent, CancellationToken.cancel; simpl;
        unfold CancellationToken.isCancellationRequested in Hc; rewrite ?Hc; auto. }
    destruct H1 as (w1 & -> & L1 & C1 & R1 & T1). simpl.
    destruct (IH w1 C1) as (w' & E & L & C & R & T); [now rewrite R1|].
    exists w'. split; [exact E|]. rewrite L, L1, <- app_assoc. simpl.
    repeat split; congruence.
Qed.

(** Once cancellation is requested, a target gets its [target:start], the
    events of the load of its compiler and [target:end], and nothing
    else. *)
Lemma runTarget_cancelled config load tasks v w :
  CancellationToken.isCancellationRequested (cancellationToken w) = true ->
  is_Some (ResultHandler.result (resultHandler w)) ->
  let g := length (Store.targets (heap w)) in
  let published := fst (load v (log w ++ [TargetStart g])) in
  exists w',
    runTarget config load tasks v w = Some w' /\
    log w' = log w ++ [TargetStart g] ++ map storeEvent published ++ [TargetEnd g] /\
    CancellationToken.isCancellationRequested (cancellationToken w') = true /\
    is_Some (ResultHandler.result (resultHandler w')).
Proof.
  intros Hc [r Hr] g published. rewrite runTarget_eq. fold g.
  assert (H1 : exists w1,
    dispatch (TargetStart g)
      (on_heap (Store.on_targets (fun l => l ++ [TargetResult.new v])) w) = Some w1 /\
    log w1 = log w ++ [TargetStart g] /\
    CancellationToken.isCancellationRequested (cancellationToken w1) = true /\
    ResultHandler.result (resultHandler w1) = Some r /\
    ResultHandler.targetResult (resultHandler w1) = Some g /\
    (g < length (Store.targets (heap w1)))%nat).
  { unfold dispatch. subst g. break_world w. subst. simpl.
    eexists. split; [reflexivity|]. simpl. rewrite length_app. simpl.
    destruct ch; repeat split; auto; lia. }
  destruct H1 as (w1 & -> & L1 & C1 & R1 & G1 & T1). simpl. rewrite L1. fold published.
  destruct (storeEvents_cancelled published w1 g C1 G1) as (w2 & -> & L2 & C2 & R2 & T2). simpl.
  assert (H3 : match snd (load v (log w ++ [TargetStart g])) with
               | Some compiler => runTasks config compiler tasks w2
               | None => Some w2
               end = Some w2).
  { destruct (snd _); [now apply runTasks_cancelled | reflexivity]. }
  rewrite H3. simpl.
  rewrite <- T2 in T1. apply lookup_lt_is_Some in T1 as [tg Htg].
  rewrite <- R2 in R1, G1. clear R2.
  unfold dispatch. break_world w2. subst. simpl in *. rewrite Htg. simpl.
  destruct (is_failed _); simpl; (eexists; split; [reflexivity|]); simpl;
    rewrite L1, <- ?app_assoc; simpl; destruct ch; simpl; eauto.
Qed.

(** The run below is followed call by call; the calls are unfolded by their
    equations only. *)
Section FailFast.
#[local] Arguments dispatch : simpl never.
#[local] Arguments visit : simpl never.
#[local] Arguments ExpectService_match : simpl never.
#[local] Arguments visitMember : simpl never.
#[local] Arguments TaskRunner_run' : simpl never.
#[local] Arguments TaskRunner_run : simpl never.
#[local] Arguments ProjectService_openFile : simpl never.
#[local] Arguments runTasks : simpl never.
#[local] Arguments runTarget : simpl never.
#[local] Arguments runTargets : simpl never.

Ltac world_norm :=
cbv [on_heap log resultHandler cancellationHandler cancellationToken heap
     Store.on_runs Store.on_targets Store.on_tasks Store.on_describes Store.on_tests
     Store.on_expects Store.runs Store.targets Store.tasks Store.describes Store.tests
     Store.expects Store.empty
     ResultHandler.set_describeResult ResultHandler.set_expectResult
     ResultHandler.set_projectResult ResultHandler.set_result
     ResultHandler.set_targetResult ResultHandler.set_taskResult
     ResultHandler.set_testResult ResultHandler.new
     ResultHandler.describeResult ResultHandler.expectResult ResultHandler.projectResult
     ResultHandler.result ResultHandler.targetResult ResultHandler.taskResult
     ResultHandler.testResult
     ResultHandler.countExpect ResultHandler.countTest
     app length alter list_alter].

Ltac world_go := world_norm; rewrite dispatch_eq; cbn; world_norm.

(** The first of the targets under fail-fast, where the compiler loads
  without a [store:error], the first file opens cleanly and starts with a
  case whose first assertion fails with an error. *)
Lemma first_target_fails config load v1 c1 f1 f2 rest rest' n s n' s' a isMatch explain
  published :
let assertion := mkExpect [] 0 [] n' s' a in
let test := mkTest [] 0 (assertion :: rest') n s in
let file := openFile c1 f1 in
let w0 := mkWorld [RunStart 0] (ResultHandler.set_result (Some 0%nat) ResultHandler.new)
            (Some FailFast) CancellationToken.new
            (Store.on_runs (fun _ => [Result.new]) Store.empty) in
only config = None -> skip config = None ->
load v1 [RunStart 0; TargetStart 0] = (published, Some c1) ->
noStoreError published = true ->
task_position f1 = None ->
opensCleanly file (test :: rest) -> hasOnly (test :: rest) = false ->
validate test = [] ->
ExpectService_outcome a = inr (isMatch, explain) ->
(if isNot a then negb isMatch else isMatch) = false ->
existsb isError explain = true ->
exists w1,
  runTarget config load [f1; f2] v1 w0 = Some w1 /\
  log w1 = [RunStart 0; TargetStart 0] ++ map storeEvent published ++
           [ProjectUses (version c1) (configFileName file); TaskStart 0;
            TestStart 0; ExpectStart 0] ++ deprecation a ++
           [ExpectFail explain 0; TestFail 0; TaskEnd 0; TargetEnd 0] /\
  CancellationToken.isCancellationRequested (cancellationToken w1) = true /\
  CancellationToken.reason (cancellationToken w1) = Some FailFast /\
  ResultHandler.result (resultHandler w1) = Some 0%nat /\
  length (Store.targets (heap w1)) = 1%nat.
Proof.
intros assertion test file w0 Ho Hs Hl Hq Hp (Hce & Hls & Hsd & Hpr & Hsf & Htree)
  Hhas Hval Hout Heff Herr.
subst w0. rewrite runTarget_eq. world_go. rewrite Hl. cbn [fst snd].
rewrite (storeEvents_quiet _ _ _ _ _ _ Hq). cbn [mbind option_bind].
rewrite runTasks_cons, TaskRunner_run_eq by reflexivity.
fold file. rewrite openFile_eq by exact Hce. world_go. world_go.
rewrite (TaskRunner_run'_visits config file f1 _ _ _ Hls Hsd Hpr Hsf Htree).
rewrite Hhas, Hp.
set (this := new_TestTreeWorker config false None 0).
assert (Hmode : forall m, flags m = 0 -> resolveRunMode this 0 m = 0).
{ intros m Hm. unfold resolveRunMode. rewrite Hm. cbn [this new_TestTreeWorker resolvedConfig position].
  rewrite Ho, Hs. reflexivity. }
assert (Hnoskip : isSkipped this 0 = false).
{ unfold isSkipped, this, new_TestTreeWorker. cbn [worker_hasOnly]. rewrite Ho. reflexivity. }
rewrite visit_cons. cbn [cancellationToken CancellationToken.isCancellationRequested
                         CancellationToken.isCancelled CancellationToken.new].
rewrite Hval, visitMember_eq. cbn [visitMember_body test]. unfold visitTest.
rewrite (Hmode test eq_refl), Hnoskip.
change (truthy (bitand 0 8)) with false. cbn [negb andb length Nat.ltb Nat.leb diagnostics test].
world_go.
rewrite visit_cons. cbn [cancellationToken CancellationToken.isCancellationRequested
                         CancellationToken.isCancelled CancellationToken.new].
change (validate assertion) with (@nil Diagnostic).
rewrite visitMember_eq. cbn [visitMember_body assertion]. unfold visitAssertion.
change (visit this (members assertion) 0 (Some (InTest 0%nat))) with
  (fun w : World => Some w). cbn beta. cbn [mbind option_bind].
rewrite (Hmode assertion eq_refl), Hnoskip.
change (truthy (bitand 0 1)) with false.
cbn [negb andb length Nat.ltb Nat.leb diagnostics assertion].
world_go. rewrite ExpectService_match_outcome, Hout. unfold deprecation.
destruct (String.eqb (matcherNameText a) "toMatch");
  [world_go | cbn [mbind option_bind]];
  rewrite Heff; change (truthy (bitand 0 1)) with false; cbv iota;
  world_go; rewrite Herr; cbn; world_norm;
  rewrite (visit_cancelled this rest') by reflexivity; cbn; world_norm;
  world_go;
  rewrite (visit_cancelled this rest) by reflexivity; cbn [mbind option_bind];
  world_go;
  rewrite runTasks_cancelled by reflexivity; cbn [mbind option_bind];
  world_go;
  (eexists; split; [reflexivity|]); cbn [log cancellationToken resultHandler heap];
  (split; [fold (@app Event); rewrite <- ?app_assoc; reflexivity|]);
  repeat split.
Qed.
End FailFast.

Lemma dispatch_RunEnd r w :
  is_Some (ResultHandler.result (resultHandler w)) ->
  exists w', dispatch (RunEnd r) w = Some w' /\ log w' = log w ++ [RunEnd r] /\
    cancellationToken w' = cancellationToken w.
Proof.
  intros [r' Hr]. unfold dispatch. break_world w. subst. simpl.
  eexists. split; [reflexivity|]. simpl. now destruct ch.
Qed.

(** Two targets and two files under fail-fast, where the compiler of the
    first target loads without a [store:error], the first file opens
    cleanly and starts with a case whose first assertion fails with an
    error. *)
Lemma fail_fast_scenario config load v1 v2 c1 f1 f2 rest rest' n s n' s' a isMatch explain
    published :
  let assertion := mkExpect [] 0 [] n' s' a in
  let test := mkTest [] 0 (assertion :: rest') n s in
  let file := openFile c1 f1 in
  failFast config = true -> only config = None -> skip config = None ->
  target config = [v1; v2] ->
  load v1 [RunStart 0; TargetStart 0] = (published, Some c1) ->
  noStoreError published = true ->
  task_position f1 = None ->
  opensCleanly file (test :: rest) -> hasOnly (test :: rest) = false ->
  validate test = [] ->
  ExpectService_outcome a = inr (isMatch, explain) ->
  (if isNot a then negb isMatch else isMatch) = false ->
  existsb isError explain = true ->
  let first := [RunStart 0; TargetStart 0] ++ map storeEvent published ++
               [ProjectUses (version c1) (configFileName file); TaskStart 0;
                TestStart 0; ExpectStart 0] ++ deprecation a ++
               [ExpectFail explain 0; TestFail 0; TaskEnd 0; TargetEnd 0] in
  exists w',
    Runner_run config load [f1; f2] initialWorld = Some w' /\
    log w' = first ++ [TargetStart 1] ++
             map storeEvent (fst (load v2 (first ++ [TargetStart 1]))) ++
             [TargetEnd 1; RunEnd 0].
Proof.
  intros assertion test file Hff Ho Hs Ht Hl Hq Hp Hopen Hhas Hval Hout Heff Herr first.
  destruct (first_target_fails config load v1 c1 f1 f2 rest rest' n s n' s' a isMatch explain
              published Ho Hs Hl Hq Hp Hopen Hhas Hval Hout Heff Herr)
    as (w1 & E1 & L1 & C1 & Rs1 & R1 & T1).
  fold assertion test file first in L1.
  destruct (runTarget_cancelled config load [f1; f2] v2 w1 C1 (ex_intro _ _ R1))
    as (w2 & E2 & L2 & C2 & R2).
  rewrite T1, L1 in L2.
  destruct (dispatch_RunEnd 0 w2 R2) as (w3 & E3 & L3 & K3).
  unfold Runner_run, Runner_run'. rewrite Hff, Ht.
  change (length (Store.runs (heap (set_cancellationHandler (Some FailFast) initialWorld))))
    with 0%nat.
  change (dispatch (RunStart _) _) with
    (Some (mkWorld [RunStart 0] (ResultHandler.set_result (Some 0%nat) ResultHandler.new)
             (Some FailFast) CancellationToken.new
             (Store.on_runs (fun _ => [Result.new]) Store.empty))).
  cbn [mbind option_bind]. rewrite runTargets_cons, E1. cbn [mbind option_bind].
  rewrite runTargets_cons, E2. cbn [mbind option_bind runTargets].
  rewrite E3. cbn [mbind option_bind].
  destruct (bool_decide _); cbn [mbind option_bind]; (eexists; split; [reflexivity|]);
    cbn [log set_cancellationHandler set_cancellationToken]; rewrite L3, L2, <- ?app_assoc;
    reflexivity.
Qed.

(** C5, as amended. Under fail-fast, with two targets and two files, a
    compiler of the first target that loads without a [store:error], and a
    first file that opens cleanly and starts with a case whose first
    assertion fails with an error: the run publishes the events of the
    load, the events of the first file up to the [test:fail] of that case,
    then [task:end] and [target:end]; the second file gets no event, and
    the second target gets [target:start], the events of the load of its
    compiler and [target:end], and nothing more. In general: an event that
    carries an error diagnostic requests cancellation when the cancellation
    handler is registered; once cancellation is requested the files of a
    target publish nothing; and a target then publishes its
    [target:start], the events of its load and its [target:end] only. *)
Theorem fail_fast_stops_the_run :
  (forall config load v1 v2 c1 f1 f2 rest rest' n s n' s' a isMatch explain published,
     let assertion := mkExpect [] 0 [] n' s' a in
     let test := mkTest [] 0 (assertion :: rest') n s in
     let file := openFile c1 f1 in
     failFast config = true -> only config = None -> skip config = None ->
     target config = [v1; v2] ->
     load v1 [RunStart 0; TargetStart 0] = (published, Some c1) ->
     noStoreError published = true ->
     task_position f1 = None ->
     opensCleanly file (test :: rest) -> hasOnly (test :: rest) = false ->
     validate test = [] ->
     ExpectService_outcome a = inr (isMatch, explain) ->
     (if isNot a then negb isMatch else isMatch) = false ->
     existsb isError explain = true ->
     let first := [RunStart 0; TargetStart 0] ++ map storeEvent published ++
                  [ProjectUses (version c1) (configFileName file); TaskStart 0;
                   TestStart 0; ExpectStart 0] ++ deprecation a ++
                  [ExpectFail explain 0; TestFail 0; TaskEnd 0; TargetEnd 0] in
     exists w',
       Runner_run config load [f1; f2] initialWorld = Some w' /\
       log w' = first ++ [TargetStart 1] ++
                map storeEvent (fst (load v2 (first ++ [TargetStart 1]))) ++
                [TargetEnd 1; RunEnd 0]) /\
  (forall reason ev ds w w',
     cancellationHandler w = Some reason ->
     payload_diagnostics ev = Some ds -> existsb isError ds = true ->
     dispatch ev w = Some w' ->
     CancellationToken.isCancellationRequested (cancellationToken w') = true) /\
  (forall config compiler tasks w,
     CancellationToken.isCancellationRequested (cancellationToken w) = true ->
     runTasks config compiler tasks w = Some w) /\
  (forall config load tasks v w,
     CancellationToken.isCancellationRequested (cancellationToken w) = true ->
     is_Some (ResultHandler.result (resultHandler w)) ->
     let g := length (Store.targets (heap w)) in
     let published := fst (load v (log w ++ [TargetStart g])) in
     exists w',
       runTarget config load tasks v w = Some w' /\
       log w' = log w ++ [TargetStart g] ++ map storeEvent published ++ [TargetEnd g] /\
       CancellationToken.isCancellationRequested (cancellationToken w') = true /\
       is_Some (ResultHandler.result (resultHandler w'))).
Proof.
  split; [exact fail_fast_scenario|]. split; [exact dispatch_cancels|].
  split; [exact runTasks_cancelled | exact runTarget_cancelled].
Qed.

Lemma filter_isTestEvent_assertions evs :
  forallb assertionLevel evs = true -> forallb (fun ev => negb (isTestEvent ev)) evs = true.
Proof.
  induction evs as [|ev evs IH]; simpl; [reflexivity|].
  rewrite !andb_true_iff. intros [Hev Hevs]. split; [|auto].
  destruct ev; try discriminate Hev; reflexivity.
Qed.

Lemma dispatch_verdict ev status w w' t z :
  (ev = TestFail t /\ status = Failed) \/ (ev = TestPass t /\ status = Passed) ->
  ResultHandler.testResult (resultHandler w) = Some t ->
  Store.tests (heap w) !! t = Some z ->
  dispatch ev w = Some w' ->
  Store.tests (heap w') !! t = Some (TestResult.set_status status z).
Proof.
  intros Hev Ht Hz H. unfold dispatch in H.
  destruct (ResultHandler.handleEvent ev (resultHandler w) (heap w)) as [[h σ]|] eqn:E;
    [|discriminate H].
  injection H as <-. simpl. destruct (resultHandler w) as [d ex p r g tk t']. simpl in Ht.
  subst t'. destruct Hev as [[-> ->] | [-> ->]]; handler_cases E; simpl;
    unfold ResultHandler.countTest; simpl; rewrite list_lookup_alter_eq, Hz; reflexivity.
Qed.

(** What the visit of an entered case does: the events it publishes, and
    the [TestResult] it leaves. *)
Lemma entered_case this d f ms n s mode parent w :
  let test := mkTest d f ms n s in
  let runMode := resolveRunMode this mode test in
  let t := length (Store.tests (heap w)) in
  Ready w -> validate test = [] ->
  truthy (bitand runMode 8) = false -> isSkipped this runMode = false -> d = [] ->
  exists w' evs,
    visitMember this test mode parent w = Some w' /\
    forallb assertionLevel evs = true /\
    log w' = log w ++ TestStart t :: evs ++
             [if (0 <? count isExpectFailure evs)%nat then TestFail t else TestPass t] /\
    Store.tests (heap w') !! t
      = Some (TestResult.mk [] (expectTally evs) parent
                (if (0 <? count isExpectFailure evs)%nat then Failed else Passed)).
Proof.
  intros test runMode t HR Hval Htodo Hskip ->.
  rewrite visitMember_eq. simpl. unfold visitTest. fold test. fold runMode. fold t.
  assert (H1 : exists w1,
    dispatch (TestStart t)
      (on_heap (Store.on_tests (fun l => l ++ [TestResult.new parent])) w) = Some w1 /\
    Outer w w1 /\ log w1 = log w ++ [TestStart t] /\
    ResultHandler.testResult (resultHandler w1) = Some t /\
    Store.tests (heap w1) !! t = Some (TestResult.new parent)).
  { destruct (dispatch_TestStart parent w HR) as (w1 & E1 & O1 & L1 & N1 & T1).
    exists w1. split; [exact E1|]. split; [exact O1|]. split; [exact L1|].
    split; [exact T1|]. clear O1 L1 N1 T1.
    revert E1. unfold dispatch. subst t. destruct HR as (_ & _ & [k Hk]).
    break_world w. subst. simpl.
    destruct d; simpl; intros [= <-]; simpl; apply lookup_snoc. }
  destruct H1 as (w1 & -> & O1 & L1 & T1 & Z1). simpl.
  rewrite Htodo, Hskip. simpl.
  assert (HR1 : Ready w1) by (eapply Outer_Ready; eauto).
  destruct (visit_expects_kept this ms runMode (Some (InTest t)) w1
              (validate_nil_members _ Hval) HR1) as (w2 & Hvis & [F2 (evs & L2 & A2 & _)]).
  change (visit_loop this (visitMember this)) with (visit this).
  simpl members. rewrite Hvis. simpl.
  assert (HR2 : Ready w2) by (eapply Frame_Ready; eauto).
  assert (T2 : ResultHandler.testResult (resultHandler w2) = Some t).
  { rewrite <- T1. exact (f_equal ResultHandler.testResult (frame_cursors _ _ F2)). }
  (* the counts of the case after its assertions *)
  destruct (visit_stream this ms runMode (Some (InTest t)) w1 w2 Hvis) as (evs' & L2' & Hh & _).
  assert (evs' = evs) by (rewrite L2 in L2'; now apply app_inv_head in L2').
  subst evs'.
  destruct (case_level _ _ _ t _ Hh (filter_isTestEvent_assertions evs A2) T1 Z1)
    as (z & Hz & Ez).
  simpl in Hz. rewrite Hz. simpl. rewrite Ez.
  change (ResultCount.failed (ResultCount.add (TestResult.expectCount (TestResult.new parent))
            (expectTally evs))) with (0 + count isExpectFailure evs)%nat.
  simpl.
  (* the fields the events of assertions leave as they were *)
  assert (Hkeep : forall s evs0 s', handles s evs0 s' ->
    forallb (fun ev => negb (isTestEvent ev)) evs0 = true ->
    forall z0, ResultHandler.testResult (fst s) = Some t -> Store.tests (snd s) !! t = Some z0 ->
    exists z1, Store.tests (snd s') !! t = Some z1 /\
      TestResult.diagnostics z1 = TestResult.diagnostics z0 /\
      TestResult.parent z1 = TestResult.parent z0 /\
      TestResult.status z1 = TestResult.status z0).
  { clear. intros s evs0 s' H.
    induction H as [s | h σ σ' evs0 s Hg _ IH | h σ ev [h1 σ1] evs0 s Hev Hfresh _ IH];
      intros Hno z0 Ht Hz0.
    - exists z0. auto.
    - simpl in *. destruct Hg as (_ & _ & _ & _ & Htests & _).
      apply (IH Hno z0 Ht). eapply grows_lookup; eauto.
    - simpl in Hno. apply andb_true_iff in Hno as [Hev1 Hno]. apply negb_true_iff in Hev1.
      simpl in *.
      assert (Hstep : ResultHandler.testResult h1 = Some t /\
        exists z1, Store.tests σ1 !! t = Some z1 /\
          TestResult.diagnostics z1 = TestResult.diagnostics z0 /\
          TestResult.parent z1 = TestResult.parent z0 /\
          TestResult.status z1 = TestResult.status z0).
      { destruct h as [d ex p r g tk t']. simpl in Ht. subst t'.
        destruct ev; try discriminate Hev1; handler_cases Hev; simpl;
          (split; [reflexivity|]);
          rewrite ?tests_countExpect, ?list_lookup_alter_eq, ?Hz0; simpl;
          (eexists; split; [reflexivity|]); auto. }
      destruct Hstep as (Ht1 & z1 & Hz1 & Ed & Ep & Es).
      destruct (IH Hno z1 Ht1 Hz1) as (z2 & Hz2 & Ed2 & Ep2 & Es2).
      exists z2. split; [exact Hz2|]. repeat split; congruence. }
  destruct (Hkeep _ _ _ Hh (filter_isTestEvent_assertions evs A2) _ T1 Z1)
    as (z' & Hz' & Ed & Ep & Es).
  simpl in Hz'. rewrite Hz in Hz'. injection Hz' as <-. simpl in Ed, Ep, Es.
  assert (Ez' : z = TestResult.mk [] (expectTally evs) parent Runs).
  { destruct z as [zd zc zp zs]. simpl in *. subst.
    now rewrite ResultCount_add_new. }
  assert (Hlast : forall ev status,
    (ev = TestFail t /\ status = Failed) \/ (ev = TestPass t /\ status = Passed) ->
    exists w', dispatch ev w2 = Some w' /\ log w' = log w ++ TestStart t :: evs ++ [ev] /\
      Store.tests (heap w') !! t = Some (TestResult.mk [] (expectTally evs) parent status)).
  { intros ev status Hev.
    destruct (dispatch_testTerminal ev w2 HR2) as (w3 & E3 & _ & L3);
      [rewrite T2; eauto | destruct Hev as [[-> _] | [-> _]]; reflexivity |].
    exists w3. split; [exact E3|]. split; [rewrite L3, L2, L1, <- !app_assoc; reflexivity|].
    rewrite (dispatch_verdict ev status w2 w3 t z Hev T2 Hz E3), Ez'. reflexivity. }
  destruct (0 <? count isExpectFailure evs)%nat eqn:Hc.
  - destruct (Hlast (TestFail t) Failed) as (w3 & -> & L3 & S3); [now left|].
    exists w3, evs. rewrite Hc. auto.
  - destruct (Hlast (TestPass t) Passed) as (w3 & -> & L3 & S3); [now right|].
    exists w3, evs. rewrite Hc. auto.
Qed.

(** X1: the verdict of a case. A case that is entered (it is neither
    todo nor skipped and has no diagnostics of its own) is closed by
    [test:fail] when at least one of its assertions, nested ones included,
    ended with [expect:fail] or [expect:error], and by [test:pass]
    otherwise; between [test:start] and that event only events of
    assertions are published. *)
Theorem case_fails_iff_an_assertion_failed this d f ms n s mode parent w :
  let test := mkTest d f ms n s in
  let runMode := resolveRunMode this mode test in
  let t := length (Store.tests (heap w)) in
  Ready w -> validate test = [] ->
  truthy (bitand runMode 8) = false -> isSkipped this runMode = false -> d = [] ->
  exists w' evs,
    visitMember this test mode parent w = Some w' /\
    forallb assertionLevel evs = true /\
    log w' = log w ++ TestStart t :: evs ++
             [if (0 <? count isExpectFailure evs)%nat then TestFail t else TestPass t].
Proof.
  intros test runMode t HR Hval Htodo Hskip Hd.
  destruct (entered_case this d f ms n s mode parent w HR Hval Htodo Hskip Hd)
    as (w' & evs & H & A & L & _).
  exists w', evs. auto.
Qed.

(** X22: the result of a case. The [TestResult] that the visit of an
    entered case makes and leaves in the store holds the parent it was
    given and no diagnostics; its counts of assertions are the numbers of
    [expect:fail] and [expect:error], of [expect:pass] and of [expect:skip]
    events the visit published between [test:start] and the closing event;
    and its status is failed when one of them failed, and passed
    otherwise. *)
Theorem case_result_records_its_assertions this d f ms n s mode parent w :
  let test := mkTest d f ms n s in
  let runMode := resolveRunMode this mode test in
  let t := length (Store.tests (heap w)) in
  Ready w -> validate test = [] ->
  truthy (bitand runMode 8) = false -> isSkipped this runMode = false -> d = [] ->
  exists w' evs closing,
    visitMember this test mode parent w = Some w' /\
    log w' = log w ++ TestStart t :: evs ++ [closing] /\
    Store.tests (heap w') !! t
      = Some (TestResult.mk [] (expectTally evs) parent
                (if (0 <? count isExpectFailure evs)%nat then Failed else Passed)).
Proof.
  intros test runMode t HR Hval Htodo Hskip Hd.
  destruct (entered_case this d f ms n s mode parent w HR Hval Htodo Hskip Hd)
    as (w' & evs & H & _ & L & S).
  exists w', evs. eexists. eauto.
Qed.

(** * The shape of the stream of a run *)

Lemma net_app k e1 e2 : net k (e1 ++ e2) = net k e1 + net k e2.
Proof. induction e1 as [|ev e1 IH]; simpl; [reflexivity|]. unfold net in *. lia. Qed.

Lemma low_app k e1 e2 : low k (e1 ++ e2) = Z.min (low k e1) (net k e1 + low k e2).
Proof.
  induction e1 as [|ev e1 IH]; simpl.
  - assert (low k e2 <= 0) by (destruct e2; simpl; lia). lia.
  - unfold low, net in *. lia.
Qed.

Lemma Spans_nil P : Spans P idle [].
Proof. split; [reflexivity | intros k; reflexivity]. Qed.

Lemma Spans_one P ev : P ev = true -> Spans P (step ev) [ev].
Proof.
  intros H. split; [simpl; now rewrite H|].
  intros k. unfold span, step. simpl. f_equal; lia.
Qed.

Lemma Spans_app P i j e1 e2 : Spans P i e1 -> Spans P j e2 -> Spans P (compose i j) (e1 ++ e2).
Proof.
  intros [P1 S1] [P2 S2]. split; [rewrite forallb_app, P1, P2; reflexivity|].
  intros k. unfold compose. rewrite <- (S1 k), <- (S2 k). unfold span. simpl.
  now rewrite net_app, low_app.
Qed.

Lemma Spans_cast P i j evs : Spans P i evs -> (forall k, i k = j k) -> Spans P j evs.
Proof. intros [H1 H2] E. split; [exact H1|]. intros k. now rewrite H2. Qed.

Lemma Spans_weaken (P Q : Event -> bool) i evs :
  (forall ev, P ev = true -> Q ev = true) -> Spans P i evs -> Spans Q i evs.
Proof.
  intros HPQ [H1 H2]. split; [|exact H2].
  rewrite forallb_forall in *. auto.
Qed.

Lemma relay_app handler e1 e2 token :
  relay handler (e1 ++ e2) token = relay handler e2 (relay handler e1 token).
Proof. apply fold_left_app. Qed.

Lemma Emits_refl w : Emits [] w w.
Proof. unfold Emits. now rewrite app_nil_r. Qed.

Lemma Emits_trans e1 e2 w1 w2 w3 : Emits e1 w1 w2 -> Emits e2 w2 w3 -> Emits (e1 ++ e2) w1 w3.
Proof.
  intros (L1 & H1 & T1) (L2 & H2 & T2). unfold Emits.
  rewrite L2, L1, H2, H1, T2, T1, H1, relay_app, app_assoc. auto.
Qed.

Lemma Emits_dispatch ev w w' : dispatch ev w = Some w' -> Emits [ev] w w'.
Proof.
  unfold dispatch. intros H.
  destruct (ResultHandler.handleEvent ev (resultHandler w) (heap w)) as [[h σ]|];
    [|discriminate H].
  injection H as <-. unfold Emits. simpl. destruct (cancellationHandler w); auto.
Qed.

Lemma Emits_alloc f w : Emits [] w (on_heap f w).
Proof. unfold Emits. simpl. now rewrite app_nil_r. Qed.

Lemma map_alter_same {A B} (f : A -> B) (g : A -> A) i (l : list A) :
  (forall x, f (g x) = f x) -> map f (alter g i l) = map f l.
Proof.
  intros Hfg. revert i. induction l as [|x l IH]; intros [|i]; simpl; try reflexivity.
  - now rewrite Hfg.
  - f_equal. apply IH.
Qed.

(** Handling an event makes no [Result] and no [TargetResult], and leaves
    the version of every [TargetResult] as it is. *)
Lemma handleEvent_tables ev h σ h' σ' :
  ResultHandler.handleEvent ev h σ = Some (h', σ') ->
  length (Store.runs σ') = length (Store.runs σ) /\
  map TargetResult.versionTag (Store.targets σ') = map TargetResult.versionTag (Store.targets σ).
Proof.
  intros H. destruct h as [d ex p r g tk t].
  destruct ev; handler_cases H;
    unfold ResultHandler.countExpect, ResultHandler.countTest;
    repeat case_match; simpl; rewrite ?length_alter;
    rewrite ?map_alter_same by (intros []; simpl; try case_match; reflexivity); auto.
Qed.

Lemma Traces_refl P w : Traces P idle w w.
Proof. exists []. split; [apply Emits_refl|]. split; [apply Spans_nil | auto]. Qed.

Lemma Traces_trans P i j w1 w2 w3 :
  Traces P i w1 w2 -> Traces P j w2 w3 -> Traces P (compose i j) w1 w3.
Proof.
  intros (e1 & E1 & S1 & a1 & b1) (e2 & E2 & S2 & a2 & b2). exists (e1 ++ e2).
  split; [eapply Emits_trans; eauto|]. split; [now apply Spans_app|]. split; congruence.
Qed.

Lemma Traces_dispatch P ev w w' :
  dispatch ev w = Some w' -> P ev = true -> Traces P (step ev) w w'.
Proof.
  intros H HP. exists [ev]. split; [now apply Emits_dispatch|]. split; [now apply Spans_one|].
  unfold dispatch in H.
  destruct (ResultHandler.handleEvent ev (resultHandler w) (heap w)) as [[h σ]|] eqn:E;
    [|discriminate H].
  injection H as <-. unfold targetsOf. simpl. now apply handleEvent_tables in E.
Qed.

Lemma Traces_alloc P f w :
  length (Store.runs (f (heap w))) = length (Store.runs (heap w)) ->
  Store.targets (f (heap w)) = Store.targets (heap w) ->
  Traces P idle w (on_heap f w).
Proof.
  intros Hr Hg. exists []. split; [apply Emits_alloc|]. split; [apply Spans_nil|].
  split; [exact Hr|]. unfold targetsOf. simpl. now rewrite Hg.
Qed.

Lemma Traces_cast P i j w w' : Traces P i w w' -> (forall k, i k = j k) -> Traces P j w w'.
Proof.
  intros (evs & E & S & H) Hij. exists evs. split; [exact E|]. split; [|exact H].
  eapply Spans_cast; eauto.
Qed.

Lemma Traces_weaken (P Q : Event -> bool) i w w' :
  (forall ev, P ev = true -> Q ev = true) -> Traces P i w w' -> Traces Q i w w'.
Proof.
  intros HPQ (evs & E & S & H). exists evs. split; [exact E|]. split; [|exact H].
  eapply Spans_weaken; eauto.
Qed.

(** Chains the steps found by [follow] into one trace. *)
Ltac trace :=
  repeat match goal with
  | |- Traces _ _ ?w ?w => apply Traces_refl
  | H : dispatch ?ev ?w = Some ?w' |- Traces ?P _ _ ?w' =>
      eapply (Traces_trans P _ _ _ w); [clear H | exact (Traces_dispatch P ev w w' H eq_refl)]
  | |- Traces ?P _ ?w (on_heap ?f ?w) => apply Traces_alloc; reflexivity
  | |- Traces ?P _ _ (on_heap ?f ?w) =>
      eapply (Traces_trans P _ _ _ w); [| apply Traces_alloc; reflexivity]
  | F : Traces ?P _ ?w ?w' |- Traces ?P _ _ ?w' =>
      eapply (Traces_trans P _ _ _ w); [clear F | exact F]
  | IH : forall v v', visit ?t ?ms ?m ?p v = Some v' -> Traces ?P _ v v',
    H : visit ?t ?ms ?m ?p ?w = Some ?w' |- Traces ?P _ _ ?w' =>
      eapply (Traces_trans P _ _ _ w); [clear H | exact (IH w w' H)]
  end.

(** The steps of a call leave nothing open. *)
Ltac traced := eapply Traces_cast; [trace | intros []; reflexivity].

Section WalkTraces.
Variable this : TestTreeWorker.

Lemma visit_traces ms :
  Forall (memberTraces this) ms ->
  forall mode parent w w',
    visit this ms mode parent w = Some w' -> Traces walkerEvent idle w w'.
Proof.
  induction 1 as [|m ms Hm _ IH]; intros mode parent w w' H.
  - injection H as <-. apply Traces_refl.
  - rewrite visit_cons in H. follow H; try apply Traces_refl.
    + eapply Traces_cast; [eapply Traces_trans; [eapply Hm | eapply IH]; eauto|].
      intros []; reflexivity.
    + traced.
Qed.

Lemma ExpectService_match_traces e a w r w' :
  ExpectService_match (fun ds => dispatch (ExpectError ds e)) a w = Some (r, w') ->
  Traces walkerEvent (match r with Some _ => idle | None => step (ExpectError [] e) end) w w'.
Proof.
  rewrite ExpectService_match_outcome. intros H.
  apply bind_Some in H as (w1 & E1 & H).
  assert (F1 : Traces walkerEvent idle w w1) by (follow E1; traced).
  destruct (ExpectService_outcome a) as [ds|res].
  - apply bind_Some in H as (w2 & E2 & H). injection H as <- <-. traced.
  - injection H as <- <-. traced.
Qed.

Lemma visitAssertion_traces assertion a mode parent w w' :
  (forall w w', visit this (members assertion) mode parent w = Some w' ->
                Traces walkerEvent idle w w') ->
  visitAssertion this (visit this) assertion a mode parent w = Some w' ->
  Traces walkerEvent idle w w'.
Proof.
  intros Hms H. unfold visitAssertion in H.
  apply bind_Some in H as (w1 & E1 & H). apply Hms in E1. clear Hms.
  apply bind_Some in H as (w2 & E2 & H).
  destruct (isSkipped _ _); [traced|].
  destruct (_ && _); [traced|].
  apply bind_Some in H as ([r w3] & E3 & H).
  apply ExpectService_match_traces in E3.
  destruct r as [[isMatch explain]|]; follow H; traced.
Qed.

Lemma visitMember_traces m : memberTraces this m.
Proof.
  induction m as [d f ms n s IH | d f ms n s IH | d f ms n s a IH] using TestMember_tree_ind;
    intros mode parent w w' H; rewrite visitMember_eq in H; simpl in H.
  - unfold visitDescribe in H.
    pose proof (fun v v' => visit_traces ms IH (resolveRunMode this mode (mkDescribe d f ms n s))
                  (Some (InDescribe (length (Store.describes (heap w))))) v v') as Hms.
    follow H; traced.
  - unfold visitTest in H.
    pose proof (fun v v' => visit_traces ms IH (resolveRunMode this mode (mkTest d f ms n s))
                  (Some (InTest (length (Store.tests (heap w))))) v v') as Hms.
    follow H; traced.
  - eapply visitAssertion_traces; [|exact H]. intros w0 w0'. apply (visit_traces ms IH).
Qed.
End WalkTraces.

Lemma visit_trace this ms mode parent w w' :
  visit this ms mode parent w = Some w' -> Traces walkerEvent idle w w'.
Proof.
  apply visit_traces, Forall_forall. intros m _. apply visitMember_traces.
Qed.

Lemma Emits_inj e1 e2 w w' : Emits e1 w w' -> Emits e2 w w' -> e1 = e2.
Proof. intros (L1 & _) (L2 & _). rewrite L1 in L2. now apply app_inv_head in L2. Qed.

Lemma count_none (P f : Event -> bool) evs :
  (forall ev, P ev = true -> f ev = false) -> forallb P evs = true -> count f evs = 0%nat.
Proof.
  intros HPf. unfold count. induction evs as [|ev evs IH]; simpl; [reflexivity|].
  rewrite andb_true_iff. intros [Hev Hevs]. rewrite (HPf ev Hev). auto.
Qed.

Lemma filter_none (P f : Event -> bool) evs :
  (forall ev, P ev = true -> f ev = false) -> forallb P evs = true -> List.filter f evs = [].
Proof.
  intros HPf. induction evs as [|ev evs IH]; simpl; [reflexivity|].
  rewrite andb_true_iff. intros [Hev Hevs]. rewrite (HPf ev Hev). auto.
Qed.

Lemma relay_None evs token : relay None evs token = token.
Proof. induction evs as [|ev evs IH]; simpl; auto. Qed.

Lemma relay_quiet handler ev evs token :
  payload_diagnostics ev = None -> relay handler (ev :: evs) token = relay handler evs token.
Proof.
  intros H. simpl. unfold CancellationHandler.handleEvent. rewrite H. now destruct handler.
Qed.

Lemma relay_snoc_quiet handler ev evs token :
  payload_diagnostics ev = None -> relay handler (evs ++ [ev]) token = relay handler evs token.
Proof.
  intros H. rewrite relay_app. simpl. unfold CancellationHandler.handleEvent. rewrite H.
  now destruct handler.
Qed.

Lemma relay_same handler evs token :
  handler = None \/ existsb carriesError evs = false -> relay handler evs token = token.
Proof.
  intros [-> | H]; [apply relay_None|].
  induction evs as [|ev evs IH]; [reflexivity|]. simpl in *.
  apply orb_false_iff in H as [Hev Hevs].
  unfold CancellationHandler.handleEvent. unfold carriesError in Hev.
  destruct handler; [|auto].
  destruct (payload_diagnostics ev); [rewrite Hev|]; auto.
Qed.

Lemma pass_on (handler : option CancellationReason) e1 e2 :
  handler = None \/ existsb carriesError (e1 ++ e2) = false ->
  (handler = None \/ existsb carriesError e1 = false) /\
  (handler = None \/ existsb carriesError e2 = false).
Proof.
  intros [-> | H]; [auto|]. rewrite existsb_app in H. apply orb_false_iff in H as [H1 H2]. auto.
Qed.

Lemma dispatch_tables ev w w' :
  dispatch ev w = Some w' ->
  length (Store.runs (heap w')) = length (Store.runs (heap w)) /\
  targetsOf w' = targetsOf w.
Proof.
  unfold dispatch. intros H.
  destruct (ResultHandler.handleEvent ev (resultHandler w) (heap w)) as [[h σ]|] eqn:E;
    [|discriminate H].
  injection H as <-. unfold targetsOf. simpl. now apply handleEvent_tables in E.
Qed.

Lemma taskEvent_walker ev : walkerEvent ev = true -> taskEvent ev = true.
Proof. unfold taskEvent. now intros ->. Qed.
Lemma taskEvent_project ev : projectEvent ev = true -> taskEvent ev = true.
Proof. unfold taskEvent. intros ->. now rewrite orb_true_r. Qed.
Lemma runEvent_task ev : taskEvent ev = true -> runEvent ev = true.
Proof. unfold runEvent. now intros ->. Qed.
Lemma runEvent_store ev : isStoreEvent ev = true -> runEvent ev = true.
Proof. unfold runEvent. intros ->. now rewrite orb_true_r. Qed.

(** The events of a load open and close nothing. *)
Lemma Spans_store published : Spans isStoreEvent idle (map storeEvent published).
Proof.
  induction published as [|ev published [IH1 IH2]]; [apply Spans_nil|]. split.
  - simpl. rewrite IH1. now destruct ev.
  - intros k. specialize (IH2 k). unfold span in *. simpl.
    injection IH2 as -> ->. now destruct ev, k.
Qed.

Lemma storeEvents_emitted published w w' :
  dispatchAll (map storeEvent published) w = Some w' ->
  Emits (map storeEvent published) w w' /\
  length (Store.runs (heap w')) = length (Store.runs (heap w)) /\
  targetsOf w' = targetsOf w.
Proof.
  revert w. induction published as [|ev published IH]; intros w H; simpl in H.
  - injection H as <-. split; [apply Emits_refl | auto].
  - apply bind_Some in H as (w1 & E & H). apply IH in H as (M & a & b).
    destruct (dispatch_tables _ _ _ E) as [a1 b1]. apply Emits_dispatch in E.
    split; [exact (Emits_trans [storeEvent ev] _ _ _ _ E M)|]. split; congruence.
Qed.

Section RunTraces.
Variable config : ResolvedConfig.
Variable load : string -> list Event -> list StoreEvent * option Compiler.

Lemma TaskRunner_run'_traces file task k w w' :
  TaskRunner_run' config file task k w = Some w' -> Traces walkerEvent idle w w'.
Proof.
  unfold TaskRunner_run'. intros H. follow H; try traced. eapply visit_trace; eauto.
Qed.

Lemma openFile_traces compiler file w w' :
  ProjectService_openFile compiler file w = Some w' -> Traces projectEvent idle w w'.
Proof. unfold ProjectService_openFile. intros H. follow H; traced. Qed.

(** A task that is run publishes one [task:start]; after a cancellation
    it publishes nothing. *)
Lemma TaskRunner_run_stream compiler task w w' :
  TaskRunner_run config compiler task w = Some w' ->
  exists evs,
    Emits evs w w' /\ Spans taskEvent idle evs /\
    length (Store.runs (heap w')) = length (Store.runs (heap w)) /\
    targetsOf w' = targetsOf w /\
    count isTaskStart evs =
      (if CancellationToken.isCancellationRequested (cancellationToken w) then 0 else 1)%nat.
Proof.
  unfold TaskRunner_run. intros H.
  destruct (CancellationToken.isCancellationRequested (cancellationToken w)).
  { injection H as <-. exists []. split; [apply Emits_refl|]. split; [apply Spans_nil | auto]. }
  apply bind_Some in H as (w1 & E1 & H). apply bind_Some in H as (w2 & E2 & H).
  apply bind_Some in H as (w3 & E3 & H).
  apply openFile_traces in E1 as (e1 & M1 & S1 & a1 & b1).
  apply TaskRunner_run'_traces in E3 as (e3 & M3 & S3 & a3 & b3).
  destruct (dispatch_tables _ _ _ E2) as [a2 b2]. destruct (dispatch_tables _ _ _ H) as [a4 b4].
  apply Emits_dispatch in E2, H. unfold targetsOf in *. simpl in a2, b2.
  set (k := length (Store.tasks (heap w1))) in *.
  exists (e1 ++ ([] ++ [TaskStart k]) ++ e3 ++ [TaskEnd k]).
  split; [|split; [|split; [congruence | split; [congruence|]]]].
  - eapply Emits_trans; [exact M1|]. eapply Emits_trans; [|eapply Emits_trans; eauto].
    eapply Emits_trans; [apply Emits_alloc | exact E2].
  - apply (Spans_weaken _ _ _ _ taskEvent_project) in S1.
    apply (Spans_weaken _ _ _ _ taskEvent_walker) in S3.
    eapply Spans_cast.
    + eapply Spans_app; [exact S1|].
      eapply Spans_app; [apply (Spans_one taskEvent (TaskStart k)); reflexivity|].
      eapply Spans_app; [exact S3|]. apply (Spans_one taskEvent (TaskEnd k)); reflexivity.
    + intros []; reflexivity.
  - destruct S1 as [P1 _], S3 as [P3 _]. rewrite !count_app.
    rewrite (count_none projectEvent isTaskStart e1), (count_none walkerEvent isTaskStart e3);
      try assumption; [reflexivity | |]; intros []; simpl; congruence.
Qed.

Lemma runTasks_stream compiler tasks w w' :
  runTasks config compiler tasks w = Some w' ->
  exists evs,
    Emits evs w w' /\ Spans taskEvent idle evs /\
    length (Store.runs (heap w')) = length (Store.runs (heap w)) /\
    targetsOf w' = targetsOf w /\
    (count isTaskStart evs <= length tasks)%nat /\
    (cancellationHandler w = None \/ existsb carriesError evs = false ->
     CancellationToken.isCancellationRequested (cancellationToken w) = false ->
     count isTaskStart evs = length tasks).
Proof.
  revert w. induction tasks as [|task tasks IH]; intros w H; simpl in H.
  - injection H as <-. exists []. split; [apply Emits_refl|]. split; [apply Spans_nil|].
    auto.
  - apply bind_Some in H as (w1 & E & H).
    apply TaskRunner_run_stream in E as (e1 & M1 & S1 & a1 & b1 & c1).
    apply IH in H as (e2 & M2 & S2 & a2 & b2 & c2 & d2).
    exists (e1 ++ e2). split; [eapply Emits_trans; eauto|].
    split; [eapply Spans_cast; [eapply Spans_app; eauto | intros []; reflexivity]|].
    split; [congruence|]. split; [congruence|]. rewrite count_app. simpl. split.
    + destruct (CancellationToken.isCancellationRequested _); lia.
    + intros Hh Hc. rewrite Hc in c1. apply pass_on in Hh as [Hh1 Hh2].
      rewrite c1, d2; [reflexivity | |].
      * destruct M1 as (_ & -> & _). exact Hh2.
      * destruct M1 as (_ & _ & ->). rewrite relay_same by exact Hh1. exact Hc.
Qed.

Lemma runTarget_stream tasks v w w' :
  runTarget config load tasks v w = Some w' ->
  let g := length (Store.targets (heap w)) in
  let loaded := load v (log w ++ [TargetStart g]) in
  let store := map storeEvent (fst loaded) in
  exists evs,
    Emits (TargetStart g :: store ++ evs ++ [TargetEnd g]) w w' /\ Spans taskEvent idle evs /\
    length (Store.runs (heap w')) = length (Store.runs (heap w)) /\
    targetsOf w' = targetsOf w ++ [v] /\
    (count isTaskStart evs <= length tasks)%nat /\
    (cancellationHandler w = None \/ existsb carriesError (store ++ evs) = false ->
     CancellationToken.isCancellationRequested (cancellationToken w) = false ->
     is_Some (snd loaded) -> count isTaskStart evs = length tasks).
Proof.
  intros H g loaded store. unfold runTarget in H.
  apply bind_Some in H as (w1 & E1 & H).
  destruct (dispatch_tables _ _ _ E1) as [a1 b1].
  apply Emits_dispatch in E1. unfold targetsOf in b1. simpl in a1, b1.
  rewrite map_app in b1. simpl in b1. fold (targetsOf w) in b1. fold g in E1.
  assert (M1 : Emits [TargetStart g] w w1).
  { eapply (Emits_trans [] [TargetStart g]); [apply Emits_alloc | exact E1]. }
  assert (L1 : log w1 = log w ++ [TargetStart g]) by apply M1.
  rewrite L1 in H. fold loaded in H. destruct loaded as [published compiler] eqn:El.
  cbn [fst snd] in *.
  apply bind_Some in H as (w2 & E2 & H). apply bind_Some in H as (w3 & E3 & H).
  destruct (dispatch_tables _ _ _ H) as [a4 b4]. apply Emits_dispatch in H. fold g in H.
  apply storeEvents_emitted in E2 as (M2 & a2 & b2). fold store in M2.
  assert (H3 : exists evs,
    Emits evs w2 w3 /\ Spans taskEvent idle evs /\
    length (Store.runs (heap w3)) = length (Store.runs (heap w2)) /\
    targetsOf w3 = targetsOf w2 /\
    (count isTaskStart evs <= length tasks)%nat /\
    (cancellationHandler w2 = None \/ existsb carriesError evs = false ->
     CancellationToken.isCancellationRequested (cancellationToken w2) = false ->
     is_Some compiler -> count isTaskStart evs = length tasks)).
  { destruct compiler as [compiler|].
    - apply runTasks_stream in E3 as (evs & M & S & a & b & c & d).
      exists evs. split; [exact M|]. split; [exact S|]. auto.
    - injection E3 as <-. exists []. split; [apply Emits_refl|]. split; [apply Spans_nil|].
      split; [reflexivity|]. split; [reflexivity|].
      split; [unfold count; simpl; lia | intros _ _ [x Hx]; discriminate Hx]. }
  destruct H3 as (evs & M3 & S3 & a3 & b3 & c3 & d3). exists evs.
  split; [|split; [exact S3 | split; [congruence | split; [rewrite b4, b3, b2; exact b1 | split; [exact c3|]]]]].
  - apply (Emits_trans [TargetStart g] (store ++ evs ++ [TargetEnd g]) w w1 w'); [exact M1|].
    eapply Emits_trans; [exact M2|]. eapply Emits_trans; eauto.
  - intros Hh Hc. apply pass_on in Hh as [Hh1 Hh2]. apply d3.
    + destruct M2 as (_ & -> & _). destruct M1 as (_ & -> & _). exact Hh2.
    + destruct M2 as (_ & H2 & ->). destruct M1 as (_ & H1 & T1). rewrite H1.
      rewrite relay_same by exact Hh1. rewrite T1. rewrite relay_quiet by reflexivity.
      exact Hc.
Qed.
End RunTraces.

Section RunStream.
Variable config : ResolvedConfig.
Variable load : string -> list Event -> list StoreEvent * option Compiler.

Lemma runTargets_stream tasks vs w w' :
  runTargets config load tasks vs w = Some w' ->
  exists evs,
    Emits evs w w' /\ Spans runEvent idle evs /\
    List.filter isTargetEvent evs
      = flat_map (fun g => [TargetStart g; TargetEnd g])
          (seq (length (Store.targets (heap w))) (length vs)) /\
    length (Store.runs (heap w')) = length (Store.runs (heap w)) /\
    targetsOf w' = targetsOf w ++ vs /\
    (count isTaskStart evs <= length vs * length tasks)%nat /\
    (cancellationHandler w = None \/ existsb carriesError evs = false ->
     CancellationToken.isCancellationRequested (cancellationToken w) = false ->
     Forall (loads load) vs ->
     count isTaskStart evs = (length vs * length tasks)%nat).
Proof.
  revert w. induction vs as [|v vs IH]; intros w H; simpl in H.
  - injection H as <-. exists []. split; [apply Emits_refl|]. split; [apply Spans_nil|].
    rewrite app_nil_r. auto.
  - apply bind_Some in H as (w1 & E & H).
    apply runTarget_stream in E as (e1 & M1 & S1 & a1 & b1 & c1 & d1).
    apply IH in H as (e2 & M2 & S2 & F2 & a2 & b2 & c2 & d2).
    assert (Hg : length (Store.targets (heap w1)) = S (length (Store.targets (heap w)))).
    { apply (f_equal (@length _)) in b1. unfold targetsOf in b1.
      rewrite length_app, !length_map in b1. simpl in b1. lia. }
    rewrite Hg in F2.
    set (g := length (Store.targets (heap w))) in *.
    set (loaded := load v (log w ++ [TargetStart g])) in *.
    set (store := map storeEvent (fst loaded)) in *.
    exists ((TargetStart g :: store ++ e1 ++ [TargetEnd g]) ++ e2).
    split; [eapply Emits_trans; eauto|].
    assert (T1 : forallb taskEvent e1 = true) by apply S1.
    pose proof (Spans_store (fst loaded)) as S0. fold store in S0.
    assert (T0 : forallb isStoreEvent store = true) by apply S0.
    split; [|split; [|split; [congruence | split; [|split]]]].
    + apply (Spans_weaken _ _ _ _ runEvent_task) in S1.
      apply (Spans_weaken _ _ _ _ runEvent_store) in S0.
      eapply Spans_cast.
      * eapply Spans_app; [|exact S2].
        eapply (Spans_app runEvent _ _ [TargetStart g]);
          [apply (Spans_one runEvent (TargetStart g)); reflexivity|].
        eapply Spans_app; [exact S0|].
        eapply Spans_app; [exact S1|]. apply (Spans_one runEvent (TargetEnd g)); reflexivity.
      * intros []; reflexivity.
    + rewrite List.filter_app. simpl. rewrite !List.filter_app, F2.
      rewrite (filter_none taskEvent isTargetEvent e1); [| | exact T1].
      * rewrite (filter_none isStoreEvent isTargetEvent store); [reflexivity | | exact T0].
        intros []; cbv; congruence.
      * intros []; cbv; congruence.
    + rewrite b2, b1, <- app_assoc. reflexivity.
    + rewrite count_app. change (TargetStart g :: store ++ e1 ++ [TargetEnd g])
        with ([TargetStart g] ++ store ++ e1 ++ [TargetEnd g]). rewrite !count_app.
      rewrite (count_none isStoreEvent isTaskStart store); [| | exact T0].
      * unfold count at 1 3. simpl. lia.
      * intros []; cbv; congruence.
    + intros Hh Hc Hl. inversion Hl as [|v' vs' Hv Hvs]; subst.
      apply pass_on in Hh as [Hh1 Hh2].
      assert (Hh0 : cancellationHandler w = None \/
                    existsb carriesError (store ++ e1) = false).
      { destruct Hh1 as [Hn | He]; [auto | right]. simpl in He.
        rewrite app_assoc, existsb_app in He. now apply orb_false_iff in He as [He _]. }
      rewrite count_app. change (TargetStart g :: store ++ e1 ++ [TargetEnd g])
        with ([TargetStart g] ++ store ++ e1 ++ [TargetEnd g]). rewrite !count_app.
      rewrite (count_none isStoreEvent isTaskStart store); [| | exact T0].
      * unfold count at 1 3. simpl. rewrite (d1 Hh0 Hc (Hv _)), d2; [lia | | | exact Hvs].
        -- destruct M1 as (_ & -> & _). exact Hh2.
        -- destruct M1 as (_ & _ & ->). rewrite relay_same by exact Hh1. exact Hc.
      * intros []; cbv; congruence.
Qed.

Lemma Runner_run'_stream tasks w w' :
  Runner_run' config load tasks w = Some w' ->
  let r := length (Store.runs (heap w)) in
  exists evs,
    log w' = log w ++ RunStart r :: evs ++ [RunEnd r] /\
    Spans runEvent idle evs /\
    List.filter isTargetEvent evs
      = flat_map (fun g => [TargetStart g; TargetEnd g])
          (seq (length (Store.targets (heap w))) (length (target config))) /\
    targetsOf w' = targetsOf w ++ target config /\
    cancellationHandler w' = cancellationHandler w /\
    cancellationToken w' =
      (let token := relay (cancellationHandler w) evs (cancellationToken w) in
       if bool_decide (CancellationToken.reason token = Some FailFast)
       then CancellationToken.reset token else token) /\
    (count isTaskStart evs <= length (target config) * length tasks)%nat /\
    (cancellationHandler w = None \/ existsb carriesError evs = false ->
     CancellationToken.isCancellationRequested (cancellationToken w) = false ->
     Forall (loads load) (target config) ->
     count isTaskStart evs = (length (target config) * length tasks)%nat).
Proof.
  intros H r. unfold Runner_run' in H.
  apply bind_Some in H as (w1 & E1 & H). apply bind_Some in H as (w2 & E2 & H).
  apply bind_Some in H as (w3 & E3 & H).
  destruct (dispatch_tables _ _ _ E1) as [_ b1]. destruct (dispatch_tables _ _ _ E3) as [_ b3].
  change (targetsOf w1 = targetsOf w) in b1.
  apply Emits_dispatch in E1, E3. fold r in E1, E3.
  apply runTargets_stream in E2 as (evs & M2 & S2 & F2 & a2 & b2 & c2 & d2).
  replace (length (Store.targets (heap w1))) with (length (Store.targets (heap w))) in F2
    by (apply (f_equal (@length _)) in b1; unfold targetsOf in b1;
        now rewrite !length_map in b1).
  rewrite b1 in b2. rewrite b2 in b3.
  assert (M : Emits (RunStart r :: evs ++ [RunEnd r]) w w3).
  { eapply (Emits_trans [RunStart r]); [|eapply Emits_trans; eauto].
    eapply (Emits_trans [] [RunStart r]); [apply Emits_alloc | exact E1]. }
  destruct M as (L & Hh & Ht).
  rewrite relay_quiet, relay_snoc_quiet in Ht by reflexivity.
  assert (Hd : cancellationHandler w = None \/ existsb carriesError evs = false ->
     CancellationToken.isCancellationRequested (cancellationToken w) = false ->
     Forall (loads load) (target config) ->
     count isTaskStart evs = (length (target config) * length tasks)%nat).
  { intros Hn Hc. apply d2.
    - destruct E1 as (_ & -> & _). exact Hn.
    - destruct E1 as (_ & _ & ->). rewrite relay_quiet by reflexivity. exact Hc. }
  exists evs. cbv zeta. rewrite <- Ht.
  destruct (bool_decide _); injection H as <-; simpl; auto 10.
Qed.

Lemma Runner_run_stream_of tasks w w' :
  cancellationHandler w = None ->
  Runner_run config load tasks w = Some w' ->
  let r := length (Store.runs (heap w)) in
  exists evs,
    log w' = log w ++ RunStart r :: evs ++ [RunEnd r] /\
    Spans runEvent idle evs /\
    List.filter isTargetEvent evs
      = flat_map (fun g => [TargetStart g; TargetEnd g])
          (seq (length (Store.targets (heap w))) (length (target config))) /\
    targetsOf w' = targetsOf w ++ target config /\
    cancellationHandler w' = None /\
    cancellationToken w' =
      (let token := relay (if failFast config then Some FailFast else None) evs
                      (cancellationToken w) in
       if bool_decide (CancellationToken.reason token = Some FailFast)
       then CancellationToken.reset token else token) /\
    (count isTaskStart evs <= length (target config) * length tasks)%nat /\
    (failFast config = false \/ existsb carriesError evs = false ->
     CancellationToken.isCancellationRequested (cancellationToken w) = false ->
     Forall (loads load) (target config) ->
     count isTaskStart evs = (length (target config) * length tasks)%nat).
Proof.
  intros Hn H r. unfold Runner_run in H.
  apply bind_Some in H as (w1 & H & E). injection E as <-.
  apply Runner_run'_stream in H as (evs & L & S & F & G & Hh & Ht & c & d).
  exists evs. simpl. destruct (failFast config); simpl in *.
  - repeat (split; [assumption|]). split; [reflexivity|]. split; [exact Ht|].
    split; [exact c|]. intros [Hf | He]; [discriminate Hf | auto].
  - rewrite Hn in *. repeat (split; [assumption|]). split; [reflexivity|].
    split; [exact Ht|]. split; [exact c | auto].
Qed.

(** The run returns from any world whose result handler is outside a
    group, as it is between two runs. *)
Lemma Runner_run_returns tasks w :
  ResultHandler.describeResult (resultHandler w) = None ->
  exists w', Runner_run config load tasks w = Some w'.
Proof.
  intros Hd. unfold Runner_run, Runner_run'.
  set (w0 := if failFast config then set_cancellationHandler (Some FailFast) w else w).
  assert (H1 : exists w1,
    dispatch (RunStart (length (Store.runs (heap w0))))
      (on_heap (Store.on_runs (fun l => l ++ [Result.new])) w0) = Some w1 /\
    Open (length (Store.runs (heap w0))) w1).
  { subst w0. unfold dispatch. break_world w. subst.
    destruct (failFast config); simpl; eexists; (split; [reflexivity|]); split; reflexivity. }
  destruct H1 as (w1 & -> & HO1). simpl.
  destruct (runTargets_total config load tasks (target config) _ w1 HO1)
    as (w2 & -> & [Hr2 Hd2]). simpl.
  unfold dispatch. break_world w2. subst. simpl.
  destruct (bool_decide _); simpl; eauto.
Qed.
End RunStream.

(** * The files a run starts, target by target *)

Lemma Holds_refl σ : Holds σ σ.
Proof. split; exists []; now rewrite app_nil_r. Qed.

Lemma Holds_trans σ1 σ2 σ3 : Holds σ1 σ2 -> Holds σ2 σ3 -> Holds σ1 σ3.
Proof.
  intros [[l1 P1] [m1 V1]] [[l2 P2] [m2 V2]]. split.
  - exists (l1 ++ l2). now rewrite P2, P1, app_assoc.
  - exists (m1 ++ m2). now rewrite V2, V1, app_assoc.
Qed.

Lemma grows_Holds σ σ' : grows σ σ' -> Holds σ σ'.
Proof.
  intros (_ & [l Hl] & [m Hm] & _). unfold Holds, pathsOf, versionsOf. split.
  - exists (map TaskResult.filePath m). now rewrite Hm, map_app.
  - exists (map TargetResult.versionTag l). now rewrite Hl, map_app.
Qed.

(** Handling an event leaves the file of every [TaskResult] and the
    version of every [TargetResult] as they are. *)
Lemma handleEvent_paths ev h σ h' σ' :
  ResultHandler.handleEvent ev h σ = Some (h', σ') ->
  pathsOf σ' = pathsOf σ /\ versionsOf σ' = versionsOf σ.
Proof.
  intros H. destruct h as [d ex p r g tk t]. unfold pathsOf, versionsOf.
  destruct ev; handler_cases H;
    unfold ResultHandler.countExpect, ResultHandler.countTest;
    repeat case_match; simpl;
    rewrite ?map_alter_same by (intros []; simpl; try case_match; reflexivity); auto.
Qed.

Lemma handles_Holds s evs s' : handles s evs s' -> Holds (snd s) (snd s').
Proof.
  induction 1 as [s | h σ σ' evs s G H IH | h σ ev [h1 σ1] evs s E F H IH]; simpl in *.
  - apply Holds_refl.
  - eapply Holds_trans; [apply grows_Holds; exact G | exact IH].
  - apply handleEvent_paths in E as [E1 E2]. eapply Holds_trans; [|exact IH].
    split; exists []; rewrite app_nil_r; [exact E1 | exact E2].
Qed.

Lemma Follows_Holds w w' : Follows w w' -> Holds (heap w) (heap w').
Proof. intros (evs & _ & H & _). exact (handles_Holds _ _ _ H). Qed.

Lemma dispatch_paths ev w w' :
  dispatch ev w = Some w' ->
  pathsOf (heap w') = pathsOf (heap w) /\ versionsOf (heap w') = versionsOf (heap w).
Proof.
  unfold dispatch. intros H.
  destruct (ResultHandler.handleEvent ev (resultHandler w) (heap w)) as [[h σ]|] eqn:E;
    [|discriminate H].
  injection H as <-. simpl. now apply handleEvent_paths in E.
Qed.

Lemma pairsOf_app pick σ g e1 e2 :
  pairsOf pick σ g (e1 ++ e2)
  = pairsOf pick σ g e1 ++ pairsOf pick σ (fold_left inTarget e1 g) e2.
Proof.
  revert g. induction e1 as [|ev e1 IH]; intros g; simpl; [reflexivity|].
  now rewrite IH, app_assoc.
Qed.

(** A stream of events that pick no task result and are not of a target. *)
Lemma pairsOf_none (P : Event -> bool) pick σ g evs :
  (forall ev, P ev = true -> pick ev = None /\ isTargetEvent ev = false) ->
  forallb P evs = true ->
  pairsOf pick σ g evs = [] /\ fold_left inTarget evs g = g.
Proof.
  intros HP. induction evs as [|ev evs IH]; simpl; [auto|].
  rewrite andb_true_iff. intros [Hev Hevs]. destruct (HP ev Hev) as [-> Ht].
  replace (inTarget g ev) with g by (destruct ev; try reflexivity; discriminate Ht).
  exact (IH Hevs).
Qed.

Lemma length_pairsOf_started σ g evs :
  length (pairsOf taskStarted σ g evs) = count isTaskStart evs.
Proof.
  revert g. induction evs as [|ev evs IH]; intros g; [reflexivity|].
  simpl pairsOf. rewrite length_app, IH, count_cons. now destruct ev.
Qed.

Lemma length_pairsOf_ended σ g evs :
  length (pairsOf taskEnded σ g evs) = count isTaskEnd evs.
Proof.
  revert g. induction evs as [|ev evs IH]; intros g; [reflexivity|].
  simpl pairsOf. rewrite length_app, IH, count_cons. now destruct ev.
Qed.

Lemma length_pairs versions tasks :
  length (pairs versions tasks) = (length versions * length tasks)%nat.
Proof.
  unfold pairs. induction versions as [|v versions IH]; simpl; [reflexivity|].
  now rewrite length_app, length_map, IH.
Qed.

Lemma walkerEvent_inside pick ev :
  pick = taskStarted \/ pick = taskEnded ->
  walkerEvent ev = true -> pick ev = None /\ isTargetEvent ev = false.
Proof. intros [-> | ->]; destruct ev; simpl; intros H; try discriminate H; auto. Qed.

Lemma projectEvent_inside pick ev :
  pick = taskStarted \/ pick = taskEnded ->
  projectEvent ev = true -> pick ev = None /\ isTargetEvent ev = false.
Proof. intros [-> | ->]; destruct ev; simpl; intros H; try discriminate H; auto. Qed.

Lemma storeEvent_inside pick ev :
  pick = taskStarted \/ pick = taskEnded ->
  isStoreEvent ev = true -> pick ev = None /\ isTargetEvent ev = false.
Proof. intros [-> | ->]; destruct ev; simpl; intros H; try discriminate H; auto. Qed.

Lemma Holds_path σ' σ paths path rest :
  pathsOf σ' = paths ++ path :: rest -> Holds σ' σ -> pathsOf σ !! length paths = Some path.
Proof.
  intros E [[l Hl] _]. rewrite Hl, E, <- app_assoc. simpl.
  now apply list_lookup_middle.
Qed.

Lemma Holds_version σ' σ versions v rest :
  versionsOf σ' = versions ++ v :: rest -> Holds σ' σ ->
  versionsOf σ !! length versions = Some v.
Proof.
  intros E [_ [l Hl]]. rewrite Hl, E, <- app_assoc. simpl.
  now apply list_lookup_middle.
Qed.

Section RunPairs.
Variable config : ResolvedConfig.
Variable load : string -> list Event -> list StoreEvent * option Compiler.

(** A file that is run: one [task:start] and one [task:end], for a task
    result made for the file. *)
Lemma TaskRunner_run_pairs compiler task w w' :
  TaskRunner_run config compiler task w = Some w' ->
  CancellationToken.isCancellationRequested (cancellationToken w) = false ->
  exists evs, Emits evs w w' /\ Holds (heap w) (heap w') /\
    RunsFile (filePath task) (heap w') evs.
Proof.
  intros H Hc. pose proof (Follows_Holds _ _ (TaskRunner_run_follows config _ _ _ _ H)) as F.
  unfold TaskRunner_run in H. rewrite Hc in H.
  apply bind_Some in H as (w1 & E1 & H). apply bind_Some in H as (w2 & E2 & H).
  apply bind_Some in H as (w3 & E3 & H).
  pose proof (Follows_Holds _ _ (TaskRunner_run'_follows config _ _ _ _ _ E3)) as [[l3 F3] _].
  apply openFile_traces in E1 as (e1 & M1 & [P1 _] & _).
  apply TaskRunner_run'_traces in E3 as (e3 & M3 & [P3 _] & _).
  destruct (dispatch_paths _ _ _ E2) as [p2 _]. destruct (dispatch_paths _ _ _ H) as [p4 _].
  apply Emits_dispatch in E2, H.
  set (k := length (Store.tasks (heap w1))) in *.
  exists (e1 ++ ([] ++ [TaskStart k]) ++ e3 ++ [TaskEnd k]).
  split; [|split; [exact F|]].
  - eapply Emits_trans; [exact M1|]. eapply Emits_trans; [|eapply Emits_trans; eauto].
    eapply Emits_trans; [apply Emits_alloc | exact E2].
  - intros σ g Hσ.
    assert (Hk : pathsOf σ !! k = Some (filePath task)).
    { replace k with (length (pathsOf (heap w1))) by (unfold pathsOf; apply length_map).
      apply (Holds_path (heap w') σ _ _ l3); [|exact Hσ].
      rewrite p4, F3, p2. unfold pathsOf. simpl. rewrite map_app, <- app_assoc. reflexivity. }
    assert (Q : forall pick, pick = taskStarted \/ pick = taskEnded ->
              (pairsOf pick σ g e1 = [] /\ fold_left inTarget e1 g = g) /\
              (pairsOf pick σ g e3 = [] /\ fold_left inTarget e3 g = g)).
    { intros pick Hp. split.
      - apply (pairsOf_none projectEvent); [|exact P1]. intros ev. now apply projectEvent_inside.
      - apply (pairsOf_none walkerEvent); [|exact P3]. intros ev. now apply walkerEvent_inside. }
    destruct (Q taskStarted (or_introl eq_refl)) as [[a1 b1] [a3 b3]].
    destruct (Q taskEnded (or_intror eq_refl)) as [[c1 _] [c3 _]].
    rewrite !pairsOf_app, !fold_left_app, b1. simpl. rewrite b3, a1, a3, c1, c3. simpl.
    rewrite Hk. auto.
Qed.

Lemma token_kept evs w w' :
  Emits evs w w' -> cancellationHandler w = None ->
  cancellationHandler w' = None /\ cancellationToken w' = cancellationToken w.
Proof. intros (_ & H & T) Hn. rewrite H, T, Hn. split; [reflexivity | apply relay_None]. Qed.

Lemma runTasks_pairs compiler tasks w w' :
  runTasks config compiler tasks w = Some w' ->
  cancellationHandler w = None ->
  CancellationToken.isCancellationRequested (cancellationToken w) = false ->
  exists evs, Emits evs w w' /\ Holds (heap w) (heap w') /\
    forall σ g, Holds (heap w') σ ->
      let under := map (fun task => (g ≫= fun g => versionsOf σ !! g, Some (filePath task)))
                     tasks in
      pairsOf taskStarted σ g evs = under /\ pairsOf taskEnded σ g evs = under /\
      fold_left inTarget evs g = g.
Proof.
  revert w. induction tasks as [|task tasks IH]; intros w H Hn Hc; simpl in H.
  - injection H as <-. exists []. split; [apply Emits_refl|]. split; [apply Holds_refl|].
    intros σ g _. repeat split.
  - apply bind_Some in H as (w1 & E & H).
    apply TaskRunner_run_pairs in E as (e1 & M1 & F1 & R1); [|exact Hc].
    destruct (token_kept _ _ _ M1 Hn) as [Hn1 Ht1].
    apply IH in H as (e2 & M2 & F2 & R2); [|exact Hn1 | now rewrite Ht1].
    exists (e1 ++ e2). split; [eapply Emits_trans; eauto|].
    split; [eapply Holds_trans; eauto|].
    intros σ g Hσ.
    destruct (R1 σ g (Holds_trans _ _ _ F2 Hσ)) as (a1 & b1 & c1).
    destruct (R2 σ g Hσ) as (a2 & b2 & c2).
    cbv zeta. rewrite !pairsOf_app, fold_left_app, c1, a1, b1, a2, b2, c2. auto.
Qed.

(** A target whose version loads: its files, one after the other,
    between [target:start] and [target:end]. *)
Lemma runTarget_pairs tasks v w w' :
  runTarget config load tasks v w = Some w' ->
  cancellationHandler w = None ->
  CancellationToken.isCancellationRequested (cancellationToken w) = false ->
  loads load v ->
  exists evs, Emits evs w w' /\ Holds (heap w) (heap w') /\
    RunsTargets [v] tasks (heap w') evs.
Proof.
  intros H Hn Hc Hl.
  pose proof (Follows_Holds _ _ (runTarget_follows config load _ _ _ _ H)) as F.
  unfold runTarget in H. apply bind_Some in H as (w1 & E1 & H).
  destruct (dispatch_paths _ _ _ E1) as [_ v1]. apply Emits_dispatch in E1.
  set (g := length (Store.targets (heap w))) in *.
  assert (M1 : Emits [TargetStart g] w w1).
  { eapply (Emits_trans [] [TargetStart g]); [apply Emits_alloc | exact E1]. }
  destruct (token_kept _ _ _ M1 Hn) as [Hn1 Ht1].
  destruct (Hl (log w1)) as [compiler Hcompiler].
  destruct (load v (log w1)) as [published compiler'] eqn:El. simpl in Hcompiler. subst compiler'.
  apply bind_Some in H as (w2 & E2 & H). apply bind_Some in H as (w3 & E3 & H).
  pose proof (Follows_Holds _ _ (storeEvents_follow _ _ _ E2)) as F2.
  apply storeEvents_emitted in E2 as (M2 & _).
  destruct (token_kept _ _ _ M2 Hn1) as [Hn2 Ht2].
  apply runTasks_pairs in E3 as (e3 & M3 & F3 & R3); [|exact Hn2 | now rewrite Ht2, Ht1].
  pose proof H as E4. destruct (dispatch_paths _ _ _ E4) as [p4 v4].
  apply Emits_dispatch in H.
  exists ([TargetStart g] ++ map storeEvent published ++ e3 ++ [TargetEnd g]).
  split; [|split; [exact F|]].
  - eapply Emits_trans; [exact M1|]. eapply Emits_trans; [exact M2|].
    eapply Emits_trans; eauto.
  - intros σ Hσ.
    assert (H3 : Holds (heap w3) σ).
    { eapply Holds_trans; [|exact Hσ]. split; exists []; rewrite app_nil_r; auto. }
    assert (Hg : versionsOf σ !! g = Some v).
    { replace g with (length (versionsOf (heap w))) by (unfold versionsOf; apply length_map).
      destruct F2 as [_ [l2 V2]]. destruct F3 as [_ [l3 V3]].
      apply (Holds_version (heap w3) σ _ _ (l2 ++ l3)); [|exact H3].
      rewrite V3, V2, v1. unfold versionsOf. simpl. rewrite map_app, <- !app_assoc. reflexivity. }
    destruct (R3 σ (Some g) H3) as (a3 & b3 & c3). cbv zeta in a3, b3. simpl in a3, b3.
    rewrite Hg in a3, b3.
    assert (Q : forall pick, pick = taskStarted \/ pick = taskEnded ->
              pairsOf pick σ (Some g) (map storeEvent published) = [] /\
              fold_left inTarget (map storeEvent published) (Some g) = Some g).
    { intros pick Hp. apply (pairsOf_none isStoreEvent); [|apply Spans_store].
      intros ev. now apply storeEvent_inside. }
    destruct (Q taskStarted (or_introl eq_refl)) as [a2 b2].
    destruct (Q taskEnded (or_intror eq_refl)) as [c2 _].
    rewrite !pairsOf_app, !fold_left_app. simpl. rewrite ?b2, ?a2, ?c2, ?c3, ?a3, ?b3. simpl.
    unfold pairs. simpl. rewrite !app_nil_r. auto.
Qed.

Lemma pairs_cons v versions tasks :
  pairs (v :: versions) tasks = pairs [v] tasks ++ pairs versions tasks.
Proof. unfold pairs. simpl. now rewrite app_nil_r. Qed.

Lemma runTargets_pairs tasks vs w w' :
  runTargets config load tasks vs w = Some w' ->
  cancellationHandler w = None ->
  CancellationToken.isCancellationRequested (cancellationToken w) = false ->
  Forall (loads load) vs ->
  exists evs, Emits evs w w' /\ Holds (heap w) (heap w') /\
    RunsTargets vs tasks (heap w') evs.
Proof.
  revert w. induction vs as [|v vs IH]; intros w H Hn Hc Hl; simpl in H.
  - injection H as <-. exists []. split; [apply Emits_refl|]. split; [apply Holds_refl|].
    intros σ _. repeat split.
  - inversion Hl as [|v' vs' Hv Hvs]; subst.
    apply bind_Some in H as (w1 & E & H).
    apply runTarget_pairs in E as (e1 & M1 & F1 & R1); [|exact Hn | exact Hc | exact Hv].
    destruct (token_kept _ _ _ M1 Hn) as [Hn1 Ht1].
    apply IH in H as (e2 & M2 & F2 & R2); [|exact Hn1 | now rewrite Ht1 | exact Hvs].
    exists (e1 ++ e2). split; [eapply Emits_trans; eauto|].
    split; [eapply Holds_trans; eauto|].
    intros σ Hσ.
    destruct (R1 σ (Holds_trans _ _ _ F2 Hσ)) as (a1 & b1 & c1).
    destruct (R2 σ Hσ) as (a2 & b2 & c2).
    rewrite pairs_cons, !pairsOf_app, fold_left_app, c1, a1, b1, a2, b2, c2. auto.
Qed.

(** A run that is not cancelled and has no cancellation handler runs
    every file under every target. *)
Lemma Runner_run_pairs tasks w w' :
  failFast config = false ->
  Runner_run config load tasks w = Some w' ->
  cancellationHandler w = None ->
  CancellationToken.isCancellationRequested (cancellationToken w) = false ->
  Forall (loads load) (target config) ->
  exists evs, log w' = log w ++ evs /\
    pairsOf taskStarted (heap w') None evs = pairs (target config) tasks /\
    pairsOf taskEnded (heap w') None evs = pairs (target config) tasks.
Proof.
  intros Hf H Hn Hc Hl. unfold Runner_run, Runner_run' in H. rewrite Hf in H.
  apply bind_Some in H as (w4 & H & E4). injection E4 as <-.
  apply bind_Some in H as (w1 & E1 & H). apply bind_Some in H as (w2 & E2 & H).
  apply bind_Some in H as (w3 & E3 & H).
  destruct (dispatch_paths _ _ _ E3) as [p3 v3].
  apply Emits_dispatch in E1. pose proof E3 as M3. apply Emits_dispatch in M3.
  set (r := length (Store.runs (heap w))) in *.
  assert (M1 : Emits [RunStart r] w w1).
  { eapply (Emits_trans [] [RunStart r]); [apply Emits_alloc | exact E1]. }
  destruct (token_kept _ _ _ M1 Hn) as [Hn1 Ht1].
  apply runTargets_pairs in E2 as (e2 & M2 & F2 & R2); [|exact Hn1 | now rewrite Ht1 | exact Hl].
  assert (M : Emits ([RunStart r] ++ e2 ++ [RunEnd r]) w w3).
  { eapply Emits_trans; [exact M1|]. eapply Emits_trans; eauto. }
  assert (Hσ : Holds (heap w2) (heap w3)) by (split; exists []; rewrite app_nil_r; auto).
  destruct (R2 _ Hσ) as (a2 & b2 & c2).
  exists ([RunStart r] ++ e2 ++ [RunEnd r]).
  assert (E : heap w4 = heap w3 /\ log w4 = log w3).
  { destruct (bool_decide _); injection H as <-; auto. }
  destruct E as [Eh El]. simpl. rewrite Eh, El. split; [apply M|].
  rewrite !pairsOf_app. simpl. rewrite a2, b2, !app_nil_r. auto.
Qed.
End RunPairs.

(** * Properties of the stream of a run *)

Lemma count_ext (f g : Event -> bool) evs :
  (forall ev, f ev = g ev) -> count f evs = count g evs.
Proof. intros H. unfold count. now rewrite (List.filter_ext f g H). Qed.

Lemma net_count k evs :
  net k evs = Z.of_nat (count (opens k) evs) - Z.of_nat (count (closes k) evs).
Proof.
  induction evs as [|ev evs IH]; [reflexivity|].
  change (net k (ev :: evs)) with (level k ev + net k evs).
  rewrite IH, !count_cons. unfold level.
  destruct (opens k ev), (closes k ev); lia.
Qed.

Lemma low_le_net k evs : low k evs <= net k evs.
Proof.
  induction evs as [|ev evs IH]; [reflexivity|].
  change (low k (ev :: evs)) with (Z.min 0 (level k ev + low k evs)).
  change (net k (ev :: evs)) with (level k ev + net k evs). lia.
Qed.

Lemma low_prefix k p s : low k (p ++ s) <= net k p.
Proof. rewrite low_app. pose proof (low_le_net k p). lia. Qed.

(** A stream that leaves nothing open and never closes what is not open,
    in counts. *)
Lemma span_idle_counts k evs :
  span k evs = (0, 0) ->
  count (opens k) evs = count (closes k) evs /\
  forall p s, evs = p ++ s -> (count (closes k) p <= count (opens k) p)%nat.
Proof.
  unfold span. intros [= Hn Hl]. split.
  - rewrite net_count in Hn. lia.
  - intros p s ->. pose proof (low_prefix k p s) as H. rewrite Hl, net_count in H. lia.
Qed.

Lemma relay_cancelled reason evs token :
  CancellationToken.isCancelled token = true -> relay (Some reason) evs token = token.
Proof.
  intros Hc. induction evs as [|ev evs IH]; [reflexivity|]. simpl.
  unfold CancellationHandler.handleEvent, CancellationToken.cancel. rewrite Hc. simpl.
  destruct (payload_diagnostics ev) as [ds|]; [destruct (existsb isError ds)|]; exact IH.
Qed.

(** The token of a run that started with a fresh one is fresh, or cancelled
    for the reason of the handler, and this when an event of the stream
    carried an error. *)
Lemma relay_new reason evs :
  relay (Some reason) evs CancellationToken.new =
  if existsb carriesError evs then CancellationToken.mk true (Some reason)
  else CancellationToken.new.
Proof.
  induction evs as [|ev evs IH]; [reflexivity|]. simpl.
  unfold CancellationHandler.handleEvent, carriesError at 1.
  destruct (payload_diagnostics ev) as [ds|]; [destruct (existsb isError ds)|]; simpl;
    try exact IH.
  now rewrite relay_cancelled.
Qed.

Lemma Runner_run_spans config load tasks w' :
  Runner_run config load tasks initialWorld = Some w' ->
  forall k, span k (log w') = (0, 0).
Proof.
  intros H. apply Runner_run_stream_of in H as (evs & L & S & _); [|reflexivity].
  simpl in L. rewrite L.
  apply (Spans_weaken _ (fun _ => true)) in S; [|reflexivity].
  assert (S' : Spans (fun _ => true) idle ([RunStart 0] ++ evs ++ [RunEnd 0])).
  { eapply Spans_cast.
    - eapply Spans_app; [apply (Spans_one _ (RunStart 0)); reflexivity|].
      eapply Spans_app; [exact S | apply (Spans_one _ (RunEnd 0)); reflexivity].
    - intros []; reflexivity. }
  apply S'.
Qed.

(** X2: every result a run opens is closed, and nothing is closed that
    is not open. In the stream of a run, for each kind of result ([run],
    [target], [task], [describe], [test], [expect]), the events that open
    a result of the kind are as many as the events that close one
    ([test:error], [test:fail], [test:pass], [test:skip] and [test:todo]
    close a test; [expect:error], [expect:fail], [expect:pass] and
    [expect:skip] close an assertion), and no prefix of the stream has more
    closing than opening events. This holds under fail-fast, after a
    cancellation and after validation errors alike. *)
Theorem every_result_is_closed config load tasks :
  exists w', Runner_run config load tasks initialWorld = Some w' /\
    forall k,
      count (opens k) (log w') = count (closes k) (log w') /\
      forall p s, log w' = p ++ s -> (count (closes k) p <= count (opens k) p)%nat.
Proof.
  destruct (Runner_run_total config load tasks) as [w' H]. exists w'. split; [exact H|].
  intros k. apply span_idle_counts. eapply Runner_run_spans; eauto.
Qed.

(** X4: a run makes one [TargetResult] for each configured version, in
    the order of [resolvedConfig.target], and publishes [target:start] and
    [target:end] once for each of them, in that order and never nested:
    also for a version whose compiler does not load, and after a
    cancellation. *)
Theorem one_target_result_per_version config load tasks :
  exists w', Runner_run config load tasks initialWorld = Some w' /\
    map TargetResult.versionTag (Store.targets (heap w')) = target config /\
    List.filter isTargetEvent (log w')
      = flat_map (fun g => [TargetStart g; TargetEnd g]) (seq 0 (length (target config))).
Proof.
  destruct (Runner_run_total config load tasks) as [w' H]. exists w'. split; [exact H|].
  apply Runner_run_stream_of in H as (evs & L & _ & F & G & _); [|reflexivity].
  simpl in L, F, G. split; [exact G|].
  rewrite L. simpl. rewrite List.filter_app, F. simpl. apply app_nil_r.
Qed.

(** X5: fail-fast does not outlive the run. A run that starts outside a
    group, without a cancellation handler and with a token that is not
    cancelled, returns with the cancellation handler removed and the token
    not cancelled, whether or not fail-fast cancelled it on the way. *)
Theorem fail_fast_does_not_outlive_the_run config load tasks w :
  ResultHandler.describeResult (resultHandler w) = None ->
  cancellationHandler w = None ->
  cancellationToken w = CancellationToken.new ->
  exists w', Runner_run config load tasks w = Some w' /\
    cancellationHandler w' = None /\ cancellationToken w' = CancellationToken.new.
Proof.
  intros Hd Hh Ht. destruct (Runner_run_returns config load tasks w Hd) as [w' H].
  exists w'. split; [exact H|].
  apply Runner_run_stream_of in H as (evs & _ & _ & _ & _ & Hh' & Ht' & _); [|exact Hh].
  split; [exact Hh'|]. rewrite Ht'. cbv zeta. rewrite Ht.
  destruct (failFast config).
  - rewrite relay_new. destruct (existsb carriesError evs); reflexivity.
  - rewrite relay_None. reflexivity.
Qed.

(** X6: without fail-fast every file is run under every target. Take a
    run that starts outside a group, without a cancellation handler and
    with a token that is not cancelled, and that nothing but the run
    itself can cancel. When [failFast] is off and every configured version
    loads, the run returns, and the events it publishes start and end,
    for each pair of a configured version and a file, one task result made
    for the file, under the target made for the version: the [task:start]
    events, and the [task:end] events, are those of the pairs, in the
    order of the versions and then of the files, one for each pair and no
    other. *)
Theorem every_file_runs_under_every_target config load tasks w :
  failFast config = false ->
  Forall (loads load) (target config) ->
  ResultHandler.describeResult (resultHandler w) = None ->
  cancellationHandler w = None ->
  CancellationToken.isCancellationRequested (cancellationToken w) = false ->
  exists w' evs,
    Runner_run config load tasks w = Some w' /\ log w' = log w ++ evs /\
    pairsOf taskStarted (heap w') None evs = pairs (target config) tasks /\
    pairsOf taskEnded (heap w') None evs = pairs (target config) tasks /\
    count isTaskStart evs = (length (target config) * length tasks)%nat /\
    count isTaskEnd evs = (length (target config) * length tasks)%nat.
Proof.
  intros Hf Hl Hd Hn Hc. destruct (Runner_run_returns config load tasks w Hd) as [w' H].
  destruct (Runner_run_pairs config load tasks w w' Hf H Hn Hc Hl) as (evs & L & S & E).
  exists w', evs. split; [exact H|]. split; [exact L|]. split; [exact S|]. split; [exact E|].
  rewrite <- (length_pairsOf_started (heap w') None), <- (length_pairsOf_ended (heap w') None).
  rewrite S, E, length_pairs. auto.
Qed.

(** * The exit code *)

Lemma exitCode_inRun evs code :
  forallb inRun evs = true ->
  exitCodeAfter evs code = if existsb carriesError evs then 1 else code.
Proof.
  revert code. induction evs as [|ev evs IH]; intros code; simpl; [reflexivity|].
  rewrite andb_true_iff. intros [Hev Hevs]. unfold exitCodeAfter in *. rewrite (IH _ Hevs).
  unfold carriesError at 2.
  destruct ev; try discriminate Hev; simpl; try reflexivity;
    destruct (existsb isError _); simpl; try reflexivity; now destruct (existsb carriesError evs).
Qed.

Lemma exit_code_since pre r evs code :
  forallb inRun evs = true ->
  exitCodeAfter (pre ++ RunStart r :: evs) code = if existsb carriesError evs then 1 else 0.
Proof.
  intros H. unfold exitCodeAfter. rewrite fold_left_app. simpl.
  apply (exitCode_inRun evs 0 H).
Qed.

(** X8: the exit code reports the last run. After a stream that holds a
    [run:start] followed by events that are not [run:start], the exit code
    set by [ExitCodeHandler] is 1 exactly when one of the events after that
    [run:start] carries a diagnostic of the category error: errors of
    earlier runs and the exit code before are forgotten. *)
Theorem exit_code_reports_the_last_run pre r evs code :
  forallb inRun evs = true ->
  exitCodeAfter (pre ++ RunStart r :: evs) code = 1 <->
  exists ev, In ev evs /\ carriesError ev = true.
Proof.
  intros H. rewrite (exit_code_since pre r evs code H), <- existsb_exists.
  destruct (existsb carriesError evs); split; congruence.
Qed.

Lemma inRun_runEvent ev : runEvent ev = true -> inRun ev = true.
Proof. destruct ev; cbv; congruence. Qed.

(** X7: files are dropped only with exit code 1. Take a run that starts
    outside a group, without a cancellation handler and with a token that
    is not cancelled, and that nothing but the run itself can cancel. When
    every configured version loads, a run that starts fewer files than
    there are pairs of a target and a file (as fail-fast makes it do)
    leaves [process.exitCode] at 1, whatever it was before the run. *)
Theorem dropped_files_set_the_exit_code config load tasks w code :
  Forall (loads load) (target config) ->
  ResultHandler.describeResult (resultHandler w) = None ->
  cancellationHandler w = None ->
  CancellationToken.isCancellationRequested (cancellationToken w) = false ->
  exists w' evs,
    Runner_run config load tasks w = Some w' /\ log w' = log w ++ evs /\
    ((count isTaskStart evs < length (target config) * length tasks)%nat ->
     exitCodeAfter (log w') code = 1).
Proof.
  intros Hl Hd Hn Hk. destruct (Runner_run_returns config load tasks w Hd) as [w' H].
  exists w'.
  apply Runner_run_stream_of in H as H'; [|exact Hn].
  destruct H' as (evs & L & [P _] & _ & _ & _ & _ & _ & Hc).
  set (r := length (Store.runs (heap w))) in *.
  exists (RunStart r :: evs ++ [RunEnd r]). split; [exact H|]. split; [exact L|].
  intros Hlt. rewrite L.
  assert (He : existsb carriesError evs = true).
  { destruct (existsb carriesError evs) eqn:He; [reflexivity|].
    specialize (Hc (or_intror eq_refl) Hk Hl).
    change (RunStart r :: evs ++ [RunEnd r]) with ([RunStart r] ++ evs ++ [RunEnd r]) in Hlt.
    rewrite !count_app, Hc in Hlt. unfold count in Hlt. simpl in Hlt. lia. }
  etransitivity; [apply (exit_code_since (log w) r (evs ++ [RunEnd r]) code)|].
  - rewrite forallb_app. simpl. rewrite andb_true_r.
    rewrite forallb_forall in *. intros ev Hin. apply inRun_runEvent. auto.
  - now rewrite existsb_app, He.
Qed.

(** * Skipped members *)

Lemma land_pow2 a i :
  0 <= i -> Z.land a (2 ^ i) = if Z.testbit a i then 2 ^ i else 0.
Proof.
  intros Hi. apply Z.bits_inj'. intros n Hn.
  rewrite Z.land_spec, Z.pow2_bits_eqb by assumption.
  destruct (Z.eqb_spec i n) as [->|Hne].
  - rewrite andb_true_r. destruct (Z.testbit a n) eqn:E.
    + now rewrite Z.pow2_bits_true.
    + now rewrite Z.bits_0.
  - rewrite andb_false_r. destruct (Z.testbit a i).
    + rewrite Z.pow2_bits_false; auto.
    + now rewrite Z.bits_0.
Qed.

(** [mode & 4] is truthy when bit 2 of [mode] is set. *)
Lemma truthy_skip mode : truthy (bitand mode 4) = Z.testbit mode 2.
Proof.
  unfold bitand, truthy. change (ToInt32 4) with (2 ^ 2).
  rewrite land_pow2, testbit_ToInt32 by lia. now destruct (Z.testbit mode 2).
Qed.

Section WalkSkipped.
Variable this : TestTreeWorker.
Hypothesis no_position : position this = None.

Lemma resolveRunMode_skip mode m :
  Z.testbit mode 2 = true -> isSkipped this (resolveRunMode this mode m) = true.
Proof.
  intros H. unfold isSkipped. rewrite truthy_skip, resolveRunMode_testbit by lia.
  rewrite no_position. unfold positionMatches. now rewrite H.
Qed.

Lemma resolveRunMode_keeps_skip mode m :
  Z.testbit mode 2 = true -> Z.testbit (resolveRunMode this mode m) 2 = true.
Proof.
  intros H. rewrite resolveRunMode_testbit by lia. rewrite no_position. unfold positionMatches. now rewrite H.
Qed.

Lemma visit_quiet ms :
  Forall (memberQuiet this) ms ->
  forall mode parent w w',
    Z.testbit mode 2 = true ->
    visit this ms mode parent w = Some w' -> Traces quietEvent idle w w'.
Proof.
  induction 1 as [|m ms Hm _ IH]; intros mode parent w w' Hs H.
  - injection H as <-. apply Traces_refl.
  - rewrite visit_cons in H. follow H; try apply Traces_refl.
    + eapply Traces_cast; [eapply Traces_trans; [eapply Hm | eapply IH]; eauto|].
      intros []; reflexivity.
    + traced.
Qed.

Lemma visitMember_quiet m : memberQuiet this m.
Proof.
  induction m as [d f ms n s IH | d f ms n s IH | d f ms n s a IH] using TestMember_tree_ind;
    intros mode parent w w' Hs H; rewrite visitMember_eq in H; simpl in H.
  - unfold visitDescribe in H.
    rewrite (resolveRunMode_skip mode _ Hs) in H. simpl in H.
    pose proof (fun v v' => visit_quiet ms IH (resolveRunMode this mode (mkDescribe d f ms n s))
                  (Some (InDescribe (length (Store.describes (heap w))))) v v'
                  (resolveRunMode_keeps_skip mode _ Hs)) as Hms.
    follow H; traced.
  - unfold visitTest in H.
    rewrite (resolveRunMode_skip mode _ Hs) in H. simpl in H.
    pose proof (fun v v' => visit_quiet ms IH (resolveRunMode this mode (mkTest d f ms n s))
                  (Some (InTest (length (Store.tests (heap w))))) v v'
                  (resolveRunMode_keeps_skip mode _ Hs)) as Hms.
    follow H; traced.
  - unfold visitAssertion in H.
    rewrite (resolveRunMode_skip mode _ Hs) in H.
    pose proof (fun v v' => visit_quiet ms IH mode parent v v' Hs) as Hms.
    follow H; traced.
Qed.
End WalkSkipped.

(** X3: a member visited in a mode that has the Skip bit, by a walker
    without a position, runs nothing. The visit returns, and every event it
    publishes is one of [describe:start], [describe:end], [test:start],
    [test:skip], [test:todo], [expect:start], [expect:skip], or the
    [task:error] of a member that fails validation: no matcher is called,
    no deprecation is reported and nothing passes or fails. *)
Theorem skipped_member_runs_nothing this m mode parent w :
  position this = None -> truthy (bitand mode 4) = true ->
  Ready w -> validate m = [] ->
  (brand m = Describe -> ResultHandler.describeResult (resultHandler w) = parent) ->
  exists w' evs,
    visitMember this m mode parent w = Some w' /\
    log w' = log w ++ evs /\ forallb quietEvent evs = true.
Proof.
  intros Hp Hs HR Hv Ha. rewrite truthy_skip in Hs.
  destruct (visitMember_returns this m mode parent w HR Hv Ha) as (w' & H & _).
  destruct (visitMember_quiet this Hp m mode parent w w' Hs H) as (evs & (L & _) & [P _] & _).
  exists w', evs. auto.
Qed.

(** * Watch sessions *)

Section JsMapEntries.
Context {K V : Type} `{EqDecision K}.
Implicit Types m : list (K * V).

Lemma JsMap_set_Forall (P : K * V -> Prop) k v m :
  P (k, v) -> List.Forall P m -> List.Forall P (JsMap.set k v m).
Proof.
  intros Hkv. induction 1 as [|[k0 v0] m H0 Hm IH]; simpl.
  - constructor; [exact Hkv | constructor].
  - destruct (decide (k0 = k)) as [->|Hne]; constructor; assumption.
Qed.

Lemma JsMap_delete_Forall (P : K * V -> Prop) k m :
  List.Forall P m -> List.Forall P (JsMap.delete k m).
Proof.
  induction 1 as [|[k0 v0] m H0 Hm IH]; simpl; [constructor|].
  destruct (decide (k0 = k)); [exact Hm | constructor; assumption].
Qed.

Lemma JsMap_get_In k v m : JsMap.get k m = Some v -> In (k, v) m.
Proof.
  induction m as [|[k0 v0] m IH]; simpl; [discriminate|].
  destruct (decide (k0 = k)) as [->|Hne]; [intros [= ->]; now left | right; auto].
Qed.

Lemma JsMap_delete_absent k m :
  List.NoDup (map fst m) -> ~ In k (map fst (JsMap.delete k m)).
Proof.
  induction m as [|[k0 v0] m IH]; simpl; intros Hnd; [tauto|].
  inversion Hnd as [|? ? Hnotin Hnd']; subst.
  destruct (decide (k0 = k)) as [->|Hne]; [exact Hnotin|].
  simpl. intros [H0 | Hin]; [now apply Hne | now apply (IH Hnd')].
Qed.

Lemma JsMap_get_absent k m : ~ In k (map fst m) -> JsMap.get k m = None.
Proof.
  induction m as [|[k0 v0] m IH]; simpl; [reflexivity|]. intros Hin.
  destruct (decide (k0 = k)) as [->|Hne]; [exfalso; apply Hin; now left|].
  apply IH. intros H'. apply Hin. now right.
Qed.
End JsMapEntries.

Lemma values_ok origin (m : list (string * Task)) :
  List.NoDup (map fst m) -> List.Forall (entryOk origin) m ->
  List.NoDup (map filePath (JsMap.values m)) /\
  List.Forall (fun task => origin (filePath task) = true) (JsMap.values m).
Proof.
  intros Hnd Hok. unfold JsMap.values.
  assert (E : map filePath (map snd m) = map fst m).
  { rewrite map_map. apply map_ext_in. intros kv Hin.
    rewrite List.Forall_forall in Hok. now destruct (Hok kv Hin). }
  rewrite E. split; [exact Hnd|].
  rewrite List.Forall_forall in *. intros task Hin. apply in_map_iff in Hin as (kv & <- & Hin).
  destruct (Hok kv Hin) as [-> Ho]. exact Ho.
Qed.

Lemma values_absent f (m : list (string * Task)) origin :
  List.Forall (entryOk origin) m -> ~ In f (map fst m) ->
  ~ In f (map filePath (JsMap.values m)).
Proof.
  intros Hok Hf Hin. apply Hf. unfold JsMap.values in Hin. rewrite map_map in Hin.
  apply in_map_iff in Hin as (kv & <- & Hin). apply in_map_iff. exists kv. split; [|exact Hin].
  rewrite List.Forall_forall in Hok. now destruct (Hok kv Hin).
Qed.

(** Closes the parts of an invariant that are at hand. *)
Ltac settle :=
  repeat split; try assumption; try discriminate; try reflexivity;
  try match goal with
      | F : ?c = true -> _ /\ _, H : ?c = true |- _ => destruct (F H); assumption
      end.

Section WatchSessions.
Variable isTestFile : string -> bool.
Import WatchService.

(** What [resolve] does: nothing, or it yields the batch, or it goes round
    the loop. *)
Lemma resolve_cases value s :
  resolve value s = s \/
  ((0 < length value)%nat /\ phase s = Awaiting /\
   resolve value s = set_phase Suspended (push_yielded value s)) \/
  resolve value s = loop s.
Proof.
  unfold resolve. destruct (negb (resolver s)); [auto|].
  destruct (phase s); auto. destruct (0 <? length value)%nat eqn:E; [|auto].
  right. left. apply Nat.ltb_lt in E. auto.
Qed.

Lemma resolve_WatchInv origin value s :
  (value <> [] -> List.NoDup (map filePath value) /\
                  List.Forall (fun task => origin (filePath task) = true) value) ->
  WatchInv origin s -> WatchInv origin (resolve value s).
Proof.
  intros Hv (a & b & c & d & e & g & f).
  destruct (resolve_cases value s) as [-> | [(Hlen & _ & ->) | ->]].
  - settle.
  - assert (Hne : value <> []) by (intros ->; simpl in Hlen; lia).
    destruct (Hv Hne) as [Hnd Hor]. unfold WatchInv. simpl.
    settle.
    apply List.Forall_app. split; [exact e|]. constructor; [|constructor]. auto.
  - unfold loop. destruct (CancellationToken.isCancellationRequested (token s)) eqn:Hk;
      unfold WatchInv; simpl; rewrite ?Hk; settle.
Qed.

Lemma step_WatchInv origin ev s :
  (forall f, isTestFile f = true -> origin f = true) ->
  WatchInv origin s -> WatchInv origin (step isTestFile ev s).
Proof.
  intros Ho Hinv. pose proof Hinv as (a & b & c & d & e & g & f).
  assert (Hclear : closed s = false -> WatchInv origin (clearTimeout s)).
  { intros Hc. rewrite (clearTimeout_eq s g). unfold WatchInv. cbn. rewrite Hc.
    repeat split; try assumption; try discriminate. intros timer []. }
  destruct ev as [path | path | | chunk | timer |]; unfold step.
  - (* a changed file *)
    destruct (closed s) eqn:Hc; [exact Hinv|]. unfold onChangedFile.
    rewrite (refreshTimeout_eq s g). cbn.
    destruct (JsMap.get path (watchedTestFiles s)) as [task|] eqn:Hg; cbn.
    + apply JsMap_get_In in Hg. rewrite List.Forall_forall in d. pose proof (d _ Hg) as Hok.
      unfold WatchInv. cbn. rewrite Hc.
      repeat split; try assumption; try discriminate;
        try (intros ? [<- | []]; reflexivity).
      * now apply JsMap_set_NoDup.
      * apply JsMap_set_Forall; [exact Hok | exact c].
      * now apply List.Forall_forall.
    + destruct (isTestFile path) eqn:Ht; cbn.
      * assert (Hok : entryOk origin (path, mkTask path None))
          by (split; [reflexivity | now apply Ho]).
        unfold WatchInv. cbn. rewrite Hc.
        repeat split; try assumption; try discriminate;
          try (intros ? [<- | []]; reflexivity);
          try (now apply JsMap_set_NoDup); now apply JsMap_set_Forall.
      * unfold WatchInv. cbn. rewrite Hc.
        repeat split; try assumption; try discriminate.
        intros ? [<- | []]; reflexivity.
  - (* a removed file *)
    destruct (closed s) eqn:Hc; [exact Hinv|]. unfold onRemovedFile.
    set (s1 := set_watchedTestFiles _ _).
    assert (H1 : WatchInv origin s1).
    { unfold WatchInv, s1. cbn. rewrite Hc.
      repeat split; try assumption; try discriminate;
        try (now apply JsMap_delete_NoDup); now apply JsMap_delete_Forall. }
    destruct (_ =? _)%nat; [|exact H1].
    destruct H1 as (a1 & b1 & c1 & d1 & e1 & g1 & f1).
    rewrite (clearTimeout_eq s1 g1). unfold WatchInv, s1. cbn. rewrite Hc.
    repeat split; try assumption; try discriminate; try (intros ? []);
      try (now apply JsMap_delete_NoDup); now apply JsMap_delete_Forall.
  - (* the configuration file changed *)
    destruct (closed s) eqn:Hc; [exact Hinv|]. unfold onClose.
    rewrite (clearTimeout_eq s g).
    apply resolve_WatchInv; [intros H; now contradiction H|].
    unfold WatchInv. cbn. repeat split; try assumption; try (intros ? []).
    unfold CancellationToken.cancel.
    destruct (CancellationToken.isCancelled (token s)) eqn:Hk; simpl; [exact Hk | reflexivity].
  - (* a key press *)
    destruct (closed s) eqn:Hc; [exact Hinv|]. unfold onInput.
    destruct (oneOf _ _).
    { unfold onClose. rewrite (clearTimeout_eq s g).
      apply resolve_WatchInv; [intros H; now contradiction H|].
      unfold WatchInv. cbn. repeat split; try assumption; try (intros ? []).
      unfold CancellationToken.cancel.
      destruct (CancellationToken.isCancelled (token s)) eqn:Hk; simpl; [exact Hk | reflexivity]. }
    destruct (oneOf _ _); [|exact Hinv].
    pose proof (Hclear eq_refl) as Hinv'. rewrite (clearTimeout_eq s g) in *.
    destruct (0 <? _)%nat; [|exact Hinv'].
    apply resolve_WatchInv; [|exact Hinv']. intros _. cbn. now apply values_ok.
  - (* a timer *)
    destruct (existsb _ _) eqn:Ht; [|exact Hinv].
    apply pending_timer in Ht.
    assert (Hc : closed s = false).
    { destruct (closed s); [|reflexivity]. destruct (f eq_refl) as [Hf _].
      rewrite Hf in Ht. destruct Ht. }
    assert (Hw : without timer (timers s) = []).
    { apply without_all. intros other Hin. pose proof (g _ Hin). pose proof (g _ Ht).
      congruence. }
    rewrite Hw.
    destruct (resolver (set_timers [] s)) eqn:Hr.
    + unfold onResolve. apply resolve_WatchInv.
      * intros _. cbn. now apply values_ok.
      * unfold WatchInv. cbn. rewrite Hc.
        repeat split; try assumption; try discriminate; try (intros ? []); constructor.
    + unfold WatchInv. cbn. rewrite Hc.
      repeat split; try assumption; try discriminate. intros ? [].
  - (* the consumer asks for the next batch *)
    destruct (phase s); try exact Hinv. unfold loop.
    destruct (CancellationToken.isCancellationRequested (token s)) eqn:Hk;
      unfold WatchInv; simpl; rewrite ?Hk; settle.
Qed.

Lemma steps_WatchInv origin evs s :
  (forall f, isTestFile f = true -> origin f = true) ->
  WatchInv origin s -> WatchInv origin (steps isTestFile evs s).
Proof.
  intros Ho. revert s. induction evs as [|ev evs IH]; intros s Hinv; [exact Hinv|].
  change (steps isTestFile (ev :: evs) s) with (steps isTestFile evs (step isTestFile ev s)).
  apply IH. now apply step_WatchInv.
Qed.
End WatchSessions.

Section WatchStart.
Variable isTestFile : string -> bool.
Import WatchService.

Lemma watchable_task tasks task :
  In task tasks -> watchable isTestFile tasks (filePath task) = true.
Proof.
  intros Hin. unfold watchable. apply orb_true_iff. right.
  apply existsb_exists. exists (filePath task). split; [|apply String.eqb_refl].
  now apply in_map.
Qed.

Lemma new_watched origin tasks (m : list (string * Task)) :
  (forall task, In task tasks -> origin (filePath task) = true) ->
  List.NoDup (map fst m) -> List.Forall (entryOk origin) m ->
  let m' := foldl (fun m task => JsMap.set (filePath task) task m) m tasks in
  List.NoDup (map fst m') /\ List.Forall (entryOk origin) m'.
Proof.
  revert m. induction tasks as [|task tasks IH]; intros m Ho Hnd Hok; simpl; [auto|].
  apply IH.
  - intros t Ht. apply Ho. now right.
  - now apply JsMap_set_NoDup.
  - apply JsMap_set_Forall; [|exact Hok]. split; [reflexivity|]. apply Ho. now left.
Qed.

Lemma new_WatchInv tasks token :
  WatchInv (watchable isTestFile tasks) (WatchService.new tasks token).
Proof.
  destruct (new_watched (watchable isTestFile tasks) tasks [] (watchable_task tasks))
    as [Hnd Hok]; [constructor | constructor |].
  unfold WatchInv. simpl.
  repeat split; try assumption; try constructor; try discriminate. intros timer [].
Qed.

Lemma session_WatchInv tasks token evs :
  WatchInv (watchable isTestFile tasks)
    (steps isTestFile evs (WatchService.new tasks token)).
Proof.
  apply steps_WatchInv; [|apply new_WatchInv].
  intros f Hf. unfold watchable. now rewrite Hf.
Qed.

Lemma cancel_cancelled reason token :
  CancellationToken.isCancellationRequested (CancellationToken.cancel reason token) = true.
Proof.
  unfold CancellationToken.cancel, CancellationToken.isCancellationRequested.
  destruct (CancellationToken.isCancelled token) eqn:Hk; simpl; [exact Hk | reflexivity].
Qed.

Lemma resolve_closed value s : closed (resolve value s) = closed s.
Proof.
  unfold resolve, loop. destruct (negb (resolver s)), (phase s); simpl; auto;
    repeat (case_match; simpl; auto).
Qed.

Lemma resolve_PhaseInv value s :
  closed s = false -> PhaseInv s -> PhaseInv (resolve value s).
Proof.
  intros Hc [p1 p2]. split.
  - destruct (resolve_inv value s) as [_ ->]. intros Hr.
    unfold resolve. rewrite Hr. simpl. now apply p1.
  - rewrite resolve_closed, Hc. discriminate.
Qed.

Lemma onClose_PhaseInv reason s : PhaseInv s -> PhaseInv (onClose reason s).
Proof.
  intros [p1 p2]. unfold onClose. timers_out. unfold resolve, loop. cbn.
  destruct (resolver s) eqn:Hr; cbn.
  - destruct (phase s) eqn:Hph; cbn; rewrite ?cancel_cancelled; split; cbn;
      congruence.
  - specialize (p1 eq_refl). split; cbn; [auto|]. intros _. rewrite p1. discriminate.
Qed.

Lemma step_PhaseInv origin ev s :
  WatchInv origin s -> PhaseInv s -> PhaseInv (step isTestFile ev s).
Proof.
  intros (_ & _ & _ & _ & _ & g & f) Hp. pose proof Hp as [p1 p2].
  destruct ev as [path | path | | chunk | timer |]; unfold step.
  - destruct (closed s) eqn:Hc; [exact Hp|]. unfold onChangedFile. timers_out. cbn.
    destruct (JsMap.get _ _); [|destruct (isTestFile _)]; split; cbn; rewrite ?Hc;
      auto; discriminate.
  - destruct (closed s) eqn:Hc; [exact Hp|]. unfold onRemovedFile. timers_out. cbn.
    destruct (_ =? _)%nat; split; cbn; rewrite ?Hc; auto; discriminate.
  - destruct (closed s) eqn:Hc; [exact Hp|]. now apply onClose_PhaseInv.
  - destruct (closed s) eqn:Hc; [exact Hp|]. unfold onInput.
    destruct (oneOf _ _); [now apply onClose_PhaseInv|].
    destruct (oneOf _ _); [|exact Hp].
    timers_out.
    assert (Hp' : PhaseInv (set_timers pending s))
      by (split; cbn; [exact p1 | rewrite Hc; discriminate]).
    destruct (0 <? _)%nat; [|exact Hp']. apply resolve_PhaseInv; [exact Hc | exact Hp'].
  - destruct (existsb _ _) eqn:Ht; [|exact Hp].
    apply pending_timer in Ht.
    assert (Hc : closed s = false).
    { destruct (closed s); [|reflexivity]. destruct (f eq_refl) as [Hf _].
      rewrite Hf in Ht. destruct Ht. }
    destruct (resolver (set_timers (without timer (timers s)) s)) eqn:Hr.
    + unfold onResolve. apply resolve_PhaseInv; [exact Hc|].
      split; cbn; [exact p1 | rewrite Hc; discriminate].
    + split; cbn; [exact p1 | rewrite Hc; discriminate].
  - destruct (phase s) eqn:Hph; try exact Hp. unfold loop.
    destruct (CancellationToken.isCancellationRequested (token s)) eqn:Hk; split; cbn.
    + reflexivity.
    + discriminate.
    + intros Hr. specialize (p1 Hr). discriminate.
    + intros Hc. destruct (f Hc) as [_ Hk']. congruence.
Qed.

Lemma session_PhaseInv tasks token evs :
  PhaseInv (steps isTestFile evs (WatchService.new tasks token)).
Proof.
  assert (H : forall s, WatchInv (watchable isTestFile tasks) s -> PhaseInv s ->
              PhaseInv (steps isTestFile evs s)).
  { induction evs as [|ev evs IH]; intros s Hi Hp; [exact Hp|].
    change (steps isTestFile (ev :: evs) s) with (steps isTestFile evs (step isTestFile ev s)).
    apply IH.
    - apply step_WatchInv; [|exact Hi]. intros f Hf. unfold watchable. now rewrite Hf.
    - eapply step_PhaseInv; eauto. }
  apply H; [apply new_WatchInv|].
  unfold PhaseInv, WatchService.new. simpl.
  destruct (CancellationToken.isCancellationRequested token); simpl; split;
    congruence.
Qed.

(** A closed session yields nothing more, and its generator returns when
    it is asked for the next batch. *)
Lemma step_closed origin ev s :
  WatchInv origin s -> PhaseInv s -> closed s = true ->
  let s' := step isTestFile ev s in
  yielded s' = yielded s /\ closed s' = true /\
  (phase s = Returned \/ ev = Next -> phase s' = Returned).
Proof.
  intros (_ & _ & _ & _ & _ & g & f) [p1 p2] Hc. destruct (f Hc) as [Ht Hk].
  specialize (p2 Hc).
  destruct ev as [path | path | | chunk | timer |]; unfold step; cbn; rewrite ?Hc, ?Ht;
    try (repeat split; auto; intros [H | H]; [exact H | discriminate H]).
  destruct (phase s) eqn:Hph; [contradiction | | auto].
  unfold loop. rewrite Hk. cbn. auto.
Qed.

Lemma steps_closed origin evs s :
  (forall f, isTestFile f = true -> origin f = true) ->
  WatchInv origin s -> PhaseInv s -> closed s = true ->
  let s' := steps isTestFile evs s in
  yielded s' = yielded s /\ closed s' = true /\
  (phase s = Returned \/ In Next evs -> phase s' = Returned).
Proof.
  intros Ho. revert s. induction evs as [|ev evs IH]; intros s Hi Hp Hc; cbv zeta.
  - repeat split; auto. intros [H | []]. exact H.
  - change (steps isTestFile (ev :: evs) s) with (steps isTestFile evs (step isTestFile ev s)).
    destruct (step_closed origin ev s Hi Hp Hc) as (Hy & Hc1 & Hr1).
    destruct (IH (step isTestFile ev s)) as (Hy2 & Hc2 & Hr2);
      [now apply step_WatchInv | eapply step_PhaseInv; eauto | exact Hc1 |].
    split; [congruence|]. split; [exact Hc2|].
    intros [H | [H | H]]; apply Hr2; auto.
Qed.
End WatchStart.

Section WatchForgets.
Variable isTestFile : string -> bool.
Import WatchService.

Lemma resolve_watched value s : watchedTestFiles (resolve value s) = watchedTestFiles s.
Proof.
  unfold resolve, loop. destruct (negb (resolver s)), (phase s); simpl; auto;
    repeat (case_match; simpl; auto).
Qed.

(** [resolve] yields nothing, or the batch it is called with. *)
Lemma resolve_yielded value s :
  yielded (resolve value s) = yielded s \/ yielded (resolve value s) = yielded s ++ [value].
Proof.
  destruct (resolve_cases value s) as [-> | [(_ & _ & ->) | ->]]; [auto | auto |].
  left. unfold loop. now destruct (CancellationToken.isCancellationRequested (token s)).
Qed.

Lemma resolve_forgotten f value s before :
  yielded s = before ->
  Forgotten f s -> ~ In f (map filePath value) ->
  Forgotten f (resolve value s) /\
  exists batches, yielded (resolve value s) = before ++ batches /\
    List.Forall (fun batch => ~ In f (map filePath batch)) batches.
Proof.
  intros <- Hf Hv. split.
  - unfold Forgotten. rewrite resolve_watched. destruct (resolve_inv value s) as [-> _].
    exact Hf.
  - destruct (resolve_yielded value s) as [-> | ->].
    + exists []. rewrite app_nil_r. split; [reflexivity | constructor].
    + exists [value]. split; [reflexivity|]. constructor; [exact Hv | constructor].
Qed.

Lemma step_forgotten origin f ev s :
  WatchInv origin s -> Forgotten f s -> ev <> ChangedFile f ->
  Forgotten f (step isTestFile ev s) /\
  exists batches, yielded (step isTestFile ev s) = yielded s ++ batches /\
    List.Forall (fun batch => ~ In f (map filePath batch)) batches.
Proof.
  intros (a & b & c & d & _) Hf Hev. pose proof Hf as [f1 f2].
  assert (Hsame : Forgotten f s /\
    exists batches, yielded s = yielded s ++ batches /\
      List.Forall (fun batch => ~ In f (map filePath batch)) batches).
  { split; [exact Hf|]. exists []. rewrite app_nil_r. split; [reflexivity | constructor]. }
  assert (Hnew : forall s', changedTestFiles s' = changedTestFiles s ->
    watchedTestFiles s' = watchedTestFiles s -> Forgotten f s').
  { intros s' E1 E2. unfold Forgotten. now rewrite E1, E2. }
  assert (Hadd : forall task (m : list (string * Task)) path,
    path <> f -> ~ In f (map fst m) -> ~ In f (map fst (JsMap.set path task m))).
  { intros task m path Hne Hm Hin. apply JsMap_set_keys in Hin as [-> | Hin]; auto. }
  destruct ev as [path | path | | chunk | timer |]; unfold step.
  - destruct (closed s); [exact Hsame|].
    assert (Hne : path <> f) by (intros ->; now apply Hev).
    split; [|exists []; rewrite app_nil_r; split; [|constructor]].
    + unfold onChangedFile. timers_out. cbn.
      destruct (JsMap.get _ _); [|destruct (isTestFile _)]; split; cbn; auto.
    + unfold onChangedFile. timers_out. cbn.
      destruct (JsMap.get _ _); [|destruct (isTestFile _)]; reflexivity.
  - destruct (closed s); [exact Hsame|].
    split; [|exists []; rewrite app_nil_r; split; [|constructor]].
    + unfold onRemovedFile. timers_out. cbn.
      destruct (_ =? _)%nat; split; cbn; intros Hin; apply JsMap_delete_keys in Hin; auto.
    + unfold onRemovedFile. timers_out. cbn. destruct (_ =? _)%nat; reflexivity.
  - destruct (closed s); [exact Hsame|]. unfold onClose. timers_out.
    apply resolve_forgotten; [reflexivity | now apply Hnew | intros []].
  - destruct (closed s); [exact Hsame|]. unfold onInput, onClose. timers_out.
    destruct (oneOf _ _);
      [apply resolve_forgotten; [reflexivity | now apply Hnew | intros []]|].
    destruct (oneOf _ _); [|exact Hsame].
    destruct (0 <? _)%nat.
    + apply resolve_forgotten; [reflexivity | now apply Hnew|]. cbn.
      eapply values_absent; eauto.
    + split; [now apply Hnew|]. exists []. rewrite app_nil_r. split; [reflexivity | constructor].
  - destruct (existsb _ _); [|exact Hsame].
    destruct (resolver (set_timers (without timer (timers s)) s)).
    + unfold onResolve. apply resolve_forgotten.
      * reflexivity.
      * split; cbn; [intros [] | exact f2].
      * cbn. eapply values_absent; eauto.
    + split; [now apply Hnew|]. exists []. rewrite app_nil_r. split; [reflexivity | constructor].
  - destruct (phase s); try exact Hsame.
    split; [apply Hnew; unfold loop; now destruct (CancellationToken.isCancellationRequested _)|].
    exists []. rewrite app_nil_r. split; [|constructor].
    unfold loop. now destruct (CancellationToken.isCancellationRequested _).
Qed.

Lemma steps_forgotten origin f evs s :
  (forall g, isTestFile g = true -> origin g = true) ->
  WatchInv origin s -> Forgotten f s -> ~ In (ChangedFile f) evs ->
  exists batches, yielded (steps isTestFile evs s) = yielded s ++ batches /\
    List.Forall (fun batch => ~ In f (map filePath batch)) batches.
Proof.
  intros Ho. revert s. induction evs as [|ev evs IH]; intros s Hi Hf Hev.
  - exists []. rewrite app_nil_r. split; [reflexivity | constructor].
  - change (steps isTestFile (ev :: evs) s) with (steps isTestFile evs (step isTestFile ev s)).
    destruct (step_forgotten origin f ev s Hi Hf) as (Hf1 & b1 & Y1 & F1).
    { intros ->. apply Hev. now left. }
    destruct (IH (step isTestFile ev s)) as (b2 & Y2 & F2);
      [now apply step_WatchInv | exact Hf1 | intros Hin; apply Hev; now right |].
    exists (b1 ++ b2). rewrite Y2, Y1, <- app_assoc. split; [reflexivity|].
    apply List.Forall_app. auto.
Qed.

(** X9: the batches a watch session yields are proper. Whatever the
    callbacks of the watchers, of the input service and of the timer, and
    in whatever order, every batch the generator has yielded holds at
    least one task, holds no file twice, and holds only files the session
    was started with or files that [SelectService.isTestFile] accepts. *)
Theorem watch_batches_are_proper tasks token evs :
  let s := steps isTestFile evs (WatchService.new tasks token) in
  List.Forall (fun batch : list Task =>
            batch <> [] /\ List.NoDup (map filePath batch) /\
            List.Forall (fun task => watchable isTestFile tasks (filePath task) = true) batch)
         (yielded s).
Proof. cbv zeta. apply (session_WatchInv isTestFile tasks token evs). Qed.


(** X11: a removed file is not run again until it changes again. After
    the watcher reports that the file [f] was removed, no batch yielded
    before the next change notification for [f] holds a task for [f]:
    the removal takes [f] out of the pending changes and out of the
    watched files. *)
Theorem removed_file_is_not_run tasks token evs f evs' :
  let s := steps isTestFile evs (WatchService.new tasks token) in
  ~ In (ChangedFile f) evs' ->
  exists batches,
    yielded (steps isTestFile (RemovedFile f :: evs') s) = yielded s ++ batches /\
    List.Forall (fun batch => ~ In f (map filePath batch)) batches.
Proof.
  intros s Hev.
  assert (Ho : forall g, isTestFile g = true -> watchable isTestFile tasks g = true)
    by (intros g Hg; unfold watchable; now rewrite Hg).
  pose proof (session_WatchInv isTestFile tasks token evs) as Hi. fold s in Hi.
  destruct (closed s) eqn:Hc.
  { (* the watchers are closed: nothing is yielded *)
    destruct (steps_closed isTestFile (watchable isTestFile tasks) (RemovedFile f :: evs') s
                Ho Hi (session_PhaseInv isTestFile tasks token evs) Hc) as (Hy & _).
    exists []. rewrite app_nil_r. split; [exact Hy | constructor]. }
  change (steps isTestFile (RemovedFile f :: evs') s)
    with (steps isTestFile evs' (step isTestFile (RemovedFile f) s)).
  set (s1 := step isTestFile (RemovedFile f) s).
  assert (Hi1 : WatchInv (watchable isTestFile tasks) s1) by now apply step_WatchInv.
  assert (Hf1 : Forgotten f s1).
  { destruct Hi as (a & b & _). unfold s1, step. rewrite Hc. unfold onRemovedFile.
    timers_out. cbn.
    destruct (_ =? _)%nat; split; cbn; now apply JsMap_delete_absent. }
  assert (Hy1 : yielded s1 = yielded s).
  { unfold s1, step. rewrite Hc. unfold onRemovedFile. timers_out. cbn.
    now destruct (_ =? _)%nat. }
  destruct (steps_forgotten (watchable isTestFile tasks) f evs' s1 Ho Hi1 Hf1 Hev)
    as (batches & Y & F).
  exists batches. rewrite Y, Hy1. auto.
Qed.
End WatchForgets.

(** * The debounce of a watch session *)

Section Debounce.
Variable isTestFile : string -> bool.
Import WatchService.










End Debounce.

(** * Version *)

Lemma string_compare_refl s : String.compare s s = Eq.
Proof.
  induction s as [|c s IH]; simpl; [reflexivity|].
  assert (Hc : Ascii.compare c c = Eq) by (unfold Ascii.compare; apply N.compare_refl).
  now rewrite Hc.
Qed.

Lemma ltb_irrefl s : String.ltb s s = false.
Proof. unfold String.ltb. now rewrite string_compare_refl. Qed.

Lemma ltb_asym a b : String.ltb a b = true -> String.ltb b a = false.
Proof.
  unfold String.ltb. rewrite (String.compare_antisym a b).
  destruct (String.compare b a); simpl; congruence.
Qed.

Lemma ltb_total a b : String.ltb a b = false -> String.ltb b a = false -> a = b.
Proof.
  unfold String.ltb. rewrite (String.compare_antisym a b).
  destruct (String.compare b a) eqn:E; simpl; try congruence.
  intros _ _. symmetry. now apply String.compare_eq_iff.
Qed.

Section VersionFacts.
Import Version.

Lemma compare_connex s ss t ts : compare s ss t ts = true \/ compare t ts s ss = true.
Proof.
  revert s t ts. induction ss as [|s' ss IH]; intros s t ts.
  - simpl. destruct (String.ltb t s) eqn:E1; [now left|].
    destruct (String.ltb s t) eqn:E2; [right | now left].
    destruct ts; simpl; now rewrite E2.
  - simpl. destruct (String.ltb t s) eqn:E1; [now left|].
    destruct (String.ltb s t) eqn:E2.
    + right. destruct ts; simpl; now rewrite E2.
    + destruct ts as [|t' ts]; [now left|].
      destruct (IH s' t' ts) as [H | H]; [now left | right].
      simpl. now rewrite E2, E1.
Qed.

(** [compare] answers no when, at the first index at which the two
    arrays differ, the element of the source is the lower one, and this
    index is one both arrays have. *)
Lemma compare_spec s ss t ts :
  compare s ss t ts = false <->
  exists i x y,
    (s :: ss) !! i = Some x /\ (t :: ts) !! i = Some y /\
    (forall j, (j < i)%nat -> (s :: ss) !! j = (t :: ts) !! j) /\
    String.ltb x y = true.
Proof.
  revert s t ts. induction ss as [|s' ss IH]; intros s t ts.
  - simpl. destruct (String.ltb t s) eqn:E1.
    + split; [discriminate|]. intros (i & x & y & Hx & Hy & Hj & Hlt).
      destruct i as [|i]; simpl in *.
      * injection Hx as <-. injection Hy as <-. apply ltb_asym in Hlt. congruence.
      * discriminate Hx.
    + destruct (String.ltb s t) eqn:E2.
      * split; [intros _ | reflexivity]. exists 0%nat, s, t. simpl.
        repeat split; auto. intros j Hj. lia.
      * split; [destruct ts; discriminate|]. intros (i & x & y & Hx & Hy & Hj & Hlt).
        destruct i as [|i]; simpl in *; [|discriminate Hx].
        injection Hx as <-. injection Hy as <-. congruence.
  - simpl. destruct (String.ltb t s) eqn:E1.
    + split; [discriminate|]. intros (i & x & y & Hx & Hy & Hj & Hlt).
      destruct i as [|i]; simpl in *.
      * injection Hx as <-. injection Hy as <-. apply ltb_asym in Hlt. congruence.
      * specialize (Hj 0%nat ltac:(lia)). simpl in Hj. injection Hj as ->.
        rewrite ltb_irrefl in E1. discriminate.
    + destruct (String.ltb s t) eqn:E2.
      * split; [intros _ | reflexivity]. exists 0%nat, s, t. simpl.
        repeat split; auto. intros j Hj. lia.
      * pose proof (ltb_total _ _ E2 E1) as ->.
        destruct ts as [|t' ts].
        { split; [discriminate|]. intros (i & x & y & Hx & Hy & Hj & Hlt).
          destruct i as [|i]; simpl in *; [|discriminate Hy].
          injection Hx as <-. injection Hy as <-. congruence. }
        rewrite IH. split.
        { intros (i & x & y & Hx & Hy & Hj & Hlt). exists (S i), x, y.
          repeat split; auto. intros [|j] Hlt'; simpl; [reflexivity | apply Hj; lia]. }
        { intros (i & x & y & Hx & Hy & Hj & Hlt).
          destruct i as [|i]; simpl in *.
          - injection Hx as <-. injection Hy as <-. congruence.
          - exists i, x, y. repeat split; auto.
            intros j Hlt'. apply (Hj (S j)). lia. }
Qed.

(** X12: any two version strings are comparable. The source satisfies
    the target, or the target is greater than the source: [isSatisfiedWith]
    and [isGreaterThan] leave no pair of versions unordered. *)
Theorem versions_are_comparable source target :
  isSatisfiedWith source target = true \/ isGreaterThan target source = true.
Proof.
  unfold isSatisfiedWith, isGreaterThan, satisfies.
  destruct (String.eqb_spec source target) as [->|Hne]; [now left|].
  destruct (String.eqb_spec target source) as [->|_]; [contradiction|]. simpl.
  destruct (split source) as [s ss], (split target) as [t ts].
  apply compare_connex.
Qed.

(** X13: what [Version.#satisfies] decides. The source does not satisfy
    the target exactly when, at the first index at which the elements of
    the two versions differ, the element of the source is the lower
    string, this index being one both versions have. So a version
    satisfies every version whose elements are a prefix of its own, and
    the other way round. *)
Theorem satisfies_by_first_difference source target :
  satisfies source target = false <->
  exists i x y,
    elements source !! i = Some x /\ elements target !! i = Some y /\
    (forall j, (j < i)%nat -> elements source !! j = elements target !! j) /\
    String.ltb x y = true.
Proof.
  unfold satisfies, elements.
  destruct (split source) as [s ss], (split target) as [t ts].
  apply compare_spec.
Qed.
End VersionFacts.

(** * IdentifierLookup *)

Section LookupFacts.
Import IdentifierLookup.

Lemma addFlag_flagOf flags name : addFlag flags name = bitor flags (flagOf name) \/
                                  (addFlag flags name = flags /\ flagOf name = 0).
Proof.
  unfold addFlag, flagOf.
  repeat (destruct (String.eqb name _); [now left|]). now right.
Qed.

Lemma addFlag_testbit flags name i :
  0 <= i < 32 ->
  Z.testbit (addFlag flags name) i = Z.testbit flags i || Z.testbit (flagOf name) i.
Proof.
  intros Hi. destruct (addFlag_flagOf flags name) as [-> | [-> ->]].
  - now apply testbit_bitor.
  - rewrite Z.bits_0. now rewrite orb_false_r.
Qed.

Lemma addFlag_range flags name : 0 <= flags < 16 -> 0 <= addFlag flags name < 16.
Proof.
  intros H. unfold addFlag.
  assert (Hc : flags = 0 \/ flags = 1 \/ flags = 2 \/ flags = 3 \/ flags = 4 \/ flags = 5 \/
               flags = 6 \/ flags = 7 \/ flags = 8 \/ flags = 9 \/ flags = 10 \/ flags = 11 \/
               flags = 12 \/ flags = 13 \/ flags = 14 \/ flags = 15) by lia.
  repeat (destruct (String.eqb name _);
          [repeat (destruct Hc as [-> | Hc]; [vm_compute; split; congruence|]);
           subst; vm_compute; split; congruence|]).
  exact H.
Qed.

Lemma walk_flags namespace flags expression :
  0 <= flags < 16 ->
  let flags' := fst (walk namespace flags expression) in
  0 <= flags' < 16 /\
  forall i, 0 <= i < 32 ->
    Z.testbit flags' i =
    Z.testbit flags i ||
    existsb (fun name => Z.testbit (flagOf name) i) (modifiers namespace expression).
Proof.
  revert flags. induction expression as [inner IH name text | text]; intros flags Hf; simpl.
  - destruct (bool_decide _); simpl.
    + split; [exact Hf|]. intros i Hi. now rewrite orb_false_r.
    + destruct (IH (addFlag flags name) (addFlag_range flags name Hf)) as [Hr Hb].
      split; [exact Hr|]. intros i Hi. rewrite (Hb i Hi), addFlag_testbit by exact Hi.
      now rewrite orb_assoc.
  - split; [exact Hf|]. intros i Hi. now rewrite orb_false_r.
Qed.

(** X14: the flags of a test member are the flags its modifiers stand
    for, or-ed together. When [resolveTestMemberMeta] returns a brand and
    flags for a callee, the flags are a number from 0 to 15 whose bit for
    Fail, Only, Skip or Todo is set exactly when [fail], [only], [skip]
    or [todo] is among the names of the property accesses of the callee,
    up to the namespace of the import when there is one: the order of the
    modifiers and their repetition make no difference. *)
Theorem flags_are_the_modifiers this expression brand flags :
  resolveTestMemberMeta this expression = Some (brand, flags) ->
  0 <= flags < 16 /\
  forall i, 0 <= i < 32 ->
    Z.testbit flags i =
    existsb (fun name => Z.testbit (flagOf name) i) (modifiers (namespace this) expression).
Proof.
  unfold resolveTestMemberMeta. intros H.
  pose proof (walk_flags (namespace this) 0 expression ltac:(lia)) as Hw.
  destruct (walk (namespace this) 0 expression) as [flags' e']. simpl in Hw.
  assert (flags = flags') as ->.
  { repeat (case_match; try discriminate); injection H as _ <-; reflexivity. }
  destruct Hw as [Hr Hb]. split; [exact Hr|]. intros i Hi.
  rewrite (Hb i Hi). now rewrite Z.bits_0.
Qed.
End LookupFacts.

(** * SourceFile *)

Section LineMap.
Import SourceFile.

Lemma CR_is_not_LF text index : charIs text index CR = true -> charIs text index LF = false.
Proof.
  unfold charIs. destruct (charAt text index) as [c|]; [|discriminate].
  intros H. apply Ascii.eqb_eq in H as ->. reflexivity.
Qed.

Lemma charIs_inside text index c : charIs text index c = true -> 0 <= index.
Proof.
  unfold charIs, charAt. destruct (Z.ltb_spec index 0); [discriminate | lia].
Qed.

Lemma ascending_snoc l x : ascending l -> List.Forall (fun y => y < x) l -> ascending (l ++ [x]).
Proof.
  induction l as [|y l IH]; simpl; intros Hs Hf.
  - split; [constructor | exact I].
  - destruct Hs as [Hy Hs]. inversion Hf as [|? ? Hyx Hfl]; subst.
    split; [|now apply IH].
    apply List.Forall_app. split; [exact Hy|]. constructor; [exact Hyx | constructor].
Qed.

(** What the loop keeps: the line starts are in ascending order; each of
    them is 0 or follows a line feed and lies before the position the
    loop has reached; and each line feed the loop has passed has its line
    start. *)
Lemma createLineMap_loop_spec text fuel position result :
  (Z.to_nat (Z.of_nat (String.length text) - position) < fuel)%nat ->
  0 <= position <= Z.of_nat (String.length text) + 1 ->
  ascending result ->
  List.Forall (fun start => start = 0 \/ (start < position /\ charIs text (start - 1) LF = true))
    result ->
  (forall i, i + 1 < position -> charIs text i LF = true -> In (i + 1) result) ->
  exists rest final,
    createLineMap_loop fuel text position result = Some (result ++ rest ++ [final]) /\
    ascending (result ++ rest) /\
    List.Forall (fun start => start = 0 \/ (start < final /\ charIs text (start - 1) LF = true))
      (result ++ rest) /\
    (forall i, i + 1 < final -> charIs text i LF = true -> In (i + 1) (result ++ rest)) /\
    position <= final /\
    Z.of_nat (String.length text) <= final <= Z.of_nat (String.length text) + 1.
Proof.
  revert position result.
  induction fuel as [|fuel IH]; intros position result Hfuel Hp Hs Hf Hc; [lia|]. simpl.
  destruct (Z.ltb_spec position (Z.of_nat (String.length text))) as [Hlt | Hge].
  - destruct (charIs text (position - 1) CR) eqn:Hcr.
    + (* after a carriage return the next character is looked at *)
      pose proof (CR_is_not_LF _ _ Hcr) as Hnl.
      destruct (charIs text (position + 1 - 1) LF) eqn:Hlf.
      * destruct (IH (position + 1 + 1) (result ++ [position + 1]))
          as (rest & final & E & Hs' & Hf' & Hc' & Hle & Hlen).
        { lia. }
        { lia. }
        { apply ascending_snoc; [exact Hs|].
          eapply List.Forall_impl; [|exact Hf]. simpl. intros x [-> | [Hx _]]; lia. }
        { apply List.Forall_app. split.
          - eapply List.Forall_impl; [|exact Hf]. simpl.
            intros x [-> | [Hx Hxc]]; [now left | right; split; [lia | exact Hxc]].
          - constructor; [|constructor]. right. split; [lia | exact Hlf]. }
        { intros i Hi Hil. apply in_or_app.
          destruct (Z.eq_dec i position) as [->|Hne]; [right; now left|].
          destruct (Z.eq_dec i (position - 1)) as [->|Hne']; [congruence|].
          left. apply Hc; [lia | exact Hil]. }
        exists ((position + 1) :: rest), final. rewrite <- !app_assoc in *. simpl in *.
        repeat split; auto; lia.
      * destruct (IH (position + 1 + 1) result)
          as (rest & final & E & Hs' & Hf' & Hc' & Hle & Hlen).
        { lia. }
        { lia. }
        { exact Hs. }
        { eapply List.Forall_impl; [|exact Hf]. simpl.
          intros x [-> | [Hx Hxc]]; [now left | right; split; [lia | exact Hxc]]. }
        { intros i Hi Hil.
          destruct (Z.eq_dec i position) as [->|Hne];
            [replace (position + 1 - 1) with position in Hlf by lia; congruence|].
          destruct (Z.eq_dec i (position - 1)) as [->|Hne']; [congruence|].
          apply Hc; [lia | exact Hil]. }
        exists rest, final. repeat split; auto; lia.
    + destruct (charIs text (position - 1) LF) eqn:Hlf.
      * destruct (IH (position + 1) (result ++ [position]))
          as (rest & final & E & Hs' & Hf' & Hc' & Hle & Hlen).
        { lia. }
        { lia. }
        { apply ascending_snoc; [exact Hs|].
          pose proof (charIs_inside _ _ _ Hlf).
          eapply List.Forall_impl; [|exact Hf]. simpl. intros x [-> | [Hx _]]; lia. }
        { apply List.Forall_app. split.
          - eapply List.Forall_impl; [|exact Hf]. simpl.
            intros x [-> | [Hx Hxc]]; [now left | right; split; [lia | exact Hxc]].
          - constructor; [|constructor]. right. split; [lia | exact Hlf]. }
        { intros i Hi Hil. apply in_or_app.
          destruct (Z.eq_dec i (position - 1)) as [->|Hne].
          - right. left. lia.
          - left. apply Hc; [lia | exact Hil]. }
        exists (position :: rest), final. rewrite <- !app_assoc in *. simpl in *.
        repeat split; auto; lia.
      * destruct (IH (position + 1) result)
          as (rest & final & E & Hs' & Hf' & Hc' & Hle & Hlen).
        { lia. }
        { lia. }
        { exact Hs. }
        { eapply List.Forall_impl; [|exact Hf]. simpl.
          intros x [-> | [Hx Hxc]]; [now left | right; split; [lia | exact Hxc]]. }
        { intros i Hi Hil.
          destruct (Z.eq_dec i (position - 1)) as [->|Hne]; [congruence|].
          apply Hc; [lia | exact Hil]. }
        exists rest, final. repeat split; auto; lia.
  - exists [], position. rewrite app_nil_r. repeat split; auto; lia.
Qed.

Lemma createLineMap_shape text :
  exists starts final,
    createLineMap text = Some (0 :: starts ++ [final]) /\
    ascending (0 :: starts) /\
    List.Forall (fun start => start < final /\ charIs text (start - 1) LF = true) starts /\
    (forall i, i + 1 < Z.of_nat (String.length text) -> charIs text i LF = true ->
               In (i + 1) starts) /\
    Z.of_nat (String.length text) <= final <= Z.of_nat (String.length text) + 1.
Proof.
  destruct (createLineMap_loop_spec text (S (String.length text)) 0 [0])
    as (rest & final & E & Hs & Hf & Hc & _ & Hlen).
  - lia.
  - lia.
  - split; [constructor | exact I].
  - constructor; [now left | constructor].
  - intros i Hi Hil. apply charIs_inside in Hil. lia.
  - exists rest, final. split; [exact E|]. split; [exact Hs|]. simpl in Hs, Hf, Hc.
    destruct Hs as [Hpos _]. inversion Hf as [|? ? _ Hfr]; subst.
    split; [|split; [|exact Hlen]].
    + rewrite List.Forall_forall in *. intros x Hin.
      destruct (Hfr x Hin) as [-> | H]; [|exact H]. specialize (Hpos 0 Hin). lia.
    + intros i Hi Hil. destruct (Hc i ltac:(lia) Hil) as [H0 | Hin]; [|exact Hin].
      apply charIs_inside in Hil. lia.
Qed.

(** X15: the line map of a text. [#createLineMap] returns for every
    text. The line map starts with 0 and ends with the position after the
    loop, which is the length of the text or one more; the entries in
    between are the line starts: they are in ascending order, each lies
    right after a line feed, and every line feed that is not the last
    character of the text has its line start. *)
Theorem line_starts_follow_line_feeds text :
  exists starts final,
    createLineMap text = Some (0 :: starts ++ [final]) /\
    ascending (0 :: starts) /\
    List.Forall (fun start => start < final /\ charIs text (start - 1) LF = true) starts /\
    (forall i, i + 1 < Z.of_nat (String.length text) -> charIs text i LF = true ->
               In (i + 1) starts) /\
    Z.of_nat (String.length text) <= final <= Z.of_nat (String.length text) + 1.
Proof. exact (createLineMap_shape text). Qed.

Lemma ascending_lookup l i j a b :
  ascending l -> (i < j)%nat -> l !! i = Some a -> l !! j = Some b -> a < b.
Proof.
  revert i j. induction l as [|x l IH]; intros i j Hs Hij Ha Hb; [discriminate|].
  destruct Hs as [Hx Hs]. destruct j as [|j]; [lia|]. simpl in Hb.
  destruct i as [|i]; simpl in Ha.
  - injection Ha as <-. rewrite List.Forall_forall in Hx. apply Hx.
    eapply list_elem_of_In, list_elem_of_lookup_2; eauto.
  - eapply (IH i j); eauto. lia.
Qed.

(** The entries of a line map do not go down. *)
Lemma lineMap_sorted starts final i j a b :
  ascending (0 :: starts) -> List.Forall (fun start => start < final) starts -> 0 <= final ->
  (i <= j)%nat ->
  (0 :: starts ++ [final]) !! i = Some a -> (0 :: starts ++ [final]) !! j = Some b -> a <= b.
Proof.
  intros Hs Hf H0 Hij Ha Hb.
  destruct (Nat.eq_dec i j) as [->|Hne]; [rewrite Ha in Hb; injection Hb as ->; lia|].
  change (0 :: starts ++ [final]) with ((0 :: starts) ++ [final]) in *.
  assert (Hall : forall k x, (0 :: starts) !! k = Some x -> x <= final).
  { intros [|k] x Hk; simpl in Hk; [injection Hk as <-; exact H0|].
    rewrite List.Forall_forall in Hf. apply Z.lt_le_incl, Hf.
    eapply list_elem_of_In, list_elem_of_lookup_2; eauto. }
  pose proof (lookup_lt_Some _ _ _ Hb) as Hjlen. rewrite length_app in Hjlen.
  simpl in Hjlen.
  destruct (decide (j < S (length starts))%nat) as [Hjl | Hjl].
  - rewrite lookup_app_l in Ha, Hb by (simpl; lia).
    apply Z.lt_le_incl. eapply (ascending_lookup _ i j); eauto. lia.
  - rewrite (list_lookup_middle (0 :: starts) [] final j) in Hb by (simpl; lia).
    injection Hb as <-. rewrite lookup_app_l in Ha by (simpl; lia). eapply Hall; eauto.
Qed.

Lemma findLastIndex_from_spec {A} (p : A -> bool) l index found :
  let k := findLastIndex_from p index l found in
  (k = found /\ forall j y, l !! j = Some y -> p y = false) \/
  (index <= k /\ exists x,
     l !! Z.to_nat (k - index) = Some x /\ p x = true /\
     forall j y, (Z.to_nat (k - index) < j)%nat -> l !! j = Some y -> p y = false).
Proof.
  revert index found. induction l as [|x l IH]; intros index found; simpl.
  - left. split; [reflexivity | intros j y Hj; discriminate Hj].
  - destruct (IH (index + 1) (if p x then index else found)) as [[E Hall] | (Hk & y & Hy & Hp & Hl)].
    + rewrite E. destruct (p x) eqn:Hpx.
      * right. split; [lia|]. exists x. replace (index - index) with 0 by lia.
        split; [reflexivity|]. split; [exact Hpx|].
        intros [|j] z Hj Hz; [lia|]. simpl in Hz. eauto.
      * left. split; [reflexivity|]. intros [|j] z Hz; simpl in Hz; [congruence | eauto].
    + right. split; [lia|]. exists y.
      set (k := findLastIndex_from p (index + 1) l (if p x then index else found)) in *.
      replace (Z.to_nat (k - index)) with (S (Z.to_nat (k - (index + 1)))) by lia.
      split; [exact Hy|]. split; [exact Hp|].
      intros [|j] z Hj Hz; [lia|]. simpl in Hz. eapply Hl; [|exact Hz]. lia.
Qed.

(** X16: a position lies in its line. For a position that is not
    negative, [getLineAndCharacterOfPosition] over the line map of a text
    gives a line and a character that are not negative; the entry of the
    line map at the line is the position less the character; and the
    entries of the line map that are at most the position are the ones
    up to the line. *)
Theorem position_lies_in_its_line text lineMap position :
  createLineMap text = Some lineMap -> 0 <= position ->
  exists line character,
    getLineAndCharacterOfPosition lineMap position = (line, Some character) /\
    0 <= line /\ 0 <= character /\
    lineMap !! Z.to_nat line = Some (position - character) /\
    forall i start, lineMap !! i = Some start ->
                    (start <= position <-> Z.of_nat i <= line).
Proof.
  intros E Hp.
  destruct (createLineMap_shape text) as (starts & final & E' & Hs & Hf & _ & Hlen).
  rewrite E in E'. injection E' as ->.
  assert (Hf' : List.Forall (fun start => start < final) starts)
    by (eapply List.Forall_impl; [|exact Hf]; simpl; tauto).
  unfold getLineAndCharacterOfPosition, findLastIndex.
  set (l := 0 :: starts ++ [final]) in *.
  destruct (findLastIndex_from_spec (fun line => line <=? position) l 0 (-1))
    as [[_ Hall] | (Hk & x & Hx & Hpx & Hl)].
  { specialize (Hall 0%nat 0 eq_refl). simpl in Hall. apply Z.leb_gt in Hall. lia. }
  set (k := findLastIndex_from _ 0 l (-1)) in *.
  replace (k - 0) with k in * by lia. apply Z.leb_le in Hpx.
  exists k, (position - x).
  replace (k <? 0) with false by (symmetry; apply Z.ltb_ge; lia).
  rewrite Hx. simpl. split; [reflexivity|]. split; [exact Hk|]. split; [lia|].
  split; [f_equal; lia|].
  intros i start Hi. split.
  - intros Hle. destruct (decide (Z.to_nat k < i)%nat) as [Hlt|]; [|lia].
    specialize (Hl i start Hlt Hi). simpl in Hl. apply Z.leb_gt in Hl. lia.
  - intros Hik. assert (start <= x); [|lia].
    eapply (lineMap_sorted starts final i (Z.to_nat k)); eauto; lia.
Qed.
End LineMap.

(** * The status of a file *)

Lemma status_step ev h σ h1 σ1 k y :
  ResultHandler.handleEvent ev h σ = Some (h1, σ1) -> insideTask ev = true ->
  ResultHandler.taskResult h = Some k -> Store.tasks σ !! k = Some y ->
  ResultHandler.taskResult h1 = Some k /\
  exists y1, Store.tasks σ1 !! k = Some y1 /\
    is_failed (TaskResult.status y1) = is_failed (TaskResult.status y) || isTaskError ev.
Proof.
  intros H Hev Hk Hy. destruct h as [d ex p r g tk t]. simpl in Hk. subst tk.
  destruct ev; try discriminate Hev; handler_cases H; simpl;
    (split; [reflexivity|]);
    unfold ResultHandler.countExpect, ResultHandler.countTest;
    repeat case_match; simpl;
    rewrite ?list_lookup_alter_eq, ?Hy; simpl;
    (eexists; split; [reflexivity|]); simpl; rewrite ?orb_false_r, ?orb_true_r; reflexivity.
Qed.

Lemma status_level s evs s' k y :
  handles s evs s' -> forallb insideTask evs = true ->
  ResultHandler.taskResult (fst s) = Some k -> Store.tasks (snd s) !! k = Some y ->
  ResultHandler.taskResult (fst s') = Some k /\
  exists y', Store.tasks (snd s') !! k = Some y' /\
    is_failed (TaskResult.status y') = is_failed (TaskResult.status y) || existsb isTaskError evs.
Proof.
  intros H. revert y.
  induction H as [s | h σ σ' evs s Hg _ IH | h σ ev [h1 σ1] evs s Hev Hfresh _ IH];
    intros y Hin Hk Hy.
  - split; [exact Hk|]. exists y. split; [exact Hy|]. now rewrite orb_false_r.
  - simpl in *. destruct Hg as (_ & _ & Htasks & _).
    apply (IH y Hin Hk). eapply grows_lookup; eauto.
  - simpl in Hin. apply andb_true_iff in Hin as [Hev1 Hin]. simpl in *.
    destruct (status_step ev h σ h1 σ1 k y Hev Hev1 Hk Hy) as (Hk1 & y1 & Hy1 & E1).
    destruct (IH y1 Hin Hk1 Hy1) as (Hk' & y' & Hy' & E').
    split; [exact Hk'|]. exists y'. split; [exact Hy'|]. rewrite E', E1. now rewrite orb_assoc.
Qed.

Lemma failsTheFile_counts evs :
  existsb failsTheFile evs =
  existsb isTaskError evs || (0 <? count isExpectFailure evs)%nat
  || (0 <? count isTestFailure evs)%nat.
Proof.
  induction evs as [|ev evs IH]; [reflexivity|].
  simpl existsb. rewrite IH, !(count_cons _ ev evs). unfold failsTheFile.
  destruct (isTaskError ev), (isExpectFailure ev), (isTestFailure ev); simpl;
    rewrite ?orb_true_r; try reflexivity;
    destruct (existsb isTaskError evs); reflexivity.
Qed.

Lemma insideTask_walker ev : walkerEvent ev = true -> insideTask ev = true.
Proof. destruct ev; cbv; congruence. Qed.

Lemma notTaskStart_walker ev : walkerEvent ev = true -> negb (isTaskStart ev) = true.
Proof. destruct ev; cbv; congruence. Qed.

(** X17: what makes a file fail. A file that is run between the files of
    a target publishes the events of its project, [task:start], the events
    of its tree and [task:end]; its [TaskResult] then has the status
    failed when one of the events of the tree is [task:error],
    [expect:error], [expect:fail], [test:error] or [test:fail], and the
    status passed otherwise. *)
Theorem file_fails_by_its_events config compiler task r g w :
  Idle r g w ->
  CancellationToken.isCancellationRequested (cancellationToken w) = false ->
  exists w' pre k evs,
    TaskRunner_run config compiler task w = Some w' /\
    log w' = log w ++ pre ++ TaskStart k :: evs ++ [TaskEnd k] /\
    forallb projectEvent pre = true /\ forallb walkerEvent evs = true /\
    TaskResult.status <$> Store.tasks (heap w') !! k
      = Some (if existsb failsTheFile evs then Failed else Passed).
Proof.
  intros HI Hc.
  destruct (TaskRunner_run_total config compiler task r g w HI) as (w' & H & _).
  exists w'. pose proof H as Hrun. unfold TaskRunner_run in H. rewrite Hc in H.
  apply bind_Some in H as (w1 & E1 & H). apply bind_Some in H as (w2 & E2 & H).
  apply bind_Some in H as (w3 & E3 & H).
  set (k := length (Store.tasks (heap w1))) in *.
  (* [project:uses] and [project:error] *)
  apply openFile_traces in E1 as (pre & (L1 & _) & [P1 _] & _).
  (* [task:start] *)
  assert (H2 : log w2 = log w1 ++ [TaskStart k] /\
               ResultHandler.taskResult (resultHandler w2) = Some k /\
               Store.tasks (heap w2) !! k = Some (TaskResult.new (filePath task))).
  { unfold dispatch in E2. simpl in E2.
    destruct (ResultHandler.projectResult (resultHandler w1)); [|discriminate E2].
    simpl in E2. injection E2 as <-. simpl. repeat split. apply lookup_snoc. }
  destruct H2 as (L2 & K2 & Y2).
  (* the events of the tree *)
  pose proof (TaskRunner_run'_follows config _ _ _ _ _ E3) as (evs & L3 & Hh & _).
  pose proof (TaskRunner_run'_traces config _ _ _ _ _ E3) as (evs' & (L3' & _) & [P3 _] & _).
  assert (evs' = evs) by (rewrite L3 in L3'; now apply app_inv_head in L3'). subst evs'.
  pose proof (task_level _ _ _ Hh) as Hcount. simpl in Hcount. rewrite K2 in Hcount.
  destruct (Hcount ltac:(rewrite forallb_forall in *; auto using notTaskStart_walker) _ Y2)
    as (y & Hy & [Ce Ct]).
  destruct (status_level _ _ _ k _ Hh
              ltac:(rewrite forallb_forall in *; auto using insideTask_walker) K2 Y2)
    as (K3 & y' & Hy' & Es).
  simpl in K3, Hy'. rewrite Hy in Hy'. injection Hy' as <-.
  (* [task:end] *)
  exists pre, k, evs. split; [exact Hrun|].
  assert (L : log w' = log w3 ++ [TaskEnd k]).
  { unfold dispatch in H. destruct (ResultHandler.handleEvent _ _ _) as [[h σ]|];
      [|discriminate H]. now injection H as <-. }
  split; [rewrite L, L3, L2, L1, <- !app_assoc; reflexivity|].
  split; [exact P1|]. split; [exact P3|].
  rewrite failsTheFile_counts.
  unfold dispatch in H. unfold ResultHandler.handleEvent in H. rewrite K3 in H. simpl in H.
  rewrite Hy in H. simpl in H. rewrite Es, Ce, Ct in H. simpl in H.
  destruct (existsb isTaskError evs || (0 <? count isExpectFailure evs)%nat
            || (0 <? count isTestFailure evs)%nat).
  - destruct (ResultHandler.result (resultHandler w3)); [|discriminate H]. simpl in H.
    destruct (ResultHandler.targetResult (resultHandler w3)); [|discriminate H]. simpl in H.
    injection H as <-. simpl. rewrite list_lookup_alter_eq. simpl. now rewrite Hy.
  - destruct (ResultHandler.result (resultHandler w3)); [|discriminate H]. simpl in H.
    injection H as <-. simpl. rewrite list_lookup_alter_eq. simpl. now rewrite Hy.
Qed.

(** * Only, anywhere in a file *)

Lemma allMembers_eq m : allMembers m = m :: flat_map allMembers (members m).
Proof.
  destruct m as [d f ms n s | d f ms n s | d f ms n s a]; simpl; f_equal;
    induction ms as [|b ms IH]; simpl; congruence.
Qed.

Lemma hasOnly_member_eq m :
  hasOnly_member m = truthy (bitand (flags m) 2) || existsb hasOnly_member (members m).
Proof.
  destruct m as [d f ms n s | d f ms n s | d f ms n s a]; simpl; f_equal;
    induction ms as [|b ms IH]; simpl; congruence.
Qed.

Lemma hasOnly_member_spec m :
  hasOnly_member m = true <-> exists deep, In deep (allMembers m) /\ onlyFlag deep = true.
Proof.
  induction m as [d f ms n s IH | d f ms n s IH | d f ms n s a IH] using TestMember_tree_ind;
    rewrite hasOnly_member_eq, allMembers_eq, orb_true_iff, existsb_exists; simpl members;
    simpl flags; rewrite List.Forall_forall in IH;
    (split;
     [intros [Hf | (b & Hb & Hob)];
      [eexists; split; [left; reflexivity | exact Hf]
      |apply (IH b Hb) in Hob as (deep & Hd & Ho); exists deep; split; [|exact Ho];
       right; apply in_flat_map; eauto]
     |intros (deep & [<- | Hd] & Ho); [left; exact Ho|];
      apply in_flat_map in Hd as (b & Hb & Hd); right; exists b; split; [exact Hb|];
      apply (IH b Hb); eauto]).
Qed.

(** X18: an Only flag anywhere in a file prunes the file. [TestTree.hasOnly]
    holds exactly when some member of the tree, at any depth, has the Only
    flag; and the walker that [TaskRunner] makes for such a tree skips
    every member whose resolved run mode has no Only bit. *)
Theorem only_anywhere_prunes config ms position k :
  let this := new_TestTreeWorker config (hasOnly ms) position k in
  (hasOnly ms = true <->
   exists top deep, In top ms /\ In deep (allMembers top) /\ onlyFlag deep = true) /\
  (hasOnly ms = true ->
   forall mode m,
     truthy (bitand (resolveRunMode this mode m) 2) = false ->
     isSkipped this (resolveRunMode this mode m) = true).
Proof.
  cbv zeta. split.
  - unfold hasOnly. rewrite existsb_exists. split.
    + intros (top & Ht & Ho). apply hasOnly_member_spec in Ho as (deep & Hd & Ho). eauto.
    + intros (top & deep & Ht & Hd & Ho). exists top. split; [exact Ht|].
      apply hasOnly_member_spec. eauto.
  - intros Ho mode m Hm. unfold isSkipped. rewrite Hm.
    unfold new_TestTreeWorker. cbn [worker_hasOnly]. rewrite Ho.
    cbn [orb andb negb]. apply orb_true_r.
Qed.

(** * EventEmitter *)

Section SetFacts.




End SetFacts.

Section EmitterFacts.
Import EventEmitter.


End EmitterFacts.

(** * CommandLineOptionsWorker *)

Section CommandLineFacts.
Import CommandLine.
Variable check : string -> string -> list Diagnostic.
Variable Path_resolve : string -> string.
Variable Path_normalizeSlashes : string -> string.

Lemma quietly_refl st : quietly st st.
Proof. now split. Qed.

Lemma quietly_trans st1 st2 st3 : quietly st1 st2 -> quietly st2 st3 -> quietly st1 st3.
Proof. intros [a b] [c d]. split; congruence. Qed.

Lemma validate_quietly optionName optionValue st :
  quietly st (validate check optionName optionValue st).
Proof.
  split; [reflexivity|]. simpl. rewrite List.filter_app.
  induction (check optionName optionValue) as [|d ds IH]; simpl in *;
    [apply app_nil_r | exact IH].
Qed.

Lemma setOption_quietly optionName v st : quietly st (setOption optionName v st).
Proof. now split. Qed.

Lemma expectsValue_quietly optionName st :
  quietly st (onDiagnostics [ExpectsValue optionName] st).
Proof. split; [reflexivity|]. simpl. rewrite List.filter_app. simpl. apply app_nil_r. Qed.

Lemma validate_all_quietly optionName values st :
  quietly st (fold_left (fun st value => validate check optionName value st) values st).
Proof.
  revert st. induction values as [|v values IH]; intros st; simpl; [apply quietly_refl|].
  eapply quietly_trans; [apply validate_quietly | apply IH].
Qed.

Lemma resolveOptionValue_value next :
  resolveOptionValue next <> EmptyString ->
  exists v, next = Some v /\ startsWith v "-" = false /\ resolveOptionValue next = v.
Proof.
  destruct next as [v|]; simpl; [|congruence].
  destruct (startsWith v "-") eqn:E; [congruence|]. eauto.
Qed.

Lemma parseOptionValue_spec next definition st :
  let '(moved, st1) := parseOptionValue check Path_resolve next definition st in
  quietly st st1 /\
  (moved = true -> exists v, next = Some v /\ startsWith v "-" = false).
Proof.
  unfold parseOptionValue. destruct (brand definition).
  - split; [|discriminate].
    eapply quietly_trans; [apply validate_quietly | apply setOption_quietly].
  - split; [eapply quietly_trans; [apply validate_quietly | apply setOption_quietly]|].
    intros Hm. destruct (resolveOptionValue_value next) as (v & Hv & Hd & _); [|eauto].
    intros E. rewrite E in Hm. discriminate Hm.
  - destruct (String.eqb_spec (resolveOptionValue next) "") as [E | E]; simpl.
    + split; [apply expectsValue_quietly | discriminate].
    + split; [eapply quietly_trans; [apply validate_all_quietly | apply setOption_quietly]|].
      intros _. destruct (resolveOptionValue_value next E) as (v & Hv & Hd & _). eauto.
  - destruct (String.eqb_spec (resolveOptionValue next) "") as [E | E]; simpl.
    + split; [apply expectsValue_quietly | discriminate].
    + split; [eapply quietly_trans; [apply validate_quietly | apply setOption_quietly]|].
      intros _. destruct (resolveOptionValue_value next E) as (v & Hv & Hd & _). eauto.
Qed.

Lemma startsWith_dashes arg : startsWith arg "--" = true -> startsWith arg "-" = true.
Proof.
  unfold startsWith. rewrite !String.prefix_correct.
  destruct arg as [|c [|c' arg]]; simpl; try discriminate. now intros [= -> ->].
Qed.

Lemma parseArg_spec arg next st :
  let '(moved, st1) := CommandLine.parseArg check Path_resolve Path_normalizeSlashes arg next st in
  List.filter isUnknownOption (diagnostics st1)
    = List.filter isUnknownOption (diagnostics st)
      ++ (if unknownDash arg then [UnknownOption arg] else []) /\
  pathMatch st1
    = pathMatch st ++ (if startsWith arg "-" then [] else [Path_normalizeSlashes arg]) /\
  (moved = true -> exists v, next = Some v /\ startsWith v "-" = false).
Proof.
  unfold CommandLine.parseArg, unknownDash.
  destruct (startsWith arg "--") eqn:E2.
  - rewrite (startsWith_dashes arg E2).
    destruct (JsMap.get (slice2 arg) (definitionsFor 2)) as [definition|] eqn:Eg.
    + rewrite bool_decide_eq_true_2 by eauto. cbn [andb negb].
      pose proof (parseOptionValue_spec next definition st) as H.
      destruct (parseOptionValue check Path_resolve next definition st) as [moved st1].
      destruct H as [[Hp Hd] Hm]. rewrite Hp, Hd, !app_nil_r. auto.
    + rewrite bool_decide_eq_false_2 by (intros [x Hx]; discriminate Hx). cbn [andb negb].
      cbn [diagnostics pathMatch onDiagnostics]. rewrite List.filter_app, app_nil_r.
      split; [reflexivity|]. split; [reflexivity | discriminate].
  - cbn [andb negb]. destruct (startsWith arg "-") eqn:E1; cbn [andb].
    + cbn [diagnostics pathMatch onDiagnostics]. rewrite List.filter_app, app_nil_r.
      split; [reflexivity|]. split; [reflexivity | discriminate].
    + cbn [diagnostics pathMatch pushPathMatch]. rewrite app_nil_r.
      split; [reflexivity|]. split; [reflexivity | discriminate].
Qed.

Lemma unknownDash_value v : startsWith v "-" = false -> unknownDash v = false.
Proof. unfold unknownDash. now intros ->. Qed.

Lemma parse_spec n args st :
  (length args <= n)%nat ->
  List.filter isUnknownOption (diagnostics (CommandLine.parse check Path_resolve Path_normalizeSlashes args st))
    = List.filter isUnknownOption (diagnostics st)
      ++ map UnknownOption (List.filter unknownDash args) /\
  exists extra,
    pathMatch (CommandLine.parse check Path_resolve Path_normalizeSlashes args st) = pathMatch st ++ map Path_normalizeSlashes extra /\
    List.Forall (fun arg => In arg args /\ startsWith arg "-" = false) extra.
Proof.
  revert args st. induction n as [|n IH]; intros args st Hn.
  { destruct args; [|simpl in Hn; lia]. simpl. rewrite !app_nil_r.
    split; [reflexivity|]. exists []. rewrite app_nil_r. split; [reflexivity | constructor]. }
  destruct args as [|arg rest].
  { simpl. rewrite !app_nil_r.
    split; [reflexivity|]. exists []. rewrite app_nil_r. split; [reflexivity | constructor]. }
  simpl CommandLine.parse. pose proof (parseArg_spec arg (head rest) st) as H.
  destruct (CommandLine.parseArg check Path_resolve Path_normalizeSlashes arg (head rest) st) as [moved st1]. destruct H as (Hd & Hp & Hm).
  set (own := if startsWith arg "-" then [] else [arg]).
  assert (Hown : List.Forall (fun a => In a (arg :: rest) /\ startsWith a "-" = false) own).
  { unfold own. destruct (startsWith arg "-") eqn:E; constructor; [|constructor].
    split; [now left | exact E]. }
  assert (Hp' : pathMatch st1 = pathMatch st ++ map Path_normalizeSlashes own).
  { rewrite Hp. unfold own. now destruct (startsWith arg "-"). }
  assert (Hd' : forall tail,
    (List.filter isUnknownOption (diagnostics st)
     ++ (if unknownDash arg then [UnknownOption arg] else []))
    ++ map UnknownOption tail
    = List.filter isUnknownOption (diagnostics st)
      ++ map UnknownOption ((if unknownDash arg then [arg] else []) ++ tail)).
  { intros tail. rewrite <- app_assoc. f_equal. now destruct (unknownDash arg). }
  assert (Hgo : forall args',
    (length args' <= n)%nat ->
    List.filter unknownDash (arg :: rest)
      = (if unknownDash arg then [arg] else []) ++ List.filter unknownDash args' ->
    (forall a, In a args' -> In a (arg :: rest)) ->
    List.filter isUnknownOption (diagnostics (CommandLine.parse check Path_resolve Path_normalizeSlashes args' st1))
      = List.filter isUnknownOption (diagnostics st)
        ++ map UnknownOption (List.filter unknownDash (arg :: rest)) /\
    exists extra,
      pathMatch (CommandLine.parse check Path_resolve Path_normalizeSlashes args' st1) = pathMatch st ++ map Path_normalizeSlashes extra /\
      List.Forall (fun a => In a (arg :: rest) /\ startsWith a "-" = false) extra).
  { intros args' Hlen Hf Hin.
    destruct (IH args' st1 Hlen) as (Hd1 & extra & Hp1 & He1).
    split; [rewrite Hd1, Hd, Hd', Hf; reflexivity|].
    exists (own ++ extra). rewrite Hp1, Hp', map_app, app_assoc. split; [reflexivity|].
    apply List.Forall_app. split; [exact Hown|].
    eapply List.Forall_impl; [|exact He1]. simpl. intros a [Ha Hs].
    split; [apply Hin; exact Ha | exact Hs]. }
  destruct rest as [|v rest'].
  - apply (Hgo []); [simpl; lia | | intros a []].
    simpl. destruct (unknownDash arg); reflexivity.
  - destruct moved.
    + destruct (Hm eq_refl) as (v' & Hv & Hdash). simpl in Hv. injection Hv as <-.
      apply (Hgo rest'); [simpl in Hn; lia | | intros a Ha; right; now right].
      simpl. rewrite (unknownDash_value v Hdash). now destruct (unknownDash arg).
    + apply (Hgo (v :: rest')); [simpl in *; lia | | intros a Ha; now right].
      simpl. now destruct (unknownDash arg).
Qed.

(** ** What [parse] does with an argument that starts with a dash *)

Lemma JsMap_get_set_cases {V : Type} (k k' : string) (v : V) m :
  JsMap.get k (JsMap.set k' v m) = if decide (k' = k) then Some v else JsMap.get k m.
Proof.
  induction m as [|[k0 v0] m IH]; simpl.
  - reflexivity.
  - destruct (decide (k0 = k')) as [->|Hne]; simpl.
    + destruct (decide (k' = k)); reflexivity.
    + destruct (decide (k0 = k)) as [->|Hne'].
      * destruct (decide (k' = k)); [congruence | reflexivity].
      * exact IH.
Qed.

(** The loop of [parse], one round at a time. *)
Lemma parse_step arg rest st :
  CommandLine.parse check Path_resolve Path_normalizeSlashes (arg :: rest) st =
  let '(moved, st1) :=
    CommandLine.parseArg check Path_resolve Path_normalizeSlashes arg (head rest) st in
  CommandLine.parse check Path_resolve Path_normalizeSlashes
    (if moved then tail rest else rest) st1.
Proof.
  simpl. destruct (CommandLine.parseArg _ _ _ arg (head rest) st) as [moved st1].
  destruct rest as [|v rest']; [now destruct moved|]. now destruct moved.
Qed.

(** An argument that starts with a dash is read as no argument. *)
Lemma resolveOptionValue_dash value :
  startsWith value "-" = true -> resolveOptionValue (Some value) = resolveOptionValue None.
Proof. intros H. simpl. now rewrite H. Qed.

Lemma parseArg_dash arg value st :
  startsWith value "-" = true ->
  CommandLine.parseArg check Path_resolve Path_normalizeSlashes arg (Some value) st =
  CommandLine.parseArg check Path_resolve Path_normalizeSlashes arg None st.
Proof.
  intros H. unfold CommandLine.parseArg, parseOptionValue.
  rewrite (resolveOptionValue_dash value H). reflexivity.
Qed.

Lemma parseArg_alone arg st :
  fst (CommandLine.parseArg check Path_resolve Path_normalizeSlashes arg None st) = false.
Proof.
  pose proof (parseArg_spec arg None st) as H.
  destruct (CommandLine.parseArg _ _ _ arg None st) as [moved st1]. simpl.
  destruct H as (_ & _ & Hm). destruct moved; [|reflexivity].
  destruct (Hm eq_refl) as (v & Hv & _). discriminate Hv.
Qed.

Lemma parse_dash arg value rest st :
  startsWith value "-" = true ->
  CommandLine.parse check Path_resolve Path_normalizeSlashes (arg :: value :: rest) st =
  CommandLine.parse check Path_resolve Path_normalizeSlashes (value :: rest)
    (snd (CommandLine.parseArg check Path_resolve Path_normalizeSlashes arg None st)).
Proof.
  intros H. rewrite parse_step. cbn [head]. rewrite (parseArg_dash arg value st H).
  pose proof (parseArg_alone arg st) as Hm.
  destruct (CommandLine.parseArg _ _ _ arg None st) as [moved st1]. simpl in Hm. subst moved.
  reflexivity.
Qed.

(** What holds of a state and is kept by every round holds after [parse]. *)
Lemma parse_invariant (I : State -> Prop) (commandLineArgs : list string) :
  (forall arg next st,
     I st -> In arg commandLineArgs -> (forall v, next = Some v -> In v commandLineArgs) ->
     I (snd (CommandLine.parseArg check Path_resolve Path_normalizeSlashes arg next st))) ->
  forall n args st,
    (length args <= n)%nat -> incl args commandLineArgs -> I st ->
    I (CommandLine.parse check Path_resolve Path_normalizeSlashes args st).
Proof.
  intros Hround. induction n as [|n IH]; intros args st Hn Hin Hst.
  { destruct args; [exact Hst | simpl in Hn; lia]. }
  destruct args as [|arg rest]; [exact Hst|]. rewrite parse_step.
  assert (H1 : I (snd (CommandLine.parseArg check Path_resolve Path_normalizeSlashes
                         arg (head rest) st))).
  { apply Hround; [exact Hst | apply Hin; now left|].
    intros v Hv. apply Hin. right. destruct rest; [discriminate Hv|].
    injection Hv as ->. now left. }
  destruct (CommandLine.parseArg _ _ _ arg (head rest) st) as [moved st1]. simpl in H1.
  apply IH; [| |exact H1].
  - simpl in Hn. destruct moved, rest; simpl in *; lia.
  - intros a Ha. apply Hin. right. destruct moved; [|exact Ha].
    destruct rest; [destruct Ha | now right].
Qed.

Lemma validate_all_options optionName values st :
  commandLineOptions (fold_left (fun st value => validate check optionName value st) values st)
  = commandLineOptions st.
Proof.
  revert st. induction values as [|v values IH]; intros st; simpl; [reflexivity|].
  now rewrite IH.
Qed.

Lemma setOption_from commandLineArgs st st1 optionName v :
  optionsFrom Path_resolve commandLineArgs st st1 -> readFrom Path_resolve commandLineArgs v ->
  forall st2, commandLineOptions st2 = JsMap.set optionName v (commandLineOptions st1) ->
  optionsFrom Path_resolve commandLineArgs st st2.
Proof.
  intros H Hv st2 E name v' Hg. rewrite E, JsMap_get_set_cases in Hg.
  destruct (decide (optionName = name)); [injection Hg as <-; now right | now apply H].
Qed.

Lemma kept_from commandLineArgs st st1 st2 :
  optionsFrom Path_resolve commandLineArgs st st1 -> commandLineOptions st2 = commandLineOptions st1 ->
  optionsFrom Path_resolve commandLineArgs st st2.
Proof. intros H E name v Hg. rewrite E in Hg. now apply H. Qed.

Lemma parseArg_from commandLineArgs st arg next st1 :
  optionsFrom Path_resolve commandLineArgs st st1 -> In arg commandLineArgs ->
  (forall v, next = Some v -> In v commandLineArgs) ->
  optionsFrom Path_resolve commandLineArgs st
    (snd (CommandLine.parseArg check Path_resolve Path_normalizeSlashes arg next st1)).
Proof.
  intros H _ Hnext. unfold CommandLine.parseArg.
  destruct (startsWith arg "--");
    [|destruct (startsWith arg "-"); simpl; eapply kept_from; eauto].
  destruct (JsMap.get (slice2 arg) (definitionsFor 2)) as [definition|];
    [|simpl; eapply kept_from; eauto].
  unfold parseOptionValue. destruct (brand definition).
  - simpl. eapply setOption_from; [exact H | | reflexivity]. simpl. discriminate.
  - simpl. eapply setOption_from; [exact H | | reflexivity]. simpl. intros Hb.
    apply negb_false_iff, String.eqb_eq in Hb.
    destruct (resolveOptionValue_value next) as (v & Hv & _ & E); [rewrite Hb; discriminate|].
    apply Hnext. rewrite Hv. f_equal. congruence.
  - destruct (String.eqb_spec (resolveOptionValue next) "") as [E | E]; simpl;
      [eapply kept_from; eauto|].
    destruct (resolveOptionValue_value next E) as (v & Hv & Hd & ->).
    eapply setOption_from; [exact H | | simpl; rewrite validate_all_options; reflexivity].
    simpl. exists v. auto.
  - destruct (String.eqb_spec (resolveOptionValue next) "") as [E | E]; simpl;
      [eapply kept_from; eauto|].
    destruct (resolveOptionValue_value next E) as (v & Hv & Hd & ->).
    eapply setOption_from; [exact H | | reflexivity].
    simpl. exists v. destruct (String.eqb (name definition) "config"); auto.
Qed.

Lemma keeps_trans st1 st2 st3 : keeps st1 st2 -> keeps st2 st3 -> keeps st1 st3.
Proof. intros H1 H2 name H. auto. Qed.

Lemma onDiagnostics_keeps ds st : keeps st (onDiagnostics ds st).
Proof. intros name [H | H]; [now left | right]. simpl. apply in_or_app. now left. Qed.

Lemma setOption_keeps optionName v st : keeps st (setOption optionName v st).
Proof.
  intros name [H | H]; [left | now right]. simpl. rewrite JsMap_get_set_cases.
  destruct (decide (optionName = name)); [eauto | exact H].
Qed.

Lemma validate_all_keeps optionName values st :
  keeps st (fold_left (fun st value => validate check optionName value st) values st).
Proof.
  revert st. induction values as [|v values IH]; intros st; simpl; [now intros ?|].
  eapply keeps_trans; [apply onDiagnostics_keeps | apply IH].
Qed.

Lemma setOption_handled optionName v st : handled optionName (setOption optionName v st).
Proof. left. simpl. rewrite JsMap_get_set_cases. rewrite decide_True by reflexivity. eauto. Qed.

Lemma parseOptionValue_handles next definition st :
  let st1 := snd (parseOptionValue check Path_resolve next definition st) in
  keeps st st1 /\ handled (name definition) st1.
Proof.
  unfold parseOptionValue. destruct (brand definition).
  - simpl. split; [|apply setOption_handled].
    eapply keeps_trans; [apply onDiagnostics_keeps | apply setOption_keeps].
  - simpl. split; [|apply setOption_handled].
    eapply keeps_trans; [apply onDiagnostics_keeps | apply setOption_keeps].
  - destruct (negb _); simpl.
    + split; [|apply setOption_handled].
      eapply keeps_trans; [apply validate_all_keeps | apply setOption_keeps].
    + split; [apply onDiagnostics_keeps|]. right. simpl. apply in_or_app. right. now left.
  - destruct (negb _); simpl.
    + split; [|apply setOption_handled].
      eapply keeps_trans; [apply onDiagnostics_keeps | apply setOption_keeps].
    + split; [apply onDiagnostics_keeps|]. right. simpl. apply in_or_app. right. now left.
Qed.

Lemma parseArg_keeps arg next st :
  keeps st (snd (CommandLine.parseArg check Path_resolve Path_normalizeSlashes arg next st)).
Proof.
  unfold CommandLine.parseArg. destruct (startsWith arg "--").
  - destruct (JsMap.get _ _) as [definition|]; [|apply onDiagnostics_keeps].
    apply parseOptionValue_handles.
  - destruct (startsWith arg "-"); [apply onDiagnostics_keeps|]. intros name H. exact H.
Qed.

Lemma parse_keeps args st :
  keeps st (CommandLine.parse check Path_resolve Path_normalizeSlashes args st).
Proof.
  intros name H.
  apply (parse_invariant (handled name) args) with (n := length args);
    [|lia | intros a Ha; exact Ha | exact H].
  intros arg next st0 H0 _ _. now apply parseArg_keeps.
Qed.

Lemma parse_handles n args st arg definition :
  (length args <= n)%nat ->
  In arg args -> startsWith arg "--" = true ->
  JsMap.get (slice2 arg) (definitionsFor 2) = Some definition ->
  handled (name definition)
    (CommandLine.parse check Path_resolve Path_normalizeSlashes args st).
Proof.
  revert args st. induction n as [|n IH]; intros args st Hn Hin Hs Hg.
  { destruct args; [destruct Hin | simpl in Hn; lia]. }
  destruct args as [|arg0 rest]; [destruct Hin|]. rewrite parse_step.
  pose proof (parseArg_spec arg0 (head rest) st) as Hspec.
  assert (Hown : arg0 = arg ->
    handled (name definition)
      (snd (CommandLine.parseArg check Path_resolve Path_normalizeSlashes arg0 (head rest) st))).
  { intros ->. unfold CommandLine.parseArg. rewrite Hs, Hg. apply parseOptionValue_handles. }
  destruct (CommandLine.parseArg _ _ _ arg0 (head rest) st) as [moved st1].
  destruct Hspec as (_ & _ & Hm). simpl in Hown.
  destruct Hin as [E | Hin]; [now apply parse_keeps, Hown|].
  apply IH; [simpl in Hn; destruct moved, rest; simpl in *; lia | | exact Hs | exact Hg].
  destruct moved; [|exact Hin].
  destruct (Hm eq_refl) as (v & Hv & Hd). destruct rest as [|v' rest']; [destruct Hin|].
  simpl in Hv. injection Hv as ->. destruct Hin as [<- | Hin]; [|exact Hin].
  apply startsWith_dashes in Hs. congruence.
Qed.

(** X20: an argument that starts with a dash is never taken for a value.
    After [parse], the [unknownOption] diagnostics that were added are
    those of the arguments that start with a dash and name no option of
    the command line, one for each such argument and in their order; and
    the path matches that were added are arguments that do not start with
    a dash, run through [Path.normalizeSlashes]. An argument that is
    followed by one that starts with a dash is parsed as if it were the
    last one, and the argument after it is parsed in its own round; so
    every argument that names an option is handled as that option: the
    option is given a value, or [expectsValue] is reported for it. And
    the strings and lists that [parse] gives to options are read from
    arguments that do not start with a dash. *)
Theorem dash_arguments_are_options commandLineArgs st :
  let parse := CommandLine.parse check Path_resolve Path_normalizeSlashes in
  let st' := parse commandLineArgs st in
  List.filter isUnknownOption (diagnostics st')
    = List.filter isUnknownOption (diagnostics st)
      ++ map UnknownOption (List.filter unknownDash commandLineArgs) /\
  (exists extra,
     pathMatch st' = pathMatch st ++ map Path_normalizeSlashes extra /\
     List.Forall (fun arg => In arg commandLineArgs /\ startsWith arg "-" = false) extra) /\
  (forall arg value rest st0,
     startsWith value "-" = true ->
     parse (arg :: value :: rest) st0
     = parse (value :: rest)
         (snd (CommandLine.parseArg check Path_resolve Path_normalizeSlashes arg None st0))) /\
  (forall arg definition,
     In arg commandLineArgs -> startsWith arg "--" = true ->
     JsMap.get (slice2 arg) (definitionsFor 2) = Some definition ->
     handled (name definition) st') /\
  (forall optionName v,
     JsMap.get optionName (commandLineOptions st') = Some v ->
     JsMap.get optionName (commandLineOptions st) = Some v \/
     readFrom Path_resolve commandLineArgs v).
Proof.
  cbv zeta. destruct (parse_spec (length commandLineArgs) commandLineArgs st (le_n _))
    as [Hd Hp].
  split; [exact Hd|]. split; [exact Hp|]. split; [|split].
  - intros arg value rest st0. apply parse_dash.
  - intros arg definition. apply (parse_handles (length commandLineArgs)). lia.
  - apply (parse_invariant (optionsFrom Path_resolve commandLineArgs st) commandLineArgs)
      with (n := length commandLineArgs); [|lia | intros a Ha; exact Ha | now left].
    intros arg next st1. apply parseArg_from.
Qed.
End CommandLineFacts.

(** * Manifest *)

Section JsMapOther.
Context {K V : Type} `{EqDecision K}.

Lemma JsMap_get_set_other (k k' : K) (v : V) m :
  k <> k' -> JsMap.get k (JsMap.set k' v m) = JsMap.get k m.
Proof.
  intros Hne. induction m as [|[k0 v0] m IH]; simpl.
  - destruct (decide (k' = k)); [congruence | reflexivity].
  - destruct (decide (k0 = k')) as [->|Hne']; simpl.
    + destruct (decide (k' = k)); [congruence | reflexivity].
    + destruct (decide (k0 = k)); [reflexivity | exact IH].
Qed.
End JsMapOther.

Section ManifestFacts.
Import Manifest.

Lemma isSupported_length tag : isSupported tag = true -> String.length tag = 5%nat.
Proof.
  destruct tag as [|a [|b [|c [|d [|e [|f tag]]]]]]; simpl; try discriminate. reflexivity.
Qed.

Lemma minorOf_length version :
  isSupported version = true -> String.length (minorOf version) = 3%nat.
Proof.
  destruct version as [|a [|b [|c [|d [|e [|f tag]]]]]]; simpl; try discriminate. reflexivity.
Qed.

Lemma minorOf_prefix version :
  isSupported version = true -> startsWith version (minorOf version) = true.
Proof.
  intros H. unfold startsWith. apply String.prefix_correct.
  destruct version as [|a [|b [|c [|d [|e [|f tag]]]]]]; simpl in *; try discriminate.
  reflexivity.
Qed.

Lemma unique_In_acc xs seen x :
  In x (fold_left (fun seen x => if existsb (String.eqb x) seen then seen else seen ++ [x])
          xs seen) <-> In x seen \/ In x xs.
Proof.
  revert seen. induction xs as [|y xs IH]; intros seen; simpl; [tauto|].
  rewrite IH. destruct (existsb (String.eqb y) seen) eqn:E.
  - apply existsb_exists in E as (z & Hz & Hyz). apply String.eqb_eq in Hyz. subst z.
    split; [tauto|]. intros [H | [<- | H]]; auto.
  - rewrite in_app_iff. simpl. tauto.
Qed.

Lemma unique_In xs x : In x (unique xs) <-> In x xs.
Proof. unfold unique. rewrite unique_In_acc. simpl. tauto. Qed.

(** What the loop over the minor versions leaves for a tag: the last
    version that starts with it, when the tag is one of them. *)
Lemma minor_loop (versions tags : list string) (resolutions : list (string * string))
    (tag : string) :
  JsMap.get tag
    (fold_left (fun resolutions tag =>
                  match findLast (fun version => startsWith version tag) versions with
                  | Some resolvedVersion => JsMap.set tag resolvedVersion resolutions
                  | None => resolutions
                  end) tags resolutions)
  = if existsb (String.eqb tag) tags
    then match findLast (fun version => startsWith version tag) versions with
         | Some resolvedVersion => Some resolvedVersion
         | None => JsMap.get tag resolutions
         end
    else JsMap.get tag resolutions.
Proof.
  revert resolutions. induction tags as [|t tags IH]; intros resolutions; simpl; [reflexivity|].
  rewrite IH. destruct (String.eqb_spec tag t) as [->|Hne]; simpl.
  - destruct (findLast (fun version => startsWith version t) versions) as [v|] eqn:E.
    + rewrite JsMap_get_set. now destruct (existsb _ tags).
    + now destruct (existsb _ tags).
  - destruct (existsb (String.eqb tag) tags);
      destruct (findLast (fun version => startsWith version t) versions);
      rewrite ?JsMap_get_set_other by exact Hne; reflexivity.
Qed.

Lemma distTags_loop (distTags resolutions : list (string * string)) (tags : list string)
    (tag : string) :
  ~ In tag tags ->
  JsMap.get tag
    (fold_left (fun resolutions tag =>
                  match JsMap.get tag distTags with
                  | Some version => JsMap.set tag version resolutions
                  | None => resolutions
                  end) tags resolutions)
  = JsMap.get tag resolutions.
Proof.
  revert resolutions. induction tags as [|t tags IH]; intros resolutions Hin; simpl;
    [reflexivity|].
  rewrite IH by (intros H; apply Hin; now right).
  destruct (JsMap.get t distTags); [|reflexivity].
  apply JsMap_get_set_other. intros ->. apply Hin. now left.
Qed.

Lemma findLast_spec {A} (p : A -> bool) l x :
  findLast p l = Some x ->
  p x = true /\ exists before after,
    l = before ++ x :: after /\ List.Forall (fun y => p y = false) after.
Proof.
  unfold findLast. intros H.
  assert (G : forall l' y, List.find p l' = Some y ->
            p y = true /\ exists a b, l' = a ++ y :: b /\ List.Forall (fun z => p z = false) a).
  { clear. induction l' as [|z l' IH]; intros y Hy; simpl in Hy; [discriminate|].
    destruct (p z) eqn:Ez.
    - injection Hy as <-. split; [exact Ez|]. exists [], l'. split; [reflexivity | constructor].
    - destruct (IH y Hy) as (Hp & a & b & -> & Ha). split; [exact Hp|].
      exists (z :: a), b. split; [reflexivity | constructor; assumption]. }
  destruct (G _ _ H) as (Hp & a & b & E & Ha). split; [exact Hp|].
  exists (rev b), (rev a). split.
  - rewrite <- (rev_involutive l), E, rev_app_distr. simpl. now rewrite <- app_assoc.
  - apply List.Forall_rev. exact Ha.
Qed.

Lemma findLast_some {A} (p : A -> bool) l x :
  In x l -> p x = true -> is_Some (findLast p l).
Proof.
  intros Hin Hp. unfold findLast.
  destruct (List.find p (rev l)) as [y|] eqn:E; [eauto|].
  exfalso. apply in_rev in Hin. pose proof (List.find_none _ _ E x Hin). congruence.
Qed.

(** X21: what a minor version resolves to. In the manifest that
    [ManifestService.#load] makes, the supported versions are those of
    the form [4.x.y] and [5.x.y] with single digits; and for each of them
    the tag of its minor version (the version without its last two
    characters) resolves to a supported version that starts with the tag
    and is the last such version in the order of the metadata. What it
    resolves to resolves to itself. *)
Theorem minor_version_resolves_to_its_last_patch packageVersions distTags version :
  let manifest := load packageVersions distTags in
  In version (versions manifest) ->
  exists resolved before after,
    resolve (minorOf version) manifest = Some resolved /\
    versions manifest = before ++ resolved :: after /\
    startsWith resolved (minorOf version) = true /\
    List.Forall (fun later => startsWith later (minorOf version) = false) after /\
    resolve resolved manifest = Some resolved.
Proof.
  intros manifest Hin. unfold manifest in *. simpl in Hin.
  set (vs := List.filter isSupported packageVersions) in *.
  assert (Hs : isSupported version = true) by (apply filter_In in Hin; tauto).
  set (tag := minorOf version).
  assert (Hfind : is_Some (findLast (fun v => startsWith v tag) vs)).
  { apply (findLast_some _ vs version Hin). now apply minorOf_prefix. }
  destruct Hfind as [resolved Hfind].
  destruct (findLast_spec _ _ _ Hfind) as (Hp & before & after & E & Hafter).
  exists resolved, before, after.
  assert (Hnot : existsb (String.eqb tag) vs = false).
  { destruct (existsb (String.eqb tag) vs) eqn:Ex; [|reflexivity].
    apply existsb_exists in Ex as (v & Hv & Hvt). apply String.eqb_eq in Hvt. subst v.
    apply filter_In in Hv as [_ Hv]. apply isSupported_length in Hv.
    pose proof (minorOf_length version Hs). unfold tag in Hv. lia. }
  assert (Hres : In resolved vs) by (rewrite E; apply in_or_app; right; now left).
  split; [|split; [exact E | split; [exact Hp | split; [exact Hafter|]]]].
  - unfold resolve, load. cbv zeta. cbn [versions resolutions]. fold vs. rewrite Hnot.
    rewrite distTags_loop, minor_loop.
    + replace (existsb (String.eqb tag) (unique (map minorOf vs))) with true.
      * now rewrite Hfind.
      * symmetry. apply existsb_exists. exists tag. split; [|apply String.eqb_refl].
        apply unique_In, in_map. exact Hin.
    + pose proof (minorOf_length version Hs) as Hl. fold tag in Hl.
      intros [H | [H | [H | [H | []]]]]; rewrite <- H in Hl; simpl in Hl; lia.
  - unfold resolve, load. cbv zeta. cbn [versions resolutions]. fold vs.
    replace (existsb (String.eqb resolved) vs) with true; [reflexivity|].
    symmetry. apply existsb_exists. exists resolved. split; [exact Hres | apply String.eqb_refl].
Qed.
End ManifestFacts.

(** * JsonScanner *)

Section Strings.
Local Open Scope string_scope.

Lemma sapp_cons x (a b : string) : String x a ++ b = String x (a ++ b).
Proof. reflexivity. Qed.

Lemma sapp_nil_l (b : string) : "" ++ b = b.
Proof. reflexivity. Qed.

Lemma sapp_assoc (a b c : string) : (a ++ b) ++ c = a ++ (b ++ c).
Proof.
  induction a as [|x a IH]; [reflexivity|]. rewrite !sapp_cons. now rewrite IH.
Qed.

Lemma sapp_nil_r (a : string) : a ++ "" = a.
Proof. induction a as [|x a IH]; [reflexivity|]. rewrite sapp_cons. now rewrite IH. Qed.

Lemma length_sapp (a b : string) :
  String.length (a ++ b) = (String.length a + String.length b)%nat.
Proof.
  induction a as [|x a IH]; [reflexivity|]. rewrite sapp_cons. simpl. now rewrite IH.
Qed.

Lemma sapp_eq_nil (a b : string) : a ++ b = "" -> a = "" /\ b = "".
Proof.
  destruct a; [intros H; split; [reflexivity | exact H]|]. rewrite sapp_cons. discriminate.
Qed.
End Strings.

Ltac sapp := repeat (progress rewrite ?sapp_assoc, ?sapp_cons, ?sapp_nil_l, ?sapp_nil_r).

Section Scanner.
Import RegExp JsonNode JsonScanner.

Variable Number : Type.
Variable parseFloat : string -> Number.

Lemma get_inside text n : (n < String.length text)%nat -> exists c, String.get n text = Some c.
Proof.
  revert n. induction text as [|a text IH]; simpl; intros n H; [lia|].
  destruct n as [|n]; [eauto|]. apply IH. lia.
Qed.

Lemma get_outside text n : (String.length text <= n)%nat -> String.get n text = None.
Proof.
  revert n. induction text as [|a text IH]; simpl; intros n H; [reflexivity|].
  destruct n as [|n]; [lia|]. apply IH. lia.
Qed.

Lemma charAt_inside text i :
  0 <= i < Z.of_nat (String.length text) -> exists c, SourceFile.charAt text i = Some c.
Proof.
  intros H. unfold SourceFile.charAt.
  destruct (Z.ltb_spec i 0); [lia|]. apply get_inside. lia.
Qed.

Lemma charAt_outside text i :
  Z.of_nat (String.length text) <= i -> SourceFile.charAt text i = None.
Proof.
  intros H. unfold SourceFile.charAt.
  destruct (Z.ltb_spec i 0); [reflexivity|]. apply get_outside. lia.
Qed.

Lemma charAt_some text i c :
  SourceFile.charAt text i = Some c -> 0 <= i < Z.of_nat (String.length text).
Proof.
  intros H.
  destruct (Z.ltb_spec i 0) as [Hn | Hn].
  - unfold SourceFile.charAt in H. destruct (Z.ltb_spec i 0); [discriminate | lia].
  - destruct (Z.ltb_spec i (Z.of_nat (String.length text))) as [Hl | Hl]; [lia|].
    rewrite charAt_outside in H by exact Hl. discriminate.
Qed.

Lemma textOf_is character c :
  String.eqb (textOf character) (String c EmptyString) = true -> character = Some c.
Proof.
  destruct character as [x|]; unfold textOf; intros H; apply String.eqb_eq in H; congruence.
Qed.

Lemma Ahead_refl s :
  currentPosition s <= Z.of_nat (String.length (sourceFile s)) -> Ahead s s.
Proof. unfold Ahead. intros H. repeat split; lia. Qed.

Lemma Ahead_trans s1 s2 s3 : Ahead s1 s2 -> Ahead s2 s3 -> Ahead s1 s3.
Proof.
  unfold Ahead. intros (a1 & a2 & a3) (b1 & b2 & b3). rewrite a1 in *.
  repeat split; try congruence; lia.
Qed.

Lemma Ahead_move n s :
  0 <= n -> currentPosition s + n <= Z.of_nat (String.length (sourceFile s)) ->
  Ahead s (move n s).
Proof. unfold Ahead. intros H1 H2. simpl. repeat split; lia. Qed.

Lemma isRead_false s :
  isRead s = false -> currentPosition s < Z.of_nat (String.length (sourceFile s)).
Proof. unfold isRead. destruct (Z.ltb_spec (currentPosition s) (Z.of_nat (String.length (sourceFile s)))); [lia | discriminate]. Qed.

Lemma isRead_true s :
  isRead s = true -> Z.of_nat (String.length (sourceFile s)) <= currentPosition s.
Proof. unfold isRead. destruct (Z.ltb_spec (currentPosition s) (Z.of_nat (String.length (sourceFile s)))); [discriminate | lia]. Qed.

Lemma skipLineComment_ahead fuel s :
  Z.of_nat (String.length (sourceFile s)) - currentPosition s < Z.of_nat fuel ->
  currentPosition s <= Z.of_nat (String.length (sourceFile s)) ->
  exists s', skipLineComment fuel s = Some s' /\ Ahead s s'.
Proof.
  revert s. induction fuel as [|fuel IH]; intros s Hfuel Hin; [lia|]. simpl.
  destruct (isRead s) eqn:Hr.
  - exists s. split; [reflexivity | now apply Ahead_refl].
  - apply isRead_false in Hr.
    destruct (String.eqb (textOf (peekCharacter s)) (String SourceFile.LF EmptyString)).
    + exists (move 1 s). split; [reflexivity | apply Ahead_move; lia].
    + destruct (IH (move 1 s)) as (s' & E & A); [simpl; lia | simpl; lia |].
      exists s'. split; [exact E|].
      eapply Ahead_trans; [|exact A]. apply Ahead_move; lia.
Qed.

Lemma peek_is s c :
  String.eqb (textOf (peekCharacter s)) (String c EmptyString) = true ->
  0 <= currentPosition s < Z.of_nat (String.length (sourceFile s)).
Proof. intros H. apply textOf_is in H. exact (charAt_some _ _ _ H). Qed.

Lemma peekNext_is s c :
  String.eqb (textOf (peekNextCharacter s)) (String c EmptyString) = true ->
  0 <= currentPosition s + 1 < Z.of_nat (String.length (sourceFile s)).
Proof. intros H. apply textOf_is in H. exact (charAt_some _ _ _ H). Qed.

Lemma skipBlockComment_ahead fuel s :
  Z.of_nat (String.length (sourceFile s)) - currentPosition s < Z.of_nat fuel ->
  currentPosition s <= Z.of_nat (String.length (sourceFile s)) ->
  exists s', skipBlockComment fuel s = Some s' /\ Ahead s s'.
Proof.
  revert s. induction fuel as [|fuel IH]; intros s Hfuel Hin; [lia|]. simpl.
  destruct (isRead s) eqn:Hr.
  - exists s. split; [reflexivity | now apply Ahead_refl].
  - apply isRead_false in Hr.
    destruct (String.eqb (textOf (peekCharacter s)) "*") eqn:E1;
      [destruct (String.eqb (textOf (peekNextCharacter s)) "/") eqn:E2|]; simpl.
    + apply peekNext_is in E2.
      exists (move 2 s). split; [reflexivity | apply Ahead_move; lia].
    + destruct (IH (move 1 s)) as (s' & E & A); [simpl; lia | simpl; lia |].
      exists s'. split; [exact E|].
      eapply Ahead_trans; [|exact A]. apply Ahead_move; lia.
    + destruct (IH (move 1 s)) as (s' & E & A); [simpl; lia | simpl; lia |].
      exists s'. split; [exact E|].
      eapply Ahead_trans; [|exact A]. apply Ahead_move; lia.
Qed.

Lemma skipTrivia_loop_spec fuel s :
  Z.of_nat (String.length (sourceFile s)) - currentPosition s < Z.of_nat fuel ->
  currentPosition s <= Z.of_nat (String.length (sourceFile s)) ->
  exists s', skipTrivia_loop fuel s = Some s' /\ Ahead s s' /\ atToken s' /\
             (atToken s -> s' = s).
Proof.
  revert s. induction fuel as [|fuel IH]; intros s Hfuel Hin; [lia|]. cbn [skipTrivia_loop].
  destruct (isRead s) eqn:Hr.
  { apply isRead_true in Hr. exists s.
    split; [reflexivity|]. split; [now apply Ahead_refl|].
    split; [|reflexivity].
    unfold atToken, atComment, peekCharacter.
    rewrite charAt_outside by lia. split; reflexivity. }
  apply isRead_false in Hr.
  destruct (test whiteSpace (peekCharacter s)) eqn:Hw.
  { destruct (IH (move 1 s)) as (s' & E & A & T & _); [simpl; lia | simpl; lia |].
    exists s'. split; [exact E|]. split.
    - eapply Ahead_trans; [|exact A]. apply Ahead_move; lia.
    - split; [exact T|]. intros [Hw' _]. congruence. }
  destruct (String.eqb (textOf (peekCharacter s)) "/") eqn:Hs.
  2: { exists s. split; [reflexivity|]. split; [apply Ahead_refl; lia|].
       split; [|reflexivity]. unfold atToken, atComment. rewrite Hs. split; [exact Hw | reflexivity]. }
  destruct (String.eqb (textOf (peekNextCharacter s)) "/") eqn:Hl.
  { pose proof (peekNext_is _ _ Hl) as Hn.
    destruct (skipLineComment_ahead (fuelOf s) (move 2 s)) as (s1 & E1 & A1);
      [unfold fuelOf; simpl; lia | simpl; lia |].
    rewrite E1.
    assert (A0 : Ahead s s1).
    { eapply Ahead_trans; [|exact A1]. apply Ahead_move; lia. }
    destruct A1 as (a1 & a2 & a3). simpl in a1, a2, a3.
    destruct (IH s1) as (s' & E & A & T & _); [rewrite a1; lia | rewrite a1; lia |].
    exists s'. split; [exact E|]. split; [eapply Ahead_trans; eassumption|].
    split; [exact T|]. intros [_ Hc]. unfold atComment in Hc. rewrite Hs, Hl in Hc. discriminate. }
  destruct (String.eqb (textOf (peekNextCharacter s)) "*") eqn:Hb.
  { pose proof (peekNext_is _ _ Hb) as Hn.
    destruct (skipBlockComment_ahead (fuelOf s) (move 2 s)) as (s1 & E1 & A1);
      [unfold fuelOf; simpl; lia | simpl; lia |].
    rewrite E1.
    assert (A0 : Ahead s s1).
    { eapply Ahead_trans; [|exact A1]. apply Ahead_move; lia. }
    destruct A1 as (a1 & a2 & a3). simpl in a1, a2, a3.
    destruct (IH s1) as (s' & E & A & T & _); [rewrite a1; lia | rewrite a1; lia |].
    exists s'. split; [exact E|]. split; [eapply Ahead_trans; eassumption|].
    split; [exact T|]. intros [_ Hc]. unfold atComment in Hc. rewrite Hs, Hb in Hc.
    rewrite orb_true_r in Hc. discriminate. }
  exists s. split; [reflexivity|]. split; [apply Ahead_refl; lia|].
  split; [|reflexivity]. unfold atToken, atComment. rewrite Hs, Hl, Hb. split; [exact Hw | reflexivity].
Qed.

Local Open Scope string_scope.

Lemma At_cast s before before' after :
  At s before after -> before = before' -> At s before' after.
Proof. now intros H <-. Qed.

Lemma At_peek s before after k :
  At s before after ->
  SourceFile.charAt (sourceFile s) (currentPosition s + Z.of_nat k) = String.get k after.
Proof.
  intros [E P]. rewrite E, P. unfold SourceFile.charAt.
  destruct (Z.ltb_spec (Z.of_nat (String.length before) + Z.of_nat k) 0); [lia|].
  replace (Z.to_nat (Z.of_nat (String.length before) + Z.of_nat k))
    with (k + String.length before)%nat by lia.
  symmetry. apply String.append_correct2.
Qed.

Lemma At_peekCharacter s before after :
  At s before after -> peekCharacter s = String.get 0 after.
Proof.
  intros H. unfold peekCharacter. rewrite <- (At_peek s before after 0 H).
  f_equal. simpl. lia.
Qed.

Lemma At_peekNextCharacter s before after :
  At s before after -> peekNextCharacter s = String.get 1 after.
Proof. intros H. unfold peekNextCharacter. now rewrite <- (At_peek s before after 1 H). Qed.

Lemma At_isRead s before after :
  At s before after ->
  isRead s = match after with EmptyString => true | String _ _ => false end.
Proof.
  intros [E P]. unfold isRead. rewrite E, P, length_sapp.
  destruct after as [|c after]; simpl.
  - destruct (Z.ltb_spec (Z.of_nat (String.length before)) (Z.of_nat (String.length before + 0)));
      [lia | reflexivity].
  - destruct (Z.ltb_spec (Z.of_nat (String.length before))
                (Z.of_nat (String.length before + S (String.length after))));
      [reflexivity | lia].
Qed.

Lemma At_move s before taken after :
  At s before (taken ++ after) ->
  At (move (Z.of_nat (String.length taken)) s) (before ++ taken) after.
Proof.
  intros [E P]. split; simpl.
  - rewrite E. now rewrite sapp_assoc.
  - rewrite P, length_sapp. lia.
Qed.

Lemma At_move1 s before c after :
  At s before (String c after) -> At (move 1 s) (before ++ String c "") after.
Proof. intros H. exact (At_move s before (String c "") after H). Qed.

Lemma At_move2 s before c d after :
  At s before (String c (String d after)) ->
  At (move 2 s) (before ++ String c (String d "")) after.
Proof. intros H. exact (At_move s before (String c (String d "")) after H). Qed.

Lemma At_fuel s before after : At s before after -> (String.length after < fuelOf s)%nat.
Proof. intros [E _]. unfold fuelOf. rewrite E, length_sapp. lia. Qed.

Lemma At_ahead s before after :
  At s before after -> currentPosition s <= Z.of_nat (String.length (sourceFile s)).
Proof. intros [E P]. rewrite E, P, length_sapp. lia. Qed.

Lemma At_same s s' before before' after after' :
  At s before after -> At s' before' after' -> sourceFile s' = sourceFile s ->
  currentPosition s' = currentPosition s -> before' = before /\ after' = after.
Proof.
  intros [E P] [E' P'] Hs Hp. rewrite E, E' in Hs. rewrite P, P' in Hp.
  assert (Hl : String.length before' = String.length before) by lia. clear - Hs Hl.
  revert before Hs Hl. induction before' as [|x b' IH]; intros [|y b]; simpl; intros Hs Hl;
    try discriminate; [auto|].
  rewrite !sapp_cons in Hs. injection Hs as -> Hs. destruct (IH b Hs) as [-> ->]; [lia | auto].
Qed.

Lemma textOf_eqb character c :
  String.eqb (textOf character) (String c "") =
  match character with Some x => Ascii.eqb x c | None => false end.
Proof.
  destruct character as [x|]; [|reflexivity]. unfold textOf.
  destruct (Ascii.eqb_spec x c) as [-> | N].
  - apply String.eqb_refl.
  - apply String.eqb_neq. congruence.
Qed.

(** The loop over a line comment stops behind the first line feed, or
    at the end of the text. *)
Lemma skipLineComment_view fuel s before after :
  At s before after -> (String.length after < fuel)%nat ->
  exists s', skipLineComment fuel s = Some s' /\ previousPosition s' = previousPosition s /\
    ((exists body rest,
        after = body ++ String SourceFile.LF rest /\
        free (Ascii.eqb SourceFile.LF) body = true /\
        At s' (before ++ body ++ String SourceFile.LF "") rest) \/
     (free (Ascii.eqb SourceFile.LF) after = true /\ At s' (before ++ after) "")).
Proof.
  revert s before after. induction fuel as [|fuel IH]; intros s before after H Hfuel; [lia|].
  cbn [skipLineComment]. rewrite (At_isRead _ _ _ H).
  destruct after as [|c after].
  { exists s. split; [reflexivity|]. split; [reflexivity|]. right.
    split; [reflexivity|]. now rewrite sapp_nil_r. }
  unfold readCharacter. rewrite textOf_eqb, (At_peekCharacter _ _ _ H). simpl String.get; cbv beta iota.
  destruct (Ascii.eqb_spec c SourceFile.LF) as [-> | N].
  { exists (move 1 s). split; [reflexivity|]. split; [reflexivity|]. left.
    exists "", after. split; [reflexivity|]. split; [reflexivity|].
    exact (At_move1 _ _ _ _ H). }
  destruct (IH (move 1 s) _ _ (At_move1 _ _ _ _ H)) as (s' & E & P & R); [simpl in Hfuel; lia|].
  exists s'. split; [exact E|]. split; [exact P|].
  destruct R as [(body & rest & -> & F & A) | (F & A)].
  - left. exists (String c body), rest. split; [reflexivity|]. split.
    + cbn [free]. rewrite F. destruct (Ascii.eqb_spec SourceFile.LF c); [congruence | reflexivity].
    + eapply At_cast; [exact A|]. now sapp.
  - right. split.
    + cbn [free]. rewrite F. destruct (Ascii.eqb_spec SourceFile.LF c); [congruence | reflexivity].
    + eapply At_cast; [exact A|]. now sapp.
Qed.

(** The loop over a block comment stops behind the first end of a
    comment, or at the end of the text. *)
Lemma skipBlockComment_view fuel s before after :
  At s before after -> (String.length after < fuel)%nat ->
  exists s', skipBlockComment fuel s = Some s' /\ previousPosition s' = previousPosition s /\
    ((exists body rest,
        after = body ++ "*/" ++ rest /\ unclosed body = true /\
        At s' (before ++ body ++ "*/") rest) \/
     (unclosed after = true /\ At s' (before ++ after) "")).
Proof.
  revert s before after. induction fuel as [|fuel IH]; intros s before after H Hfuel; [lia|].
  cbn [skipBlockComment]. rewrite (At_isRead _ _ _ H).
  destruct after as [|c after].
  { exists s. split; [reflexivity|]. split; [reflexivity|]. right.
    split; [reflexivity|]. now rewrite sapp_nil_r. }
  rewrite !textOf_eqb, (At_peekCharacter _ _ _ H), (At_peekNextCharacter _ _ _ H).
  simpl String.get; cbv beta iota.
  change (match String.get 0 after with Some x => Ascii.eqb x "/" | None => false end)
    with (test (fun d => Ascii.eqb d "/") (String.get 0 after)).
  destruct (Ascii.eqb c "*" && test (fun d => Ascii.eqb d "/") (String.get 0 after)) eqn:Hc.
  { apply andb_true_iff in Hc as [Hc1 Hc2]. apply Ascii.eqb_eq in Hc1 as ->.
    destruct after as [|d after]; [discriminate|].
    cbn [String.get test] in Hc2. apply Ascii.eqb_eq in Hc2 as ->.
    exists (move 2 s). split; [reflexivity|]. split; [reflexivity|]. left.
    exists "", after. split; [reflexivity|]. split; [reflexivity|].
    exact (At_move2 _ _ _ _ _ H). }
  destruct (IH (move 1 s) _ _ (At_move1 _ _ _ _ H)) as (s' & E & P & R); [simpl in Hfuel; lia|].
  exists s'. split; [exact E|]. split; [exact P|].
  destruct R as [(body & rest & -> & F & A) | (F & A)].
  - left. exists (String c body), rest. split; [reflexivity|]. split.
    + cbn [unclosed]. rewrite F, andb_true_r.
      apply andb_false_iff in Hc as [Hc | Hc]; [now rewrite Hc|].
      destruct body as [|d body]; [now rewrite andb_false_r|].
      rewrite sapp_cons in Hc. cbn [String.get test] in Hc |- *. rewrite Hc.
      now rewrite andb_false_r.
    + eapply At_cast; [exact A|]. now sapp.
  - right. split.
    + cbn [unclosed]. rewrite F, andb_true_r, Hc. reflexivity.
    + eapply At_cast; [exact A|]. now sapp.
Qed.

Lemma skipTrivia_loop_view fuel s before after :
  At s before after -> (String.length after < fuel)%nat ->
  exists skipped rest o s',
    after = skipped ++ rest /\ Trivia o skipped /\ (o = true -> rest = "") /\
    skipTrivia_loop fuel s = Some s' /\ At s' (before ++ skipped) rest /\
    previousPosition s' = previousPosition s.
Proof.
  revert s before after. induction fuel as [|fuel IH]; intros s before after H Hfuel; [lia|].
  cbn [skipTrivia_loop]. rewrite (At_isRead _ _ _ H).
  destruct after as [|c after].
  { exists "", "", false, s. split; [reflexivity|]. split; [constructor|].
    split; [discriminate|]. split; [reflexivity|]. split; [now sapp | reflexivity]. }
  assert (Stay : exists skipped rest o s',
    String c after = skipped ++ rest /\ Trivia o skipped /\ (o = true -> rest = "") /\
    Some s = Some s' /\ At s' (before ++ skipped) rest /\
    previousPosition s' = previousPosition s).
  { exists "", (String c after), false, s. split; [reflexivity|]. split; [constructor|].
    split; [discriminate|]. split; [reflexivity|]. split; [now sapp | reflexivity]. }
  rewrite !textOf_eqb, (At_peekCharacter _ _ _ H), (At_peekNextCharacter _ _ _ H).
  cbn [String.get test]; cbv beta iota.
  destruct (whiteSpace c) eqn:Hw.
  { destruct (IH (move 1 s) _ _ (At_move1 _ _ _ _ H))
      as (skipped & rest & o & s' & -> & T & O & E & A & P); [simpl in Hfuel; lia|].
    exists (String c skipped), rest, o, s'. split; [reflexivity|].
    split; [now constructor|]. split; [exact O|]. split; [exact E|].
    split; [|exact P]. eapply At_cast; [exact A|]. now sapp. }
  destruct (Ascii.eqb_spec c "/") as [-> | N]; [|exact Stay].
  destruct after as [|d after]; [exact Stay|]. cbn [String.get]; cbv beta iota.
  destruct (Ascii.eqb_spec d "/") as [-> | Nl].
  { pose proof (At_fuel _ _ _ H) as Hf. simpl in Hf, Hfuel.
    destruct (skipLineComment_view (fuelOf s) (move 2 s) _ _ (At_move2 _ _ _ _ _ H))
      as (s1 & E1 & P1 & R); [lia|].
    rewrite E1. destruct R as [(body & rest1 & -> & F & A1) | (F & A1)].
    - rewrite length_sapp in Hfuel. simpl in Hfuel.
      destruct (IH s1 _ _ A1) as (skipped & rest & o & s' & -> & T & O & E & A & P); [lia|].
      exists ("//" ++ body ++ String SourceFile.LF skipped), rest, o, s'.
      split; [now sapp|]. split; [now constructor|]. split; [exact O|]. split; [exact E|].
      split; [|now rewrite P, P1]. eapply At_cast; [exact A|]. now sapp.
    - destruct (IH s1 _ _ A1) as (skipped & rest & o & s' & Ee & T & O & E & A & P);
        [simpl; lia|].
      symmetry in Ee. apply sapp_eq_nil in Ee as [-> ->].
      exists ("//" ++ after), "", true, s'.
      split; [now sapp|]. split; [now constructor|]. split; [reflexivity|]. split; [exact E|].
      split; [|now rewrite P, P1]. eapply At_cast; [exact A|]. now sapp. }
  destruct (Ascii.eqb_spec d "*") as [-> | Nb]; [|exact Stay].
  pose proof (At_fuel _ _ _ H) as Hf. simpl in Hf, Hfuel.
  destruct (skipBlockComment_view (fuelOf s) (move 2 s) _ _ (At_move2 _ _ _ _ _ H))
    as (s1 & E1 & P1 & R); [lia|].
  rewrite E1. destruct R as [(body & rest1 & -> & F & A1) | (F & A1)].
  - rewrite !length_sapp in Hfuel. simpl in Hfuel.
    destruct (IH s1 _ _ A1) as (skipped & rest & o & s' & -> & T & O & E & A & P); [lia|].
    exists ("/*" ++ body ++ "*/" ++ skipped), rest, o, s'.
    split; [now sapp|]. split; [now constructor|]. split; [exact O|]. split; [exact E|].
    split; [|now rewrite P, P1]. eapply At_cast; [exact A|]. now sapp.
  - destruct (IH s1 _ _ A1) as (skipped & rest & o & s' & Ee & T & O & E & A & P);
      [simpl; lia|].
    symmetry in Ee. apply sapp_eq_nil in Ee as [-> ->].
    exists ("/*" ++ after), "", true, s'.
    split; [now sapp|]. split; [now constructor|]. split; [reflexivity|]. split; [exact E|].
    split; [|now rewrite P, P1]. eapply At_cast; [exact A|]. now sapp.
Qed.

(** What [#skipTrivia] does: it moves over white space and comments, up
    to a character that starts neither, and marks the place. *)
Lemma skipTrivia_view s before after :
  At s before after ->
  exists skipped rest o s',
    after = skipped ++ rest /\ Trivia o skipped /\ (o = true -> rest = "") /\
    skipTrivia s = Some s' /\ At s' (before ++ skipped) rest /\
    previousPosition s' = currentPosition s' /\ atToken s'.
Proof.
  intros H.
  destruct (skipTrivia_loop_view (fuelOf s) s _ _ H (At_fuel _ _ _ H))
    as (skipped & rest & o & s' & -> & T & O & E & A & P).
  destruct (skipTrivia_loop_spec (fuelOf s) s) as (s2 & E2 & _ & T2 & _).
  { unfold fuelOf. pose proof (At_ahead _ _ _ H). destruct H as [_ Hp]. lia. }
  { exact (At_ahead _ _ _ H). }
  rewrite E in E2. injection E2 as <-.
  exists skipped, rest, o, (mark s'). split; [reflexivity|]. split; [exact T|].
  split; [exact O|]. split; [unfold skipTrivia; now rewrite E|].
  split; [exact A|]. split; [reflexivity | exact T2].
Qed.

Lemma sliceLast_snoc text c : sliceLast (text ++ String c "") = String c "".
Proof.
  induction text as [|x text IH]; [reflexivity|].
  rewrite sapp_cons. cbn [sliceLast]. rewrite IH.
  destruct text; reflexivity.
Qed.

Lemma opening_not_delimiter c : opening c = true -> delimiter c = false.
Proof.
  unfold opening, among. cbn [existsb]. rewrite !orb_true_iff.
  intros [H | [H | [H | [H | H]]]]; try discriminate;
    apply Ascii.eqb_eq in H; subst c; reflexivity.
Qed.

Lemma closingOf_one c : exists q, closingOf (String c "") = String q "".
Proof.
  unfold closingOf.
  destruct (String.eqb (String c "") "["); [eexists; reflexivity|].
  destruct (String.eqb (String c "") "{"); eexists; reflexivity.
Qed.

Lemma At_mark s before after : At s before after -> At (mark s) before after.
Proof. intros H. exact H. Qed.

(** The loop of [read] over a bare text: up to a delimiter or the end. *)
Lemma read_loop_bare fuel s before after text :
  At s before after -> (String.length after < fuel)%nat ->
  test delimiter (String.get 0 after) = false ->
  exists token rest s',
    after = token ++ rest /\ read_loop fuel text "" s = Some (text ++ token, s') /\
    At s' (before ++ token) rest /\ previousPosition s' = previousPosition s /\
    free delimiter token = true /\
    (rest = "" \/ test delimiter (String.get 0 rest) = true) /\
    (after <> "" -> token <> "").
Proof.
  revert s before after text.
  induction fuel as [|fuel IH]; intros s before after text H Hfuel Hd; [lia|].
  cbn [read_loop]. rewrite (At_isRead _ _ _ H).
  destruct after as [|c after].
  { exists "", "", s. split; [reflexivity|]. split; [now sapp|]. split; [now sapp|].
    split; [reflexivity|]. split; [reflexivity|]. split; [now left | congruence]. }
  unfold readCharacter. rewrite (At_peekCharacter _ _ _ H). cbn [String.get textOf].
  rewrite sliceLast_snoc. cbn [String.eqb orb andb].
  rewrite (At_peekCharacter _ _ _ (At_move1 _ _ _ _ H)).
  cbn [String.get test] in Hd.
  destruct (test delimiter (String.get 0 after)) eqn:Hn.
  { exists (String c ""), after, (move 1 s). split; [reflexivity|]. split; [reflexivity|].
    split; [exact (At_move1 _ _ _ _ H)|]. split; [reflexivity|].
    split; [cbn [free]; now rewrite Hd|]. split; [now right | discriminate]. }
  destruct (IH (move 1 s) _ _ (text ++ String c "") (At_move1 _ _ _ _ H))
    as (token & rest & s' & -> & E & A & P & F & R & _); [simpl in Hfuel; lia | exact Hn |].
  exists (String c token), rest, s'. split; [reflexivity|].
  split; [rewrite E; now sapp|]. split; [eapply At_cast; [exact A | now sapp]|].
  split; [exact P|]. split; [cbn [free]; now rewrite Hd, F|]. split; [exact R | discriminate].
Qed.

(** The loop of [read] over a text that was opened: up to the first
    closing character or the end. *)
Lemma read_loop_closed fuel s before after text q :
  At s before after -> (String.length after < fuel)%nat ->
  exists token rest s',
    after = token ++ rest /\ read_loop fuel text (String q "") s = Some (text ++ token, s') /\
    At s' (before ++ token) rest /\ previousPosition s' = previousPosition s /\
    ((exists body, token = body ++ String q "" /\ free (Ascii.eqb q) body = true) \/
     (rest = "" /\ free (Ascii.eqb q) token = true)).
Proof.
  revert s before after text.
  induction fuel as [|fuel IH]; intros s before after text H Hfuel; [lia|].
  cbn [read_loop]. rewrite (At_isRead _ _ _ H).
  destruct after as [|c after].
  { exists "", "", s. split; [reflexivity|]. split; [now sapp|]. split; [now sapp|].
    split; [reflexivity|]. right. split; reflexivity. }
  unfold readCharacter. rewrite (At_peekCharacter _ _ _ H). cbn [String.get textOf].
  rewrite sliceLast_snoc. cbn [String.eqb andb]. rewrite orb_false_r.
  assert (Hq : (if Ascii.eqb c q then true else false) = Ascii.eqb q c).
  { destruct (Ascii.eqb_spec c q) as [-> | N].
    - now rewrite Ascii.eqb_refl.
    - symmetry. apply Ascii.eqb_neq. congruence. }
  rewrite Hq. destruct (Ascii.eqb q c) eqn:Hc.
  { apply Ascii.eqb_eq in Hc as <-.
    exists (String q ""), after, (move 1 s). split; [reflexivity|]. split; [reflexivity|].
    split; [exact (At_move1 _ _ _ _ H)|]. split; [reflexivity|].
    left. exists "". split; reflexivity. }
  destruct (IH (move 1 s) _ _ (text ++ String c "") (At_move1 _ _ _ _ H))
    as (token & rest & s' & -> & E & A & P & R); [simpl in Hfuel; lia|].
  exists (String c token), rest, s'. split; [reflexivity|].
  split; [rewrite E; now sapp|]. split; [eapply At_cast; [exact A | now sapp]|].
  split; [exact P|].
  destruct R as [(body & -> & F) | (-> & F)].
  - left. exists (String c body). split; [reflexivity|]. cbn [free]. now rewrite Hc, F.
  - right. split; [reflexivity|]. cbn [free]. now rewrite Hc, F.
Qed.

(** What [read] gives, by the character it finds after the trivia. *)
Lemma read_view s s0 before remaining :
  skipTrivia s = Some s0 -> At s0 before remaining ->
  exists token rest n s',
    remaining = token ++ rest /\ read s = Some (n, s') /\
    At s' (before ++ token) rest /\
    origin n = (Z.of_nat (String.length before), Z.of_nat (String.length (before ++ token))) /\
    getOrigin s' = origin n /\
    match String.get 0 remaining with
    | None => text n = Some "" /\ token = ""
    | Some c =>
        if delimiter c then text n = None /\ token = ""
        else
          text n = Some token /\
          if opening c then
            exists q body,
              closingOf (String c "") = String q "" /\ free (Ascii.eqb q) body = true /\
              (token = String c (body ++ String q "") \/ (token = String c body /\ rest = ""))
          else
            token <> "" /\ free delimiter token = true /\
            (rest = "" \/ test delimiter (String.get 0 rest) = true)
    end.
Proof.
  intros Hs H. unfold read. rewrite Hs. cbv zeta.
  pose proof (At_mark _ _ _ H) as Hm.
  assert (Hp : previousPosition (mark s0) = Z.of_nat (String.length before)).
  { destruct H as [_ P]. exact P. }
  rewrite (At_peekCharacter _ _ _ Hm).
  destruct remaining as [|c r].
  { cbn [String.get test]. cbv beta iota.
    destruct (fuelOf (mark s0)) as [|fuel] eqn:Hf; [discriminate|].
    cbn [read_loop]. rewrite (At_isRead _ _ _ Hm).
    exists "", "", (node (Some "") (getOrigin (mark s0))), (mark s0).
    split; [reflexivity|]. split; [reflexivity|]. split; [now sapp|].
    split; [|split; [reflexivity | split; reflexivity]].
    cbn [origin]. unfold getOrigin. rewrite Hp. destruct Hm as [_ ->]. now sapp. }
  cbn [String.get test].
  destruct (delimiter c) eqn:Hd.
  { exists "", (String c r), (node None (getOrigin (mark s0))), (mark s0).
    split; [reflexivity|]. split; [reflexivity|]. split; [now sapp|].
    split; [|split; [reflexivity | split; reflexivity]].
    cbn [origin]. unfold getOrigin. rewrite Hp. destruct Hm as [_ ->]. now sapp. }
  destruct (opening c) eqn:Ho.
  - unfold readCharacter. rewrite (At_peekCharacter _ _ _ Hm). cbn [String.get textOf].
    cbv beta iota. rewrite sapp_nil_l.
    destruct (closingOf_one c) as (q & Hq). rewrite Hq.
    pose proof (At_move1 _ _ _ _ Hm) as H1.
    destruct (read_loop_closed (fuelOf (move 1 (mark s0))) _ _ _ (String c "") q H1
                (At_fuel _ _ _ H1)) as (token & rest & s' & -> & E & A & P & R).
    rewrite E.
    exists (String c token), rest, (node (Some (String c "" ++ token)) (getOrigin s')), s'.
    split; [reflexivity|]. split; [reflexivity|].
    split; [eapply At_cast; [exact A | now sapp]|].
    split; [|split; [reflexivity|]].
    + cbn [origin]. unfold getOrigin. rewrite P. simpl previousPosition.
      destruct A as [_ ->]. destruct H as [_ ->]. now sapp.
    + split; [reflexivity|]. exists q.
      destruct R as [(body & -> & F) | (-> & F)].
      * exists body. split; [reflexivity|]. split; [exact F | now left].
      * exists token. split; [reflexivity|]. split; [exact F | now right].
  - cbv beta iota.
    destruct (read_loop_bare (fuelOf (mark s0)) _ _ _ "" Hm (At_fuel _ _ _ Hm))
      as (token & rest & s' & Et & E & A & P & F & R & N).
    { cbn [String.get test]. exact Hd. }
    rewrite E.
    exists token, rest, (node (Some ("" ++ token)) (getOrigin s')), s'.
    split; [exact Et|]. split; [reflexivity|]. split; [exact A|].
    split; [|split; [reflexivity|]].
    + cbn [origin]. unfold getOrigin. rewrite P, Hp. destruct A as [_ ->]. reflexivity.
    + split; [reflexivity|]. split; [apply N; discriminate|]. split; [exact F | exact R].
Qed.

Lemma split_at (text : string) (n : nat) :
  (n <= String.length text)%nat ->
  exists before after, text = before ++ after /\ String.length before = n.
Proof.
  revert text. induction n as [|n IH]; intros text H.
  - exists "", text. split; reflexivity.
  - destruct text as [|c text]; [simpl in H; lia|].
    destruct (IH text) as (before & after & -> & <-); [simpl in H; lia|].
    exists (String c before), after. split; reflexivity.
Qed.

Lemma inText_At s : inText s = true -> exists before after, At s before after.
Proof.
  unfold inText. intros H. apply andb_true_iff in H as [H1 H2].
  apply Z.leb_le in H1, H2.
  destruct (split_at (sourceFile s) (Z.to_nat (currentPosition s))) as (before & after & E & L);
    [lia|].
  exists before, after. split; [exact E | lia].
Qed.

Lemma substring_middle (a b c : string) :
  String.substring (String.length a) (String.length b) (a ++ b ++ c) = b.
Proof.
  induction a as [|x a IH]; [|exact IH].
  rewrite sapp_nil_l. change (String.length "") with 0%nat.
  induction b as [|y b IHb]; [now destruct c|].
  rewrite sapp_cons. simpl. now rewrite IHb.
Qed.

Lemma slice_middle (a b c : string) :
  slice (a ++ b ++ c) (Z.of_nat (String.length a)) (Z.of_nat (String.length (a ++ b))) = b.
Proof.
  unfold slice. rewrite length_sapp, Nat2Z.id.
  replace (Z.to_nat (Z.of_nat (String.length a + String.length b) - Z.of_nat (String.length a)))
    with (String.length b) by lia.
  apply substring_middle.
Qed.

(** X23: [#skipTrivia] always returns.  What it moves over is white
    space and comments and nothing else: line comments up to their line
    feed, block comments up to the first end of a comment, and a comment
    that is not ended up to the end of the text.  It stops at a character
    that starts neither white space nor a comment, and marks that
    place. *)
Theorem trivia_is_skipped s before after :
  At s before after ->
  exists skipped rest unfinished s',
    after = skipped ++ rest /\ Trivia unfinished skipped /\
    (unfinished = true -> rest = "") /\
    skipTrivia s = Some s' /\ At s' (before ++ skipped) rest /\
    previousPosition s' = currentPosition s' /\ atToken s'.
Proof. exact (skipTrivia_view s before after). Qed.

(** X24: [read] always returns, for a scanner that stands in its text.
    The scanner keeps its text and stands at the end of the origin of
    the node; the origin lies in the text, not before the place the
    scanner came from; and the text of the node is the source between
    the two ends of the origin.  A node without text has an empty
    origin. *)
Theorem text_lies_at_its_origin s :
  inText s = true ->
  exists n s',
    read s = Some (n, s') /\ sourceFile s' = sourceFile s /\ getOrigin s' = origin n /\
    currentPosition s <= fst (origin n) <= snd (origin n) /\
    snd (origin n) <= Z.of_nat (String.length (sourceFile s)) /\
    match text n with
    | Some token => slice (sourceFile s) (fst (origin n)) (snd (origin n)) = token
    | None => fst (origin n) = snd (origin n)
    end.
Proof.
  intros Hin. destruct (inText_At s Hin) as (before & after & H).
  destruct (skipTrivia_view s _ _ H) as (skipped & remaining & o & s0 & -> & _ & _ & E0 & A0 & _).
  destruct (read_view s s0 _ _ E0 A0) as (token & rest & n & s' & -> & E & A & O & G & T).
  exists n, s'. split; [exact E|].
  assert (Hsrc : sourceFile s = (before ++ skipped) ++ token ++ rest).
  { destruct H as [-> _]. now sapp. }
  split; [destruct A as [-> _]; rewrite Hsrc; now sapp|]. split; [exact G|].
  rewrite O. cbn [fst snd]. destruct H as [_ Hp].
  split; [rewrite Hp, !length_sapp; lia|].
  split; [rewrite Hsrc, !length_sapp; lia|].
  assert (Hsl : slice (sourceFile s) (Z.of_nat (String.length (before ++ skipped)))
                  (Z.of_nat (String.length ((before ++ skipped) ++ token))) = token).
  { rewrite Hsrc. apply slice_middle. }
  destruct (String.get 0 (token ++ rest)) as [c|].
  - destruct (delimiter c).
    + destruct T as [-> ->]. now sapp.
    + destruct T as [-> _]. exact Hsl.
  - destruct T as [-> ->]. exact Hsl.
Qed.

(** X25: after the trivia, at a character that is neither a delimiter
    nor an opening one, [read] gives a text that is not empty and has no
    delimiter in it, and that ends at the end of the source or just
    before a delimiter. *)
Theorem bare_text_ends_at_a_delimiter s s0 before c remaining :
  skipTrivia s = Some s0 -> At s0 before (String c remaining) ->
  delimiter c = false -> opening c = false ->
  exists token rest s',
    String c remaining = token ++ rest /\
    read s = Some (node (Some token)
                     (Z.of_nat (String.length before),
                      Z.of_nat (String.length (before ++ token))), s') /\
    At s' (before ++ token) rest /\
    token <> "" /\ free delimiter token = true /\
    (rest = "" \/ test delimiter (String.get 0 rest) = true).
Proof.
  intros E0 A0 Hd Ho.
  destruct (read_view s s0 _ _ E0 A0) as (token & rest & n & s' & Et & E & A & O & _ & T).
  cbn [String.get] in T. rewrite Hd, Ho in T. destruct T as (Tn & N & F & R).
  exists token, rest, s'. split; [exact Et|]. split.
  - rewrite E. destruct n as [t o]. cbn [origin text] in O, Tn. now subst.
  - split; [exact A|]. split; [exact N|]. split; [exact F | exact R].
Qed.

(** X26: after the trivia, at a quote, a bracket or a brace, [read] gives
    the text up to and with the first closing character that follows:
    the same quote, or the closing bracket or brace.  Nothing is nested
    and nothing is escaped.  Without a closing character the text runs to
    the end of the source. *)
Theorem opened_text_ends_at_the_first_closing s s0 before c remaining :
  skipTrivia s = Some s0 -> At s0 before (String c remaining) -> opening c = true ->
  exists q body token rest s',
    closingOf (String c "") = String q "" /\
    String c remaining = token ++ rest /\
    read s = Some (node (Some token)
                     (Z.of_nat (String.length before),
                      Z.of_nat (String.length (before ++ token))), s') /\
    At s' (before ++ token) rest /\
    free (Ascii.eqb q) body = true /\
    (token = String c (body ++ String q "") \/ (token = String c body /\ rest = "")).
Proof.
  intros E0 A0 Ho.
  destruct (read_view s s0 _ _ E0 A0) as (token & rest & n & s' & Et & E & A & O & _ & T).
  cbn [String.get] in T. rewrite (opening_not_delimiter _ Ho), Ho in T.
  destruct T as (Tn & q & body & Hq & F & R).
  exists q, body, token, rest, s'. split; [exact Hq|]. split; [exact Et|]. split.
  - rewrite E. destruct n as [t o]. cbn [origin text] in O, Tn. now subst.
  - split; [exact A|]. split; [exact F | exact R].
Qed.

(** X27: after the trivia, at a delimiter [read] gives a node without
    text and at the end of the source it gives the empty text; both have
    an empty origin, and the scanner does not move. *)
Theorem read_stays_at_a_delimiter s s0 before remaining :
  skipTrivia s = Some s0 -> At s0 before remaining ->
  let here := Z.of_nat (String.length before) in
  (test delimiter (String.get 0 remaining) = true ->
   read s = Some (node None (here, here), s0)) /\
  (remaining = "" -> read s = Some (node (Some "") (here, here), s0)).
Proof.
  intros E0 A0 here.
  assert (Hm : mark s0 = s0).
  { unfold skipTrivia in E0. destruct (skipTrivia_loop (fuelOf s) s); [|discriminate].
    injection E0 as <-. reflexivity. }
  assert (Ho : getOrigin s0 = (here, here)).
  { unfold getOrigin. rewrite <- Hm. cbn [previousPosition currentPosition mark].
    destruct A0 as [_ ->]. reflexivity. }
  unfold read. rewrite E0. cbv zeta. rewrite Hm, (At_peekCharacter _ _ _ A0). split.
  - intros ->. now rewrite Ho.
  - intros ->. cbn [String.get test]. cbv beta iota.
    destruct (fuelOf s0) as [|fuel] eqn:Hf; [discriminate|].
    cbn [read_loop]. rewrite (At_isRead _ _ _ A0). now rewrite Ho.
Qed.

Lemma skipTrivia_again s s1 :
  inText s = true -> skipTrivia s = Some s1 -> skipTrivia s1 = Some s1 /\ mark s1 = s1.
Proof.
  intros Hin E. destruct (inText_At s Hin) as (before & after & H).
  unfold skipTrivia in E.
  destruct (skipTrivia_loop_spec (fuelOf s) s) as (s0 & E0 & A0 & T0 & _).
  { unfold fuelOf. pose proof (At_ahead _ _ _ H). destruct H as [_ Hp]. lia. }
  { exact (At_ahead _ _ _ H). }
  rewrite E0 in E. injection E as <-. split; [|reflexivity].
  destruct A0 as (a1 & _ & a3). rewrite <- a1 in a3.
  unfold skipTrivia.
  destruct (skipTrivia_loop_spec (fuelOf (mark s0)) (mark s0)) as (s2 & E2 & _ & _ & Same).
  { unfold fuelOf. cbn [mark sourceFile currentPosition].
    apply andb_true_iff in Hin as [Hin _]. apply Z.leb_le in Hin. lia. }
  { cbn [mark sourceFile currentPosition]. lia. }
  rewrite E2, (Same T0). reflexivity.
Qed.

(** X28: [peekToken] moves the scanner over the trivia only, and what it
    tells is what [readToken] then does, from the place before the
    trivia as from the place behind it: a token that was seen is read,
    with an origin of its one character, and otherwise the node has no
    text and the scanner stays. *)
Theorem peeked_token_is_read s token found s1 :
  inText s = true -> peekToken token s = Some (found, s1) ->
  let here := currentPosition s1 in
  peekToken token s1 = Some (found, s1) /\
  readToken token s = readToken token s1 /\
  readToken token s1 =
    Some (if found then (node (Some token) (here, here + 1), move 1 s1)
          else (node None (here, here), s1)).
Proof.
  intros Hin E here. unfold peekToken in E.
  destruct (skipTrivia s) as [s0|] eqn:E0; [|discriminate].
  injection E as Ef <-.
  destruct (skipTrivia_again s s0 Hin E0) as [E1 Hm].
  assert (Hp : previousPosition s0 = currentPosition s0) by now rewrite <- Hm.
  unfold peekToken, readToken. rewrite E0, E1. cbv zeta. rewrite Hm, Ef.
  split; [reflexivity|]. split; [reflexivity|].
  destruct found; [|unfold getOrigin; now rewrite Hp].
  unfold getOrigin. cbn [move previousPosition currentPosition]. now rewrite Hp.
Qed.

Lemma dropLast_snoc body c : dropLast (body ++ String c "") = body.
Proof.
  induction body as [|x body IH]; [reflexivity|].
  rewrite sapp_cons. cbn [dropLast]. rewrite IH.
  destruct body; reflexivity.
Qed.

Lemma first_closing q body rest body' rest' :
  body ++ String q rest = body' ++ String q rest' ->
  free (Ascii.eqb q) body = true -> free (Ascii.eqb q) body' = true ->
  body = body' /\ rest = rest'.
Proof.
  revert body'. induction body as [|x body IH]; intros [|y body']; sapp; intros E F F'.
  - injection E as ->. split; reflexivity.
  - injection E as <- _. cbn [free] in F'. now rewrite Ascii.eqb_refl in F'.
  - injection E as -> _. cbn [free] in F. now rewrite Ascii.eqb_refl in F.
  - injection E as -> E. cbn [free] in F, F'.
    apply andb_true_iff in F as [_ F]. apply andb_true_iff in F' as [_ F'].
    destruct (IH body' E F F') as [-> ->]. split; reflexivity.
Qed.

Lemma closing_is_in q body rest : free (Ascii.eqb q) (body ++ String q rest) = false.
Proof.
  induction body as [|x body IH]; sapp; cbn [free].
  - now rewrite Ascii.eqb_refl.
  - rewrite IH. apply andb_false_r.
Qed.

(** X29: a text in quotes or in apostrophes that is closed is read as
    one node, up to and with the closing quote, and the value of the node
    is the text between the quotes as it stands in the source, whether an
    identifier is expected or not. *)
Theorem quoted_value_is_its_body s s0 before q body rest expectsIdentifier :
  skipTrivia s = Some s0 -> At s0 before (String q (body ++ String q rest)) ->
  among ["'"%char; quote] q = true -> free (Ascii.eqb q) body = true ->
  exists n s',
    read s = Some (n, s') /\ At s' (before ++ String q (body ++ String q "")) rest /\
    getValue Number parseFloat n expectsIdentifier = Text Number body.
Proof.
  intros E0 A0 Hq F.
  assert (Ho : opening q = true /\ closingOf (String q "") = String q "").
  { unfold among in Hq. cbn [existsb] in Hq. rewrite !orb_true_iff in Hq.
    destruct Hq as [Hq | [Hq | Hq]]; [| |discriminate];
      apply Ascii.eqb_eq in Hq; subst q; split; reflexivity. }
  destruct Ho as [Ho Hc].
  destruct (read_view s s0 _ _ E0 A0) as (token & rest' & n & s' & Et & E & A & _ & _ & T).
  cbn [String.get] in T. rewrite (opening_not_delimiter _ Ho), Ho in T.
  destruct T as (Tn & q' & body' & Hq' & F' & R).
  rewrite Hc in Hq'. injection Hq' as <-.
  assert (Htoken : token = String q (body ++ String q "") /\ rest' = rest).
  { destruct R as [-> | [-> ->]].
    - rewrite !sapp_cons, sapp_assoc, sapp_cons, sapp_nil_l in Et. injection Et as Et.
      destruct (first_closing _ _ _ _ _ Et F F') as [-> ->]. split; reflexivity.
    - rewrite sapp_nil_r in Et. injection Et as <-.
      now rewrite closing_is_in in F'. }
  destruct Htoken as [-> ->].
  exists n, s'. split; [exact E|]. split; [exact A|].
  unfold getValue. rewrite Tn. cbn [String.get test]. rewrite Hq.
  cbn [slice1]. now rewrite dropLast_snoc.
Qed.
End Scanner.

(** * The statements on the examples *)

(** [readyWorld] is the world in which the walker starts on the first
    task: it is reached from [targetWorld] by [TaskRunner.run], here on a
    file without a language service, up to the [task:end]. *)
Lemma readyWorld_reached :
  (w ← TaskRunner_run plainConfig
         (mkCompiler "5.4" (fun _ => mkOpenedFile (Some "tsconfig.json"%string) [] false [] true true
                                          (mkTestTree [] [])))
         firstTask targetWorld;
   Some (log w)) = Some (log readyWorld ++ [TaskEnd 0]).
Proof. reflexivity. Qed.

(** C1 on an assertion flagged Fail: one that holds gets [expect:error],
    one that does not hold gets [expect:pass]. *)
Lemma fail_flag_inverts_witness :
  (Ready readyWorld /\ WellAllocated readyWorld /\
   truthy (bitand (resolveRunMode plainWorker 0 (expectOf 1 passing 11)) 1) = true) /\
  (exists w1 w',
     visit plainWorker [] 0 None readyWorld = Some w1 /\
     visitMember plainWorker (expectOf 1 passing 11) 0 None readyWorld = Some w' /\
     let e := length (Store.expects (heap w1)) in
     log w' = log w1 ++ ExpectStart e :: deprecation passing ++ [ExpectError [supposedToFail] e] /\
     List.filter (carries e) (log w') = [ExpectStart e; ExpectError [supposedToFail] e]) /\
  (exists w1 w',
     visit plainWorker [] 0 None readyWorld = Some w1 /\
     visitMember plainWorker (expectOf 1 failing 11) 0 None readyWorld = Some w' /\
     let e := length (Store.expects (heap w1)) in
     log w' = log w1 ++ ExpectStart e :: deprecation failing ++ [ExpectPass e] /\
     List.filter (carries e) (log w') = [ExpectStart e; ExpectPass e]).
Proof.
  assert (HR : Ready readyWorld) by (repeat split; eexists; reflexivity).
  assert (HW : WellAllocated readyWorld) by reflexivity.
  split; [split; [exact HR | split; [exact HW | reflexivity]]|]. split.
  - apply (fail_flag_inverts plainWorker [] 1 [] "expect" 11 passing 0 None readyWorld
             true explanation HR HW); reflexivity.
  - apply (fail_flag_inverts plainWorker [] 1 [] "expect" 11 failing 0 None readyWorld
             false explanation HR HW); reflexivity.
Defined.

(** C2 on three cases of which the second is flagged Only. *)
Lemma only_pruning_witness :
  length (List.filter onlyFlag onlySecond) = 1%nat /\
  exists w' evs1 evs2 evs3,
    TaskRunner_run' plainConfig (fileOf onlySecond) firstTask 0 readyWorld = Some w' /\
    log w' = log readyWorld ++ evs1 ++ evs2 ++ evs3 /\
    caseEvents (testOf 0 "first" 10 [expectOf 0 passing 11]) evs1 /\
    caseEvents (testOf 2 "second" 20 [expectOf 0 passing 21]) evs2 /\
    caseEvents (testOf 0 "third" 30 [expectOf 0 failing 31]) evs3 /\
    count isCasePassOrFail (evs1 ++ evs2 ++ evs3) = 1%nat /\
    count isCaseSkip (evs1 ++ evs2 ++ evs3) = 2%nat.
Proof.
  split; [reflexivity|].
  apply (only_pruning plainConfig (fileOf onlySecond) firstTask 0%nat readyWorld
           (testOf 0 "first" 10 [expectOf 0 passing 11])
           (testOf 2 "second" 20 [expectOf 0 passing 21])
           (testOf 0 "third" 30 [expectOf 0 failing 31]));
    try reflexivity;
    try (repeat split; try reflexivity; intros _; split; reflexivity);
    try (repeat split; try reflexivity; intros [=]);
    repeat split; eexists; reflexivity.
Defined.

(** Against C2 as stated: three sibling cases, exactly one flagged Only and
    no filter; the sibling flagged Todo gets [test:todo], so the run has
    one [test:skip] and not two. *)
Lemma only_pruning_counterexample :
  length (List.filter onlyFlag onlyAndTodo) = 1%nat /\
  forallb (fun c => match brand c with Test => true | _ => false end) onlyAndTodo = true /\
  exists w',
    Runner_run plainConfig (loadOf (fileOf onlyAndTodo) (fileOf onlyAndTodo)) [firstTask]
      initialWorld = Some w' /\
    List.filter isTestEvent (log w')
      = [TestStart 0; TestPass 0; TestStart 1; TestTodo 1; TestStart 2; TestSkip 2] /\
    count isCasePassOrFail (log w') = 1%nat /\
    count isCaseSkip (log w') = 1%nat.
Proof.
  split; [reflexivity|]. split; [reflexivity|].
  eexists. split; [vm_compute; reflexivity|]. repeat split; reflexivity.
Qed.

(** C3 on a run of three cases, two passing and one failing, with five
    assertions, four passing and one failing. *)
Lemma count_consistency_witness :
  exists w',
    Runner_run plainConfig (loadOf (fileOf threeCases) (fileOf threeCases)) [firstTask]
      initialWorld = Some w' /\
    exists x, Store.runs (heap w') !! 0%nat = Some x /\
      Result.testCount x = ResultCount.mk 1 2 0 0 /\
      ResultCount.total (Result.testCount x) = 3%nat /\
      Result.expectCount x = ResultCount.mk 1 4 0 0 /\
      ResultCount.total (Result.expectCount x) = 5%nat.
Proof.
  eexists. split; [vm_compute; reflexivity|].
  eapply (proj2 (proj2 (proj2 (proj2 count_consistency))) plainConfig
            (loadOf (fileOf threeCases) (fileOf threeCases)) [firstTask]);
    [vm_compute; reflexivity | reflexivity | reflexivity | reflexivity].
Defined.

(** C4, as amended, on a group with an attached diagnostic that is followed
    by a case. *)
Lemma describe_with_diagnostics_witness :
  Ready readyWorld /\ (0 < length (diagnostics brokenGroup))%nat /\
  exists w',
    visitMember plainWorker brokenGroup 0 None readyWorld = Some w' /\
    log w' = log readyWorld ++
             [DescribeStart 0; TaskError (fromDiagnostics (diagnostics brokenGroup)) 0;
              DescribeEnd 0] /\
    (validate brokenGroup = [] ->
     CancellationToken.isCancellationRequested (cancellationToken readyWorld) = false ->
     visit plainWorker [brokenGroup; laterCase] 0 None readyWorld
     = visit plainWorker [laterCase] 0 None w').
Proof.
  assert (HR : Ready readyWorld) by (repeat split; eexists; reflexivity).
  split; [exact HR|]. split; [simpl; lia|].
  apply (describe_with_diagnostics plainWorker
           ["Argument of type 'number' is not assignable."%string] 0
           [testOf 0 "inside" 11 [expectOf 0 passing 12]] "group" 10 0 None [laterCase]
           readyWorld HR); [reflexivity | simpl; lia].
Defined.

(** Against C4 as stated: after the [task:error] of a group with attached
    diagnostics, the group gets its [describe:end] and the case that
    follows the group is run. *)
Lemma describe_with_diagnostics_counterexample :
  exists w',
    Runner_run plainConfig (loadOf (fileOf [brokenGroup; laterCase]) (fileOf [])) [firstTask]
      initialWorld = Some w' /\
    log w' = [RunStart 0; TargetStart 0; ProjectUses "5.4" (Some "tsconfig.json"%string);
              TaskStart 0; DescribeStart 0;
              TaskError (fromDiagnostics (diagnostics brokenGroup)) 0;
              DescribeEnd 0; TestStart 0; ExpectStart 0; ExpectPass 0; TestPass 0;
              TaskEnd 0; TargetEnd 0; RunEnd 0].
Proof. eexists. split; [vm_compute; reflexivity | reflexivity]. Qed.

(** C5, as amended, on two targets and two files, the first of which
    starts with a case whose first assertion fails; the compiler of the
    first target is installed on the way, the one of the second target
    cannot be added. *)
Lemma fail_fast_stops_the_run_witness :
  failFast failFastConfig = true /\ target failFastConfig = ["5.3"; "5.4"]%string /\
  exists w',
    Runner_run failFastConfig (installing (fileOf [failingCase]) (fileOf [laterCase]))
      [firstTask; secondTask] initialWorld = Some w' /\
    log w' = [RunStart 0; TargetStart 0; StoreAdds "/store/typescript@5.3.3" "5.3.3";
              ProjectUses "5.3.3" (Some "tsconfig.json"%string);
              TaskStart 0; TestStart 0; ExpectStart 0; ExpectFail explanation 0; TestFail 0;
              TaskEnd 0; TargetEnd 0; TargetStart 1;
              StoreError [Diagnostic_error
                            ["Cannot add the 'typescript' package for the '5.4' tag."%string]];
              TargetEnd 1; RunEnd 0].
Proof.
  split; [reflexivity|]. split; [reflexivity|].
  apply (proj1 fail_fast_stops_the_run failFastConfig
           (installing (fileOf [failingCase]) (fileOf [laterCase])) "5.3" "5.4"
           (mkCompiler "5.3.3"
              (fun task => if String.eqb (filePath task) "first.tst.ts"
                           then fileOf [failingCase] else fileOf [laterCase]))
           firstTask secondTask [] [expectOf 0 passing 12] "fails" 10 "expect" 11 failing
           false explanation [Adds "/store/typescript@5.3.3" "5.3.3"]);
    try reflexivity. repeat split; reflexivity.
Defined.

(** Against C5 as stated: the second target gets [target:start] and
    [target:end]. *)
Lemma fail_fast_stops_the_run_counterexample :
  exists w',
    Runner_run failFastConfig (loadOf (fileOf [failingCase]) (fileOf [laterCase]))
      [firstTask; secondTask] initialWorld = Some w' /\
    log w' = [RunStart 0; TargetStart 0; ProjectUses "5.3" (Some "tsconfig.json"%string);
              TaskStart 0; TestStart 0; ExpectStart 0; ExpectFail explanation 0; TestFail 0;
              TaskEnd 0; TargetEnd 0; TargetStart 1; TargetEnd 1; RunEnd 0] /\
    In (TargetStart 1) (log w') /\ In (TargetEnd 1) (log w').
Proof.
  eexists. split; [vm_compute; reflexivity|]. split; [reflexivity|].
  split; simpl; tauto.
Qed.


(** C7 on a case flagged Todo that has two assertions. *)
Lemma todo_case_is_isolated_witness :
  Ready readyWorld /\
  truthy (bitand (resolveRunMode plainWorker 0 todoCase) 8) = true /\
  exists w',
    visitMember plainWorker todoCase 0 None readyWorld = Some w' /\
    log w' = log readyWorld ++ [TestStart 0; TestTodo 0] /\
    List.filter isExpectEvent (log w') = List.filter isExpectEvent (log readyWorld).
Proof.
  assert (HR : Ready readyWorld) by (repeat split; eexists; reflexivity).
  split; [exact HR|]. split; [reflexivity|].
  apply (todo_case_is_isolated plainWorker [] 8
           [expectOf 0 passing 11; expectOf 0 failing 12] "later" 10 0 None readyWorld HR).
  reflexivity.
Defined.





(** X1 on a case whose first assertion fails. *)
Lemma case_fails_iff_an_assertion_failed_witness :
  Ready readyWorld /\
  exists w' evs,
    visitMember plainWorker failingCase 0 None readyWorld = Some w' /\
    forallb assertionLevel evs = true /\
    log w' = log readyWorld ++ TestStart 0 :: evs ++
             [if (0 <? count isExpectFailure evs)%nat then TestFail 0 else TestPass 0].
Proof.
  assert (HR : Ready readyWorld) by (repeat split; eexists; reflexivity).
  split; [exact HR|].
  apply (case_fails_iff_an_assertion_failed plainWorker [] 0
           [expectOf 0 failing 11; expectOf 0 passing 12] "fails" 10 0 None readyWorld HR);
    reflexivity.
Defined.

(** X3 on a case visited in the mode Skip. *)
Lemma skipped_member_runs_nothing_witness :
  Ready readyWorld /\
  exists w' evs,
    visitMember plainWorker laterCase 4 None readyWorld = Some w' /\
    log w' = log readyWorld ++ evs /\ forallb quietEvent evs = true.
Proof.
  assert (HR : Ready readyWorld) by (repeat split; eexists; reflexivity).
  split; [exact HR|].
  apply (skipped_member_runs_nothing plainWorker laterCase 4 None readyWorld);
    [reflexivity | reflexivity | exact HR | reflexivity | discriminate].
Defined.

(** X5 on a fail-fast run of two files, the first of which fails. *)
Lemma fail_fast_does_not_outlive_the_run_witness :
  exists w',
    Runner_run failFastConfig (loadOf (fileOf [failingCase]) (fileOf [laterCase]))
      [firstTask; secondTask] initialWorld = Some w' /\
    cancellationHandler w' = None /\ cancellationToken w' = CancellationToken.new.
Proof.
  apply (fail_fast_does_not_outlive_the_run failFastConfig
           (loadOf (fileOf [failingCase]) (fileOf [laterCase]))
           [firstTask; secondTask] initialWorld); reflexivity.
Defined.

(** X6 on a run of two files under one target. *)
Lemma every_file_runs_under_every_target_witness :
  exists w' evs,
    Runner_run plainConfig (loadOf (fileOf [failingCase]) (fileOf [laterCase]))
      [firstTask; secondTask] initialWorld = Some w' /\ log w' = log initialWorld ++ evs /\
    pairsOf taskStarted (heap w') None evs
      = [(Some "5.4", Some "first.tst.ts"); (Some "5.4", Some "second.tst.ts")]%string /\
    pairsOf taskEnded (heap w') None evs
      = [(Some "5.4", Some "first.tst.ts"); (Some "5.4", Some "second.tst.ts")]%string /\
    count isTaskStart evs = 2%nat /\ count isTaskEnd evs = 2%nat.
Proof.
  apply (every_file_runs_under_every_target plainConfig
           (loadOf (fileOf [failingCase]) (fileOf [laterCase])) [firstTask; secondTask]
           initialWorld).
  - reflexivity.
  - repeat constructor; eexists; reflexivity.
  - reflexivity.
  - reflexivity.
  - reflexivity.
Defined.

(** X7 on a fail-fast run of two files under two targets. *)
Lemma dropped_files_set_the_exit_code_witness :
  exists w' evs,
    Runner_run failFastConfig (loadOf (fileOf [failingCase]) (fileOf [laterCase]))
      [firstTask; secondTask] initialWorld = Some w' /\ log w' = log initialWorld ++ evs /\
    ((count isTaskStart evs < 4)%nat -> exitCodeAfter (log w') 0 = 1).
Proof.
  apply (dropped_files_set_the_exit_code failFastConfig
           (loadOf (fileOf [failingCase]) (fileOf [laterCase])) [firstTask; secondTask]
           initialWorld 0).
  - repeat constructor; eexists; reflexivity.
  - reflexivity.
  - reflexivity.
  - reflexivity.
Defined.

(** X8 on a second run whose only case fails, after a first run. *)
Lemma exit_code_reports_the_last_run_witness :
  exitCodeAfter ([RunStart 0; RunEnd 0] ++
                 RunStart 1 :: [TestStart 0; TestError explanation 0; RunEnd 1]) 0 = 1 <->
  exists ev, In ev [TestStart 0; TestError explanation 0; RunEnd 1] /\ carriesError ev = true.
Proof.
  apply (exit_code_reports_the_last_run [RunStart 0; RunEnd 0] 1
           [TestStart 0; TestError explanation 0; RunEnd 1] 0).
  reflexivity.
Defined.


(** X11 on a file that changes and is removed before the timer fires. *)
Lemma removed_file_is_not_run_witness :
  let s := WatchService.steps (fun _ => true) [ChangedFile "first.tst.ts"] watching in
  exists batches,
    WatchService.yielded (WatchService.steps (fun _ => true)
                            (RemovedFile "first.tst.ts" :: [TimeoutFires 0]) s)
      = WatchService.yielded s ++ batches /\
    List.Forall (fun batch => ~ In "first.tst.ts"%string (map filePath batch)) batches.
Proof.
  apply (removed_file_is_not_run (fun _ => true) [firstTask] CancellationToken.new
           [ChangedFile "first.tst.ts"] "first.tst.ts" [TimeoutFires 0]).
  intros [H | []]. discriminate H.
Defined.

(** X14 on the callee [test.only.skip], with [test] imported by name. *)
Lemma flags_are_the_modifiers_witness :
  let this := IdentifierLookup.mkIdentifiers
                [("describe", None); ("expect", None); ("it", None); ("namespace", None);
                 ("test", Some "test")]%string None in
  let callee := IdentifierLookup.PropertyAccessExpression
                  (IdentifierLookup.PropertyAccessExpression
                     (IdentifierLookup.OtherExpression "test") "only" "test.only")
                  "skip" "test.only.skip" in
  IdentifierLookup.resolveTestMemberMeta this callee = Some (Test, 6) /\
  0 <= 6 < 16 /\
  forall i, 0 <= i < 32 ->
    Z.testbit 6 i =
    existsb (fun name => Z.testbit (IdentifierLookup.flagOf name) i)
      (IdentifierLookup.modifiers (IdentifierLookup.namespace this) callee).
Proof.
  intros this callee. split; [reflexivity|].
  apply (flags_are_the_modifiers this callee Test 6). reflexivity.
Defined.

(** X16 on the position of [b] in a text of two lines, [a] and [b]. *)
Lemma position_lies_in_its_line_witness :
  let text := String "a" (String SourceFile.LF (String "b" EmptyString)) in
  SourceFile.createLineMap text = Some [0; 2; 3] /\
  exists line character,
    SourceFile.getLineAndCharacterOfPosition [0; 2; 3] 2 = (line, Some character) /\
    0 <= line /\ 0 <= character /\
    [0; 2; 3] !! Z.to_nat line = Some (2 - character) /\
    forall i start, [0; 2; 3] !! i = Some start -> (start <= 2 <-> Z.of_nat i <= line).
Proof.
  intros text. split; [reflexivity|].
  apply (position_lies_in_its_line text [0; 2; 3] 2); [reflexivity | lia].
Defined.

(** X17 on a file whose only case fails. *)
Lemma file_fails_by_its_events_witness :
  Idle 0 0 targetWorld /\
  exists w' pre k evs,
    TaskRunner_run plainConfig (mkCompiler "5.4" (fun _ => fileOf [failingCase])) firstTask
      targetWorld = Some w' /\
    log w' = log targetWorld ++ pre ++ TaskStart k :: evs ++ [TaskEnd k] /\
    forallb projectEvent pre = true /\ forallb walkerEvent evs = true /\
    TaskResult.status <$> Store.tasks (heap w') !! k
      = Some (if existsb failsTheFile evs then Failed else Passed).
Proof.
  assert (HI : Idle 0 0 targetWorld) by (repeat split; simpl; lia).
  split; [exact HI|].
  apply (file_fails_by_its_events plainConfig (mkCompiler "5.4" (fun _ => fileOf [failingCase]))
           firstTask 0 0 targetWorld HI).
  reflexivity.
Defined.

(** X21 on the versions of two minor releases and a beta. *)
Lemma minor_version_resolves_to_its_last_patch_witness :
  let manifest := Manifest.load ["5.3.2"; "5.3.3"; "5.4.0-beta"; "5.4.2"]%string
                    [("latest", "5.4.2")]%string in
  exists resolved before after,
    Manifest.resolve (Manifest.minorOf "5.3.2") manifest = Some resolved /\
    Manifest.versions manifest = before ++ resolved :: after /\
    Manifest.startsWith resolved (Manifest.minorOf "5.3.2") = true /\
    List.Forall (fun later => Manifest.startsWith later (Manifest.minorOf "5.3.2") = false) after /\
    Manifest.resolve resolved manifest = Some resolved.
Proof.
  apply (minor_version_resolves_to_its_last_patch
           ["5.3.2"; "5.3.3"; "5.4.0-beta"; "5.4.2"]%string [("latest", "5.4.2")]%string "5.3.2").
  left. reflexivity.
Defined.

(** X22 on a case whose first assertion fails. *)
Lemma case_result_records_its_assertions_witness :
  Ready readyWorld /\
  exists w' evs closing,
    visitMember plainWorker failingCase 0 None readyWorld = Some w' /\
    log w' = log readyWorld ++ TestStart 0 :: evs ++ [closing] /\
    Store.tests (heap w') !! 0%nat
      = Some (TestResult.mk [] (expectTally evs) None
                (if (0 <? count isExpectFailure evs)%nat then Failed else Passed)).
Proof.
  assert (HR : Ready readyWorld) by (repeat split; eexists; reflexivity).
  split; [exact HR|].
  apply (case_result_records_its_assertions plainWorker [] 0
           [expectOf 0 failing 11; expectOf 0 passing 12] "fails" 10 0 None readyWorld HR);
    reflexivity.
Defined.

(** X23 on a text that starts with a space and a block comment. *)
Lemma trivia_is_skipped_witness :
  let source := " /* c */ name"%string in
  JsonScanner.At (JsonScanner.new source) EmptyString source /\
  exists skipped rest unfinished s',
    source = (skipped ++ rest)%string /\ JsonScanner.Trivia unfinished skipped /\
    (unfinished = true -> rest = EmptyString) /\
    JsonScanner.skipTrivia (JsonScanner.new source) = Some s' /\
    JsonScanner.At s' (EmptyString ++ skipped) rest /\
    JsonScanner.previousPosition s' = JsonScanner.currentPosition s' /\
    JsonScanner.atToken s'.
Proof.
  intros source.
  assert (H : JsonScanner.At (JsonScanner.new source) EmptyString source)
    by (split; reflexivity).
  split; [exact H|].
  exact (trivia_is_skipped (JsonScanner.new source) EmptyString source H).
Defined.

(** X24 on the name of an option. *)
Lemma text_lies_at_its_origin_witness :
  let s := JsonScanner.new " name: 1"%string in
  JsonScanner.inText s = true /\
  exists n s',
    JsonScanner.read s = Some (n, s') /\
    JsonScanner.sourceFile s' = JsonScanner.sourceFile s /\
    JsonScanner.getOrigin s' = JsonNode.origin n /\
    JsonScanner.currentPosition s <= fst (JsonNode.origin n) <= snd (JsonNode.origin n) /\
    snd (JsonNode.origin n) <= Z.of_nat (String.length (JsonScanner.sourceFile s)) /\
    match JsonNode.text n with
    | Some token =>
        JsonScanner.slice (JsonScanner.sourceFile s) (fst (JsonNode.origin n))
          (snd (JsonNode.origin n)) = token
    | None => fst (JsonNode.origin n) = snd (JsonNode.origin n)
    end.
Proof.
  intros s. split; [reflexivity|].
  apply (text_lies_at_its_origin s). reflexivity.
Defined.

(** X25 on the name of an option. *)
Lemma bare_text_ends_at_a_delimiter_witness :
  let source := " name: 1"%string in
  let s0 := JsonScanner.mk source 1 1 in
  JsonScanner.skipTrivia (JsonScanner.new source) = Some s0 /\
  JsonScanner.At s0 " " "name: 1" /\
  exists token rest s',
    "name: 1"%string = (token ++ rest)%string /\
    JsonScanner.read (JsonScanner.new source)
      = Some (JsonNode.node (Some token)
                (Z.of_nat (String.length " "), Z.of_nat (String.length (" " ++ token))), s') /\
    JsonScanner.At s' (" " ++ token) rest /\
    token <> EmptyString /\ JsonScanner.free JsonScanner.delimiter token = true /\
    (rest = EmptyString \/
     RegExp.test JsonScanner.delimiter (String.get 0 rest) = true).
Proof.
  intros source s0.
  assert (H : JsonScanner.At s0 " " "name: 1") by (split; reflexivity).
  split; [reflexivity|]. split; [exact H|].
  apply (bare_text_ends_at_a_delimiter (JsonScanner.new source) s0 " " "n" "ame: 1");
    [reflexivity | exact H | reflexivity | reflexivity].
Defined.

(** X26 on a list in a list: the text ends at the first closing bracket. *)
Lemma opened_text_ends_at_the_first_closing_witness :
  let source := "[[1], 2]"%string in
  let s := JsonScanner.new source in
  JsonScanner.skipTrivia s = Some s /\ JsonScanner.At s EmptyString source /\
  exists q body token rest s',
    JsonScanner.closingOf "[" = String q EmptyString /\
    source = (token ++ rest)%string /\
    JsonScanner.read s
      = Some (JsonNode.node (Some token)
                (Z.of_nat (String.length EmptyString),
                 Z.of_nat (String.length (EmptyString ++ token))), s') /\
    JsonScanner.At s' (EmptyString ++ token) rest /\
    JsonScanner.free (Ascii.eqb q) body = true /\
    (token = String "[" (body ++ String q EmptyString) \/
     (token = String "[" body /\ rest = EmptyString)).
Proof.
  intros source s.
  assert (H : JsonScanner.At s EmptyString source) by (split; reflexivity).
  split; [reflexivity|]. split; [exact H|].
  apply (opened_text_ends_at_the_first_closing s s EmptyString "[" "[1], 2]");
    [reflexivity | exact H | reflexivity].
Defined.

(** X27 before a colon. *)
Lemma read_stays_at_a_delimiter_witness :
  let source := " : x"%string in
  let s0 := JsonScanner.mk source 1 1 in
  JsonScanner.skipTrivia (JsonScanner.new source) = Some s0 /\
  JsonScanner.At s0 " " ": x" /\
  JsonScanner.read (JsonScanner.new source) = Some (JsonNode.node None (1, 1), s0).
Proof.
  intros source s0.
  assert (H : JsonScanner.At s0 " " ": x") by (split; reflexivity).
  split; [reflexivity|]. split; [exact H|].
  apply (read_stays_at_a_delimiter (JsonScanner.new source) s0 " " ": x");
    [reflexivity | exact H | reflexivity].
Defined.

(** X28 on a colon behind a space. *)
Lemma peeked_token_is_read_witness :
  let source := " : x"%string in
  let s1 := JsonScanner.mk source 1 1 in
  JsonScanner.inText (JsonScanner.new source) = true /\
  JsonScanner.peekToken ":" (JsonScanner.new source) = Some (true, s1) /\
  JsonScanner.readToken ":" (JsonScanner.new source)
    = Some (JsonNode.node (Some ":"%string) (1, 2), JsonScanner.move 1 s1).
Proof.
  intros source s1. split; [reflexivity|]. split; [reflexivity|].
  destruct (peeked_token_is_read (JsonScanner.new source) ":" true s1)
    as (_ & -> & ->); reflexivity.
Defined.

(** X29 on the value of an option in quotes. *)
Lemma quoted_value_is_its_body_witness :
  let source := (String RegExp.quote "./tests" ++ String RegExp.quote ",")%string in
  let s := JsonScanner.new source in
  JsonScanner.skipTrivia s = Some s /\
  RegExp.among ["'"%char; RegExp.quote] RegExp.quote = true /\
  JsonScanner.free (Ascii.eqb RegExp.quote) "./tests" = true /\
  exists n s',
    JsonScanner.read s = Some (n, s') /\
    JsonScanner.At s'
      (EmptyString ++ String RegExp.quote ("./tests" ++ String RegExp.quote EmptyString)) "," /\
    JsonNode.getValue unit (fun _ => tt) n false = JsonNode.Text unit "./tests".
Proof.
  intros source s. split; [reflexivity|]. split; [reflexivity|]. split; [reflexivity|].
  apply (quoted_value_is_its_body unit (fun _ => tt) s s EmptyString RegExp.quote "./tests" ","
           false); [reflexivity | split; reflexivity | reflexivity | reflexivity].
Defined.
